(* ===== verification/_CoqProject ===== *)
-Q . S2P
Prelude.v
Heapless.v
CriticalSection.v
WaitQueue.v
Srp.v
RingBuffer.v
Pipe.v
PipeEnds.v
DynChannel.v
Channel.v
PriorityChannel.v
Handles.v
Bump.v
Heap.v
HeapFacts.v
HeapFree.v
HeapProps.v
Timers.v
Kernel.v
Executor.v
ExecutorProps.v
Scheduling.v
KernelTyped.v
Delivery.v
Programs.v
ProgramsFacts.v
ProgramsProps.v
ProgramsTimers.v
ProgramsInterrupts.v
Signal.v
AsyncMutex.v
OnceLock.v
ZeroCopy.v
Select.v
PubSub.v
PubSubFacts.v
PubSubBus.v
PubSubProps.v
Startup.v
StartupFacts.v
StartupProps.v
Vectors.v
Boot.v
