(* ===== verification/Prelude.v ===== *)
(** * A verified model of the TC37x async runtime

    This library models the core of the crate (paths are relative to
    [src/src/]) and proves what its parts promise to each other.  The program
    is an [async] runtime for one core of an AURIX TC37x: a kernel with one
    thread executor, interrupt executors and a timer interrupt ([cpu/],
    [executor/], [time/]), static memory for the tasks ([memory/bump.rs]), a
    heap that is not yet in use ([memory/heap.rs]), and the synchronisation
    primitives tasks and interrupt handlers communicate with ([sync/],
    [srp_mutex.rs]).  Assembly ([runtime.rs]) prepares memory and registers
    before [main] and leads traps and interrupts to their handlers.

    ** How the parts interact

    A task is a header in static memory: its future, its executor and the
    deadline it sleeps for.  A waker is a pointer to a header; waking it pushes
    the header onto the run queue of its executor and pends the executor, by
    the event flag (thread executor) or by an interrupt request (interrupt
    executor).  A run of an executor moves expired timers to the run queue,
    polls until the run queue is empty, moves the deadlines the tasks have set
    to the timer queue, and sets the alarm of the executor to the earliest one;
    the timer interrupt pends the executors whose alarms are due.  Every
    primitive of [sync/] is a state behind a mutex together with registrations
    of wakers; a method runs one closure under the mutex and wakes.

    ** Files

    - [Prelude]: results, polls and outcomes (a panic is a value), machine
      integers in both overflow profiles, the monad [Op E S A] of stateful
      operations that may panic and log external calls, the rules [runs] for
      symbolic execution, runs of abstract machines ([trace]) and simulation.
    - [Heapless]: the containers of the third-party crate [heapless], as classes
      of operations with laws; bounded lists as instances for the examples.
    - [CriticalSection]: [main.rs] (acquire and release of the critical section)
      and [sync/blocking_mutex.rs]; [Shared] is the state of a primitive.
    - [WaitQueue]: [sync/waitqueue/].
    - [Srp]: [srp_mutex.rs].
    - [RingBuffer], [Pipe]: [sync/ring_buffer.rs], [sync/pipe.rs].
    - [DynChannel], [Channel], [PriorityChannel]: the trait [DynamicChannel] as an
      interface with a contract, and its implementations [sync/channel.rs] and
      [sync/priority_channel.rs].  [Handles] has the senders, receivers and
      futures of both files, static and size-erased, as references into a
      store of channels.
    - [PipeEnds]: the writers, readers and futures of [sync/pipe.rs], likewise,
      and the slice a reader holds.
    - [Signal], [AsyncMutex], [OnceLock], [ZeroCopy], [Select]: [sync/signal.rs],
      [sync/mutex.rs], [sync/once_lock.rs], [sync/zerocopy_channel.rs],
      [sync/select.rs].
    - [PubSub] models [sync/pubsub/]; [PubSubFacts] has its invariant, [PubSubBus]
      the ideal broadcast bus, [PubSubProps] the simulation and its
      consequences.
    - [Bump]: [memory/bump.rs].
    - [Heap] models [memory/heap.rs], the free-list heap; [HeapFacts] shows that
      allocation is first fit on the list of holes, [HeapFree] that deallocation
      and extension insert a block and join neighbours, [HeapProps] what clients
      rely on.
    - [Timers]: [time/timer_queue.rs] (Module [TimerQueue]) and [cpu/alarm.rs]
      (Module [AlarmQueue]).
    - [Kernel] models [executor/], [cpu/cpu0.rs], [cpu/executor_list.rs] and
      [time/timer_fut.rs] over one [World]: the statics and what they point to.
      [Executor] has closed forms of the operations, [ExecutorProps] the
      properties of an executor, [Scheduling] the interleavings of the loop of
      the thread executor with interrupts and [main], [KernelTyped] the references,
      [Delivery] a channel between a task and everybody else.
    - [Programs]: programs of [test_cases.rs], whose [async] blocks are state
      machines on the kernel.  [ProgramsFacts] has their start-up and the rules
      for a poll; [ProgramsProps], [ProgramsTimers] and, on the executor of an
      interrupt, [ProgramsInterrupts] what they do.
    - [Startup]: the assembly of [runtime.rs] from [_start] to [main], an
      operation on the core per instruction.  [StartupFacts] has the routines as
      functions on memory, [StartupProps] what they make of the image that the
      linker describes; [Boot] puts the hooks of [main.rs] into it; [Vectors] has the
      trap and interrupt tables.

    ** What the theorems show

    - Refinement and equivalence: the pipe is a bounded byte queue
      ([pipe_refines_queue]), the channels are bounded queues in their order
      ([channel_fifo], [priority_channel_refines], [zerocopy_fifo]) however many
      handles share them ([handles_share_channels]), the
      publish-subscribe channel is a broadcast stream ([pubsub_broadcast]), a
      signal is a register ([signal_latest]), a once lock an option filled once
      ([once_lock_sets_once]).  Each is stated of arbitrary sequences of calls.
    - Liveness: no wake-up of a task whose run queue has room is lost by the
      executor ([no_lost_wakeup]), nor one by a primitive (the theorems named
      [..._no_lost_wakeup], each with the calls it holds of): whoever is told to
      wait is registered, and is woken when what it waits for happens, or it has
      not happened.  No timer is forgotten as long as the alarm queue has room
      ([no_forgotten_timer]; [full_alarm_queue_forgets] if it has none).
      [Delivery] puts the two together: a message in a channel is received by
      the task that waits for it ([no_message_sleeps], [receive_poll_empties]).
      Tasks may be spawned at any point; a task that is spawned and not woken is
      not covered, since [spawn] does not pend the executor.
    - Safety: mutual exclusion ([mutex_excludes]), ceilings of shared resources
      ([srp_lock_ceiling]), masking of interrupts ([critical_section_nests], on
      a core in any state), disjointness of allocated blocks
      ([bump_blocks_disjoint], whose alignment is that of offsets from the start
      of the memory, and [heap_blocks_disjoint]) and of what the two ends of a pipe hold of its
      buffer ([fill_slice_stays]).
    - Round trips: memory through the heap ([heap_frees_whole]).
    - Types and invariants: every reference of the kernel stays good
      ([kernel_stays_typed]), start-up establishes the invariants of the loop
      ([boot_arms_thread_executor]).
    - Start-up: what [main] and the constructors find ([startup_memory]), that
      [main] is reached if the clock comes up, with a table of at most one
      constructor ([core0_reaches_main]; tables of more need constructors that
      keep A4, [constructors_in_order]); interrupts and the code they interrupt
      ([interrupt_transparent]).
    - Functional behaviour and termination: a run of an executor serves
      everybody ([exec_once_round]), timers are exact, loops end.
    - Whole programs, from start-up on: two tasks pass bytes through a pipe for
      ever ([bytes_pass_for_ever]), two that yield take turns
      ([yielding_tasks_take_turns]), one that yields starves one that sleeps
      ([yielding_task_starves_sleeper]), and four that sleep for one tick run at
      every other tick ([one_tick_takes_two]); two that yield on the executor of an
      interrupt keep its handler ([interrupt_yielders_never_return]).  [main] as it is spawns nothing
      ([main_only_ticks]).
    - Errors: the theorems of the error kind state behaviours of the code that
      its users should know: lost wake-ups after [Pipe::consume], starvation by
      a task that yields, publishers blocked by a lagging subscriber that was
      dropped, and others.

    ** Conventions, bounds and fuel

    Integers are [Z] with the wrap-around or the overflow check written out;
    [usize] has 32 bits, message ids 64, the tick counter 32.  Loops whose
    recursion is not structural take fuel, and theorems say that the fuel given
    is enough: [S N_TIMERS] and [S NA] for draining a timer or alarm queue, one
    more than its capacity; one more than the number of tasks for a run of an
    executor (a run is otherwise unbounded, see [yielding_task_starves_timers]);
    [S CAP] for popping read messages; two for [next_message_pure]; for the heap
    one more than the number of holes, of which a region has at most one for
    every eight bytes; for the loops of the start-up code one round for each
    double word to clear, byte to copy, context save area or constructor, and one
    more than the rows of a table.  Undefined
    behaviour of the code that can be stated (reading uninitialised memory,
    slices out of range, dangling references) is a panic of the model.

    Mutexes of the kernel are critical sections around one closure; [Kernel]
    has the closures, and the steps of [Scheduling] are the closures and the
    polls in between.  [Kernel::set_alarm] is the exception: its comment says
    that interrupts are disabled, but [renew_alarm] calls it without a critical
    section; [Scheduling] takes its push onto the alarm queue to be atomic, as
    the comment has it.

    Third-party code is a parameter: the containers of [heapless] with laws,
    [critical_section::with] with its documented behaviour, interrupt nodes with
    their priority, task bodies as functions that may do anything to the world
    (hypotheses on them are stated where a theorem needs them).  Cloning a
    message of the publish-subscribe channel is a copy.

    ** Not modelled

    Hardware: the drivers called by [Kernel::init] and [main.rs] (what [init] asks
    of them is logged), the jump out of the reset vector, alignment traps, and the
    memory that calls and interrupts save contexts in ([Startup] gives them memory
    of their own).  Output: the logging macros and [Bytes] of [sync/fmt.rs], whose
    [Try], [unwrap!] and [assert!] are here, the console and [utils/].  Of the
    demonstrations, which the crate does not compile: the two that format their
    messages ([multi_prio_test], [test]), the measurements without tasks, and the
    empty [petri_net].  [sync/waitqueue/atomic_waker_turbo.rs] is compiled only with
    a feature that [Cargo.toml] does not declare; its conversions between wakers
    and pointers are parameters of [TurboWaker].  [memory/heap.rs] is commented out
    of [memory/mod.rs] and calls alignment functions the repository does not have:
    they are parameters of [Heap] with what their names promise.  Traits without
    behaviour of their own (the [Deref] of the handles of [sync/pubsub/] to what
    they wrap, [Send], [Sync], [Unpin], [Copy]) have no definition. *)

From stdpp Require Export base tactics numbers list option gmap.

Set Default Proof Using "Type".

(** ** Rust data types of the core library *)

(** [core::result::Result]. *)
Inductive Result (T X : Type) : Type := Ok (t : T) | Err (e : X).
Arguments Ok {T X} t.
Arguments Err {T X} e.

(** [core::task::Poll]. *)
Inductive Poll (T : Type) : Type := Ready (t : T) | Pending.
Arguments Ready {T} t.
Arguments Pending {T}.

(** The outcome of running a piece of code: it returns a value or panics.
    The panic handler of [main.rs] loops forever, so nothing is observed of
    the state after a panic. *)
Inductive Outcome (A : Type) : Type := Val (a : A) | Panic.
Arguments Val {A} a.
Arguments Panic {A}.

#[export] Instance outcome_ret : MRet Outcome := λ A a, Val a.
#[export] Instance outcome_bind : MBind Outcome := λ A B f m,
  match m with Val a => f a | Panic => Panic end.

(** [Option::unwrap] and [Result::ok().unwrap()]. *)
Definition unwrap {A} (o : option A) : Outcome A :=
  match o with Some a => Val a | None => Panic end.

Definition unwrap_ok {A X} (r : Result A X) : Outcome A :=
  match r with Ok a => Val a | Err _ => Panic end.

(** The trait [Try] of [sync/fmt.rs] and its macro [unwrap!]: what an [Ok] or a
    [Some] holds, or a panic. *)
Inductive NoneError := none_error.
Class Try (R T X : Type) := into_result : R → Result T X.
#[export] Instance option_try {T} : Try (option T) T NoneError := λ o,
  match o with Some t => Ok t | None => Err none_error end.
#[export] Instance result_try {T X} : Try (Result T X) T X := λ r, r.
Definition unwrap_try `{Try R T X} (r : R) : Outcome T :=
  match into_result r with Ok t => Val t | Err _ => Panic end.

(** [assert!]. *)
Definition assert_that (b : bool) : Outcome unit := if b then Val tt else Panic.

(** [Result::ok]. *)
Definition result_ok {A X} (r : Result A X) : option A :=
  match r with Ok a => Some a | Err _ => None end.

(** ** Machine integers

    An unsigned integer of width [w] is a [Z] in [[0, modulus w)].  The target
    is a 32-bit TriCore, so [usize] is 32 bits wide.  Whether an arithmetic
    overflow panics or wraps depends on the build profile ([overflow-checks]),
    which [Cargo.toml] leaves at cargo's defaults: on in the dev profile, off
    in the release profile.  Every definition is parametric in the profile. *)
Inductive width := W8 | W32 | W64.

Definition modulus (w : width) : Z :=
  match w with
  | W8 => 256
  | W32 => 4294967296
  | W64 => 18446744073709551616
  end.

Abbreviation usize := W32 (only parsing).

Class Profile := overflow_checks : bool.

Definition in_width (w : width) (z : Z) : Prop := (0 ≤ z < modulus w)%Z.

#[export] Instance in_width_dec w z : Decision (in_width w z).
Proof. unfold in_width. apply _. Defined.

Section Arith.
Context `{Profile}.

Definition arith (w : width) (z : Z) : Outcome Z :=
  if decide (in_width w z) then Val z
  else if overflow_checks then Panic
  else Val (z mod modulus w)%Z.

Definition uadd (w : width) (a b : Z) : Outcome Z := arith w (a + b).
Definition usub (w : width) (a b : Z) : Outcome Z := arith w (a - b).

(** The operator [!] on an unsigned integer. *)
Definition unot (w : width) (a : Z) : Z := (Z.lnot a mod modulus w)%Z.

Lemma arith_in w z : in_width w z → arith w z = Val z.
Proof. intros Hz. unfold arith. by rewrite decide_True. Qed.

Lemma uadd_in w a b : in_width w (a + b) → uadd w a b = Val (a + b)%Z.
Proof. apply arith_in. Qed.

Lemma usub_in w a b : in_width w (a - b) → usub w a b = Val (a - b)%Z.
Proof. apply arith_in. Qed.

Lemma unot_in w a : in_width w a → unot w a = (modulus w - 1 - a)%Z.
Proof.
  unfold in_width, unot. intros Ha.
  replace (Z.lnot a) with (modulus w - 1 - a + (-1) * modulus w)%Z by (unfold Z.lnot; lia).
  rewrite Z.mod_add by (by destruct w). apply Z.mod_small. lia.
Qed.

Lemma arith_val_width w z r : arith w z = Val r → in_width w r.
Proof.
  unfold arith. case_decide; [naive_solver|].
  destruct overflow_checks; [done|]. intros [= <-].
  unfold in_width. apply Z.mod_pos_bound. by destruct w.
Qed.
End Arith.

(** ** Stateful operations

    [Op E S A] is code that runs on a state [S], may panic, returns an [A] and
    leaves a log of the external calls it made, in order (for the
    synchronisation primitives: the wakers it woke). *)
Definition Op (E S A : Type) : Type := S → Outcome (A * S * list E).

Section OpMonad.
Context {E S : Type}.

#[export] Instance op_ret : MRet (Op E S) := λ A a s, Val (a, s, []).
#[export] Instance op_bind : MBind (Op E S) := λ A B f m s,
  match m s with
  | Panic => Panic
  | Val (a, s1, l1) =>
      match f a s1 with
      | Panic => Panic
      | Val (b, s2, l2) => Val (b, s2, l1 ++ l2)
      end
  end.

Definition op_get : Op E S S := λ s, Val (s, s, []).
Definition op_put (s : S) : Op E S unit := λ _, Val (tt, s, []).
Definition op_modify (f : S → S) : Op E S unit := λ s, Val (tt, f s, []).
Definition op_emit (e : E) : Op E S unit := λ s, Val (tt, s, [e]).
Definition op_panic {A} : Op E S A := λ _, Panic.
Definition op_lift {A} (o : Outcome A) : Op E S A := λ s,
  match o with Val a => Val (a, s, []) | Panic => Panic end.
Definition op_pure {A} (f : S → A * S) : Op E S A := λ s,
  let '(a, s') := f s in Val (a, s', []).
Definition op_when (b : bool) (m : Op E S unit) : Op E S unit :=
  if b then m else mret tt.
Definition op_when_some {A} (o : option A) (f : A → Op E S unit) : Op E S unit :=
  match o with Some a => f a | None => mret tt end.

(** [for x in l { f(x) }] *)
Fixpoint op_for_each {A} (f : A → Op E S unit) (l : list A) : Op E S unit :=
  match l with
  | [] => mret tt
  | x :: l => f x;; op_for_each f l
  end.

Lemma op_ret_bind {A B} (a : A) (f : A → Op E S B) s :
  (mret a ≫= f) s = f a s.
Proof. cbv [mbind mret op_bind op_ret]. by destruct (f a s) as [[[??]?]|]. Qed.

Lemma op_bind_ret {A} (m : Op E S A) s : (m ≫= mret) s = m s.
Proof.
  cbv [mbind mret op_bind op_ret]. destruct (m s) as [[[??]?]|]; [|done].
  by rewrite app_nil_r.
Qed.

Lemma op_bind_assoc {A B C} (m : Op E S A) (f : A → Op E S B) (g : B → Op E S C) s :
  ((m ≫= f) ≫= g) s = (m ≫= λ a, f a ≫= g) s.
Proof.
  cbv [mbind op_bind]. destruct (m s) as [[[a s1] l1]|]; [|done].
  destruct (f a s1) as [[[b s2] l2]|]; [|done].
  destruct (g b s2) as [[[c s3] l3]|]; [|done]. by rewrite app_assoc.
Qed.

(** The value-producing step of a bind, as an inversion lemma. *)
Lemma op_bind_val {A B} (m : Op E S A) (f : A → Op E S B) s b s2 l :
  (m ≫= f) s = Val (b, s2, l) →
  ∃ a s1 l1 l2, m s = Val (a, s1, l1) ∧ f a s1 = Val (b, s2, l2) ∧ l = l1 ++ l2.
Proof.
  cbv [mbind op_bind]. destruct (m s) as [[[a s1] l1]|]; [|done].
  destruct (f a s1) as [[[b' s2'] l2]|] eqn:Hf; [|done].
  intros [= <- <- <-]. eauto 10.
Qed.
End OpMonad.

(** Running an operation on a field of the state. *)
Definition zoom {E S T A} (get : S → T) (set : T → S → S) (m : Op E T A) : Op E S A :=
  λ s, match m (get s) with
       | Panic => Panic
       | Val (a, t, l) => Val (a, set t s, l)
       end.

#[global] Arguments op_get {E S} /.
#[global] Arguments op_put {E S} s /.
#[global] Arguments op_modify {E S} f /.
#[global] Arguments op_emit {E S} e /.
#[global] Arguments op_panic {E S A} /.
#[global] Arguments op_lift {E S A} o /.
#[global] Arguments op_pure {E S A} f /.
#[global] Arguments op_when {E S} b m /.
#[global] Arguments op_when_some {E S A} o f /.
#[global] Arguments zoom {E S T A} get set m /.

(** ** Sequences of calls

    A component is driven by calls; [op_calls run cs] makes the calls [cs] in
    order and records the replies.  An abstract machine is a relation between
    a state, a call, the reply, the next state and the log of the call, and
    [trace] its runs. *)
Fixpoint op_calls {E S C R} (run : C → Op E S R) (cs : list C) : Op E S (list (C * R)) :=
  match cs with
  | [] => mret []
  | c :: cs => r ← run c; io ← op_calls run cs; mret ((c, r) :: io)
  end.

Section Trace.
Context {E S C R : Type} (step : S → C → R → S → list E → Prop).

Inductive trace : S → list (C * R) → S → list E → Prop :=
| trace_nil v : trace v [] v []
| trace_cons v c r v1 l1 io v2 l2 :
    step v c r v1 l1 → trace v1 io v2 l2 → trace v ((c, r) :: io) v2 (l1 ++ l2).

Lemma trace_invariant (P : S → Prop) :
  (∀ v c r v' l, step v c r v' l → P v → P v') →
  ∀ v io v' log, trace v io v' log → P v → P v'.
Proof. intros HP. induction 1; eauto. Qed.

(** What each allowed call keeps or ends with the event [w]. *)
Lemma trace_kept (P : S → Prop) (allowed : C → Prop) (w : E) :
  (∀ v c r v' l, step v c r v' l → allowed c → P v → P v' ∨ w ∈ l) →
  ∀ v io v' log, trace v io v' log → Forall allowed io.*1 → P v → P v' ∨ w ∈ log.
Proof.
  intros HP. induction 1 as [v|v c r v1 l1 io v2 l2 Hs Ht IH]; intros Hc Hv; [by left|].
  apply Forall_cons in Hc as [Hc Hio]. rewrite elem_of_app.
  destruct (HP _ _ _ _ _ Hs Hc Hv) as [Hv1|]; [|tauto]. destruct (IH Hio Hv1); tauto.
Qed.

(** The last call of a run. *)
Lemma trace_last v io v' log cr : trace v io v' log → last io = Some cr →
  ∃ v0 l0, step v0 cr.1 cr.2 v' l0.
Proof.
  induction 1 as [v|v c r v1 l1 io v2 l2 Hs Hss IH]; [done|].
  destruct Hss; [|by rewrite last_cons_cons]. intros [= <-]. by eexists _, _.
Qed.
End Trace.

(** ** Automation *)

Create HintDb runtime.

(** Unfold the monads and reduce the administrative matches. *)
Ltac run_op :=
  cbv [mbind mret op_bind op_ret outcome_bind outcome_ret
       op_get op_put op_modify op_emit op_panic op_lift op_pure op_when op_when_some zoom] in *;
  cbn [fst snd app] in *.

(** *** Symbolic execution

    [runs m s a s' l]: from [s], [m] returns [a] in state [s'] with log [l].
    The rules below follow the code; [op_steps] applies them as far as the
    code is straight-line, leaving the premises it cannot solve. *)
Definition runs {E S A} (m : Op E S A) (s : S) (a : A) (s' : S) (l : list E) : Prop :=
  m s = Val (a, s', l).

Section Runs.
Context {E S : Type}.

Lemma runs_bind {A B} (m : Op E S A) (f : A → Op E S B) s a s1 l1 b s2 l2 :
  runs m s a s1 l1 → runs (f a) s1 b s2 l2 → runs (m ≫= f) s b s2 (l1 ++ l2).
Proof. unfold runs. cbv [mbind op_bind]. by intros -> ->. Qed.

(** A silent first step. *)
Lemma runs_bind_nil {A B} (m : Op E S A) (f : A → Op E S B) s a s1 b s2 l :
  runs m s a s1 [] → runs (f a) s1 b s2 l → runs (m ≫= f) s b s2 l.
Proof. apply (runs_bind m f s a s1 []). Qed.

Lemma runs_log {A} (m : Op E S A) s a s' l l' : runs m s a s' l → l = l' → runs m s a s' l'.
Proof. by intros ? <-. Qed.

Lemma runs_ret {A} (a : A) (s : S) : runs (mret a : Op E S A) s a s [].
Proof. done. Qed.
Lemma runs_map {A B} (m : Op E S A) (g : A → B) s a s' l :
  runs m s a s' l → runs (x ← m; mret (g x)) s (g a) s' l.
Proof. intros Hm. eapply runs_log; [eapply runs_bind; [done|apply runs_ret]|apply app_nil_r]. Qed.
Lemma runs_get (s : S) : runs (op_get : Op E S S) s s s [].
Proof. done. Qed.
Lemma runs_put (s s' : S) : runs (op_put s' : Op E S unit) s tt s' [].
Proof. done. Qed.
Lemma runs_modify f (s : S) : runs (op_modify f : Op E S unit) s tt (f s) [].
Proof. done. Qed.
Lemma runs_emit (e : E) (s : S) : runs (op_emit e) s tt s [e].
Proof. done. Qed.
Lemma runs_lift {A} (o : Outcome A) a (s : S) :
  o = Val a → runs (op_lift o : Op E S A) s a s [].
Proof. by intros ->. Qed.
Lemma runs_pure {A} (f : S → A * S) a s s' :
  f s = (a, s') → runs (op_pure f : Op E S A) s a s' [].
Proof. unfold runs, op_pure. by intros ->. Qed.
Lemma runs_zoom {T A} (get : S → T) set (m : Op E T A) s a t l :
  runs m (get s) a t l → runs (zoom get set m) s a (set t s) l.
Proof. unfold runs, zoom. by intros ->. Qed.
Lemma runs_when_true b (m : Op E S unit) s s' l :
  b = true → runs m s tt s' l → runs (op_when b m) s tt s' l.
Proof. by intros ->. Qed.
Lemma runs_when_false b (m : Op E S unit) s :
  b = false → runs (op_when b m) s tt s [].
Proof. by intros ->. Qed.

Lemma runs_det {A} (m : Op E S A) s a s' l a2 s2 l2 :
  runs m s a s' l → runs m s a2 s2 l2 → a2 = a ∧ s2 = s' ∧ l2 = l.
Proof. unfold runs. intros -> [=]. by subst. Qed.
End Runs.

(** Inversion of the rules. *)
Lemma runs_bind_inv {E S A B} (m : Op E S A) (f : A → Op E S B) s b s2 l :
  runs (m ≫= f) s b s2 l →
  ∃ a s1 l1 l2, runs m s a s1 l1 ∧ runs (f a) s1 b s2 l2 ∧ l = l1 ++ l2.
Proof. apply op_bind_val. Qed.

Lemma runs_zoom_inv {E S T A} (get : S → T) set (m : Op E T A) s a s' l :
  runs (zoom get set m) s a s' l → ∃ t, runs m (get s) a t l ∧ s' = set t s.
Proof.
  unfold runs, zoom. destruct (m (get s)) as [[[a0 t] l0]|]; [|done].
  intros [= <- <- <-]. eauto.
Qed.

Lemma runs_lift_inv {E S A} (o : Outcome A) (s : S) a s' (l : list E) :
  runs (op_lift o) s a s' l → o = Val a ∧ s' = s ∧ l = [].
Proof. unfold runs, op_lift. destruct o; [|done]. by intros [= <- <- <-]. Qed.

Lemma runs_ret_inv {E S A} (a b : A) (s s' : S) (l : list E) :
  runs (mret a) s b s' l → b = a ∧ s' = s ∧ l = [].
Proof. by intros [= <- <- <-]. Qed.

Lemma runs_calls_cons {E S C R} (run : C → Op E S R) c cs s r s1 l1 io s2 l2 :
  runs (run c) s r s1 l1 → runs (op_calls run cs) s1 io s2 l2 →
  runs (op_calls run (c :: cs)) s ((c, r) :: io) s2 (l1 ++ l2).
Proof.
  intros Hc Hcs. cbn [op_calls]. eapply runs_bind; [exact Hc|].
  eapply runs_log; [eapply runs_bind; [exact Hcs|apply runs_ret]|apply app_nil_r].
Qed.

(** An implementation of an abstract machine: if each call runs and is a step,
    then so does every sequence of calls.  The index of [sim] counts the calls
    that may still be made. *)
Lemma calls_simulate_upto {E S V C R} (run : C → Op E S R) (sim : nat → S → V → Prop)
    (step : V → C → R → V → list E → Prop) :
  (∀ n s v c, sim (Datatypes.S n) s v →
    ∃ r s' v' l, runs (run c) s r s' l ∧ sim n s' v' ∧ step v c r v' l) →
  ∀ cs n s v, sim (length cs + n) s v → ∃ io s' v' log, runs (op_calls run cs) s io s' log ∧
    io.*1 = cs ∧ sim n s' v' ∧ trace step v io v' log.
Proof.
  intros Hstep. induction cs as [|c cs IH]; intros n s v Hs.
  { exists [], s, v, []. split; [apply runs_ret|]. by repeat constructor. }
  destruct (Hstep (length cs + n) s v c Hs) as (r & s1 & v1 & l1 & Hr & Hs1 & Hst).
  destruct (IH n s1 v1 Hs1) as (io & s2 & v2 & l2 & Hrs & <- & Hs2 & Hsts).
  exists ((c, r) :: io), s2, v2, (l1 ++ l2). split_and!; [|done|done|by econstructor].
  by eapply runs_calls_cons.
Qed.

Lemma calls_simulate {E S V C R} (run : C → Op E S R) (sim : S → V → Prop)
    (step : V → C → R → V → list E → Prop) :
  (∀ s v c, sim s v → ∃ r s' v' l, runs (run c) s r s' l ∧ sim s' v' ∧ step v c r v' l) →
  ∀ cs s v, sim s v → ∃ io s' v' log, runs (op_calls run cs) s io s' log ∧ io.*1 = cs ∧
    sim s' v' ∧ trace step v io v' log.
Proof.
  intros Hstep cs s v Hs. apply (calls_simulate_upto run (λ _, sim) step) with (n := 0); [|done].
  intros n. apply Hstep.
Qed.

(** The same through a view of the states. *)
Lemma calls_trace {E S V C R} (run : C → Op E S R) (ok : S → Prop) (view : S → V)
    (step : V → C → R → V → list E → Prop) :
  (∀ s c, ok s → ∃ r s' l, runs (run c) s r s' l ∧ ok s' ∧ step (view s) c r (view s') l) →
  ∀ cs s, ok s → ∃ io s' log, runs (op_calls run cs) s io s' log ∧ io.*1 = cs ∧ ok s' ∧
    trace step (view s) io (view s') log.
Proof.
  intros Hstep cs s Hs.
  destruct (calls_simulate run (λ s v, ok s ∧ view s = v) step) with (cs := cs) (s := s) (v := view s)
    as (io & s' & v' & log & Hr & Hio & [Hok <-] & Ht); [|done|by exists io, s', log].
  intros s0 v c [H0 <-]. destruct (Hstep s0 c H0) as (r & s1 & l & Hr & Hok & Hst).
  by exists r, s1, (view s1), l.
Qed.

#[export] Hint Resolve runs_ret runs_get runs_put runs_modify runs_emit runs_zoom : runtime.
#[export] Hint Resolve runs_lift runs_pure : runtime.

(** One instruction, then the rest. *)
Ltac op_prim :=
  first [ apply runs_get | apply runs_put | apply runs_modify | apply runs_emit
        | apply runs_ret ].

Ltac op_step :=
  lazymatch goal with
  | |- runs (mbind _ _) _ _ _ _ =>
      first [ eapply runs_bind_nil; [first [op_prim | solve [eauto with runtime]] | cbv beta iota]
            | eapply runs_bind; [solve [eauto with runtime] | cbv beta iota] ]
  | |- runs (mret _) _ _ _ _ => apply runs_ret
  | |- runs _ _ _ _ _ => first [op_prim | solve [eauto with runtime]]
  end.

Ltac op_steps := repeat op_step.

(** The last operation of a method, whose result is only mapped. *)
Tactic Notation "op_map" tactic3(t) :=
  eapply runs_log; [eapply runs_bind; [t|apply runs_ret]|apply app_nil_r].

(** Split the head [match] of the goal or of a hypothesis, keeping the equation. *)
Ltac split_match :=
  match goal with
  | |- context [match ?x with _ => _ end] => destruct x eqn:?
  | H : context [match ?x with _ => _ end] |- _ => destruct x eqn:?
  end.

(** Decide an [in_width] side condition by arithmetic. *)
Ltac width := unfold in_width, modulus in *; lia.
