(* ===== verification/Heapless.v ===== *)
(** * Interfaces of the third-party containers

    The crate stores its queues in the containers of the [heapless] crate,
    which is not part of the repository.  Each container is therefore a class
    of operations together with a class of laws, which state the documented
    behaviour the code relies on; the models of the components are
    parametric in both.  Every container has an abstract view as a list.  The
    instances at the end (bounded lists) are used by the examples only. *)

From S2P Require Import Prelude.
From Stdlib Require Import Sorting.Sorted.

(** ** Orders ([core::cmp::Ord]) *)

Class TotalCmp {A} (cmp : A → A → comparison) : Prop := {
  cmp_opp x y : cmp y x = CompOpp (cmp x y);
  cmp_trans x y z : cmp x y ≠ Gt → cmp y z ≠ Gt → cmp x z ≠ Gt
}.

(** The sealed [Kind] trait of the binary heap. *)
Inductive Kind := Min | Max.

(** [served K cmp x y]: a heap of kind [K] may hand out [x] while it holds [y]. *)
Definition served (K : Kind) {A} (cmp : A → A → comparison) (x y : A) : Prop :=
  match K with Min => cmp x y ≠ Gt | Max => cmp x y ≠ Lt end.

Lemma served_refl K {A} (cmp : A → A → comparison) `{!TotalCmp cmp} x : served K cmp x x.
Proof.
  pose proof (cmp_opp x x) as Hxx. destruct K; simpl; intros Heq; by rewrite Heq in Hxx.
Qed.

Lemma served_total K {A} (cmp : A → A → comparison) `{!TotalCmp cmp} x y :
  ¬ served K cmp x y → served K cmp y x.
Proof.
  pose proof (cmp_opp x y) as Hxy.
  destruct K; simpl; destruct (cmp x y); rewrite Hxy; simpl; naive_solver.
Qed.

Lemma served_trans K {A} (cmp : A → A → comparison) `{!TotalCmp cmp} x y z :
  served K cmp x y → served K cmp y z → served K cmp x z.
Proof.
  destruct K; simpl; [apply cmp_trans|].
  intros Hxy Hyz Hxz. apply (cmp_trans z y x).
  - rewrite (cmp_opp y z). by destruct (cmp y z).
  - rewrite (cmp_opp x y). by destruct (cmp x y).
  - rewrite (cmp_opp x z), Hxz. done.
Qed.

(** ** [heapless::Deque] *)

Class DequeOps (D : Type → nat → Type) := {
  dq_iter : ∀ {A N}, D A N → list A;
  dq_new : ∀ {A N}, D A N;
  dq_push_back : ∀ {A N}, A → D A N → Result unit A * D A N;
  dq_push_front : ∀ {A N}, A → D A N → Result unit A * D A N;
  dq_pop_front : ∀ {A N}, D A N → option A * D A N;
  dq_front : ∀ {A N}, D A N → option A;
  dq_len : ∀ {A N}, D A N → Z;
  dq_capacity : ∀ {A N}, D A N → Z;
  dq_is_full : ∀ {A N}, D A N → bool;
  dq_is_empty : ∀ {A N}, D A N → bool;
  (** writing through the references [iter_mut] yields *)
  dq_iter_mut_write : ∀ {A N}, list A → D A N → D A N
}.

Class DequeLaws (D : Type → nat → Type) `{!DequeOps D} : Prop := {
  dq_bound {A N} (d : D A N) : length (dq_iter d) ≤ N;
  dq_new_iter {A N} : dq_iter (dq_new : D A N) = [];
  dq_push_back_ok {A N} x (d : D A N) : length (dq_iter d) < N →
    ∃ d', dq_push_back x d = (Ok tt, d') ∧ dq_iter d' = dq_iter d ++ [x];
  dq_push_back_full {A N} x (d : D A N) : length (dq_iter d) = N →
    dq_push_back x d = (Err x, d);
  dq_push_front_ok {A N} x (d : D A N) : length (dq_iter d) < N →
    ∃ d', dq_push_front x d = (Ok tt, d') ∧ dq_iter d' = x :: dq_iter d;
  dq_push_front_full {A N} x (d : D A N) : length (dq_iter d) = N →
    dq_push_front x d = (Err x, d);
  dq_pop_front_nil {A N} (d : D A N) : dq_iter d = [] → dq_pop_front d = (None, d);
  dq_pop_front_cons {A N} (d : D A N) x l : dq_iter d = x :: l →
    ∃ d', dq_pop_front d = (Some x, d') ∧ dq_iter d' = l;
  dq_front_spec {A N} (d : D A N) : dq_front d = head (dq_iter d);
  dq_len_spec {A N} (d : D A N) : dq_len d = Z.of_nat (length (dq_iter d));
  dq_capacity_spec {A N} (d : D A N) : dq_capacity d = Z.of_nat N;
  dq_is_full_spec {A N} (d : D A N) : dq_is_full d = bool_decide (length (dq_iter d) = N);
  dq_is_empty_spec {A N} (d : D A N) : dq_is_empty d = bool_decide (dq_iter d = []);
  dq_iter_mut_write_spec {A N} l (d : D A N) : length l = length (dq_iter d) →
    dq_iter (dq_iter_mut_write l d) = l
}.

(** ** [heapless::BinaryHeap] *)

Class HeapOps (H : ∀ A : Type, (A → A → comparison) → Kind → nat → Type) := {
  bh_elems : ∀ {A cmp K N}, H A cmp K N → list A;
  bh_new : ∀ {A cmp K N}, H A cmp K N;
  bh_push : ∀ {A cmp K N}, A → H A cmp K N → Result unit A * H A cmp K N;
  bh_pop : ∀ {A cmp K N}, H A cmp K N → option A * H A cmp K N;
  bh_peek : ∀ {A cmp K N}, H A cmp K N → option A;
  bh_len : ∀ {A cmp K N}, H A cmp K N → Z;
  bh_capacity : ∀ {A cmp K N}, H A cmp K N → Z;
  bh_is_empty : ∀ {A cmp K N}, H A cmp K N → bool
}.

Class HeapLaws (H : ∀ A : Type, (A → A → comparison) → Kind → nat → Type)
    `{!HeapOps H} : Prop := {
  bh_bound {A cmp K N} (h : H A cmp K N) : length (bh_elems h) ≤ N;
  bh_new_elems {A cmp K N} : bh_elems (bh_new : H A cmp K N) = [];
  bh_push_ok {A cmp K N} x (h : H A cmp K N) : length (bh_elems h) < N →
    ∃ h', bh_push x h = (Ok tt, h') ∧ bh_elems h' ≡ₚ x :: bh_elems h;
  bh_push_full {A cmp K N} x (h : H A cmp K N) : length (bh_elems h) = N →
    bh_push x h = (Err x, h);
  bh_pop_nil {A cmp K N} (h : H A cmp K N) : bh_elems h = [] → bh_pop h = (None, h);
  bh_pop_some {A cmp K N} `{!TotalCmp cmp} (h : H A cmp K N) : bh_elems h ≠ [] →
    ∃ x h', bh_pop h = (Some x, h') ∧ bh_elems h ≡ₚ x :: bh_elems h' ∧
      Forall (served K cmp x) (bh_elems h);
  bh_peek_nil {A cmp K N} (h : H A cmp K N) : bh_elems h = [] → bh_peek h = None;
  bh_peek_some {A cmp K N} `{!TotalCmp cmp} (h : H A cmp K N) : bh_elems h ≠ [] →
    ∃ x, bh_peek h = Some x ∧ x ∈ bh_elems h ∧ Forall (served K cmp x) (bh_elems h);
  bh_peek_pop {A cmp K N} (h : H A cmp K N) : bh_peek h = (bh_pop h).1;
  bh_len_spec {A cmp K N} (h : H A cmp K N) : bh_len h = Z.of_nat (length (bh_elems h));
  bh_capacity_spec {A cmp K N} (h : H A cmp K N) : bh_capacity h = Z.of_nat N;
  bh_is_empty_spec {A cmp K N} (h : H A cmp K N) :
    bh_is_empty h = bool_decide (bh_elems h = [])
}.

(** ** [heapless::Vec]

    [vec_raw_read] reads a slot through [as_mut_ptr], whatever the length. *)

Class VecOps (V : Type → nat → Type) := {
  vec_iter : ∀ {A N}, V A N → list A;
  vec_new : ∀ {A N}, V A N;
  vec_push : ∀ {A N}, A → V A N → Result unit A * V A N;
  vec_len : ∀ {A N}, V A N → Z;
  vec_is_full : ∀ {A N}, V A N → bool;
  vec_get : ∀ {A N}, V A N → Z → option A;
  vec_write : ∀ {A N}, Z → A → V A N → V A N;
  vec_set_len0 : ∀ {A N}, V A N → V A N;
  vec_raw_read : ∀ {A N}, V A N → Z → option A
}.

Class VecLaws (V : Type → nat → Type) `{!VecOps V} : Prop := {
  vec_bound {A N} (v : V A N) : length (vec_iter v) ≤ N;
  vec_new_iter {A N} : vec_iter (vec_new : V A N) = [];
  vec_push_ok {A N} x (v : V A N) : length (vec_iter v) < N →
    ∃ v', vec_push x v = (Ok tt, v') ∧ vec_iter v' = vec_iter v ++ [x];
  vec_push_full {A N} x (v : V A N) : length (vec_iter v) = N → vec_push x v = (Err x, v);
  vec_len_spec {A N} (v : V A N) : vec_len v = Z.of_nat (length (vec_iter v));
  vec_is_full_spec {A N} (v : V A N) : vec_is_full v = bool_decide (length (vec_iter v) = N);
  vec_get_spec {A N} (v : V A N) i : (0 ≤ i)%Z → vec_get v i = vec_iter v !! Z.to_nat i;
  vec_write_iter {A N} (v : V A N) i x : (0 ≤ i)%Z →
    vec_iter (vec_write i x v) = <[Z.to_nat i := x]> (vec_iter v);
  vec_set_len0_iter {A N} (v : V A N) : vec_iter (vec_set_len0 v) = [];
  vec_set_len0_raw {A N} (v : V A N) i : (0 ≤ i < Z.of_nat (length (vec_iter v)))%Z →
    vec_raw_read (vec_set_len0 v) i = vec_iter v !! Z.to_nat i
}.

(** ** [heapless::LinearMap], with [u8] keys

    [lm_write] writes through the reference [get_mut] returns. *)

Class MapOps (L : Type → nat → Type) := {
  lm_map : ∀ {A N}, L A N → gmap Z A;
  lm_new : ∀ {A N}, L A N;
  lm_insert : ∀ {A N}, Z → A → L A N → Result (option A) (Z * A) * L A N;
  lm_get : ∀ {A N}, Z → L A N → option A;
  lm_write : ∀ {A N}, Z → A → L A N → L A N
}.

Class MapLaws (L : Type → nat → Type) `{!MapOps L} : Prop := {
  lm_new_map {A N} : lm_map (lm_new : L A N) = ∅;
  lm_insert_ok {A N} k x (m : L A N) : is_Some (lm_map m !! k) ∨ size (lm_map m) < N →
    ∃ m', lm_insert k x m = (Ok (lm_map m !! k), m') ∧ lm_map m' = <[k := x]> (lm_map m);
  lm_insert_full {A N} k x (m : L A N) : lm_map m !! k = None → N ≤ size (lm_map m) →
    lm_insert k x m = (Err (k, x), m);
  lm_get_spec {A N} k (m : L A N) : lm_get k m = lm_map m !! k;
  lm_write_map {A N} k x (m : L A N) : is_Some (lm_map m !! k) →
    lm_map (lm_write k x m) = <[k := x]> (lm_map m)
}.

(** ** Bounded lists, an instance of every interface *)

Definition blist (A : Type) (N : nat) : Type := { l : list A | Nat.leb (length l) N = true }.

Definition bl_list {A N} (d : blist A N) : list A := proj1_sig d.

(** The bounded list holding [l], or [d] when [l] is too long. *)
Definition bl_make {A N} (l : list A) (d : blist A N) : blist A N :=
  match Sumbool.sumbool_of_bool (Nat.leb (length l) N) with
  | left H => exist _ l H
  | right _ => d
  end.

Definition bl_nil {A N} : blist A N := exist _ [] eq_refl.

Lemma bl_bound {A N} (d : blist A N) : length (bl_list d) ≤ N.
Proof. destruct d as [l Hl]. by apply Nat.leb_le. Qed.

Lemma bl_make_list {A N} l (d : blist A N) : length l ≤ N → bl_list (bl_make l d) = l.
Proof.
  intros Hl. unfold bl_make. destruct (Sumbool.sumbool_of_bool _) as [|Hf]; [done|].
  apply Nat.leb_gt in Hf. lia.
Qed.

#[export] Instance blist_deque : DequeOps blist := {
  dq_iter A N d := bl_list d;
  dq_new A N := bl_nil;
  dq_push_back A N x d :=
    if Nat.ltb (length (bl_list d)) N then (Ok tt, bl_make (bl_list d ++ [x]) d) else (Err x, d);
  dq_push_front A N x d :=
    if Nat.ltb (length (bl_list d)) N then (Ok tt, bl_make (x :: bl_list d) d) else (Err x, d);
  dq_pop_front A N d :=
    match bl_list d with [] => (None, d) | x :: l => (Some x, bl_make l d) end;
  dq_front A N d := head (bl_list d);
  dq_len A N d := Z.of_nat (length (bl_list d));
  dq_capacity A N d := Z.of_nat N;
  dq_is_full A N d := bool_decide (length (bl_list d) = N);
  dq_is_empty A N d := match bl_list d with [] => true | _ => false end;
  dq_iter_mut_write A N l d := bl_make l d
}.

Ltac blist_ltb :=
  match goal with |- context [Nat.ltb ?a ?b] => destruct (Nat.ltb_spec a b); try lia end.

#[export] Instance blist_deque_laws : DequeLaws blist.
Proof.
  split; intros; cbn -[Nat.ltb] in *; try done; try apply bl_bound.
  - blist_ltb. eexists; split; [done|]. rewrite bl_make_list; [done|]. rewrite length_app. simpl. lia.
  - by blist_ltb.
  - blist_ltb. eexists; split; [done|]. by rewrite bl_make_list.
  - by blist_ltb.
  - by destruct (bl_list d).
  - pose proof (bl_bound d) as Hb. destruct (bl_list d); simplify_eq/=.
    eexists; split; [done|]. rewrite bl_make_list; [done|]. lia.
  - by destruct (bl_list d).
  - rewrite bl_make_list; [done|]. pose proof (bl_bound d). lia.
Qed.

Section BlistHeap.
Context {A : Type}.

(** [better K cmp x y]: [x] is handed out strictly before [y]. *)
Definition better (K : Kind) (cmp : A → A → comparison) (x y : A) : bool :=
  match K, cmp x y with Min, Lt => true | Max, Gt => true | _, _ => false end.

Fixpoint extract_best (K : Kind) (cmp : A → A → comparison) (l : list A) : option (A * list A) :=
  match l with
  | [] => None
  | x :: t =>
      match extract_best K cmp t with
      | None => Some (x, t)
      | Some (y, t') => if better K cmp y x then Some (y, x :: t') else Some (x, t)
      end
  end.

Lemma extract_best_spec K cmp `{!TotalCmp cmp} l :
  match extract_best K cmp l with
  | None => l = []
  | Some (y, t) => l ≡ₚ y :: t ∧ Forall (served K cmp y) l
  end.
Proof.
  induction l as [|x l IH]; [done|]. simpl.
  destruct (extract_best K cmp l) as [[y t]|]; [|subst; repeat constructor; by apply served_refl].
  destruct IH as [Hp HF]. destruct (better K cmp y x) eqn:Hb.
  - split; [rewrite Hp; constructor|]. constructor; [|done].
    revert Hb. unfold better, served. by destruct K, (cmp y x).
  - split; [done|]. constructor; [by apply served_refl|].
    assert (served K cmp x y) as Hxy.
    { pose proof (cmp_opp y x) as Hopp. revert Hb Hopp. unfold better, served.
      destruct K, (cmp y x); simpl; intros ? ->; done. }
    eapply Forall_impl; [exact HF|]. intros z Hz. by eapply served_trans.
Qed.
End BlistHeap.

Definition blist_bh (A : Type) (cmp : A → A → comparison) (K : Kind) (N : nat) : Type := blist A N.

#[export] Instance blist_heap : HeapOps blist_bh := {
  bh_elems A cmp K N h := bl_list h;
  bh_new A cmp K N := bl_nil;
  bh_push A cmp K N x h :=
    if Nat.ltb (length (bl_list h)) N then (Ok tt, bl_make (x :: bl_list h) h) else (Err x, h);
  bh_pop A cmp K N h :=
    match extract_best K cmp (bl_list h) with
    | None => (None, h) | Some (x, l) => (Some x, bl_make l h) end;
  bh_peek A cmp K N h := fst <$> extract_best K cmp (bl_list h);
  bh_len A cmp K N h := Z.of_nat (length (bl_list h));
  bh_capacity A cmp K N h := Z.of_nat N;
  bh_is_empty A cmp K N h := match bl_list h with [] => true | _ => false end
}.

#[export] Instance blist_heap_laws : HeapLaws blist_bh.
Proof.
  split; intros; cbn -[Nat.ltb] in *; try done; try apply (bl_bound h).
  - blist_ltb. eexists; split; [done|]. by rewrite bl_make_list.
  - by blist_ltb.
  - by rewrite H.
  - pose proof (extract_best_spec K cmp (bl_list h)) as Hs. pose proof (bl_bound h) as Hb.
    destruct (extract_best K cmp (bl_list h)) as [[x l]|]; [|done]. destruct Hs as [Hp HF].
    eexists _, _; split; [done|]. rewrite bl_make_list; [done|].
    apply Permutation_length in Hp. simpl in *. lia.
  - by rewrite H.
  - pose proof (extract_best_spec K cmp (bl_list h)) as Hs.
    destruct (extract_best K cmp (bl_list h)) as [[x l]|]; [|done]. destruct Hs as [Hp HF].
    eexists; split; [done|]. split; [|done]. rewrite Hp. constructor.
  - by destruct (extract_best K cmp (bl_list h)) as [[]|].
  - by destruct (bl_list h).
Qed.

(** The vector keeps, besides its elements, what the slots past the length hold. *)
Definition blist_vec (A : Type) (N : nat) : Type := blist A N * list A.

#[export] Instance blist_vec_ops : VecOps blist_vec := {
  vec_iter A N v := bl_list v.1;
  vec_new A N := (bl_nil, []);
  vec_push A N x v :=
    if Nat.ltb (length (bl_list v.1)) N
    then (Ok tt, (bl_make (bl_list v.1 ++ [x]) v.1, drop 1 v.2)) else (Err x, v);
  vec_len A N v := Z.of_nat (length (bl_list v.1));
  vec_is_full A N v := bool_decide (length (bl_list v.1) = N);
  vec_get A N v i := bl_list v.1 !! Z.to_nat i;
  vec_write A N i x v := (bl_make (<[Z.to_nat i := x]> (bl_list v.1)) v.1, v.2);
  vec_set_len0 A N v := (bl_nil, bl_list v.1 ++ v.2);
  vec_raw_read A N v i := (bl_list v.1 ++ v.2) !! Z.to_nat i
}.

#[export] Instance blist_vec_laws : VecLaws blist_vec.
Proof.
  split; intros; cbn -[Nat.ltb] in *; try done; try apply (bl_bound v.1).
  - blist_ltb. eexists; split; [done|]. cbn. rewrite bl_make_list; [done|].
    rewrite length_app. simpl. lia.
  - by blist_ltb.
  - rewrite bl_make_list; [done|]. rewrite length_insert. apply bl_bound.
  - apply lookup_app_l. lia.
Qed.

(** A map that refuses new keys from size [N] on. *)
Definition bmap (A : Type) (N : nat) : Type := gmap Z A.

#[export] Instance bmap_ops : MapOps bmap := {
  lm_map A N m := m;
  lm_new A N := ∅;
  lm_insert A N k x m :=
    if decide (is_Some (m !! k) ∨ size m < N) then (Ok (m !! k), <[k := x]> m)
    else (Err (k, x), m);
  lm_get A N k m := m !! k;
  lm_write A N k x m := <[k := x]> m
}.

#[export] Instance bmap_laws : MapLaws bmap.
Proof.
  split; intros; cbn in *; try done.
  - rewrite decide_True by done. eauto.
  - rewrite decide_False; [done|]. intros [[x' Hx]|Hs].
    + unfold bmap in *. congruence.
    + by apply Nat.lt_nge in Hs; apply Hs.
Qed.

(** ** Consequences used by the components *)

Section DequeFacts.
Context `{DequeLaws D}.

Lemma dq_not_full {A N} (d : D A N) : dq_is_full d = false ↔ length (dq_iter d) < N.
Proof.
  rewrite dq_is_full_spec, bool_decide_eq_false. pose proof (dq_bound d). lia.
Qed.

Lemma dq_full {A N} (d : D A N) : dq_is_full d = true ↔ length (dq_iter d) = N.
Proof. by rewrite dq_is_full_spec, bool_decide_eq_true. Qed.

(** Both outcomes of a push, as one case analysis. *)
Lemma dq_push_back_cases {A N} x (d : D A N) :
  (length (dq_iter d) < N ∧ ∃ d', dq_push_back x d = (Ok tt, d') ∧
     dq_iter d' = dq_iter d ++ [x]) ∨
  (length (dq_iter d) = N ∧ dq_push_back x d = (Err x, d)).
Proof.
  pose proof (dq_bound d). destruct (decide (length (dq_iter d) = N)).
  - right. split; [done|]. by apply dq_push_back_full.
  - left. split; [lia|]. apply dq_push_back_ok. lia.
Qed.

Lemma dq_pop_front_cases {A N} (d : D A N) :
  (dq_iter d = [] ∧ dq_pop_front d = (None, d)) ∨
  (∃ x d', dq_pop_front d = (Some x, d') ∧ dq_iter d = x :: dq_iter d').
Proof.
  destruct (dq_iter d) as [|x l] eqn:Hd.
  - left. split; [done|]. by apply dq_pop_front_nil.
  - right. destruct (dq_pop_front_cons d x l Hd) as (d' & ? & ?). exists x, d'. by subst.
Qed.
End DequeFacts.

Section HeapFacts.
Context `{HeapLaws H}.

Lemma bh_push_cases {A cmp K N} x (h : H A cmp K N) :
  (length (bh_elems h) < N ∧ ∃ h', bh_push x h = (Ok tt, h') ∧
     bh_elems h' ≡ₚ x :: bh_elems h) ∨
  (length (bh_elems h) = N ∧ bh_push x h = (Err x, h)).
Proof.
  pose proof (bh_bound h). destruct (decide (length (bh_elems h) = N)).
  - right. split; [done|]. by apply bh_push_full.
  - left. split; [lia|]. apply bh_push_ok. lia.
Qed.

Lemma bh_pop_cases {A cmp K N} `{!TotalCmp cmp} (h : H A cmp K N) :
  (bh_elems h = [] ∧ bh_pop h = (None, h)) ∨
  (∃ x h', bh_pop h = (Some x, h') ∧ bh_elems h ≡ₚ x :: bh_elems h' ∧
    Forall (served K cmp x) (bh_elems h)).
Proof.
  destruct (decide (bh_elems h = [])) as [He|He].
  - left. split; [done|]. by apply bh_pop_nil.
  - right. by apply bh_pop_some.
Qed.

Lemma bh_peek_cases {A cmp K N} `{!TotalCmp cmp} (h : H A cmp K N) :
  (bh_elems h = [] ∧ bh_peek h = None) ∨
  (∃ x, bh_peek h = Some x ∧ x ∈ bh_elems h ∧ Forall (served K cmp x) (bh_elems h)).
Proof.
  destruct (decide (bh_elems h = [])) as [He|He].
  - left. split; [done|]. by apply bh_peek_nil.
  - right. by apply bh_peek_some.
Qed.
End HeapFacts.

(** ** Draining a min-heap up to a deadline

    Both the timer queue and the alarm queue peek at their earliest item and
    pop it while it is due.  [drained now h l h'] is that loop: [l] is popped,
    in order, and [h'] is left. *)
Section Drain.
Context `{HL : HeapLaws H} {A : Type} {cmp : A → A → comparison} `{HT : !TotalCmp cmp} {N : nat}.
Variable key : A → Z.
Hypothesis key_mono : ∀ x y, cmp x y ≠ Gt → (key x ≤ key y)%Z.
Implicit Types h : H A cmp Min N.

Inductive drained (now : Z) : H A cmp Min N → list A → H A cmp Min N → Prop :=
| drained_empty h : bh_peek h = None → drained now h [] h
| drained_later h x : bh_peek h = Some x → (now < key x)%Z → drained now h [] h
| drained_pop h x h1 l h' :
    bh_peek h = Some x → (key x ≤ now)%Z → bh_pop h = (Some x, h1) →
    drained now h1 l h' → drained now h (x :: l) h'.

Lemma drained_exists now h : ∃ l h', drained now h l h'.
Proof using HL HT.
  remember (length (bh_elems h)) as n eqn:Hn. revert h Hn.
  induction n as [|n IH]; intros h Hn.
  { exists [], h. apply drained_empty, bh_peek_nil. by destruct (bh_elems h). }
  destruct (bh_pop_cases h) as [[He _]|(x & h1 & Hp & Hl & HF)]; [by rewrite He in Hn|].
  assert (bh_peek h = Some x) as Hpeek by by rewrite bh_peek_pop, Hp.
  destruct (decide (key x ≤ now)%Z) as [Hx|Hx]; [|exists [], h; by apply drained_later with x; [|lia]].
  destruct (IH h1) as (l & h' & Hd).
  { apply Permutation_length in Hl. simpl in Hl. lia. }
  exists (x :: l), h'. by eapply drained_pop.
Qed.

(** Exactly the items due are popped, earliest first. *)
Lemma drained_spec now h l h' : drained now h l h' →
  bh_elems h ≡ₚ l ++ bh_elems h' ∧
  Forall (λ x, key x ≤ now)%Z l ∧ Forall (λ x, now < key x)%Z (bh_elems h') ∧
  StronglySorted (λ x y, key x ≤ key y)%Z l.
Proof using HL HT key_mono.
  induction 1 as [h Hp|h x Hp Hx|h x h1 l h' Hp Hx Hpop Hd IH].
  - destruct (bh_peek_cases h) as [[He _]|(y & Hy & _)]; [|congruence].
    rewrite He. by repeat constructor.
  - destruct (bh_peek_cases h) as [[He Hn]|(y & Hy & _ & HF)]; [congruence|].
    rewrite Hp in Hy. injection Hy as <-. split_and!; try by repeat constructor.
    eapply Forall_impl; [exact HF|]. intros y Hxy%key_mono. lia.
  - destruct IH as (Hl & Hdue & Hlate & Hso).
    destruct (bh_pop_cases h) as [[_ Hn]|(y & h2 & Hpop2 & Hl2 & HF)]; [congruence|].
    rewrite Hpop in Hpop2. injection Hpop2 as <- <-.
    rewrite Hl2, Hl in HF |- *. apply Forall_cons in HF as [_ [HF _]%Forall_app].
    split_and!; [done|by constructor|done|]. constructor; [done|].
    eapply Forall_impl; [exact HF|]. intros y. apply key_mono.
Qed.

Lemma drained_length now h l h' : drained now h l h' → length l ≤ length (bh_elems h).
Proof using HL HT key_mono.
  intros Hd%drained_spec. destruct Hd as (Hl & _). rewrite Hl, length_app. lia.
Qed.
End Drain.
