(* ===== verification/CriticalSection.v ===== *)
(** * Critical sections and the blocking mutex

    Models [critical_section::Impl] of [main.rs] and [sync/blocking_mutex.rs].
    The core's interrupt state is a [Cpu]; a critical section masks interrupts
    and counts nested sections.  The function [critical_section::with] is
    third-party code: a parameter with its documented behaviour as a law. *)

From S2P Require Import Prelude.

(** The part of the core the runtime touches: the interrupt-enable bit and the
    current priority number of the ICR register, and the static counter
    [NESTED_INTERRUPT_NR]. *)
Record Cpu := mk_cpu { icr_ie : bool; icr_ccpn : Z; nested_interrupt_nr : Z }.

Definition set_ie (b : bool) (c : Cpu) : Cpu := mk_cpu b (icr_ccpn c) (nested_interrupt_nr c).
Definition set_ccpn (p : Z) (c : Cpu) : Cpu := mk_cpu (icr_ie c) p (nested_interrupt_nr c).
Definition set_nested (n : Z) (c : Cpu) : Cpu := mk_cpu (icr_ie c) (icr_ccpn c) n.

(** ** [impl critical_section::Impl for Section] *)

(** [asm!("disable")] and then [fetch_add], which wraps, returning whether this
    is the outermost section. *)
Definition acquire {E} : Op E Cpu bool :=
  op_modify (set_ie false);;
  c ← op_get;
  op_modify (set_nested ((nested_interrupt_nr c + 1) mod modulus W32));;
  mret (Z.eqb (nested_interrupt_nr c) 0).

(** [was_active] is ignored by the code. *)
Definition release {E} (was_active : bool) : Op E Cpu unit :=
  c ← op_get;
  op_modify (set_nested ((nested_interrupt_nr c - 1) mod modulus W32));;
  if Z.leb (nested_interrupt_nr c) 1 then op_modify (set_ie true) else mret tt.

#[global] Arguments acquire : simpl never.
#[global] Arguments release : simpl never.

(** A core inside [n] sections, as code running with interrupts enabled leaves
    it: masked iff the nesting is positive. *)
Definition cpu_wf (c : Cpu) : Prop :=
  (0 ≤ nested_interrupt_nr c < modulus W32 - 1)%Z ∧
  icr_ie c = Z.eqb (nested_interrupt_nr c) 0.

#[export] Instance cpu_wf_dec c : Decision (cpu_wf c).
Proof. unfold cpu_wf. apply _. Defined.

(** A critical section entered on a core [c]. *)
Definition masked (c : Cpu) : Cpu :=
  mk_cpu false (icr_ccpn c) (nested_interrupt_nr c + 1).

Lemma acquire_eq {E} c : (0 ≤ nested_interrupt_nr c < modulus W32 - 1)%Z →
  acquire c = Val (Z.eqb (nested_interrupt_nr c) 0, masked c, [] : list E).
Proof.
  intros Hn. unfold acquire, masked. run_op. simpl.
  rewrite Z.mod_small; [done|]. unfold modulus in *. lia.
Qed.

Lemma release_eq {E} b c : (0 < nested_interrupt_nr c < modulus W32)%Z →
  release b c = Val (tt, mk_cpu (icr_ie c || Z.leb (nested_interrupt_nr c) 1) (icr_ccpn c)
    (nested_interrupt_nr c - 1), [] : list E).
Proof.
  intros Hn. unfold release. run_op. simpl. rewrite Z.mod_small by width.
  destruct (Z.leb_spec (nested_interrupt_nr c) 1); run_op; simpl;
    by rewrite ?orb_true_r, ?orb_false_r.
Qed.

(** ** [critical_section::with] *)

Class CsWith := cs_with : ∀ {E S A}, Op E (Cpu * S) A → Op E (Cpu * S) A.

Definition on_cpu {E S A} (m : Op E Cpu A) : Op E (Cpu * S) A :=
  zoom fst (λ c s, (c, s.2)) m.

Definition on_data {E S A} (m : Op E S A) : Op E (Cpu * S) A :=
  zoom snd (λ d s, (s.1, d)) m.

(** The documented behaviour: acquire, run the closure, release. *)
Class CsWithLaw `{CsWith} : Prop :=
  cs_with_spec : ∀ {E S A} (m : Op E (Cpu * S) A) s,
    cs_with m s =
      (was_active ← on_cpu acquire; a ← m; on_cpu (release was_active);; mret a) s.

Definition cs_with_model : CsWith := λ E S A m,
  (was_active ← on_cpu acquire; a ← m; on_cpu (release was_active);; mret a).
Lemma cs_with_model_law : @CsWithLaw cs_with_model.
Proof. intros E S A m s. done. Qed.

(** What a section leaves behind when its closure does not touch the core:
    the nesting is restored and interrupts are on iff they were on or this
    was the outermost section. *)
Definition left_by_section (c : Cpu) : Cpu :=
  mk_cpu (Z.eqb (nested_interrupt_nr c) 0) (icr_ccpn c) (nested_interrupt_nr c).

Lemma left_by_section_wf c : cpu_wf c → left_by_section c = c.
Proof. destruct c. intros [_ Hie]. unfold left_by_section. simpl in *. by rewrite <-Hie. Qed.

Lemma cs_with_on_data `{CsWithLaw} {E S A} (m : Op E S A) c d :
  (0 ≤ nested_interrupt_nr c < modulus W32 - 1)%Z →
  cs_with (on_data m) (c, d) =
    match m d with
    | Val (a, d', l) => Val (a, (left_by_section c, d'), l)
    | Panic => Panic
    end.
Proof.
  intros Hn. rewrite cs_with_spec. unfold on_cpu, on_data. run_op. rewrite acquire_eq by exact Hn.
  cbn. destruct (m d) as [[[a d'] l]|]; [|done]. cbn.
  rewrite release_eq by (cbn; width). cbn. rewrite !app_nil_r.
  do 4 f_equal. unfold left_by_section.
  f_equal; [|lia]. destruct (Z.leb_spec (nested_interrupt_nr c + 1) 1),
    (Z.eqb_spec (nested_interrupt_nr c) 0); simpl; done || lia.
Qed.

(** ** [RawMutex] and [Mutex] ([sync/blocking_mutex.rs]) *)

Class RawMutex (R : Type) := {
  raw_INIT : R;
  raw_lock : ∀ {E S A}, R → Op E (Cpu * S) A → Op E (Cpu * S) A
}.

(** The contract of the unsafe trait: on a sane core, a locked closure that
    leaves the core alone runs once, and the core is left as it was found. *)
Class RawMutexLaws (R : Type) `{!RawMutex R} : Prop :=
  raw_lock_spec : ∀ {E S A} (r : R) (m : Op E S A) c d, cpu_wf c →
    raw_lock r (on_data m) (c, d) = on_data m (c, d).

Inductive CriticalSectionRawMutex := CriticalSectionRawMutex_new.

Definition CriticalSectionRawMutex_lock `{CsWith} {E S A} (r : CriticalSectionRawMutex)
    (f : Op E (Cpu * S) A) : Op E (Cpu * S) A :=
  cs_with f.

#[export] Instance critical_section_raw_mutex `{CsWith} : RawMutex CriticalSectionRawMutex := {
  raw_INIT := CriticalSectionRawMutex_new;
  raw_lock E S A := CriticalSectionRawMutex_lock
}.

#[export] Instance critical_section_raw_mutex_laws `{CsWithLaw} :
  RawMutexLaws CriticalSectionRawMutex.
Proof.
  intros E S A r m c d Hc. cbn. unfold CriticalSectionRawMutex_lock.
  rewrite cs_with_on_data by apply Hc. rewrite left_by_section_wf by done.
  unfold on_data. run_op. by destruct (m d) as [[[??]?]|].
Qed.

Module Mutex.
Record t (R T : Type) := mk { raw : R; data : T }.
Arguments mk {R T} _ _.
Arguments raw {R T} _.
Arguments data {R T} _.

Section Mutex.
Context `{RawMutex R} {T : Type}.

Definition new (val : T) : t R T := mk raw_INIT val.
Definition const_new (raw_mutex : R) (val : T) : t R T := mk raw_mutex val.
Definition into_inner (m : t R T) : T := data m.

(** The closures receive the protected data; [lock], [lock_mut] and
    [dirty_read] differ in the kind of reference they pass. *)
Definition lock {E U} (f : Op E T U) : Op E (Cpu * t R T) U := λ s,
  raw_lock (raw s.2) (on_data (zoom data (λ d m, mk (raw m) d) f)) s.
Definition lock_mut {E U} (f : Op E T U) : Op E (Cpu * t R T) U := λ s,
  raw_lock (raw s.2) (on_data (zoom data (λ d m, mk (raw m) d) f)) s.
Definition dirty_read {E U} (f : Op E T U) : Op E (Cpu * t R T) U := λ s,
  raw_lock (raw s.2) (on_data (zoom data (λ d m, mk (raw m) d) f)) s.
End Mutex.

(** On a sane core, locking is transparent. *)
Lemma lock_transparent `{RawMutexLaws R} {T E U} (f : Op E T U) c m : cpu_wf c →
  lock f (c, m) =
    match f (data m) with
    | Val (u, d, l) => Val (u, (c, mk (raw m) d), l)
    | Panic => Panic
    end.
Proof.
  intros Hc. unfold lock. cbn [snd]. rewrite raw_lock_spec by done.
  unfold on_data. run_op. by destruct (f (data m)) as [[[??]?]|].
Qed.

Lemma runs_lock `{RawMutexLaws R} {T E U} (f : Op E T U) c m u d l : cpu_wf c →
  runs f (data m) u d l → runs (lock f) (c, m) u (c, mk (raw m) d) l.
Proof. intros Hc Hf. unfold runs. rewrite lock_transparent by done. by rewrite Hf. Qed.
End Mutex.

(** ** [core::cell::RefCell] *)

Module RefCell.
Record t (T : Type) := mk { value : T; borrowed : bool }.
Arguments mk {T} _ _.
Arguments value {T} _.
Arguments borrowed {T} _.

Definition new {T} (v : T) : t T := mk v false.

(** [f(&mut *rc.borrow_mut())]: panics when the cell is already borrowed. *)
Definition borrow_mut {E T U} (f : Op E T U) : Op E (t T) U :=
  c ← op_get;
  if borrowed c then op_panic
  else
    op_put (mk (value c) true);;
    u ← zoom value (λ v c, mk v (borrowed c)) f;
    op_modify (λ c, mk (value c) false);;
    mret u.

(** [try_borrow_mut], which leaves the cell borrowed, and [f] on what is borrowed
    until the borrow is dropped. *)
Inductive BorrowMutError := borrow_mut_error.
Definition try_borrow_mut {E T} : Op E (t T) (Result unit BorrowMutError) :=
  c ← op_get;
  if borrowed c then mret (Err borrow_mut_error)
  else op_put (mk (value c) true);; mret (Ok tt).
Definition with_borrowed {E T U} (f : Op E T U) : Op E (t T) U :=
  u ← zoom value (λ v c, mk v (borrowed c)) f;
  op_modify (λ c, mk (value c) false);;
  mret u.

(** The code writes both [rc.borrow_mut()] and [unwrap!(rc.try_borrow_mut())]. *)
Lemma borrow_mut_unwrap {E T U} (f : Op E T U) c :
  borrow_mut f c = (r ← try_borrow_mut; op_lift (unwrap_try r);; with_borrowed f) c.
Proof.
  unfold borrow_mut, try_borrow_mut, with_borrowed, unwrap_try. run_op.
  destruct c as [v []]; [done|]. cbn. by destruct (f v) as [[[??]?]|].
Qed.

Lemma borrow_mut_free {E T U} (f : Op E T U) v :
  borrow_mut f (mk v false) =
    match f v with Val (u, v', l) => Val (u, mk v' false, l) | Panic => Panic end.
Proof.
  unfold borrow_mut. run_op. cbn. destruct (f v) as [[[??]?]|]; [|done].
  cbn. by rewrite !app_nil_r.
Qed.
End RefCell.

(** A state behind [Mutex<M, RefCell<T>>], and the [lock] helper of the
    synchronisation primitives: [self.inner.lock(|rc| f(&mut *rc.borrow_mut()))]. *)
Abbreviation Shared R T := (Mutex.t R (RefCell.t T)).

Definition shared_new `{RawMutex R} {T} (v : T) : Shared R T := Mutex.new (RefCell.new v).

Definition shared_lock `{RawMutex R} {T E U} (f : Op E T U) : Op E (Cpu * Shared R T) U :=
  Mutex.lock (RefCell.borrow_mut f).

Definition shared_value {R T} (m : Shared R T) : T := RefCell.value (Mutex.data m).

Definition shared_set {R T} (v : T) (m : Shared R T) : Shared R T :=
  Mutex.mk (Mutex.raw m) (RefCell.mk v false).

(** No closure is running on the cell. *)
Definition shared_free {R T} (m : Shared R T) : Prop := RefCell.borrowed (Mutex.data m) = false.

(** Locking is transparent: a primitive's method is its closure run on the
    protected state.  The component theorems are stated on the closures. *)
Lemma shared_lock_transparent `{RawMutexLaws R} {T E U} (f : Op E T U) c m :
  cpu_wf c → shared_free m →
  shared_lock f (c, m) =
    match f (shared_value m) with
    | Val (u, v, l) => Val (u, (c, shared_set v m), l)
    | Panic => Panic
    end.
Proof.
  intros Hc Hfree. unfold shared_lock. rewrite Mutex.lock_transparent by done.
  destruct m as [r [v b]]. unfold shared_free, shared_value in *. simpl in *. subst b.
  rewrite RefCell.borrow_mut_free. by destruct (f v) as [[[??]?]|].
Qed.

Lemma runs_shared_lock `{RawMutexLaws R} {T E U} (f : Op E T U) c m u v l :
  cpu_wf c → shared_free m → runs f (shared_value m) u v l →
  runs (shared_lock f) (c, m) u (c, shared_set v m) l.
Proof. intros Hc Hm Hf. unfold runs. rewrite shared_lock_transparent by done. by rewrite Hf. Qed.

(** ** Properties *)

(** C35: a critical section masks interrupts for the whole of its closure; sections
    nest, since the masked core is one a section may be entered on again.  After it
    the nesting is as before and interrupts are enabled exactly when the section
    was the outermost one: the core is as it was found exactly when interrupts were
    enabled if and only if no section was open (so not in an interrupt
    handler, which the hardware enters with interrupts off).  The closure may itself
    enter and leave sections: it only has to leave the core as it found it. *)
Theorem critical_section_nests `{CsWithLaw} {E S A} (f : Op E (Cpu * S) A) c s :
  (0 ≤ nested_interrupt_nr c < modulus W32 - 1)%Z →
  (∀ a c' s' l, f (masked c, s) = Val (a, (c', s'), l) → c' = masked c) →
  icr_ie (masked c) = false ∧
  ((nested_interrupt_nr c + 2 < modulus W32)%Z → cpu_wf (masked c)) ∧
  raw_lock CriticalSectionRawMutex_new f (c, s) =
    match f (masked c, s) with
    | Val (a, (_, s'), l) => Val (a, (left_by_section c, s'), l)
    | Panic => Panic
    end ∧
  (left_by_section c = c ↔ icr_ie c = Z.eqb (nested_interrupt_nr c) 0).
Proof.
  intros Hn Hf. destruct c as [ie p n]. cbn in Hn.
  split_and!; [done|intros Hlt; split; cbn in *; [lia|symmetry; apply Z.eqb_neq; lia]| |].
  - cbn. unfold CriticalSectionRawMutex_lock. rewrite cs_with_spec. unfold on_cpu. run_op.
    rewrite acquire_eq by done. cbn. destruct (f _) as [[[a [c' s']] l]|] eqn:Hr; [|done].
    rewrite (Hf _ _ _ _ eq_refl). cbn. rewrite release_eq by (cbn; width). cbn. rewrite app_nil_r.
    do 4 f_equal. unfold left_by_section. cbn. f_equal; [|lia].
    destruct (Z.eqb_spec n 0), (Z.leb_spec (n + 1) 1); done || lia.
  - unfold left_by_section. cbn. split; [by intros [= <-]|by intros ->].
Qed.

Lemma critical_section_nests_witness :
  let c := mk_cpu true 3 0 in
  raw_lock (RawMutex := critical_section_raw_mutex (H := cs_with_model)) CriticalSectionRawMutex_new
    (raw_lock (RawMutex := critical_section_raw_mutex (H := cs_with_model)) CriticalSectionRawMutex_new
      (on_data (op_modify (Z.add 1)))) (c, 5%Z) = Val (tt, (c, 6%Z), [] : list Z).
Proof.
  intros c.
  destruct (critical_section_nests (H0 := cs_with_model_law)
    (raw_lock (RawMutex := critical_section_raw_mutex (H := cs_with_model)) CriticalSectionRawMutex_new
      (on_data (op_modify (Z.add 1))) : Op Z (Cpu * Z) unit) c 5%Z) as (_ & _ & Hr & _).
  - by split.
  - intros a c' s' l Hr. vm_compute in Hr. by injection Hr as _ <- _ _.
  - by rewrite Hr.
Defined.

(** Leaving the outermost section enables interrupts even when they were off
    before it, since [release] ignores what [acquire] found.  In an interrupt
    handler, which the hardware enters with interrupts off, the first section
    thus lets the handler be preempted. *)
Theorem section_enables_interrupts `{CsWithLaw} {E S A} (f : Op E S A) c s a s' l :
  icr_ie c = false → nested_interrupt_nr c = 0%Z → f s = Val (a, s', l) →
  ∃ c', raw_lock CriticalSectionRawMutex_new (on_data f) (c, s) = Val (a, (c', s'), l) ∧
    icr_ie c' = true.
Proof.
  intros Hie Hn Hf. cbn. unfold CriticalSectionRawMutex_lock.
  rewrite cs_with_on_data by (rewrite Hn; width). rewrite Hf.
  exists (left_by_section c). split; [done|]. cbn. by rewrite Hn.
Qed.

Lemma section_enables_interrupts_witness : ∃ c',
  raw_lock (RawMutex := critical_section_raw_mutex (H := cs_with_model)) CriticalSectionRawMutex_new
    (on_data (op_modify (Z.add 1))) (mk_cpu false 7 0, 5%Z) = Val (tt, (c', 6%Z), [] : list Z) ∧
  icr_ie c' = true.
Proof.
  by apply (section_enables_interrupts (H0 := cs_with_model_law) (op_modify (Z.add 1))
    (mk_cpu false 7 0) 5%Z tt 6%Z []).
Defined.
