(* ===== verification/WaitQueue.v ===== *)
(** * Wakers and wait queues ([sync/waitqueue/], [core::task::Waker])

    A waker is a data pointer and a vtable.  Waking it is an external call:
    it is logged, in order, and [Kernel] gives the log its effect on the
    executors. *)

From S2P Require Import Prelude Heapless CriticalSection.

(** Identity of a [RawWakerVTable]: [TASK_VTABLE] is the static [VTABLE] of
    [executor/waker.rs]; any other vtable is foreign. *)
Inductive VTableId := TASK_VTABLE | ForeignVTable (n : Z).

#[export] Instance vtable_eq_dec : EqDecision VTableId.
Proof. solve_decision. Defined.

(** [core::task::Waker]; [data] is the pointer it was built from. *)
Record Waker := mk_waker { w_data : Z; w_vtable : VTableId }.

#[export] Instance waker_eq_dec : EqDecision Waker.
Proof. solve_decision. Defined.

(** [Waker::will_wake] compares the data pointers and the vtables. *)
Definition will_wake (w w' : Waker) : bool := bool_decide (w = w').

Lemma will_wake_true w w' : will_wake w w' = true ↔ w = w'.
Proof. unfold will_wake. by rewrite bool_decide_eq_true. Qed.

Lemma will_wake_refl w : will_wake w w = true.
Proof. by apply will_wake_true. Qed.

(** [w.wake()] and [w.wake_by_ref()]. *)
Definition wake_waker {S} (w : Waker) : Op Waker S unit := op_emit w.

(** ** [WakerRegistration] ([waker_registration.rs]) *)
Module WakerRegistration.
Record t := mk { waker : option Waker }.

Definition new : t := mk None.

Definition register (w : Waker) : Op Waker t unit :=
  s ← op_get;
  let replace_waker :=
    op_put (mk (Some w));;
    match waker s with Some old_waker => wake_waker old_waker | None => mret tt end in
  match waker s with
  | Some w2 => if will_wake w2 w then mret tt else replace_waker
  | None => replace_waker
  end.

Definition wake : Op Waker t unit :=
  s ← op_get;
  op_put (mk None);;
  match waker s with Some w => wake_waker w | None => mret tt end.

Definition occupied (s : t) : bool := bool_decide (is_Some (waker s)).

(** Registering always leaves [w] registered, and wakes exactly a displaced
    waker of another task. *)
Lemma register_eq w s :
  register w s = Val (tt, mk (Some w),
    match waker s with Some w' => if will_wake w' w then [] else [w'] | None => [] end).
Proof.
  unfold register, wake_waker. run_op. destruct s as [[w'|]]; simpl; [|done].
  destruct (will_wake w' w) eqn:Hw; [|done]. apply will_wake_true in Hw. by subst.
Qed.

Lemma wake_eq s : wake s = Val (tt, new, option_list (waker s)).
Proof. unfold wake, wake_waker. run_op. by destruct s as [[w|]]. Qed.

(** A registration by an optional context, and its observable effect. *)
Definition registered (cx : option Waker) (s : t) : t :=
  match cx with Some w => mk (Some w) | None => s end.
Definition displaced (cx : option Waker) (s : t) : list Waker :=
  match cx, waker s with
  | Some w, Some w' => if will_wake w' w then [] else [w']
  | _, _ => []
  end.
(** A conditional wake, and what it leaves. *)
Definition woken (b : bool) (s : t) : list Waker := if b then option_list (waker s) else [].
Definition after_wake (b : bool) (s : t) : t := if b then new else s.

Lemma runs_register w s : runs (register w) s tt (registered (Some w) s) (displaced (Some w) s).
Proof. unfold runs. rewrite register_eq. by destruct s as [[]]. Qed.
Lemma runs_register_cx cx s :
  runs (op_when_some cx register) s tt (registered cx s) (displaced cx s).
Proof. destruct cx; [apply runs_register|apply runs_ret]. Qed.
Lemma runs_wake s : runs wake s tt new (option_list (waker s)).
Proof. apply wake_eq. Qed.
Lemma runs_wake_when b s : runs (op_when b wake) s tt (after_wake b s) (woken b s).
Proof. destruct b; [apply runs_wake|apply runs_ret]. Qed.

(** Every waker registered in [s] is still registered in [s'] or was woken. *)
Definition kept_or_woken (s s' : t) (log : list Waker) : Prop :=
  ∀ x, waker s = Some x → waker s' = Some x ∨ x ∈ log.

Lemma kept_refl s log : kept_or_woken s s log.
Proof. by left. Qed.

Lemma kept_after_wake b s log : woken b s ⊆ log → kept_or_woken s (after_wake b s) log.
Proof.
  intros Hl x Hx. destruct b; [right|by left]. apply Hl. simpl. rewrite Hx.
  by apply list_elem_of_singleton.
Qed.

Lemma kept_registered cx s log : displaced cx s ⊆ log → kept_or_woken s (registered cx s) log.
Proof.
  intros Hl x Hx. destruct cx as [y|]; [|by left]. simpl in *. rewrite Hx in Hl.
  destruct (will_wake x y) eqn:Hw; [left; apply will_wake_true in Hw; by subst|].
  right. by apply Hl, list_elem_of_singleton.
Qed.

Lemma after_wake_none b s : is_Some (waker (after_wake b s)) → b = false ∧ is_Some (waker s).
Proof. destruct b; [by intros []|done]. Qed.
End WakerRegistration.
#[export] Hint Resolve WakerRegistration.runs_register WakerRegistration.runs_register_cx
  WakerRegistration.runs_wake WakerRegistration.runs_wake_when : runtime.

(** ** [MultiWakerRegistration] ([multi_waker.rs]) *)
Module MultiWakerRegistration.
Record t (V : Type → nat → Type) (N : nat) := mk { wakers : V Waker N }.
Arguments mk {V N} _.
Arguments wakers {V N} _.

Section Ops.
Context `{!VecOps V} {N : nat}.

Definition new : t V N := mk vec_new.

(** [for i in start..start+n { as_mut_ptr().add(i).read().wake() }] *)
Fixpoint wake_slots (v : V Waker N) (start : Z) (n : nat) : Op Waker (t V N) unit :=
  match n with
  | O => mret tt
  | S n =>
      waker ← op_lift (unwrap (vec_raw_read v start));
      wake_waker waker;;
      wake_slots v (start + 1) n
  end.

Definition wake : Op Waker (t V N) unit :=
  s ← op_get;
  let len := vec_len (wakers s) in
  let v := vec_set_len0 (wakers s) in
  op_put (mk v);;
  wake_slots v 0 (Z.to_nat len).

Definition register (w : Waker) : Op Waker (t V N) unit :=
  s ← op_get;
  if existsb (will_wake w) (vec_iter (wakers s)) then mret tt
  else
    (if vec_is_full (wakers s) then wake else mret tt);;
    s ← op_get;
    let '(r, v) := vec_push w (wakers s) in
    op_put (mk v);;
    match r with Ok _ => mret tt | Err _ => op_panic end.
End Ops.

Section Facts.
Context `{VecLaws V} {N : nat}.

(** What a registration is observed as: the list of its wakers. *)
Definition view (s : t V N) : list Waker := vec_iter (wakers s).

Lemma view_new : view new = [].
Proof. apply vec_new_iter. Qed.

Lemma wake_slots_eq (v : V Waker N) l n start s :
  (0 ≤ start)%Z → (∀ i, (start ≤ i < start + Z.of_nat n)%Z →
    vec_raw_read v i = l !! Z.to_nat (i - start)) →
  length l = n →
  wake_slots v start n s = Val (tt, s, l).
Proof.
  revert l start. induction n as [|n IH]; intros l start Hs Hraw Hl.
  { by destruct l. }
  destruct l as [|w l]; [done|]. simpl. unfold wake_waker. run_op.
  rewrite (Hraw start) by lia. rewrite Z.sub_diag. simpl.
  rewrite (IH l); [done|lia| |by injection Hl].
  intros i Hi. rewrite Hraw by lia.
  replace (Z.to_nat (i - start)) with (S (Z.to_nat (i - (start + 1)))) by lia. done.
Qed.

(** Waking wakes every registered waker, oldest first, and empties the set. *)
Lemma multi_wake_eq (s : t V N) : ∃ s', wake s = Val (tt, s', view s) ∧ view s' = [].
Proof.
  exists (mk (vec_set_len0 (wakers s))). split; [|apply vec_set_len0_iter].
  unfold wake. run_op. rewrite vec_len_spec, Nat2Z.id.
  rewrite (wake_slots_eq _ (view s)); [done|done| |done].
  intros i Hi. rewrite Z.sub_0_r. apply vec_set_len0_raw. lia.
Qed.

Lemma existsb_will_wake w l : existsb (will_wake w) l = bool_decide (w ∈ l).
Proof.
  apply eq_true_iff_eq. rewrite existsb_exists, bool_decide_eq_true. split.
  - intros (x & Hx & ->%will_wake_true). by apply list_elem_of_In.
  - intros Hw. exists w. split; [by apply list_elem_of_In|apply will_wake_refl].
Qed.

(** Registering, for a non-empty capacity: already registered wakers are
    kept as they are; otherwise the waker is appended, after waking
    everybody when there is no room. *)
Lemma multi_register_eq w (s : t V N) : 0 < N →
  ∃ s' woken, register w s = Val (tt, s', woken) ∧
    (woken, view s') =
      (if decide (w ∈ view s) then ([], view s)
       else if decide (length (view s) = N) then (view s, [w])
       else ([], view s ++ [w])).
Proof.
  intros HN. unfold register. run_op. rewrite existsb_will_wake. fold (view s).
  destruct (decide (w ∈ view s)); [rewrite bool_decide_true by done; eauto|].
  rewrite bool_decide_false by done. rewrite vec_is_full_spec. fold (view s).
  destruct (decide (length (view s) = N)) as [Hf|Hf].
  - rewrite bool_decide_true by done. destruct (multi_wake_eq s) as (s' & -> & Hs').
    destruct (vec_push_ok w (wakers s')) as (v & Hv & Hvi).
    { unfold view in Hs'. rewrite Hs'. done. }
    rewrite Hv. eexists _, _. split; [done|]. unfold view in *. simpl.
    by rewrite Hvi, Hs', ?app_nil_r.
  - rewrite bool_decide_false by done.
    destruct (vec_push_ok w (wakers s)) as (v & Hv & Hvi).
    { pose proof (vec_bound (wakers s)). unfold view in Hf. lia. }
    rewrite Hv. eexists _, _. split; [done|]. unfold view. simpl. by rewrite Hvi.
Qed.

(** With capacity 0 the registration of a waker panics. *)
Lemma register_zero w (s : t V N) : N = 0 → register w s = Panic.
Proof.
  intros HN. unfold register. run_op.
  assert (Hnil : vec_iter (wakers s) = []).
  { pose proof (vec_bound (wakers s)). destruct (vec_iter (wakers s)); [done|simpl in *; lia]. }
  rewrite Hnil. simpl. rewrite vec_is_full_spec, Hnil, bool_decide_true by done.
  destruct (multi_wake_eq s) as (s' & -> & Hs'). unfold view in Hs'.
  by rewrite vec_push_full by (by rewrite Hs').
Qed.
End Facts.
End MultiWakerRegistration.

(** ** [AtomicWaker] ([atomic_waker.rs])

    The cell of the mutex is read and written directly under
    [critical_section::with]. *)
Module AtomicWaker.
Record t := mk { waker : option Waker }.

Definition new : t := mk None.

Section Ops.
Context `{CsWith}.

Definition register (w : Waker) : Op Waker (Cpu * t) unit :=
  cs_with (on_data (
    cell ← op_get;
    op_put (mk None);;
    op_put (mk (match waker cell with
                | Some w2 => if will_wake w2 w then Some w2 else Some w
                | None => Some w
                end)))).

Definition wake : Op Waker (Cpu * t) unit :=
  cs_with (on_data (
    cell ← op_get;
    op_put (mk None);;
    match waker cell with
    | Some w => wake_waker w;; op_put (mk (Some w))
    | None => mret tt
    end)).
End Ops.

Section Facts.
Context `{CsWithLaw}.

Lemma atomic_register_eq w c s : cpu_wf c → register w (c, s) = Val (tt, (c, mk (Some w)), []).
Proof.
  intros Hc. unfold register. rewrite cs_with_on_data by apply Hc.
  rewrite left_by_section_wf by done. run_op. destruct s as [[w2|]]; simpl; [|done].
  destruct (will_wake w2 w) eqn:Hw; [|done]. apply will_wake_true in Hw. by subst.
Qed.

(** Unlike a [WakerRegistration], waking keeps the waker registered. *)
Lemma atomic_wake_eq c s : cpu_wf c →
  wake (c, s) = Val (tt, (c, s), option_list (waker s)).
Proof.
  intros Hc. unfold wake, wake_waker. rewrite cs_with_on_data by apply Hc.
  rewrite left_by_section_wf by done. run_op. by destruct s as [[w2|]].
Qed.
End Facts.
End AtomicWaker.

(** ** [AtomicWaker] for turbo wakers ([atomic_waker_turbo.rs])

    The waker is a single pointer, kept in an atomic; the conversions belong to
    the standard library of such targets. *)
Module TurboWaker.
(** [AtomicPtr]; null is 0. *)
Record t := mk { waker : Z }.

Definition new : t := mk 0.

Section Ops.
Variables (as_turbo_ptr : Waker → Z) (from_turbo_ptr : Z → Waker).

Definition register (w : Waker) : Op Waker t unit := op_put (mk (as_turbo_ptr w)).

(** The pointer is loaded, not taken: the waker stays registered. *)
Definition wake : Op Waker t unit :=
  s ← op_get;
  if Z.eqb (waker s) 0 then mret tt else wake_waker (from_turbo_ptr (waker s)).
End Ops.
End TurboWaker.

(** Both files are the same module to their users. *)
Section SameWaker.
Context `{CsWithLaw}.
Variables (as_turbo_ptr : Waker → Z) (from_turbo_ptr : Z → Waker).
Hypothesis turbo_not_null : ∀ w, as_turbo_ptr w ≠ 0%Z.
Hypothesis turbo_back : ∀ w, from_turbo_ptr (as_turbo_ptr w) = w.

Inductive WakerCall := CallRegister (w : Waker) | CallWake.

Definition run_atomic (k : WakerCall) : Op Waker (Cpu * AtomicWaker.t) unit :=
  match k with CallRegister w => AtomicWaker.register w | CallWake => AtomicWaker.wake end.
Definition run_turbo (k : WakerCall) : Op Waker TurboWaker.t unit :=
  match k with
  | CallRegister w => TurboWaker.register as_turbo_ptr w
  | CallWake => TurboWaker.wake from_turbo_ptr
  end.

Definition same_waker (a : AtomicWaker.t) : TurboWaker.t :=
  TurboWaker.mk (match AtomicWaker.waker a with Some w => as_turbo_ptr w | None => 0%Z end).

Lemma same_call k c a : cpu_wf c → ∃ a' log, runs (run_atomic k) (c, a) tt (c, a') log ∧
  runs (run_turbo k) (same_waker a) tt (same_waker a') log.
Proof using Type*.
  intros Hc. destruct k as [w|].
  - exists (AtomicWaker.mk (Some w)), []. split; [by apply AtomicWaker.atomic_register_eq|done].
  - exists a, (option_list (AtomicWaker.waker a)). split; [by apply AtomicWaker.atomic_wake_eq|].
    unfold runs, run_turbo, TurboWaker.wake, same_waker. run_op.
    destruct a as [[w|]]; cbn; [|done].
    rewrite (proj2 (Z.eqb_neq _ _)) by apply turbo_not_null. unfold wake_waker. run_op.
    by rewrite turbo_back.
Qed.

(** The two atomic wakers wake the same tasks, whatever is called. *)
Theorem turbo_waker_same ks c : cpu_wf c → ∃ io a log,
  runs (op_calls run_atomic ks) (c, AtomicWaker.new) io (c, a) log ∧
  runs (op_calls run_turbo ks) TurboWaker.new io (same_waker a) log.
Proof using Type*.
  intros Hc. change TurboWaker.new with (same_waker AtomicWaker.new). generalize AtomicWaker.new.
  induction ks as [|k ks IH]; intros a.
  { exists [], a, []. split; apply runs_ret. }
  destruct (same_call k c a Hc) as (a1 & l1 & Hr1 & Ht1). destruct (IH a1) as (io & a2 & l2 & Hr2 & Ht2).
  exists ((k, tt) :: io), a2, (l1 ++ l2). split; by eapply runs_calls_cons.
Qed.
End SameWaker.

(** An instance: pointers that number the wakers. *)
Module TurboDemo.
#[export] Instance waker_countable : Countable Waker.
Proof.
  refine (inj_countable' (λ w, (w_data w, match w_vtable w with TASK_VTABLE => None | ForeignVTable n => Some n end))
    (λ p, mk_waker p.1 (match p.2 with None => TASK_VTABLE | Some n => ForeignVTable n end)) _).
  by intros [d []].
Defined.
Definition number (w : Waker) : Z := Zpos (encode w).
Definition numbered (z : Z) : Waker :=
  match z with Zpos p => default (mk_waker 0 TASK_VTABLE) (decode p) | _ => mk_waker 0 TASK_VTABLE end.
#[export] Instance demo_cs : CsWith := cs_with_model.

Lemma turbo_waker_same_witness : ∃ io a log,
  runs (op_calls (run_turbo number numbered) [CallRegister (mk_waker 3 TASK_VTABLE); CallWake; CallWake])
    TurboWaker.new io a log ∧ length io = 3 ∧ length log = 2.
Proof.
  destruct (turbo_waker_same (H := demo_cs) (H0 := cs_with_model_law) number numbered) with
    (ks := [CallRegister (mk_waker 3 TASK_VTABLE); CallWake; CallWake]) (c := mk_cpu true 0 0)
    as (io & a & log & Hr & Ht).
  - done.
  - intros w. unfold numbered, number. by rewrite decode_encode.
  - by split.
  - eexists io, _, log. split; [exact Ht|]. injection Hr as <- _ <-. by split.
Defined.
End TurboDemo.
