(* ===== verification/Srp.v ===== *)
(** * The stack-resource-policy mutex ([srp_mutex.rs])

    A resource records the priorities of its users; when users of different
    priorities share it, a lock raises the core's current priority number
    (ICR.CCPN) to the resource's ceiling for the duration of the closure. *)

From S2P Require Import Prelude CriticalSection WaitQueue.

Module SrpMutex.
Inductive State := Owned (p : Z) | CoOwned (p : Z) | Contended (p : Z).

#[export] Instance state_eq_dec : EqDecision State.
Proof. solve_decision. Defined.

Record t (M T : Type) := mk { state : Mutex.t M State; inner : T }.
Arguments mk {M T} _ _.
Arguments state {M T} _.
Arguments inner {M T} _.

Section Ops.
Context `{RawMutex M} {T : Type}.

Definition new (prio : Z) (value : T) : t M T := mk (Mutex.new (Owned prio)) value.

(** The closure of [register_access]. *)
Definition register_step {E} (prio : Z) : Op E State unit :=
  x ← op_get;
  match x with
  | Owned p => op_put (if Z.eqb p prio then CoOwned p else Contended (Z.max p prio))
  | CoOwned p => if negb (Z.eqb p prio) then op_put (Contended (Z.max p prio)) else mret tt
  | Contended p => if negb (Z.eqb p prio) then op_put (Contended (Z.max p prio)) else mret tt
  end.

Definition on_state {E A} (f : Op E (Cpu * Mutex.t M State) A) : Op E (Cpu * t M T) A :=
  zoom (λ s, (s.1, state s.2)) (λ cm s, (cm.1, mk cm.2 (inner s.2))) f.

Definition register_access {E} (prio : Z) : Op E (Cpu * t M T) unit :=
  on_state (Mutex.lock_mut (register_step prio)).

Definition do_srp {E U} (f : Op E (Cpu * t M T) U) : Op E (Cpu * t M T) U :=
  st ← on_state (Mutex.dirty_read op_get);
  match st with
  | Contended p =>
      s ← op_get;
      let previous_ceiling := icr_ccpn s.1 in
      (if Z.ltb previous_ceiling p then on_cpu (op_modify (set_ccpn p)) else mret tt);;
      x ← f;
      on_cpu (op_modify (set_ccpn previous_ceiling));;
      mret x
  | _ => f
  end.

Definition on_inner {E U} (f : Op E T U) : Op E (Cpu * t M T) U :=
  on_data (zoom inner (λ v m, mk (state m) v) f).

Definition lock_mut {E U} (f : Op E T U) : Op E (Cpu * t M T) U := do_srp (on_inner f).
Definition lock {E U} (f : Op E T U) : Op E (Cpu * t M T) U := do_srp (on_inner f).
End Ops.

Section Facts.
Context `{RawMutexLaws M} {T : Type}.

(** The state a sequence of registrations leaves, in closed form. *)
Definition registered (p0 : Z) (ps : list Z) : State :=
  match ps with
  | [] => Owned p0
  | _ => if forallb (Z.eqb p0) ps then CoOwned p0 else Contended (foldr Z.max p0 ps)
  end.

Definition register_pure (x : State) (prio : Z) : State :=
  match x with
  | Owned p => if Z.eqb p prio then CoOwned p else Contended (Z.max p prio)
  | CoOwned p | Contended p =>
      if Z.eqb p prio then x else Contended (Z.max p prio)
  end.

Lemma register_step_eq {E} prio x :
  register_step prio x = Val (tt, register_pure x prio, [] : list E).
Proof.
  unfold register_step. run_op. destruct x as [p|p|p]; simpl; by destruct (Z.eqb p prio).
Qed.

Lemma lock_mut_lock {E A} (f : Op E State A) :
  @Mutex.lock_mut M _ State E A f = Mutex.lock f.
Proof. done. Qed.

Lemma dirty_read_lock {E A} (f : Op E State A) :
  @Mutex.dirty_read M _ State E A f = Mutex.lock f.
Proof. done. Qed.

Lemma register_access_eq {E} prio c (m : t M T) : cpu_wf c →
  register_access prio (c, m) =
    Val (tt, (c, mk (Mutex.mk (Mutex.raw (state m))
      (register_pure (Mutex.data (state m)) prio)) (inner m)), [] : list E).
Proof.
  intros Hc. unfold register_access, on_state, zoom. cbn [fst snd].
  rewrite lock_mut_lock, Mutex.lock_transparent by done. by rewrite register_step_eq.
Qed.

Lemma foldr_max_ge x p0 ps : x ∈ p0 :: ps → (x ≤ foldr Z.max p0 ps)%Z.
Proof.
  induction ps as [|y ps IH]; simpl; rewrite !elem_of_cons, ?elem_of_nil in *; [intros [->|[]]; lia|].
  intros [->|[->|Hx]]; [specialize (IH (or_introl eq_refl))| |specialize (IH (or_intror Hx))]; lia.
Qed.

Lemma foldr_max_all_eq p0 ps : forallb (Z.eqb p0) ps = true → foldr Z.max p0 ps = p0.
Proof.
  induction ps as [|y ps IH]; [done|]. simpl. intros [Hy Hps]%andb_true_iff.
  rewrite IH by done. lia.
Qed.

Lemma registered_snoc p0 ps q :
  register_pure (registered p0 ps) q = registered p0 (ps ++ [q]).
Proof.
  assert (Hmax : ∀ a l, foldr Z.max a (l ++ [q]) = Z.max (foldr Z.max a l) q).
  { intros a l. induction l as [|y l IH]; simpl; lia. }
  destruct ps as [|x ps].
  { simpl. destruct (Z.eqb_spec p0 q); [done|]. simpl. f_equal. lia. }
  unfold registered at 1 2.
  destruct ((x :: ps) ++ [q]) as [|y l] eqn:Hl; [done|]. rewrite <-Hl.
  rewrite forallb_app, Hmax.
  replace (forallb (Z.eqb p0) [q]) with (Z.eqb p0 q) by (symmetry; apply andb_true_r).
  destruct (forallb (Z.eqb p0) (x :: ps)) eqn:Hall; cbn [andb register_pure].
  - rewrite foldr_max_all_eq by done. by destruct (Z.eqb_spec p0 q).
  - destruct (Z.eqb_spec (foldr Z.max p0 (x :: ps)) q); [|done].
    f_equal. lia.
Qed.

(** Run a list of registrations on a fresh mutex. *)
Fixpoint register_all {E} (ps : list Z) : Op E (Cpu * t M T) unit :=
  match ps with [] => mret tt | p :: ps => register_access p;; register_all ps end.

Lemma register_all_state {E} ps p0 qs c r v : cpu_wf c →
  register_all ps (c, mk (Mutex.mk r (registered p0 qs)) v) =
    Val (tt, (c, mk (Mutex.mk r (registered p0 (qs ++ ps))) v), [] : list E).
Proof.
  revert qs. induction ps as [|p ps IH]; intros qs Hc; [by rewrite app_nil_r|].
  simpl. cbv [mbind op_bind]. rewrite register_access_eq by done. cbn.
  rewrite registered_snoc, IH by done. by rewrite <-app_assoc.
Qed.

(** The ceiling the closure of a lock is entered with. *)
Definition ceiling_of (st : State) (ccpn : Z) : Z :=
  match st with Contended p => Z.max ccpn p | _ => ccpn end.

(** The core state after the section: the ceiling is put back. *)
Definition ceiling_restored (st : State) (ccpn : Z) (c : Cpu) : Cpu :=
  match st with Contended _ => set_ccpn ccpn c | _ => c end.

(** [do_srp] runs its closure once, at the ceiling, and restores the
    priority it found, whatever the closure does. *)
Lemma do_srp_eq {E U} (f : Op E (Cpu * t M T) U) c m : cpu_wf c →
  do_srp f (c, m) =
    let st := Mutex.data (state m) in
    match f (set_ccpn (ceiling_of st (icr_ccpn c)) c, m) with
    | Val (u, (c', m'), l) => Val (u, (ceiling_restored st (icr_ccpn c) c', m'), l)
    | Panic => Panic
    end.
Proof.
  intros Hc. unfold do_srp, on_state, on_cpu. run_op. rewrite dirty_read_lock.
  rewrite Mutex.lock_transparent by done. cbn.
  destruct m as [[r st] w], c as [ie cp ne]. cbn. destruct st as [p|p|p]; cbn.
  1-2: by destruct (f _) as [[[u [c' m']] l]|].
  replace (Z.max cp p) with (if (cp <? p)%Z then p else cp)
    by (destruct (Z.ltb_spec cp p); lia).
  destruct (cp <? p)%Z; unfold set_ccpn; cbn;
    destruct (f _) as [[[u [c' m']] l]|]; cbn; by rewrite ?app_nil_r.
Qed.

Lemma ceiling_of_registered p0 ps user ccpn q :
  user ∈ p0 :: ps → (user ≤ ccpn)%Z → q ∈ p0 :: ps →
  (q ≤ ceiling_of (registered p0 ps) ccpn)%Z.
Proof.
  intros Huser Hle Hq. unfold registered. destruct ps as [|p ps].
  { apply list_elem_of_singleton in Huser, Hq. simpl. lia. }
  destruct (forallb (Z.eqb p0) (p :: ps)) eqn:Hall; cbn [ceiling_of].
  - assert (∀ x, x ∈ p0 :: p :: ps → x = p0) as Heq.
    { intros x Hx. apply elem_of_cons in Hx as [->|Hx]; [done|].
      rewrite forallb_forall in Hall. symmetry. apply Z.eqb_eq, Hall.
      by apply list_elem_of_In. }
    rewrite (Heq q), <-(Heq user) by done. done.
  - pose proof (foldr_max_ge q p0 (p :: ps) Hq). lia.
Qed.

Definition set_inner (v : T) (m : t M T) : t M T := mk (state m) v.

(** C20: the resource ceiling rules out preemption by another user.  Whatever
    the order in which the users register, a user that runs at (at least)
    its own priority and locks the resource runs its closure at a priority
    no other registered user exceeds; the priority it found is put back
    afterwards, and the closure is applied to the protected value. *)
Theorem srp_lock_ceiling p0 ps user c v : cpu_wf c →
  user ∈ p0 :: ps → (user ≤ icr_ccpn c)%Z →
  ∃ m ceiling, register_all ps (c, new p0 v) = Val (tt, (c, m), [] : list Waker) ∧
    inner m = v ∧ (icr_ccpn c ≤ ceiling)%Z ∧ (∀ q, q ∈ p0 :: ps → q ≤ ceiling)%Z ∧
    (∀ (f : Op Waker (Cpu * t M T) unit) c' m' l, icr_ccpn c' = ceiling →
      f (set_ccpn ceiling c, m) = Val (tt, (c', m'), l) →
      do_srp f (c, m) = Val (tt, (set_ccpn (icr_ccpn c) c', m'), l)) ∧
    (∀ (f : Op Waker T unit) v' l, f v = Val (tt, v', l) →
      lock_mut f (c, m) = Val (tt, (c, set_inner v' m), l)).
Proof.
  intros Hc Huser Hle. unfold new, Mutex.new.
  pose proof (register_all_state (E := Waker) ps p0 [] c raw_INIT v Hc) as Hreg.
  set (m := mk (Mutex.mk raw_INIT (registered p0 ps)) v : t M T).
  set (ceiling := ceiling_of (registered p0 ps) (icr_ccpn c)).
  exists m, ceiling. split_and!; [done|done| | | |].
  - unfold ceiling, ceiling_of. destruct (registered p0 ps); lia.
  - intros q Hq. by apply (ceiling_of_registered p0 ps user).
  - intros f c' m' l Hc' Hf. rewrite do_srp_eq by done. cbn [state Mutex.data m] in *.
    fold ceiling. rewrite Hf. do 4 f_equal. unfold ceiling_restored, ceiling, ceiling_of in *.
    destruct c', (registered p0 ps); unfold set_ccpn; cbn in *; congruence.
  - intros f v' l Hf. unfold lock_mut. rewrite do_srp_eq by done. cbn [state Mutex.data m].
    unfold on_inner, on_data, zoom, set_inner. cbn. rewrite Hf.
    do 4 f_equal. by destruct (registered p0 ps), c.
Qed.
End Facts.

#[local] Existing Instances cs_with_model cs_with_model_law.

Lemma srp_lock_ceiling_witness : ∃ m ceiling,
  register_all [5; 3]%Z (mk_cpu true 2 0, new 2 true) =
    Val (tt, (mk_cpu true 2 0, m : t CriticalSectionRawMutex bool), [] : list Waker) ∧
  inner m = true ∧ (5 ≤ ceiling)%Z.
Proof.
  destruct (srp_lock_ceiling (M := CriticalSectionRawMutex)
    2 [5; 3]%Z 2 (mk_cpu true 2 0) true) as (m & ceiling & Hr & Hv & _ & Hq & _);
    [by split|by left|done|].
  exists m, ceiling. split_and!; [exact Hr|done|]. apply Hq. by right; left.
Defined.
End SrpMutex.
