(* ===== verification/RingBuffer.v ===== *)
(** * The ring buffer indices ([sync/ring_buffer.rs])

    The buffer itself is elsewhere (see [Pipe]): this component only manages
    the indices.  [slots] lists the occupied positions in order. *)

From S2P Require Import Prelude.

Module RingBuffer.
Record t := mk { start : Z; end_ : Z; full : bool }.

Section RingBuffer.
Context `{Profile}.
(** The const generic [N]. *)
Variable N : Z.

Definition new : t := mk 0 0 false.

Definition is_full (s : t) : bool := full s.
Definition is_empty (s : t) : bool := Z.eqb (start s) (end_ s) && negb (full s).

Definition wrap (n : Z) : Outcome Z :=
  assert_that (Z.leb n N);;
  mret (if Z.eqb n N then 0%Z else n).

(** The free contiguous range after the data. *)
Definition push_buf (s : t) : Outcome (Z * Z) :=
  if is_full s then mret (0, 0)%Z
  else
    n ← (if Z.leb (start s) (end_ s) then usub usize N (end_ s)
         else usub usize (start s) (end_ s));
    e ← uadd usize (end_ s) n;
    mret (end_ s, e).

Definition push (n : Z) (s : t) : Outcome t :=
  if Z.eqb n 0 then mret s
  else
    e ← uadd usize (end_ s) n;
    e ← wrap e;
    mret (mk (start s) e (Z.eqb (start s) e)).

(** The contiguous range at the front of the data. *)
Definition pop_buf (s : t) : Outcome (Z * Z) :=
  if is_empty s then mret (0, 0)%Z
  else
    n ← (if Z.leb (end_ s) (start s) then usub usize N (start s)
         else usub usize (end_ s) (start s));
    e ← uadd usize (start s) n;
    mret (start s, e).

Definition pop (n : Z) (s : t) : Outcome t :=
  if Z.eqb n 0 then mret s
  else
    b ← uadd usize (start s) n;
    b ← wrap b;
    mret (mk b (end_ s) false).

Definition len (s : t) : Outcome Z :=
  if is_empty s then mret 0%Z
  else if Z.ltb (start s) (end_ s) then usub usize (end_ s) (start s)
  else
    x ← uadd usize N (end_ s);
    usub usize x (start s).

Definition clear (s : t) : t := mk 0 0 false.

(** ** Invariant and abstract view *)

(** Arrays have at most [isize::MAX] bytes. *)
Definition size_ok : Prop := (0 < N < 2147483648)%Z.

Definition wf (s : t) : Prop :=
  (0 ≤ start s < N)%Z ∧ (0 ≤ end_ s < N)%Z ∧ (full s = true → start s = end_ s).

#[export] Instance wf_dec s : Decision (wf s).
Proof. unfold wf. apply _. Defined.

(** The number of occupied positions. *)
Definition used (s : t) : Z :=
  if is_empty s then 0%Z
  else if Z.ltb (start s) (end_ s) then (end_ s - start s)%Z
  else (N + end_ s - start s)%Z.

(** Position [i] of the data, counted from the front. *)
Definition idx (b i : Z) : Z := if Z.ltb (b + i) N then (b + i)%Z else (b + i - N)%Z.

Definition slots (s : t) : list Z := idx (start s) <$> seqZ 0 (used s).

(** Sizes of the contiguous free and occupied ranges. *)
Definition push_room (s : t) : Z :=
  if full s then 0%Z
  else if Z.leb (start s) (end_ s) then (N - end_ s)%Z else (start s - end_ s)%Z.
Definition pop_room (s : t) : Z :=
  if is_empty s then 0%Z
  else if Z.leb (end_ s) (start s) then (N - start s)%Z else (end_ s - start s)%Z.

(** Case analysis on the shape of the buffer, for arithmetic. *)
Ltac shape s :=
  destruct s as [b e f];
  repeat unfold wf, size_ok, used, push_room, pop_room, idx, is_full, is_empty in *; simpl in *;
  destruct (Z.eqb_spec b e), (Z.ltb_spec b e), (Z.leb_spec b e), (Z.leb_spec e b), f;
  simpl in *; try (intuition lia).

Lemma ring_new_wf : size_ok → wf new.
Proof. unfold size_ok, wf. simpl. lia. Qed.

Lemma used_bounds s : wf s → (0 ≤ used s ≤ N)%Z.
Proof. intros Hs. shape s. Qed.

Lemma used_full s : wf s → used s = N ↔ is_full s = true.
Proof. intros Hs. shape s. Qed.

Lemma used_empty s : wf s → used s = 0%Z ↔ is_empty s = true.
Proof. intros Hs. shape s. Qed.

Lemma push_room_bounds s : wf s →
  (0 ≤ push_room s ≤ N - used s)%Z ∧ (push_room s = 0%Z ↔ used s = N).
Proof. intros Hs. shape s. Qed.

Lemma pop_room_bounds s : wf s →
  (0 ≤ pop_room s ≤ used s)%Z ∧ (pop_room s = 0%Z ↔ used s = 0%Z).
Proof. intros Hs. shape s. Qed.

Lemma push_buf_eq s : size_ok → wf s →
  push_buf s = Val (if full s then (0, 0) else (end_ s, end_ s + push_room s))%Z.
Proof.
  intros HN Hs. unfold push_buf, uadd, usub. run_op. shape s.
  all: rewrite ?(arith_in W32 (N - _)), ?(arith_in W32 (_ - _)) by width.
  all: rewrite ?arith_in by width; done.
Qed.

Lemma pop_buf_eq s : size_ok → wf s →
  pop_buf s = Val (if is_empty s then (0, 0) else (start s, start s + pop_room s))%Z.
Proof.
  intros HN Hs. unfold pop_buf, uadd, usub. run_op. shape s.
  all: rewrite ?(arith_in W32 (N - _)), ?(arith_in W32 (_ - _)) by width.
  all: rewrite ?arith_in by width; done.
Qed.

Lemma len_eq s : size_ok → wf s → len s = Val (used s).
Proof.
  intros HN Hs. unfold len, uadd, usub. run_op. shape s.
  all: rewrite ?(arith_in W32 (N + _)) by width.
  all: rewrite ?arith_in by width; done.
Qed.

Lemma pop_room_min s : wf s → pop_room s = Z.min (used s) (N - start s).
Proof. intros Hs. shape s. Qed.

(** The range to push to lies beside any part of the front. *)
Lemma push_apart k s : wf s → full s = false → (k ≤ pop_room s)%Z →
  (end_ s + push_room s ≤ start s ∨ start s + k ≤ end_ s)%Z.
Proof. intros Hs Hf Hk. shape s. Qed.

(** Pushing within the contiguous range appends positions. *)
Lemma push_eq n s : size_ok → wf s → (0 ≤ n ≤ push_room s)%Z →
  ∃ s', push n s = Val s' ∧ wf s' ∧ start s' = start s ∧ used s' = (used s + n)%Z.
Proof.
  intros HN Hs Hn. unfold push, wrap, uadd, assert_that. run_op.
  destruct (Z.eqb_spec n 0) as [->|Hn0]; [exists s; rewrite Z.add_0_r; done|].
  pose proof (push_room_bounds s Hs) as Hpr.
  assert (end_ s + n ≤ N)%Z by shape s.
  rewrite arith_in by (shape s; width).
  rewrite (proj2 (Z.leb_le _ _)) by done. eexists; split; [done|].
  destruct (Z.eqb_spec (end_ s + n) N) as [HeN|HeN]; destruct s as [b e f];
    unfold wf, used, push_room, is_empty in *; cbn [start end_ full negb andb] in *.
  - destruct (Z.eqb_spec b 0), f, (Z.eqb_spec b e), (Z.ltb_spec b 0), (Z.ltb_spec b e),
      (Z.leb_spec b e); cbn [start end_ full negb andb] in *; intuition lia.
  - destruct (Z.eqb_spec b (e + n)), f, (Z.eqb_spec b e), (Z.ltb_spec b (e + n)),
      (Z.ltb_spec b e), (Z.leb_spec b e); cbn [start end_ full negb andb] in *; intuition lia.
Qed.

(** Popping within the contiguous range drops positions from the front. *)
Lemma pop_eq n s : size_ok → wf s → (0 ≤ n ≤ pop_room s)%Z →
  ∃ s', pop n s = Val s' ∧ wf s' ∧ used s' = (used s - n)%Z ∧
    ∀ i, (0 ≤ i < used s - n)%Z → idx (start s') i = idx (start s) (n + i).
Proof.
  intros HN Hs Hn. unfold pop, wrap, uadd, assert_that. run_op.
  destruct (Z.eqb_spec n 0) as [->|Hn0].
  { exists s. rewrite Z.sub_0_r. repeat split; try apply Hs. }
  pose proof (pop_room_bounds s Hs) as Hpr.
  assert (start s + n ≤ N)%Z by shape s.
  rewrite arith_in by (shape s; width).
  rewrite (proj2 (Z.leb_le _ _)) by done. eexists; split; [done|].
  split; [|split]; [| |intros i Hi; revert Hi].
  all: destruct (Z.eqb_spec (start s + n) N) as [HeN|HeN]; destruct s as [b e f];
    unfold wf, used, pop_room, idx, is_empty in *; cbn [start end_ full negb andb] in *.
  all: destruct f, (Z.eqb_spec b e), (Z.ltb_spec b e), (Z.leb_spec e b); cbn [start end_ full negb andb] in *;
    repeat match goal with
    | |- context [Z.eqb ?x ?y] => destruct (Z.eqb_spec x y)
    | |- context [Z.ltb ?x ?y] => destruct (Z.ltb_spec x y)
    end; cbn [start end_ full negb andb] in *; intuition (lia || discriminate).
Qed.

(** Where position [i] lies when [k] positions are pushed: the old ones
    avoid the range written, the new ones are that range, in order. *)
Lemma idx_push s k i : wf s → (k ≤ push_room s)%Z → (0 ≤ i < used s + k)%Z →
  if decide (i < used s)%Z
  then (idx (start s) i < end_ s ∨ end_ s + k ≤ idx (start s) i < N)%Z ∧
       (0 ≤ idx (start s) i)%Z
  else (idx (start s) i = end_ s + (i - used s))%Z ∧ (end_ s + k ≤ N)%Z ∧ (0 ≤ end_ s)%Z.
Proof.
  intros Hs Hk Hi. destruct s as [b e f]. unfold wf, used, push_room, idx, is_empty in *.
  cbn [start end_ full] in *.
  destruct f, (Z.eqb_spec b e), (Z.ltb_spec b e), (Z.leb_spec b e), (Z.ltb_spec (b + i) N);
    cbn [andb negb] in *; case_decide; lia.
Qed.

(** The front range lies inside the buffer. *)
Lemma pop_room_fits s : wf s → (start s + pop_room s ≤ N)%Z.
Proof.
  intros Hs. destruct s as [b e f]. unfold wf, pop_room, is_empty in *.
  cbn [start end_ full] in *.
  destruct (Z.eqb_spec b e), f, (Z.leb_spec e b); cbn [andb negb] in *; lia.
Qed.

Lemma push_room_fits s : wf s → (end_ s + push_room s ≤ N)%Z.
Proof.
  intros Hs. destruct s as [b e f]. unfold wf, push_room in *. cbn [start end_ full] in *.
  destruct f, (Z.leb_spec b e); lia.
Qed.

Lemma slots_NoDup s : wf s → NoDup (slots s).
Proof.
  intros Hs. unfold slots. apply NoDup_fmap_2_strong; [|apply NoDup_seqZ].
  intros i j Hi Hj. rewrite elem_of_seqZ in *. pose proof (used_bounds s Hs).
  unfold idx. destruct Hs as (Hb & _).
  destruct (Z.ltb_spec (start s + i) N), (Z.ltb_spec (start s + j) N); lia.
Qed.
End RingBuffer.
End RingBuffer.
