(* ===== verification/Pipe.v ===== *)
(** * The byte pipe ([sync/pipe.rs])

    [Pipe.t] is the pipe's buffer together with the state its mutex protects;
    every method body runs under the mutex, so a method is an operation on
    [Pipe.t] (see [CriticalSection.shared_lock_transparent]).  Raw slices of the
    buffer are checked: an out-of-range slice is undefined behaviour in the
    code and [Panic] here.  The contract is a bounded byte queue. *)

From S2P Require Import Prelude CriticalSection WaitQueue RingBuffer.
From Stdlib Require Import Strings.Byte.

#[export] Instance byte_inhabited : Inhabited byte := populate x00.

Module Pipe.
Inductive TryReadError := ReadEmpty.
Inductive TryWriteError := WriteFull.

Record PipeState := mk_state {
  buffer : RingBuffer.t;
  read_waker : WakerRegistration.t;
  write_waker : WakerRegistration.t
}.

Record t := mk { buf : list byte; inner : PipeState }.

Definition on_inner {E A} (f : Op E PipeState A) : Op E t A :=
  zoom inner (λ x s, mk (buf s) x) f.
Definition on_read_waker {E A} (f : Op E WakerRegistration.t A) : Op E t A :=
  on_inner (zoom read_waker (λ x s, mk_state (buffer s) x (write_waker s)) f).
Definition on_write_waker {E A} (f : Op E WakerRegistration.t A) : Op E t A :=
  on_inner (zoom write_waker (λ x s, mk_state (buffer s) (read_waker s) x) f).
Definition set_buffer {E} (b : RingBuffer.t) : Op E t unit :=
  on_inner (op_modify (λ s, mk_state b (read_waker s) (write_waker s))).
Definition ring (s : t) : RingBuffer.t := buffer (inner s).

(** [Buffer::get] and [Buffer::get_mut] on the bytes [p]. *)
Definition buffer_get (p : list byte) (r : Z * Z) : Outcome (list byte) :=
  if decide (0 ≤ r.1 ≤ r.2 ∧ r.2 ≤ Z.of_nat (length p))%Z
  then Val (take (Z.to_nat (r.2 - r.1)) (drop (Z.to_nat r.1) p)) else Panic.

(** The slice [&l[..n]]. *)
Definition slice_to (n : Z) (l : list byte) : Outcome (list byte) :=
  if decide (n ≤ Z.of_nat (length l))%Z then Val (take (Z.to_nat n) l) else Panic.

(** [dst[..].copy_from_slice(src)] writing [src] from position [i] of [dst]. *)
Definition copy_at (i : Z) (src dst : list byte) : list byte :=
  list_inserts (Z.to_nat i) src dst.

Definition slice_len (l : list byte) : Z := Z.of_nat (length l).

Section Ops.
Context `{Profile}.
Variable N : Z.

Definition new : t :=
  mk (replicate (Z.to_nat N) x00)
     (mk_state RingBuffer.new WakerRegistration.new WakerRegistration.new).

(** The caller's buffer [rbuf] is returned as the call leaves it. *)
Definition try_read_with_context (cx : option Waker) (rbuf : list byte) :
    Op Waker t (Result Z TryReadError * list byte) :=
  s ← op_get;
  op_when (RingBuffer.is_full (ring s)) (on_write_waker WakerRegistration.wake);;
  r ← op_lift (RingBuffer.pop_buf N (ring s));
  available ← op_lift (buffer_get (buf s) r);
  if Z.eqb (slice_len available) 0 then
    op_when_some cx (λ w, on_read_waker (WakerRegistration.register w));;
    mret (Err ReadEmpty, rbuf)
  else
    let n := Z.min (slice_len available) (slice_len rbuf) in
    dst ← op_lift (slice_to n rbuf);
    src ← op_lift (slice_to n available);
    b ← op_lift (RingBuffer.pop N n (ring s));
    set_buffer b;;
    mret (Ok n, copy_at 0 src rbuf).

Definition try_fill_buf_with_context (cx : option Waker) :
    Op Waker t (Result (list byte) TryReadError) :=
  s ← op_get;
  op_when (RingBuffer.is_full (ring s)) (on_write_waker WakerRegistration.wake);;
  r ← op_lift (RingBuffer.pop_buf N (ring s));
  available ← op_lift (buffer_get (buf s) r);
  if Z.eqb (slice_len available) 0 then
    op_when_some cx (λ w, on_read_waker (WakerRegistration.register w));;
    mret (Err ReadEmpty)
  else mret (Ok available).

Definition consume (amt : Z) : Op Waker t unit :=
  s ← op_get;
  available ← op_lift (RingBuffer.pop_buf N (ring s));
  op_lift (assert_that (Z.leb amt (available.2 - available.1)));;
  b ← op_lift (RingBuffer.pop N amt (ring s));
  set_buffer b.

Definition try_write_with_context (cx : option Waker) (wbuf : list byte) :
    Op Waker t (Result Z TryWriteError) :=
  s ← op_get;
  op_when (RingBuffer.is_empty (ring s)) (on_read_waker WakerRegistration.wake);;
  r ← op_lift (RingBuffer.push_buf N (ring s));
  available ← op_lift (buffer_get (buf s) r);
  if Z.eqb (slice_len available) 0 then
    op_when_some cx (λ w, on_write_waker (WakerRegistration.register w));;
    mret (Err WriteFull)
  else
    let n := Z.min (slice_len available) (slice_len wbuf) in
    dst ← op_lift (slice_to n available);
    src ← op_lift (slice_to n wbuf);
    op_modify (λ s, mk (copy_at r.1 src (buf s)) (inner s));;
    b ← op_lift (RingBuffer.push N n (ring s));
    set_buffer b;;
    mret (Ok n).

Definition try_write (wbuf : list byte) := try_write_with_context None wbuf.
Definition try_read (rbuf : list byte) := try_read_with_context None rbuf.
Definition try_fill_buf := try_fill_buf_with_context None.

Definition clear : Op Waker t unit :=
  s ← op_get;
  set_buffer (RingBuffer.clear (ring s));;
  on_write_waker WakerRegistration.wake.

Definition len : Op Waker t Z :=
  s ← op_get;
  op_lift (RingBuffer.len N (ring s)).
Definition is_full : Op Waker t bool := n ← len; mret (Z.eqb n N).
Definition is_empty : Op Waker t bool := n ← len; mret (Z.eqb n 0).
Definition capacity : Z := N.
Definition free_capacity : Op Waker t Z := n ← len; op_lift (usub usize N n).

(** ** Futures *)

(** [WriteFuture], [ReadFuture]: the polled call with the task's waker. *)
Definition write_poll (wbuf : list byte) (cx : Waker) : Op Waker t (Poll Z) :=
  r ← try_write_with_context (Some cx) wbuf;
  mret (match r with Ok n => Ready n | Err WriteFull => Pending end).

Definition read_poll (rbuf : list byte) (cx : Waker) : Op Waker t (Poll Z * list byte) :=
  r ← try_read_with_context (Some cx) rbuf;
  mret (match r.1 with Ok n => Ready n | Err ReadEmpty => Pending end, r.2).

(** [FillBufFuture]: its [pipe] field is taken on completion, so that a
    further poll panics.  [pending] is [pipe.is_some()]. *)
Definition fill_buf_poll (pending : bool) (cx : Waker) :
    Op Waker t (Poll (list byte) * bool) :=
  op_lift (assert_that pending);;
  r ← try_fill_buf_with_context (Some cx);
  mret (match r with Ok b => (Ready b, false) | Err ReadEmpty => (Pending, true) end).

(** The loop of [write_all], as one poll of its future runs it: it goes on
    from the unwritten rest until a write is pending.  [fuel] bounds the
    number of writes; [None] is exhausted fuel. *)
Fixpoint write_all_poll (fuel : nat) (rest : list byte) (cx : Waker) :
    Op Waker t (option (Poll unit * list byte)) :=
  match fuel with
  | O => mret None
  | S fuel =>
      match rest with
      | [] => mret (Some (Ready tt, []))
      | _ :: _ =>
          r ← write_poll rest cx;
          match r with
          | Pending => mret (Some (Pending, rest))
          | Ready n =>
              op_lift (assert_that (Z.leb n (slice_len rest)));;
              write_all_poll fuel (drop (Z.to_nat n) rest) cx
          end
      end
  end.
End Ops.

(** ** The bounded byte queue behind a pipe *)
Section Facts.
Context `{Profile}.
Variable N : Z.
Hypothesis HN : RingBuffer.size_ok N.

(** The buffered bytes, oldest first. *)
Definition contents (s : t) : list byte :=
  (λ i, buf s !!! Z.to_nat i) <$> RingBuffer.slots N (ring s).

Definition wf (s : t) : Prop :=
  length (buf s) = Z.to_nat N ∧ RingBuffer.wf N (ring s).

Lemma new_wf : wf (new N).
Proof. split; [apply length_replicate|]. by apply RingBuffer.ring_new_wf. Qed.

Lemma contents_new : contents (new N) = [].
Proof. done. Qed.

Lemma length_contents s : wf s → length (contents s) = Z.to_nat (RingBuffer.used N (ring s)).
Proof. intros Hs. unfold contents, RingBuffer.slots. by rewrite !length_fmap, length_seqZ. Qed.

Lemma contents_lookup s i : wf s → i < length (contents s) →
  contents s !! i =
    Some (buf s !!! Z.to_nat (RingBuffer.idx N (RingBuffer.start (ring s)) (Z.of_nat i))).
Proof.
  intros Hs Hi. rewrite length_contents in Hi by done. unfold contents, RingBuffer.slots.
  rewrite !list_lookup_fmap, lookup_seqZ_lt by lia. done.
Qed.

Lemma buf_lookup_total (l : list byte) i : i < length l → l !! i = Some (l !!! i).
Proof. intros Hi. by apply list_lookup_lookup_total_lt. Qed.

(** The front slice of the ring is a prefix of the contents. *)
Lemma front_slice s k : wf s → (0 ≤ k ≤ RingBuffer.pop_room N (ring s))%Z →
  take (Z.to_nat k) (drop (Z.to_nat (RingBuffer.start (ring s))) (buf s)) =
  take (Z.to_nat k) (contents s).
Proof.
  intros Hs Hk. pose proof (length_contents s Hs) as Hlen. destruct Hs as [Hb Hr].
  pose proof (RingBuffer.pop_room_bounds N _ Hr) as Hpr.
  pose proof (RingBuffer.pop_room_fits N _ Hr) as Hend.
  pose proof Hr as (Hst & _).
  apply list_eq_same_length with (n := Z.to_nat k).
  - rewrite length_take, Hlen. lia.
  - rewrite length_take, length_drop, Hb. lia.
  - intros i x y Hi. rewrite !lookup_take_lt by lia. rewrite lookup_drop.
    rewrite contents_lookup; [|by split|lia].
    unfold RingBuffer.idx. destruct (Z.ltb_spec (RingBuffer.start (ring s) + Z.of_nat i) N); [|lia].
    rewrite buf_lookup_total by lia. intros. simplify_eq.
    f_equal. lia.
Qed.

(** Writing after the data and advancing the end appends to the contents. *)
Lemma contents_push s src b' : wf s →
  (Z.of_nat (length src) ≤ RingBuffer.push_room N (ring s))%Z →
  RingBuffer.push N (Z.of_nat (length src)) (ring s) = Val b' →
  let s' := mk (copy_at (RingBuffer.end_ (ring s)) src (buf s))
               (mk_state b' (read_waker (inner s)) (write_waker (inner s))) in
  wf s' ∧ contents s' = contents s ++ src.
Proof.
  intros Hs Hsrc Hpush s'. pose proof (length_contents s Hs) as Hlen.
  destruct Hs as [Hb Hr].
  destruct (RingBuffer.push_eq N (Z.of_nat (length src)) (ring s) HN Hr) as
    (b'' & Hpush' & Hwf' & Hst' & Hused'); [lia|].
  pose proof Hr as (_ & Hend_lt & _).
  rewrite Hpush in Hpush'. injection Hpush' as <-.
  assert (Hs' : wf s').
  { split; [|exact Hwf']. unfold s', copy_at. simpl. by rewrite length_inserts. }
  split; [done|].
  pose proof (RingBuffer.used_bounds N _ Hr) as Hub.
  pose proof (RingBuffer.used_bounds N _ Hwf') as Hub'.
  apply list_eq_same_length with (n := Z.to_nat (RingBuffer.used N b')).
  { rewrite length_app, Hlen. lia. }
  { rewrite length_contents by done. done. }
  intros i x y Hi. rewrite contents_lookup; [|done|rewrite length_contents by done; done].
  pose proof (RingBuffer.idx_push N (ring s) (Z.of_nat (length src)) (Z.of_nat i) Hr Hsrc
    ltac:(lia)) as Hend. change (ring s') with b'. rewrite Hst'. cbn [buf s'].
  intros [= <-] Hy. case_decide as Hiu.
  - rewrite lookup_app_l, contents_lookup in Hy; [|by split|lia|lia]. injection Hy as <-.
    unfold copy_at. apply list_lookup_total_correct.
    destruct Hend as [[Hlt|Hge] Hpos].
    + rewrite list_lookup_inserts_lt by lia. apply buf_lookup_total. lia.
    + rewrite list_lookup_inserts_ge by lia. apply buf_lookup_total. lia.
  - destruct Hend as (Hidx & Hfit & Hpos).
    rewrite lookup_app_r in Hy by lia. rewrite Hlen in Hy. rewrite Hidx.
    unfold copy_at. apply list_lookup_total_correct.
    rewrite list_lookup_inserts by lia. rewrite <-Hy. f_equal. lia.
Qed.

(** Dropping [n] positions from the front drops [n] bytes. *)
Lemma contents_pop s n b' : wf s → (0 ≤ n ≤ RingBuffer.pop_room N (ring s))%Z →
  RingBuffer.pop N n (ring s) = Val b' →
  let s' := mk (buf s) (mk_state b' (read_waker (inner s)) (write_waker (inner s))) in
  wf s' ∧ contents s' = drop (Z.to_nat n) (contents s).
Proof.
  intros Hs Hn Hpop s'. pose proof (length_contents s Hs) as Hlen.
  destruct Hs as [Hb Hr].
  destruct (RingBuffer.pop_eq N n (ring s) HN Hr Hn) as (b'' & Hpop' & Hwf' & Hused' & Hidx).
  rewrite Hpop in Hpop'. injection Hpop' as <-.
  assert (Hs' : wf s') by (split; [done|exact Hwf']). split; [done|].
  pose proof (RingBuffer.used_bounds N _ Hwf') as Hub'.
  apply list_eq_same_length with (n := Z.to_nat (RingBuffer.used N b')).
  { rewrite length_drop, Hlen. lia. }
  { rewrite length_contents by done. done. }
  intros i x y Hi. rewrite contents_lookup; [|done|rewrite length_contents by done; done].
  rewrite lookup_drop, contents_lookup; [|by split|lia]. simpl.
  intros [= <-] [= <-]. rewrite Hidx by lia. do 3 f_equal. lia.
Qed.

(** ** The operations on the queue *)

Definition set_read_waker (w : WakerRegistration.t) (s : t) : t :=
  mk (buf s) (mk_state (buffer (inner s)) w (write_waker (inner s))).
Definition set_write_waker (w : WakerRegistration.t) (s : t) : t :=
  mk (buf s) (mk_state (buffer (inner s)) (read_waker (inner s)) w).
Definition set_ring (b : RingBuffer.t) (s : t) : t :=
  mk (buf s) (mk_state b (read_waker (inner s)) (write_waker (inner s))).

Lemma runs_wake_writers b s :
  runs (op_when b (on_write_waker WakerRegistration.wake)) s tt
    (set_write_waker (WakerRegistration.after_wake b (write_waker (inner s))) s)
    (WakerRegistration.woken b (write_waker (inner s))).
Proof.
  destruct b; [|destruct s as [? []]; apply runs_ret].
  refine (runs_zoom _ _ _ _ _ _ _ (runs_zoom _ _ _ _ _ _ _ (WakerRegistration.runs_wake _))).
Qed.

Lemma runs_wake_readers b s :
  runs (op_when b (on_read_waker WakerRegistration.wake)) s tt
    (set_read_waker (WakerRegistration.after_wake b (read_waker (inner s))) s)
    (WakerRegistration.woken b (read_waker (inner s))).
Proof.
  destruct b; [|destruct s as [? []]; apply runs_ret].
  refine (runs_zoom _ _ _ _ _ _ _ (runs_zoom _ _ _ _ _ _ _ (WakerRegistration.runs_wake _))).
Qed.

Lemma runs_register_reader cx s :
  runs (op_when_some cx (λ w, on_read_waker (WakerRegistration.register w))) s tt
    (set_read_waker (WakerRegistration.registered cx (read_waker (inner s))) s)
    (WakerRegistration.displaced cx (read_waker (inner s))).
Proof.
  destruct cx; [|destruct s as [? []]; apply runs_ret].
  refine (runs_zoom _ _ _ _ _ _ _ (runs_zoom _ _ _ _ _ _ _ (WakerRegistration.runs_register _ _))).
Qed.

Lemma runs_register_writer cx s :
  runs (op_when_some cx (λ w, on_write_waker (WakerRegistration.register w))) s tt
    (set_write_waker (WakerRegistration.registered cx (write_waker (inner s))) s)
    (WakerRegistration.displaced cx (write_waker (inner s))).
Proof.
  destruct cx; [|destruct s as [? []]; apply runs_ret].
  refine (runs_zoom _ _ _ _ _ _ _ (runs_zoom _ _ _ _ _ _ _ (WakerRegistration.runs_register _ _))).
Qed.

Lemma runs_set_buffer b s : runs (set_buffer b : Op Waker t unit) s tt (set_ring b s) [].
Proof. done. Qed.

Hint Resolve runs_wake_writers runs_wake_readers runs_register_reader runs_register_writer
  runs_set_buffer : runtime.

Lemma is_full_contents s : wf s →
  RingBuffer.is_full (ring s) = bool_decide (length (contents s) = Z.to_nat N).
Proof.
  intros Hs. pose proof Hs as [_ Hr]. apply eq_true_iff_eq.
  rewrite bool_decide_eq_true, length_contents, <-(RingBuffer.used_full N) by done.
  pose proof (RingBuffer.used_bounds N _ Hr). lia.
Qed.

Lemma is_empty_contents s : wf s →
  RingBuffer.is_empty (ring s) = bool_decide (contents s = []).
Proof.
  intros Hs. pose proof Hs as [_ Hr]. apply eq_true_iff_eq.
  rewrite bool_decide_eq_true, <-length_zero_iff_nil, length_contents,
    <-(RingBuffer.used_empty N) by done.
  pose proof (RingBuffer.used_bounds N _ Hr). lia.
Qed.

Lemma copy_at_0 (src dst : list byte) : length src ≤ length dst →
  copy_at 0 src dst = src ++ drop (length src) dst.
Proof.
  intros Hl. unfold copy_at. apply list_eq. intros i.
  destruct (decide (i < length src)).
  - rewrite list_lookup_inserts by lia. rewrite lookup_app_l by lia. f_equal. lia.
  - rewrite list_lookup_inserts_ge by lia. rewrite lookup_app_r by lia.
    rewrite lookup_drop. f_equal. lia.
Qed.

Lemma slice_to_ok n (l : list byte) : (n ≤ Z.of_nat (length l))%Z →
  slice_to n l = Val (take (Z.to_nat n) l).
Proof. intros Hn. unfold slice_to. by rewrite decide_True. Qed.

Definition front (s : t) : list byte :=
  take (Z.to_nat (RingBuffer.pop_room N (ring s))) (contents s).

Lemma length_front s : wf s → slice_len (front s) = RingBuffer.pop_room N (ring s).
Proof.
  intros Hs. pose proof (RingBuffer.pop_room_bounds N _ (proj2 Hs)).
  unfold slice_len, front. rewrite length_take, length_contents by done. lia.
Qed.

Lemma front_nil s : wf s → slice_len (front s) = 0%Z ↔ contents s = [].
Proof.
  intros Hs. pose proof (RingBuffer.pop_room_bounds N _ (proj2 Hs)) as Hp.
  rewrite length_front, <-length_zero_iff_nil, length_contents by done. lia.
Qed.

Lemma available_front s : wf s → ∃ r, RingBuffer.pop_buf N (ring s) = Val r ∧
  buffer_get (buf s) r = Val (front s) ∧ (r.2 - r.1)%Z = RingBuffer.pop_room N (ring s).
Proof.
  intros Hs. pose proof Hs as [Hb Hr]. rewrite RingBuffer.pop_buf_eq by done.
  pose proof (RingBuffer.pop_room_bounds N _ Hr) as Hp.
  pose proof (RingBuffer.pop_room_fits N _ Hr) as Hfit. pose proof Hr as (Hst & _).
  eexists; split; [done|]. unfold buffer_get, front.
  destruct (RingBuffer.is_empty (ring s)) eqn:He; cbn [fst snd].
  - apply (RingBuffer.used_empty N) in He; [|done].
    replace (RingBuffer.pop_room N (ring s)) with 0%Z by lia.
    rewrite decide_True by lia. done.
  - rewrite decide_True by lia. split; [|lia].
    rewrite <-front_slice by (done || lia). do 2 f_equal. lia.
Qed.

Lemma available_back s : wf s → ∃ r av, RingBuffer.push_buf N (ring s) = Val r ∧
  buffer_get (buf s) r = Val av ∧ slice_len av = RingBuffer.push_room N (ring s) ∧
  (RingBuffer.push_room N (ring s) ≠ 0%Z → r.1 = RingBuffer.end_ (ring s)).
Proof.
  intros Hs. pose proof Hs as [Hb Hr]. rewrite RingBuffer.push_buf_eq by done.
  pose proof (RingBuffer.push_room_bounds N _ Hr) as Hp.
  pose proof (RingBuffer.push_room_fits N _ Hr) as Hfit. pose proof Hr as (_ & He & _).
  destruct (RingBuffer.full (ring s)) eqn:Hf; eexists _, _; (split; [done|]);
    unfold buffer_get, slice_len; cbn [fst snd]; rewrite decide_True by lia;
    (split; [done|]).
  - assert (RingBuffer.push_room N (ring s) = 0%Z) as ->.
    { unfold RingBuffer.push_room. by rewrite Hf. }
    by rewrite Z.sub_diag.
  - split; [|done]. rewrite length_take, length_drop. lia.
Qed.

Lemma empty_not_full s : wf s → contents s = [] → RingBuffer.is_full (ring s) = false.
Proof.
  intros Hs Hc. rewrite is_full_contents, Hc by done. apply bool_decide_eq_false.
  unfold RingBuffer.size_ok in HN. simpl. lia.
Qed.

Lemma full_not_empty s : wf s → length (contents s) = Z.to_nat N → contents s ≠ [].
Proof. intros Hs Hl Hc. rewrite Hc in Hl. unfold RingBuffer.size_ok in HN. simpl in Hl. lia. Qed.

(** *** Reading *)

Definition wake_writers_if_full (s : t) : t :=
  set_write_waker (WakerRegistration.after_wake (RingBuffer.is_full (ring s))
    (write_waker (inner s))) s.
Definition woken_writers (s : t) : list Waker :=
  WakerRegistration.woken (RingBuffer.is_full (ring s)) (write_waker (inner s)).
Definition register_reader (cx : option Waker) (s : t) : t :=
  set_read_waker (WakerRegistration.registered cx (read_waker (inner s))) s.

Lemma wake_writers_empty s : wf s → contents s = [] →
  wake_writers_if_full s = s ∧ woken_writers s = [].
Proof.
  intros Hs Hc. unfold wake_writers_if_full, woken_writers.
  rewrite empty_not_full by done. by destruct s as [? []].
Qed.

Lemma runs_read_empty cx rbuf s : wf s → contents s = [] →
  runs (try_read_with_context N cx rbuf) s (Err ReadEmpty, rbuf) (register_reader cx s)
    (WakerRegistration.displaced cx (read_waker (inner s))).
Proof.
  intros Hs Hc. destruct (available_front s Hs) as (r & Hr & Hget & _).
  unfold try_read_with_context. op_step.
  eapply runs_bind_nil; [by apply runs_when_false, empty_not_full|].
  do 2 op_step. rewrite (proj2 (Z.eqb_eq _ _)) by (by apply front_nil).
  eapply runs_log; [op_steps|apply app_nil_r].
Qed.

Definition read_count (rbuf : list byte) (s : t) : nat :=
  Nat.min (length (front s)) (length rbuf).

Lemma read_count_front rbuf s : wf s →
  take (read_count rbuf s) (front s) = take (read_count rbuf s) (contents s) ∧
  length (take (read_count rbuf s) (contents s)) = read_count rbuf s ∧
  (Z.of_nat (read_count rbuf s) ≤ RingBuffer.pop_room N (ring s))%Z.
Proof.
  intros Hs. pose proof (length_front s Hs) as Hlf. unfold slice_len in Hlf.
  pose proof (RingBuffer.pop_room_bounds N _ (proj2 Hs)) as Hpr. unfold read_count. split_and!.
  - unfold front at 2. rewrite take_take. f_equal. lia.
  - rewrite length_take, length_contents by done. lia.
  - lia.
Qed.

Lemma runs_read_some cx rbuf s : wf s → contents s ≠ [] →
  let n := read_count rbuf s in
  ∃ s', runs (try_read_with_context N cx rbuf) s
          (Ok (Z.of_nat n), take n (contents s) ++ drop n rbuf) s' (woken_writers s) ∧
    wf s' ∧ contents s' = drop n (contents s) ∧
    read_waker (inner s') = read_waker (inner s) ∧
    write_waker (inner s') = write_waker (inner (wake_writers_if_full s)).
Proof.
  intros Hs Hc n. destruct (available_front s Hs) as (r & Hr & Hget & _).
  destruct (read_count_front rbuf s Hs) as (Htake & Hlen & Hroom). fold n in Htake, Hlen, Hroom.
  destruct (RingBuffer.pop_eq N (Z.of_nat n) (ring s) HN (proj2 Hs)) as (b' & Hpop & _); [lia|].
  destruct (contents_pop (wake_writers_if_full s) (Z.of_nat n) b') as [Hwf' Hc'];
    [done|change (ring (wake_writers_if_full s)) with (ring s); lia|done|].
  assert (Hmin : Z.min (slice_len (front s)) (slice_len rbuf) = Z.of_nat n)
    by (unfold slice_len, n, read_count; lia).
  assert (Hd : slice_to (Z.of_nat n) rbuf = Val (take n rbuf)).
  { rewrite slice_to_ok by (unfold n, read_count; lia). by rewrite Nat2Z.id. }
  assert (Hsrc : slice_to (Z.of_nat n) (front s) = Val (take n (contents s))).
  { rewrite slice_to_ok by (unfold n, read_count; lia). by rewrite Nat2Z.id, Htake. }
  eexists. split; [|split; [exact Hwf'|split; [by rewrite Hc', Nat2Z.id|done]]].
  unfold try_read_with_context. eapply runs_log.
  - do 4 op_step. destruct (Z.eqb_spec (slice_len (front s)) 0) as [H0|_];
      [by apply front_nil in H0|].
    rewrite Hmin. do 4 op_step.
    replace (take n (contents s) ++ drop n rbuf) with (copy_at 0 (take n (contents s)) rbuf);
      [apply runs_ret|].
    rewrite copy_at_0; rewrite Hlen; [done|]. unfold n, read_count. lia.
  - apply app_nil_r.
Qed.

Lemma runs_fill_empty cx s : wf s → contents s = [] →
  runs (try_fill_buf_with_context N cx) s (Err ReadEmpty) (register_reader cx s)
    (WakerRegistration.displaced cx (read_waker (inner s))).
Proof.
  intros Hs Hc. destruct (available_front s Hs) as (r & Hr & Hget & _).
  unfold try_fill_buf_with_context. op_step.
  eapply runs_bind_nil; [by apply runs_when_false, empty_not_full|].
  do 2 op_step. rewrite (proj2 (Z.eqb_eq _ _)) by (by apply front_nil).
  eapply runs_log; [op_steps|apply app_nil_r].
Qed.

Lemma runs_fill_some cx s : wf s → contents s ≠ [] →
  runs (try_fill_buf_with_context N cx) s (Ok (front s)) (wake_writers_if_full s)
    (woken_writers s).
Proof.
  intros Hs Hc. destruct (available_front s Hs) as (r & Hr & Hget & _).
  unfold try_fill_buf_with_context. eapply runs_log.
  - do 4 op_step. destruct (Z.eqb_spec (slice_len (front s)) 0) as [H0|_];
      [by apply front_nil in H0|]. op_steps.
  - apply app_nil_r.
Qed.

(** *** Consuming *)

Lemma runs_consume amt s : wf s → (0 ≤ amt)%Z →
  if decide (amt ≤ slice_len (front s))%Z then
    ∃ s', runs (consume N amt) s tt s' [] ∧ wf s' ∧
      contents s' = drop (Z.to_nat amt) (contents s) ∧
      read_waker (inner s') = read_waker (inner s) ∧
      write_waker (inner s') = write_waker (inner s)
  else consume N amt s = Panic.
Proof.
  intros Hs Hamt. destruct (available_front s Hs) as (r & Hr & _ & Hroom).
  rewrite length_front by done. case_decide as Hle.
  - destruct (RingBuffer.pop_eq N amt (ring s) HN (proj2 Hs)) as (b' & Hpop & _); [lia|].
    destruct (contents_pop s amt b') as [Hwf' Hc']; [done|lia|done|].
    eexists. split; [|split; [exact Hwf'|split; [exact Hc'|done]]].
    assert (Hassert : assert_that (Z.leb amt (r.2 - r.1)) = Val tt).
    { unfold assert_that. by rewrite (proj2 (Z.leb_le _ _)) by lia. }
    unfold consume. op_steps.
  - unfold consume. run_op. rewrite Hr. cbn. unfold assert_that.
    by rewrite (proj2 (Z.leb_gt _ _)) by lia.
Qed.

(** *** Writing *)

Definition wake_readers_if_empty (s : t) : t :=
  set_read_waker (WakerRegistration.after_wake (RingBuffer.is_empty (ring s))
    (read_waker (inner s))) s.
Definition woken_readers (s : t) : list Waker :=
  WakerRegistration.woken (RingBuffer.is_empty (ring s)) (read_waker (inner s)).
Definition register_writer (cx : option Waker) (s : t) : t :=
  set_write_waker (WakerRegistration.registered cx (write_waker (inner s))) s.

Lemma push_room_full s : wf s →
  RingBuffer.push_room N (ring s) = 0%Z ↔ length (contents s) = Z.to_nat N.
Proof.
  intros Hs. pose proof (RingBuffer.push_room_bounds N _ (proj2 Hs)) as [_ ->].
  pose proof (RingBuffer.used_bounds N _ (proj2 Hs)). rewrite length_contents by done. lia.
Qed.

Lemma runs_write_full cx wbuf s : wf s → length (contents s) = Z.to_nat N →
  runs (try_write_with_context N cx wbuf) s (Err WriteFull) (register_writer cx s)
    (WakerRegistration.displaced cx (write_waker (inner s))).
Proof.
  intros Hs Hc. destruct (available_back s Hs) as (r & av & Hr & Hget & Hav & _).
  assert (He : RingBuffer.is_empty (ring s) = false).
  { rewrite is_empty_contents by done. by apply bool_decide_eq_false, full_not_empty. }
  apply push_room_full in Hc; [|done].
  unfold try_write_with_context. op_step.
  eapply runs_bind_nil; [by apply runs_when_false|].
  do 2 op_step. rewrite (proj2 (Z.eqb_eq _ _)) by lia.
  eapply runs_log; [op_steps|apply app_nil_r].
Qed.

Definition write_count (wbuf : list byte) (s : t) : nat :=
  Nat.min (Z.to_nat (RingBuffer.push_room N (ring s))) (length wbuf).

Lemma runs_write_some cx wbuf s : wf s → length (contents s) ≠ Z.to_nat N →
  let n := write_count wbuf s in
  ∃ s', runs (try_write_with_context N cx wbuf) s (Ok (Z.of_nat n)) s' (woken_readers s) ∧
    wf s' ∧ contents s' = contents s ++ take n wbuf ∧
    read_waker (inner s') = read_waker (inner (wake_readers_if_empty s)) ∧
    write_waker (inner s') = write_waker (inner s).
Proof.
  intros Hs Hc n. destruct (available_back s Hs) as (r & av & Hr & Hget & Hav & Hst).
  rewrite <-push_room_full in Hc by done. specialize (Hst Hc).
  pose proof (RingBuffer.push_room_bounds N _ (proj2 Hs)) as Hpr.
  assert (Hsrc : length (take n wbuf) = n)
    by (rewrite length_take; unfold n, write_count; lia).
  destruct (RingBuffer.push_eq N (Z.of_nat n) (ring s) HN (proj2 Hs)) as (b' & Hpush & _);
    [unfold n, write_count; lia|].
  destruct (contents_push (wake_readers_if_empty s) (take n wbuf) b') as [Hwf' Hc'].
  { done. }
  { change (ring (wake_readers_if_empty s)) with (ring s). unfold n, write_count in *. lia. }
  { by rewrite Hsrc. }
  assert (Hmin : Z.min (slice_len av) (slice_len wbuf) = Z.of_nat n)
    by (unfold slice_len, n, write_count in *; lia).
  assert (Hd : slice_to (Z.of_nat n) av = Val (take n av)).
  { rewrite slice_to_ok by (unfold slice_len, n, write_count in *; lia). by rewrite Nat2Z.id. }
  assert (Hw : slice_to (Z.of_nat n) wbuf = Val (take n wbuf)).
  { rewrite slice_to_ok by (unfold n, write_count in *; lia). by rewrite Nat2Z.id. }
  eexists. split; [|split; [exact Hwf'|split; [exact Hc'|done]]].
  unfold try_write_with_context. eapply runs_log.
  - do 4 op_step. rewrite (proj2 (Z.eqb_neq _ _)) by lia.
    rewrite Hmin. do 2 op_step. rewrite Hst. op_steps.
  - apply app_nil_r.
Qed.

Lemma runs_clear s : wf s →
  ∃ s', runs clear s tt s' (option_list (WakerRegistration.waker (write_waker (inner s)))) ∧
    wf s' ∧ contents s' = [] ∧ read_waker (inner s') = read_waker (inner s) ∧
    write_waker (inner s') = WakerRegistration.new.
Proof.
  intros Hs. eexists. split; [unfold clear; do 2 op_step; apply (runs_wake_writers true)|].
  split_and!; [split; [apply Hs|by apply RingBuffer.ring_new_wf]|done..].
Qed.

Lemma runs_len s : wf s → runs (len N) s (Z.of_nat (length (contents s))) s [].
Proof.
  intros Hs. unfold len. op_step. apply runs_lift.
  rewrite RingBuffer.len_eq by (done || apply Hs). f_equal.
  pose proof (RingBuffer.used_bounds N _ (proj2 Hs)). rewrite length_contents by done. lia.
Qed.

(** ** The contract: a bounded byte queue *)

Inductive call :=
| Write (cx : option Waker) (b : list byte)
| Read (cx : option Waker) (b : list byte)
| FillBuf (cx : option Waker)
| Consume (amt : Z)
| Clear
| Len
| IsFull
| IsEmpty
| FreeCapacity.

Definition is_query (c : call) : bool :=
  match c with Len | IsFull | IsEmpty | FreeCapacity => true | _ => false end.

Inductive ret :=
| RWrite (r : Result Z TryWriteError)
| RRead (r : Result Z TryReadError) (b : list byte)
| RFill (r : Result (list byte) TryReadError)
| RUnit
| RLen (n : Z)
| RBool (b : bool).

Definition run (c : call) : Op Waker t ret :=
  match c with
  | Write cx b => r ← try_write_with_context N cx b; mret (RWrite r)
  | Read cx b => r ← try_read_with_context N cx b; mret (RRead r.1 r.2)
  | FillBuf cx => r ← try_fill_buf_with_context N cx; mret (RFill r)
  | Consume amt => consume N amt;; mret RUnit
  | Clear => clear;; mret RUnit
  | Len => n ← len N; mret (RLen n)
  | IsFull => b ← is_full N; mret (RBool b)
  | IsEmpty => b ← is_empty N; mret (RBool b)
  | FreeCapacity => n ← free_capacity N; mret (RLen n)
  end.

(** [spec q c r q']: on a queue holding [q], the call [c] may return [r]
    and leave [q'].  A non-empty write or read moves at least one byte. *)
Inductive spec : list byte → call → ret → list byte → Prop :=
| spec_write_full q cx b :
    length q = Z.to_nat N → spec q (Write cx b) (RWrite (Err WriteFull)) q
| spec_write q cx b n :
    length q < Z.to_nat N → n ≤ length b → length q + n ≤ Z.to_nat N →
    (b ≠ [] → 0 < n) →
    spec q (Write cx b) (RWrite (Ok (Z.of_nat n))) (q ++ take n b)
| spec_read_empty cx b : spec [] (Read cx b) (RRead (Err ReadEmpty) b) []
| spec_read q cx b n :
    q ≠ [] → n ≤ length b → n ≤ length q → (b ≠ [] → 0 < n) →
    spec q (Read cx b) (RRead (Ok (Z.of_nat n)) (take n q ++ drop n b)) (drop n q)
| spec_fill_empty cx : spec [] (FillBuf cx) (RFill (Err ReadEmpty)) []
| spec_fill q cx p : p ≠ [] → p `prefix_of` q → spec q (FillBuf cx) (RFill (Ok p)) q
| spec_consume q amt :
    (0 ≤ amt ≤ Z.of_nat (length q))%Z →
    spec q (Consume amt) RUnit (drop (Z.to_nat amt) q)
| spec_clear q : spec q Clear RUnit []
| spec_len q : spec q Len (RLen (Z.of_nat (length q))) q
| spec_is_full q : spec q IsFull (RBool (bool_decide (length q = Z.to_nat N))) q
| spec_is_empty q : spec q IsEmpty (RBool (bool_decide (q = []))) q
| spec_free_capacity q : spec q FreeCapacity (RLen (N - Z.of_nat (length q))) q.

Lemma length_contents_bound s : wf s → length (contents s) ≤ Z.to_nat N.
Proof.
  intros Hs. pose proof (RingBuffer.used_bounds N _ (proj2 Hs)).
  rewrite length_contents by done. lia.
Qed.

Lemma run_write s cx b : wf s → ∃ r s' log, runs (run (Write cx b)) s r s' log ∧
  wf s' ∧ spec (contents s) (Write cx b) r (contents s').
Proof.
  intros Hs. pose proof (length_contents_bound s Hs) as Hb.
  destruct (decide (length (contents s) = Z.to_nat N)) as [Hf|Hf].
  - do 3 eexists. split; [apply (runs_map _ RWrite), runs_write_full; done|].
    split; [done|]. by constructor.
  - destruct (runs_write_some cx b s Hs Hf) as (s' & Hrun & Hs' & Hc & _).
    do 3 eexists. split; [by apply (runs_map _ RWrite)|]. split; [done|]. rewrite Hc.
    pose proof (RingBuffer.push_room_bounds N _ (proj2 Hs)) as Hp.
    pose proof (RingBuffer.used_bounds N _ (proj2 Hs)) as Hu.
    rewrite <-push_room_full in Hf by done. rewrite length_contents in Hb by done.
    constructor; rewrite ?length_contents by done; unfold write_count; try lia.
    intros Hne. destruct b; [done|]. simpl. lia.
Qed.

Lemma run_read s cx b : wf s → ∃ r s' log, runs (run (Read cx b)) s r s' log ∧
  wf s' ∧ spec (contents s) (Read cx b) r (contents s').
Proof.
  intros Hs. destruct (decide (contents s = [])) as [He|He].
  - do 3 eexists. split; [apply (runs_map _ (λ r, RRead r.1 r.2)), runs_read_empty; done|].
    split; [done|]. change (contents (register_reader cx s)) with (contents s).
    rewrite He. constructor.
  - destruct (runs_read_some cx b s Hs He) as (s' & Hrun & Hs' & Hc & _).
    do 3 eexists. split; [apply (runs_map _ (λ r, RRead r.1 r.2)); done|].
    split; [done|]. rewrite Hc. pose proof (front_nil s Hs) as Hnil.
    constructor; [done|unfold read_count, front, slice_len in *; rewrite ?length_take in *..].
    + lia.
    + lia.
    + intros Hb. destruct b; [done|]. simpl.
      destruct (decide (Z.of_nat (Z.to_nat (RingBuffer.pop_room N (ring s)) `min`
        length (contents s)) = 0)%Z) as [H0|H0]; [by apply Hnil in H0|lia].
Qed.

Lemma run_fill s cx : wf s → ∃ r s' log, runs (run (FillBuf cx)) s r s' log ∧
  wf s' ∧ spec (contents s) (FillBuf cx) r (contents s') ∧ ∀ p, r = RFill (Ok p) → p = front s.
Proof.
  intros Hs. destruct (decide (contents s = [])) as [He|He].
  - do 3 eexists. split; [apply (runs_map _ RFill), runs_fill_empty; done|].
    split; [done|]. change (contents (register_reader cx s)) with (contents s).
    rewrite He. split; [constructor|done].
  - do 3 eexists. split; [apply (runs_map _ RFill), runs_fill_some; done|].
    split; [done|]. change (contents (wake_writers_if_full s)) with (contents s).
    split; [|by intros p [= <-]]. constructor; [|apply prefix_take].
    intros Hf. apply He, front_nil; [done|]. unfold slice_len. by rewrite Hf.
Qed.

(** Asking a pipe changes nothing. *)
Lemma run_query s c : wf s → is_query c = true →
  ∃ r, runs (run c) s r s [] ∧ spec (contents s) c r (contents s) ∧ ∀ p, r ≠ RFill (Ok p).
Proof.
  intros Hs Hc. pose proof (runs_len s Hs) as Hlen. pose proof (length_contents_bound s Hs) as Hb.
  pose proof HN as Hn. unfold RingBuffer.size_ok in Hn.
  destruct c; try done; eexists; (split; [|split; [constructor|done]]).
  - by apply (runs_map _ RLen).
  - apply (runs_map _ RBool). unfold is_full. eapply runs_bind_nil; [exact Hlen|].
    rewrite (bool_decide_ext _ (Z.of_nat (length (contents s)) = N)) by lia.
    destruct (Z.eqb_spec (Z.of_nat (length (contents s))) N);
      [rewrite bool_decide_true by done|rewrite bool_decide_false by done]; apply runs_ret.
  - apply (runs_map _ RBool). unfold is_empty. eapply runs_bind_nil; [exact Hlen|].
    destruct (contents s); cbn; apply runs_ret.
  - apply (runs_map _ RLen). unfold free_capacity. eapply runs_bind_nil; [exact Hlen|].
    apply runs_lift. apply usub_in. width.
Qed.

(** C8: every call on a well-formed pipe behaves as the bounded queue; [fill_buf]
    offers the bytes up to the end of the buffer, and the only panic is consuming
    more than it offers. *)
Theorem pipe_refines_queue s c : wf s →
  (∀ amt, c = Consume amt → (0 ≤ amt)%Z) →
  (run c s = Panic ↔ ∃ amt, c = Consume amt ∧ (slice_len (front s) < amt)%Z) ∧
  (∀ r s' log, runs (run c) s r s' log →
    wf s' ∧ spec (contents s) c r (contents s') ∧ ∀ p, r = RFill (Ok p) → p = front s).
Proof.
  intros Hs Hamt.
  assert (∀ r s' log, (∀ amt, c ≠ Consume amt) → runs (run c) s r s' log → wf s' →
    spec (contents s) c r (contents s') → (∀ p, r = RFill (Ok p) → p = front s) →
    (run c s = Panic ↔ ∃ amt, c = Consume amt ∧ (slice_len (front s) < amt)%Z) ∧
    (∀ r s' log, runs (run c) s r s' log →
      wf s' ∧ spec (contents s) c r (contents s') ∧ ∀ p, r = RFill (Ok p) → p = front s)) as Hval.
  { intros r s' log Hc Hr Hs' Hsp Hf. split.
    - rewrite Hr. split; [done|]. intros (amt & -> & _). by destruct (Hc amt).
    - intros r2 s2 log2 Hr2. by destruct (runs_det _ _ _ _ _ _ _ _ Hr Hr2) as (<- & <- & <-). }
  destruct (is_query c) eqn:Hq.
  { destruct (run_query s c Hs Hq) as (r & Hr & Hsp & Hf).
    eapply Hval; [by intros amt ->|exact Hr|done|done|]. intros p ->. by destruct (Hf p). }
  destruct c as [cx b|cx b|cx|amt| | | | |]; try done.
  - destruct (run_write s cx b Hs) as (r & s' & log & Hr & Hs' & Hsp).
    eapply Hval; [done|exact Hr|done..|]. inversion Hsp; congruence.
  - destruct (run_read s cx b Hs) as (r & s' & log & Hr & Hs' & Hsp).
    eapply Hval; [done|exact Hr|done..|]. inversion Hsp; congruence.
  - destruct (run_fill s cx Hs) as (r & s' & log & Hr & Hs' & Hsp & Hf). by eapply Hval.
  - specialize (Hamt amt eq_refl). clear Hval. pose proof (runs_consume amt s Hs Hamt) as Hc.
    case_decide as Hle.
    + destruct Hc as (s' & Hrun & Hs' & Hc' & _). apply (runs_map _ (λ _, RUnit)) in Hrun. split.
      * rewrite (Hrun : run (Consume amt) s = _). split; [done|]. intros (a & [= <-] & Hlt). lia.
      * intros r2 s2 log2 Hr2. destruct (runs_det _ _ _ _ _ _ _ _ Hrun Hr2) as (-> & -> & ->).
        split; [done|]. split; [|done]. rewrite Hc'. constructor. split; [done|].
        unfold slice_len, front in Hle. rewrite length_take in Hle. lia.
    + assert (run (Consume amt) s = Panic) as Hp by (unfold run; cbv [mbind op_bind]; by rewrite Hc).
      split; [|intros r2 s2 log2 Hr2; unfold runs in Hr2; by rewrite Hp in Hr2].
      split; [intros _; exists amt; split; [done|lia]|by intros _].
  - destruct (runs_clear s Hs) as (s' & Hrun & Hs' & Hc' & _). apply (runs_map _ (λ _, RUnit)) in Hrun.
    eapply Hval; [done|exact Hrun|done| |done]. rewrite Hc'. constructor.
Qed.

(** ** Order of the bytes *)

Definition is_rw (c : call) : bool :=
  match c with Write _ _ | Read _ _ => true | _ => false end.

(** The bytes a write accepted and those a read delivered. *)
Definition accepted (c : call) (r : ret) : list byte :=
  match c, r with Write _ b, RWrite (Ok n) => take (Z.to_nat n) b | _, _ => [] end.
Definition delivered (r : ret) : list byte :=
  match r with RRead (Ok n) b => take (Z.to_nat n) b | _ => [] end.

(** A run of calls: the bytes accepted and delivered along the way. *)
Fixpoint run_all (cs : list call) : Op Waker t (list byte * list byte) :=
  match cs with
  | [] => mret ([], [])
  | c :: cs =>
      r ← run c;
      rest ← run_all cs;
      mret (accepted c r ++ rest.1, delivered r ++ rest.2)
  end.

Lemma spec_conserves q c r q' : is_rw c = true → spec q c r q' →
  q ++ accepted c r = delivered r ++ q'.
Proof.
  intros Hc Hs. destruct Hs; simpl; rewrite ?app_nil_r; try done.
  - by rewrite Nat2Z.id.
  - rewrite Nat2Z.id, take_app_le, take_take, Nat.min_id by (rewrite length_take; lia).
    by rewrite take_drop.
Qed.

Lemma run_all_conserves cs s : wf s → Forall (λ c, is_rw c = true) cs →
  ∃ io s' log, runs (run_all cs) s io s' log ∧ wf s' ∧
    contents s ++ io.1 = io.2 ++ contents s'.
Proof.
  intros Hs HF. revert s Hs. induction HF as [|c cs Hc HF IH]; intros s Hs.
  { do 3 eexists. split; [apply runs_ret|]. split; [done|]. apply app_nil_r. }
  assert (∃ r s1 log, runs (run c) s r s1 log ∧ wf s1 ∧ spec (contents s) c r (contents s1))
    as (r & s1 & log1 & Hrun & Hs1 & Hspec).
  { destruct c as [cx b|cx b| | | | | | | ]; [by apply run_write|by apply run_read|done..]. }
  destruct (IH s1 Hs1) as (io & s2 & log2 & Hrun2 & Hs2 & Hio).
  do 3 eexists. split; [cbn [run_all]; eapply runs_bind; [done|];
    eapply runs_bind; [done|apply runs_ret]|]. split; [done|]. cbn [fst snd].
  pose proof (spec_conserves _ _ _ _ Hc Hspec) as Hcons.
  rewrite app_assoc, Hcons, <-app_assoc, Hio. by rewrite app_assoc.
Qed.

(** Whatever writes and reads are made on a new pipe, the bytes read
    followed by those still buffered are exactly the bytes accepted, in
    order, and no call panics. *)
Theorem pipe_fifo cs : Forall (λ c, is_rw c = true) cs →
  ∃ io s' log, runs (run_all cs) (new N) io s' log ∧ wf s' ∧
    io.1 = io.2 ++ contents s'.
Proof.
  intros HF. destruct (run_all_conserves cs (new N) new_wf HF) as (io & s' & log & Hr & Hs' & Hio).
  exists io, s', log. split; [done|]. split; [done|]. by rewrite <-Hio.
Qed.

(** ** Wake-ups *)

(** A reader is registered only while the pipe is empty, a writer only
    while it is full. *)
Definition parked_ok (s : t) : Prop :=
  (is_Some (WakerRegistration.waker (read_waker (inner s))) → contents s = []) ∧
  (is_Some (WakerRegistration.waker (write_waker (inner s))) →
    length (contents s) = Z.to_nat N).

(** What a call owes to the tasks parked on the pipe. *)
Definition wakes_ok (s s' : t) (log : list Waker) : Prop :=
  parked_ok s' ∧
  WakerRegistration.kept_or_woken (read_waker (inner s)) (read_waker (inner s')) log ∧
  WakerRegistration.kept_or_woken (write_waker (inner s)) (write_waker (inner s')) log.

Lemma register_reader_wakes cx s : wf s → parked_ok s → contents s = [] →
  wakes_ok s (register_reader cx s)
    (WakerRegistration.displaced cx (read_waker (inner s))).
Proof.
  intros Hs [Hr Hw] Hc. split_and!; [split; [done|exact Hw]|by apply WakerRegistration.kept_registered|apply WakerRegistration.kept_refl].
Qed.

Lemma wake_writers_wakes s s' : wf s → parked_ok s →
  contents s ≠ [] → (∃ k, contents s' = drop k (contents s)) →
  read_waker (inner s') = read_waker (inner s) →
  write_waker (inner s') = write_waker (inner (wake_writers_if_full s)) →
  wakes_ok s s' (woken_writers s).
Proof.
  intros Hs [Hr Hw] Hc [k Hk] Hrw Hww. split_and!.
  - split.
    + rewrite Hrw. intros H1. by apply Hr in H1.
    + rewrite Hww. intros [Hf H1]%WakerRegistration.after_wake_none. apply Hw in H1.
      rewrite is_full_contents, H1 in Hf by done. by apply bool_decide_eq_false in Hf.
  - rewrite Hrw. apply WakerRegistration.kept_refl.
  - rewrite Hww. by apply WakerRegistration.kept_after_wake.
Qed.

Lemma write_wakes cx b s r s' log : wf s → parked_ok s →
  runs (run (Write cx b)) s r s' log → wakes_ok s s' log.
Proof.
  intros Hs [Hpr Hpw] Hrun. destruct (decide (length (contents s) = Z.to_nat N)) as [Hf|Hf].
  - pose proof (runs_map _ RWrite _ _ _ _ (runs_write_full cx b s Hs Hf)) as Hr.
    destruct (runs_det _ _ _ _ _ _ _ _ Hr Hrun) as (_ & -> & ->).
    split_and!; [|apply WakerRegistration.kept_refl|by apply WakerRegistration.kept_registered].
    split; [exact Hpr|]. intros _. exact Hf.
  - destruct (runs_write_some cx b s Hs Hf) as (s2 & Hr & Hs' & Hc & Hrw & Hww).
    apply (runs_map _ RWrite) in Hr.
    destruct (runs_det _ _ _ _ _ _ _ _ Hr Hrun) as (_ & -> & ->).
    split_and!; [split|rewrite Hrw; by apply WakerRegistration.kept_after_wake|rewrite Hww; apply WakerRegistration.kept_refl].
    + rewrite Hrw. intros [He H1]%WakerRegistration.after_wake_none. apply Hpr in H1.
      rewrite is_empty_contents, H1 in He by done. by apply bool_decide_eq_false in He.
    + rewrite Hww. intros H1. by apply Hpw in H1.
Qed.

Lemma read_wakes cx b s r s' log : wf s → parked_ok s →
  runs (run (Read cx b)) s r s' log → wakes_ok s s' log.
Proof.
  intros Hs Hp Hrun. destruct (decide (contents s = [])) as [He|He].
  - pose proof (runs_map _ (λ r, RRead r.1 r.2) _ _ _ _ (runs_read_empty cx b s Hs He)) as Hr.
    destruct (runs_det _ _ _ _ _ _ _ _ Hr Hrun) as (_ & -> & ->).
    by apply register_reader_wakes.
  - destruct (runs_read_some cx b s Hs He) as (s2 & Hr & Hs' & Hc & Hrw & Hww).
    apply (runs_map _ (λ r, RRead r.1 r.2)) in Hr.
    destruct (runs_det _ _ _ _ _ _ _ _ Hr Hrun) as (_ & -> & ->).
    apply wake_writers_wakes; eauto.
Qed.

Lemma fill_wakes cx s r s' log : wf s → parked_ok s →
  runs (run (FillBuf cx)) s r s' log → wakes_ok s s' log.
Proof.
  intros Hs Hp Hrun. destruct (decide (contents s = [])) as [He|He].
  - pose proof (runs_map _ RFill _ _ _ _ (runs_fill_empty cx s Hs He)) as Hr.
    destruct (runs_det _ _ _ _ _ _ _ _ Hr Hrun) as (_ & -> & ->).
    by apply register_reader_wakes.
  - pose proof (runs_map _ RFill _ _ _ _ (runs_fill_some cx s Hs He)) as Hr.
    destruct (runs_det _ _ _ _ _ _ _ _ Hr Hrun) as (_ & -> & ->).
    apply wake_writers_wakes; try done. by exists 0.
Qed.

(** C24: no wake-up is lost by writing, reading, filling or clearing: a task
    parked on the pipe stays registered until the call that ends its wait,
    which wakes it; readers are parked only on an empty pipe, writers only
    on a full one. *)
Theorem pipe_no_lost_wakeup s c r s' log : wf s → parked_ok s →
  (∀ amt, c ≠ Consume amt) → runs (run c) s r s' log → wakes_ok s s' log.
Proof.
  intros Hs Hp Hc Hrun. destruct (is_query c) eqn:Hq.
  { destruct (run_query s c Hs Hq) as (r2 & Hr & _).
    destruct (runs_det _ _ _ _ _ _ _ _ Hr Hrun) as (_ & -> & ->).
    split; [done|]. split; apply WakerRegistration.kept_refl. }
  destruct c as [cx b|cx b|cx|amt| | | | |]; try done.
  - by eapply write_wakes.
  - by eapply read_wakes.
  - by eapply fill_wakes.
  - by destruct (Hc amt).
  - destruct (runs_clear s Hs) as (s2 & Hr & Hs' & Hc' & Hrw & Hww).
    apply (runs_map _ (λ _, RUnit)) in Hr.
    destruct (runs_det _ _ _ _ _ _ _ _ Hr Hrun) as (_ & -> & ->).
    split_and!; [split|rewrite Hrw; apply WakerRegistration.kept_refl|rewrite Hww; by apply (WakerRegistration.kept_after_wake true)].
    + done.
    + rewrite Hww. by intros [].
Qed.

(** A writer parked on a pipe that has room again. *)
Definition stranded (w : Waker) (s : t) : Prop :=
  WakerRegistration.waker (write_waker (inner s)) = Some w ∧
  length (contents s) < Z.to_nat N ∧
  WakerRegistration.waker (read_waker (inner s)) ≠ Some w.

(** The calls of a reader running in a task other than [w]'s. *)
Definition reader_call (w : Waker) (c : call) : Prop :=
  match c with
  | Read cx _ | FillBuf cx => cx ≠ Some w
  | Consume amt => (0 ≤ amt)%Z
  | Len | IsFull | IsEmpty | FreeCapacity => True
  | _ => False
  end.

Lemma stranded_registers cx w s : wf s → stranded w s → cx ≠ Some w →
  stranded w (register_reader cx s) ∧
  w ∉ WakerRegistration.displaced cx (read_waker (inner s)).
Proof.
  intros Hs (Hw & Hl & Hr) Hcx. split.
  - split_and!; [done|done|]. by destruct cx.
  - unfold WakerRegistration.displaced.
    destruct cx as [x|], (WakerRegistration.waker (read_waker (inner s))) as [y|];
      try destruct (will_wake y x); rewrite ?list_elem_of_singleton; (by intros ?%elem_of_nil) || congruence.
Qed.

Lemma stranded_reads w s s' : wf s → stranded w s →
  length (contents s') ≤ length (contents s) →
  read_waker (inner s') = read_waker (inner s) →
  write_waker (inner s') = write_waker (inner (wake_writers_if_full s)) →
  stranded w s' ∧ w ∉ woken_writers s.
Proof.
  intros Hs (Hw & Hl & Hr) Hlen Hrw Hww.
  assert (Hf : RingBuffer.is_full (ring s) = false).
  { rewrite is_full_contents by done. apply bool_decide_eq_false. lia. }
  unfold wake_writers_if_full, woken_writers in *. rewrite Hf in *.
  split; [|set_solver]. split_and!; [by rewrite Hww|lia|by rewrite Hrw].
Qed.

Lemma stranded_step w s c r s' log : wf s → stranded w s → reader_call w c →
  runs (run c) s r s' log → wf s' ∧ stranded w s' ∧ w ∉ log.
Proof.
  intros Hs Hst Hcall Hrun. destruct (is_query c) eqn:Hq.
  { destruct (run_query s c Hs Hq) as (r2 & Hr & _).
    destruct (runs_det _ _ _ _ _ _ _ _ Hr Hrun) as (_ & -> & ->).
    split; [done|]. split; [done|]. by intros ?%elem_of_nil. }
  destruct c as [cx b|cx b|cx|amt| | | | |]; try done; simpl in Hcall.
  - destruct (decide (contents s = [])) as [He|He].
    + pose proof (runs_map _ (λ r, RRead r.1 r.2) _ _ _ _ (runs_read_empty cx b s Hs He)) as Hr.
      destruct (runs_det _ _ _ _ _ _ _ _ Hr Hrun) as (_ & -> & ->).
      split; [done|by apply stranded_registers].
    + destruct (runs_read_some cx b s Hs He) as (s2 & Hr & Hs' & Hc & Hrw & Hww).
      apply (runs_map _ (λ r, RRead r.1 r.2)) in Hr.
      destruct (runs_det _ _ _ _ _ _ _ _ Hr Hrun) as (_ & -> & ->).
      split; [done|]. apply stranded_reads; try done. rewrite Hc, length_drop. lia.
  - destruct (decide (contents s = [])) as [He|He].
    + pose proof (runs_map _ RFill _ _ _ _ (runs_fill_empty cx s Hs He)) as Hr.
      destruct (runs_det _ _ _ _ _ _ _ _ Hr Hrun) as (_ & -> & ->).
      split; [done|by apply stranded_registers].
    + pose proof (runs_map _ RFill _ _ _ _ (runs_fill_some cx s Hs He)) as Hr.
      destruct (runs_det _ _ _ _ _ _ _ _ Hr Hrun) as (_ & -> & ->).
      split; [done|by apply stranded_reads].
  - pose proof (runs_consume amt s Hs Hcall) as Hc. case_decide.
    + destruct Hc as (s2 & Hr & Hs' & Hc & Hrw & Hww).
      apply (runs_map _ (λ _, RUnit)) in Hr.
      destruct (runs_det _ _ _ _ _ _ _ _ Hr Hrun) as (_ & -> & ->).
      split; [done|]. destruct Hst as (Hw & Hl & Hrd). split; [|set_solver].
      split_and!; [by rewrite Hww|rewrite Hc, length_drop; lia|by rewrite Hrw].
    + unfold runs, run in Hrun. cbv [mbind op_bind] in Hrun. by rewrite Hc in Hrun.
Qed.

Lemma stranded_run cs w s io s' log : wf s → stranded w s → Forall (reader_call w) cs →
  runs (run_all cs) s io s' log → stranded w s' ∧ w ∉ log.
Proof.
  intros Hs Hst HF. revert s io s' log Hs Hst.
  induction HF as [|c cs Hc HF IH]; intros s io s' log Hs Hst Hrun.
  { unfold runs in Hrun. injection Hrun as <- <- <-. split; [done|set_solver]. }
  cbn [run_all] in Hrun.
  apply op_bind_val in Hrun as (r & s1 & l1 & l2 & Hrun & Hrest & ->).
  apply op_bind_val in Hrest as (io2 & s2 & l3 & l4 & Hrest & Hret & ->).
  injection Hret as <- <- <-.
  destruct (stranded_step w s c r s1 l1 Hs Hst Hc Hrun) as (Hs1 & Hst1 & Hw1).
  destruct (IH s1 io2 s2 l3 Hs1 Hst1 Hrest) as (Hst2 & Hw2).
  split; [done|]. rewrite !elem_of_app. by intros [?|[?|?%elem_of_nil]].
Qed.

(** C36: [consume] loses wake-ups.  When a writer [w] is parked on a full
    pipe and the reader consumes bytes, [w] is not woken although there is
    room, and nothing the reader does afterwards wakes it. *)
Theorem pipe_consume_strands_writer s w amt : wf s →
  length (contents s) = Z.to_nat N →
  WakerRegistration.waker (write_waker (inner s)) = Some w →
  WakerRegistration.waker (read_waker (inner s)) = None →
  (0 < amt ≤ slice_len (front s))%Z →
  ∃ s', runs (consume N amt) s tt s' [] ∧ length (contents s') < Z.to_nat N ∧
    ∀ cs io s2 log, Forall (reader_call w) cs → runs (run_all cs) s' io s2 log →
      stranded w s2 ∧ w ∉ log.
Proof.
  intros Hs Hf Hw Hrd Hamt. pose proof (runs_consume amt s Hs) as Hc.
  specialize (Hc ltac:(lia)). rewrite decide_True in Hc by lia.
  destruct Hc as (s' & Hr & Hs' & Hc & Hrw & Hww). exists s'.
  assert (length (contents s') < Z.to_nat N) as Hroom.
  { rewrite Hc, length_drop. unfold RingBuffer.size_ok in HN. lia. }
  split; [done|]. split; [done|]. intros cs io s2 log HF Hrun.
  eapply stranded_run; [exact Hs'| |done|done].
  split_and!; [by rewrite Hww|done|]. rewrite Hrw, Hrd. done.
Qed.

(** ** [write_all] *)

Lemma runs_write_poll_full cx rest s : wf s → length (contents s) = Z.to_nat N →
  runs (write_poll N rest cx) s Pending (register_writer (Some cx) s)
    (WakerRegistration.displaced (Some cx) (write_waker (inner s))).
Proof.
  intros Hs Hf. unfold write_poll.
  apply (runs_map _ (λ r, match r with Ok n => Ready n | Err WriteFull => Pending end)
    _ (Err WriteFull)). by apply runs_write_full.
Qed.

Lemma runs_write_poll_some cx rest s : wf s → length (contents s) ≠ Z.to_nat N →
  ∃ s' log, runs (write_poll N rest cx) s (Ready (Z.of_nat (write_count rest s))) s' log ∧
    wf s' ∧ contents s' = contents s ++ take (write_count rest s) rest ∧
    (rest ≠ [] → 0 < write_count rest s) ∧ write_count rest s ≤ length rest ∧
    length (contents s) + write_count rest s ≤ Z.to_nat N.
Proof.
  intros Hs Hf. destruct (runs_write_some (Some cx) rest s Hs Hf) as (s' & Hr & Hs' & Hc & _).
  exists s', (woken_readers s). split; [|split; [done|split; [done|]]].
  - apply (runs_map _ (λ r, match r with Ok n => Ready n | Err WriteFull => Pending end)
      _ (Ok (Z.of_nat (write_count rest s)))). exact Hr.
  - pose proof (RingBuffer.push_room_bounds N _ (proj2 Hs)) as Hp.
    pose proof (RingBuffer.used_bounds N _ (proj2 Hs)) as Hu.
    rewrite <-push_room_full in Hf by done. rewrite length_contents by done.
    unfold write_count. split_and!; [|lia|lia].
    intros Hne. destruct rest; [done|simpl; lia].
Qed.

Lemma write_all_runs fuel : ∀ rest s cx, wf s → length rest < fuel →
  let k := Nat.min (length rest) (Z.to_nat N - length (contents s)) in
  ∃ s' log,
    runs (write_all_poll N fuel rest cx) s
      (Some (if Nat.eqb k (length rest) then Ready tt else Pending, drop k rest)) s' log ∧
    wf s' ∧ contents s' = contents s ++ take k rest.
Proof.
  induction fuel as [|fuel IH]; intros rest s cx Hs Hfuel; [lia|].
  cbn [write_all_poll]. destruct rest as [|x rest].
  { simpl. exists s, []. rewrite app_nil_r. split; [apply runs_ret|done]. }
  set (l := x :: rest) in *. pose proof (length_contents_bound s Hs) as Hb.
  destruct (decide (length (contents s) = Z.to_nat N)) as [Hf|Hf].
  - rewrite (proj2 (Nat.sub_0_le _ _)) by lia. rewrite Nat.min_0_r.
    do 2 eexists. split.
    + eapply runs_bind; [by apply runs_write_poll_full|apply runs_ret].
    + split; [done|]. by rewrite app_nil_r.
  - destruct (runs_write_poll_some cx l s Hs Hf) as (s1 & log1 & Hr & Hs1 & Hc1 & Hpos & Hle & Hcap).
    set (n := write_count l s) in *. assert (0 < n) by (by apply Hpos).
    destruct (IH (drop n l) s1 cx Hs1) as (s2 & log2 & Hr2 & Hs2 & Hc2);
      [rewrite length_drop; lia|].
    set (k := Nat.min (length l) (Z.to_nat N - length (contents s))).
    rewrite Hc1, length_app, !length_take, length_drop in Hr2, Hc2.
    assert (Hk2 : Nat.min (length l - n) (Z.to_nat N - (length (contents s) + Nat.min n (length l)))
      = k - n) by lia.
    rewrite Hk2 in Hr2, Hc2. rewrite drop_drop in Hr2. replace (n + (k - n)) with k in Hr2 by lia.
    assert (Hassert : assert_that (Z.of_nat n <=? slice_len l)%Z = Val tt).
    { unfold assert_that. rewrite (proj2 (Z.leb_le _ _)); [done|]. unfold slice_len. lia. }
    do 2 eexists. split; [|split; [done|]].
    + eapply runs_bind; [done|]. cbv beta iota.
      eapply runs_bind_nil; [by apply runs_lift|]. rewrite Nat2Z.id.
      replace (Nat.eqb k (length l)) with (Nat.eqb (k - n) (length l - n));
        [exact Hr2|].
      destruct (Nat.eqb_spec (k - n) (length l - n)), (Nat.eqb_spec k (length l)); lia.
    + rewrite Hc2, <-app_assoc. f_equal. replace k with (n + (k - n)) at 2 by lia.
      apply take_take_drop.
Qed.

(** Polling [write_all] once writes as much of its bytes as the pipe has
    room for, whatever the position of the ring: it terminates (one write
    per byte is fuel enough), and is ready exactly when everything fitted;
    otherwise the unwritten rest is kept. *)
Theorem write_all_fills rest s cx : wf s →
  let k := Nat.min (length rest) (Z.to_nat N - length (contents s)) in
  ∃ s' log,
    runs (write_all_poll N (S (length rest)) rest cx) s
      (Some (if Nat.eqb k (length rest) then Ready tt else Pending, drop k rest)) s' log ∧
    wf s' ∧ contents s' = contents s ++ take k rest.
Proof. intros Hs. apply write_all_runs; [done|lia]. Qed.
End Facts.

(** ** Instances *)

Definition bytes_of (l : list Z) : list byte :=
  (λ z, default x00 (Byte.of_N (Z.to_N z))) <$> l.

Definition demo_state : t :=
  mk (bytes_of [1; 2; 3; 4]%Z)
     (mk_state (RingBuffer.mk 2 2 true) WakerRegistration.new
        (WakerRegistration.mk (Some (mk_waker 7 TASK_VTABLE)))).

Example demo_contents : contents 4 demo_state = bytes_of [3; 4; 1; 2]%Z.
Proof. reflexivity. Qed.

Lemma pipe_refines_queue_witness :
  (run (H := true) 4 (Consume 3) demo_state = Panic ↔
    ∃ amt, Consume 3 = Consume amt ∧ (slice_len (front 4 demo_state) < amt)%Z) ∧
  ∃ r s' log, runs (run (H := true) 4 (FillBuf None)) demo_state r s' log ∧
    spec 4 (contents 4 demo_state) (FillBuf None) r (contents 4 s') ∧ r = RFill (Ok (front 4 demo_state)).
Proof.
  assert (wf 4 demo_state) as Hs by (split; [done|by vm_compute]).
  split; [apply (pipe_refines_queue (H := true) 4 ltac:(done) demo_state (Consume 3) Hs); by intros amt [= <-]|].
  destruct (pipe_refines_queue (H := true) 4 ltac:(done) demo_state (FillBuf None) Hs ltac:(done)) as [_ Hr].
  eexists _, _, _. split; [by vm_compute|]. split; [|by vm_compute].
  eapply Hr. by vm_compute.
Defined.

Lemma pipe_fifo_witness :
  let cs := [Write None (bytes_of [1; 2; 3]%Z); Read None (bytes_of [0; 0]%Z);
             Write None (bytes_of [4; 5; 6; 7]%Z); Read None (bytes_of [0; 0; 0; 0]%Z)] in
  ∃ io s' log, runs (run_all (H := true) 4 cs) (new 4) io s' log ∧ wf 4 s' ∧
    io.1 = io.2 ++ contents 4 s'.
Proof.
  apply (pipe_fifo (H := true) 4); [done|]. by repeat constructor.
Defined.

Lemma pipe_no_lost_wakeup_witness : ∃ r s' log,
  runs (run (H := true) 4 (Read None (bytes_of [0]%Z))) demo_state r s' log ∧
  log = [mk_waker 7 TASK_VTABLE] ∧ wakes_ok 4 demo_state s' log.
Proof.
  eexists _, _, _. split; [by vm_compute|]. split; [done|].
  eapply (pipe_no_lost_wakeup (H := true) 4 ltac:(done) _ (Read None (bytes_of [0]%Z)));
    [..|by vm_compute].
  - split; [done|]. by vm_compute.
  - split; [by intros []|done].
  - done.
Defined.

Lemma pipe_consume_strands_writer_witness : ∃ s',
  runs (consume (H := true) 4 2) demo_state tt s' [] ∧ length (contents 4 s') < 4 ∧
  ∀ cs io s2 log, Forall (reader_call (mk_waker 7 TASK_VTABLE)) cs →
    runs (run_all (H := true) 4 cs) s' io s2 log →
    stranded 4 (mk_waker 7 TASK_VTABLE) s2 ∧ mk_waker 7 TASK_VTABLE ∉ log.
Proof.
  apply (pipe_consume_strands_writer (H := true) 4 ltac:(done) demo_state _ 2); try done.
Defined.

Lemma write_all_fills_witness : ∃ s' log,
  runs (write_all_poll (H := true) 4 (S 6) (bytes_of [1; 2; 3; 4; 5; 6]%Z) (mk_waker 3 TASK_VTABLE))
    (new 4) (Some (Pending, bytes_of [5; 6]%Z)) s' log ∧
  wf 4 s' ∧ contents 4 s' = contents 4 (new 4) ++ bytes_of [1; 2; 3; 4]%Z.
Proof.
  apply (write_all_fills (H := true) 4 ltac:(done) (bytes_of [1; 2; 3; 4; 5; 6]%Z) (new 4)).
  split; [done|]. by vm_compute.
Defined.
End Pipe.
