(* ===== verification/PipeEnds.v ===== *)
(** * The two ends of a pipe ([sync/pipe.rs])

    Writers, readers and the futures they return are references to a pipe in a
    store, like the handles of [Handles].  The reader may hold a slice of the
    pipe's buffer ([fill_buf]) while writers go on: the slice the unsafe code
    hands out stays what it was, and no writer is ever given a part of it. *)

From S2P Require Import Prelude CriticalSection WaitQueue RingBuffer Pipe.
From Stdlib Require Import Strings.Byte.
Import Pipe.

Module PipeEnds.
(** ** The store: pipes with their sizes *)
Definition Ref : Type := Z.
Abbreviation Sys := (gmap Ref (Z * Pipe.t)).

Section Ops.
Context `{Profile}.
Abbreviation SOp := (Op Waker Sys).

Definition on_pipe {A} (r : Ref) (m : Z → Op Waker Pipe.t A) : SOp A := λ s,
  match s !! r with
  | Some (N, p) => zoom (λ _, p) (λ p s, <[r := (N, p)]> s) (m N) s
  | None => Panic
  end.

Record Writer := mk_Writer { Writer_pipe : Ref }.
Record Reader := mk_Reader { Reader_pipe : Ref }.
Record WriteFuture := mk_WriteFuture { WriteFuture_pipe : Ref; WriteFuture_buf : list byte }.
Record ReadFuture := mk_ReadFuture { ReadFuture_pipe : Ref; ReadFuture_buf : list byte }.
Record FillBufFuture := mk_FillBufFuture { FillBufFuture_pipe : option Ref }.

(** Of a [Pipe]. *)
Definition split (self : Ref) : Reader * Writer := (mk_Reader self, mk_Writer self).
Definition write (self : Ref) (buf : list byte) : WriteFuture := mk_WriteFuture self buf.
Definition read (self : Ref) (buf : list byte) : ReadFuture := mk_ReadFuture self buf.

Definition Writer_clone (self : Writer) : Writer := mk_Writer (Writer_pipe self).
Definition Writer_write (self : Writer) (buf : list byte) : WriteFuture := write (Writer_pipe self) buf.
Definition Writer_try_write (self : Writer) (buf : list byte) : SOp (Result Z TryWriteError) :=
  on_pipe (Writer_pipe self) (λ N, try_write N buf).

Definition Reader_read (self : Reader) (buf : list byte) : ReadFuture := read (Reader_pipe self) buf.
Definition Reader_try_read (self : Reader) (buf : list byte) : SOp (Result Z TryReadError * list byte) :=
  on_pipe (Reader_pipe self) (λ N, try_read N buf).
Definition Reader_fill_buf (self : Reader) : FillBufFuture := mk_FillBufFuture (Some (Reader_pipe self)).
Definition Reader_try_fill_buf (self : Reader) : SOp (Result (list byte) TryReadError) :=
  on_pipe (Reader_pipe self) try_fill_buf.
Definition Reader_consume (self : Reader) (amt : Z) : SOp unit :=
  on_pipe (Reader_pipe self) (λ N, consume N amt).

(** ** Futures *)
Definition WriteFuture_poll (self : WriteFuture) (cx : Waker) : SOp (Poll Z) :=
  r ← on_pipe (WriteFuture_pipe self) (λ N, try_write_with_context N (Some cx) (WriteFuture_buf self));
  mret (match r with Ok n => Ready n | Err WriteFull => Pending end).

(** The caller's buffer is part of the future. *)
Definition ReadFuture_poll (self : ReadFuture) (cx : Waker) : SOp (Poll Z * ReadFuture) :=
  r ← on_pipe (ReadFuture_pipe self) (λ N, try_read_with_context N (Some cx) (ReadFuture_buf self));
  mret (match r.1 with Ok n => Ready n | Err ReadEmpty => Pending end,
        mk_ReadFuture (ReadFuture_pipe self) r.2).

Definition FillBufFuture_poll (self : FillBufFuture) (cx : Waker) :
    SOp (Poll (list byte) * FillBufFuture) :=
  match FillBufFuture_pipe self with
  | Some pipe =>
      r ← on_pipe pipe (λ N, try_fill_buf_with_context N (Some cx));
      match r with
      | Ok buf => mret (Ready buf, mk_FillBufFuture None)
      | Err ReadEmpty => mret (Pending, mk_FillBufFuture (Some pipe))
      end
  | None => op_panic
  end.

(** What writers may do while the reader holds a slice. *)
Inductive WriterCall :=
| TryWrite (h : Writer) (b : list byte)
| PollWrite (f : WriteFuture) (cx : Waker).
Inductive WriterReply :=
| Tried (r : Result Z TryWriteError)
| Polled (p : Poll Z).
Definition run_writer (c : WriterCall) : SOp WriterReply :=
  match c with
  | TryWrite h b => r ← Writer_try_write h b; mret (Tried r)
  | PollWrite f cx => p ← WriteFuture_poll f cx; mret (Polled p)
  end.
Definition writes_to (c : WriterCall) : Ref :=
  match c with TryWrite h _ => Writer_pipe h | PollWrite f _ => WriteFuture_pipe f end.
End Ops.

(** ** A pipe whose front slice is held *)
Section Slice.
Context `{Profile}.
Variable N : Z.
Hypothesis HN : RingBuffer.size_ok N.

(** The place of the slice that [fill_buf] hands out. *)
Definition exposed (p : Pipe.t) : Z * Z :=
  (RingBuffer.start (ring p), RingBuffer.start (ring p) + RingBuffer.pop_room N (ring p))%Z.

Definition apart (w r : Z * Z) : Prop := (w.2 ≤ w.1 ∨ w.2 ≤ r.1 ∨ r.2 ≤ w.1)%Z.

(** What writers leave of it. *)
Definition extends (p p' : Pipe.t) : Prop :=
  wf N p' ∧ RingBuffer.start (ring p') = RingBuffer.start (ring p) ∧
  contents N p `prefix_of` contents N p'.

Lemma pipe_extends_refl p : wf N p → extends p p.
Proof. intros Hp. split; [done|]. by split; [|reflexivity]. Qed.

Lemma pipe_extends_trans p1 p2 p3 : extends p1 p2 → extends p2 p3 → extends p1 p3.
Proof.
  intros (H1 & Hs1 & Hp1) (H2 & Hs2 & Hp2). split_and!; [done|congruence|by etrans].
Qed.

Lemma push_start n b b' : RingBuffer.push N n b = Val b' → RingBuffer.start b' = RingBuffer.start b.
Proof.
  unfold RingBuffer.push, RingBuffer.wrap. run_op. unfold assert_that, uadd. intros Hp.
  repeat case_match; simplify_eq; done.
Qed.

Lemma on_waker_ring {A} (m : Op Waker WakerRegistration.t A) p a p' log :
  runs (on_read_waker m) p a p' log ∨ runs (on_write_waker m) p a p' log → ring p' = ring p.
Proof. intros [Hr|Hr]; apply runs_zoom_inv in Hr as (x & (y & _ & ->)%runs_zoom_inv & ->); done. Qed.

Lemma write_start cx b p r p' log : runs (try_write_with_context N cx b) p r p' log →
  RingBuffer.start (ring p') = RingBuffer.start (ring p).
Proof.
  unfold try_write_with_context. intros (p0 & p1 & l1 & l2 & [= <- <- <-] & Hr & _)%runs_bind_inv.
  apply runs_bind_inv in Hr as ([] & p2 & l3 & l4 & Hw & Hr & _).
  assert (ring p2 = ring p) as Hp2.
  { destruct (RingBuffer.is_empty _); [eapply on_waker_ring; by left|by injection Hw as <-]. }
  apply runs_bind_inv in Hr as (rg & p3 & l5 & l6 & (_ & -> & _)%runs_lift_inv & Hr & _).
  apply runs_bind_inv in Hr as (av & p4 & l7 & l8 & (_ & -> & _)%runs_lift_inv & Hr & _).
  destruct (Z.eqb _ 0).
  - apply runs_bind_inv in Hr as ([] & p5 & l9 & l10 & Hw2 & (_ & -> & _)%runs_ret_inv & _).
    rewrite <-Hp2. f_equal. destruct cx; [eapply on_waker_ring; by right|by injection Hw2 as <-].
  - apply runs_bind_inv in Hr as (d & p5 & l9 & l10 & (_ & -> & _)%runs_lift_inv & Hr & _).
    apply runs_bind_inv in Hr as (c & p6 & l11 & l12 & (_ & -> & _)%runs_lift_inv & Hr & _).
    apply runs_bind_inv in Hr as ([] & p7 & l13 & l14 & [= <- _] & Hr & _).
    apply runs_bind_inv in Hr as (b' & p8 & l15 & l16 & (Hpush & -> & _)%runs_lift_inv & Hr & _).
    apply runs_bind_inv in Hr as ([] & p9 & l17 & l18 & Hset & (_ & -> & _)%runs_ret_inv & _).
    apply runs_zoom_inv in Hset as (x & [= <- _] & ->). by eapply push_start.
Qed.

Lemma write_extends cx b p : wf N p →
  ∃ r p' log, runs (try_write_with_context N cx b) p r p' log ∧ extends p p'.
Proof using HN.
  intros Hp. destruct (decide (length (contents N p) = Z.to_nat N)) as [Hf|Hf].
  - do 3 eexists. split; [by apply runs_write_full|]. split; [done|]. by split; [|reflexivity].
  - destruct (runs_write_some N HN cx b p Hp Hf) as (p' & Hr & Hp' & Hc & _).
    do 3 eexists. split; [exact Hr|]. split_and!; [done|by eapply write_start|].
    rewrite Hc. by apply prefix_app_r.
Qed.

Lemma extends_room p p' : wf N p → extends p p' →
  (RingBuffer.pop_room N (ring p) ≤ RingBuffer.pop_room N (ring p'))%Z.
Proof.
  intros Hp (Hp' & Hst & Hpre%prefix_length). rewrite !length_contents in Hpre by done.
  pose proof (RingBuffer.used_bounds N _ (proj2 Hp)). pose proof (RingBuffer.used_bounds N _ (proj2 Hp')).
  rewrite !RingBuffer.pop_room_min, Hst by (apply Hp || apply Hp'). lia.
Qed.

Lemma front_prefix p p' : wf N p → extends p p' →
  front N p = take (Z.to_nat (RingBuffer.pop_room N (ring p))) (contents N p').
Proof.
  intros Hp (Hp' & _ & (l & ->)). unfold front. rewrite take_app_le; [done|].
  pose proof (RingBuffer.pop_room_bounds N _ (proj2 Hp)). rewrite length_contents by done. lia.
Qed.

(** The slice keeps its bytes. *)
Lemma exposed_kept p p' : wf N p → extends p p' →
  buffer_get (buf p') (exposed p) = Val (front N p).
Proof using HN.
  intros Hp He. pose proof (extends_room p p' Hp He) as Hroom. pose proof He as (Hp' & Hst & _).
  pose proof (RingBuffer.pop_room_bounds N _ (proj2 Hp)).
  pose proof (RingBuffer.pop_room_fits N _ (proj2 Hp')) as Hfit. pose proof Hp' as [Hb (Hs & _)].
  rewrite (front_prefix p p') by done. unfold buffer_get, exposed. cbn [fst snd]. rewrite <-Hst.
  rewrite decide_True by lia. rewrite <-front_slice by (done || lia). do 2 f_equal. lia.
Qed.

(** A writer's next slice does not touch it. *)
Lemma exposed_apart p p' : wf N p → extends p p' →
  ∃ w, RingBuffer.push_buf N (ring p') = Val w ∧ apart w (exposed p).
Proof using HN.
  intros Hp He. pose proof (extends_room p p' Hp He) as Hroom. pose proof He as (Hp' & Hst & _).
  pose proof (RingBuffer.pop_room_bounds N _ (proj2 Hp)). rewrite RingBuffer.push_buf_eq by apply Hp' || done.
  eexists. split; [done|]. unfold apart, exposed. cbn [fst snd]. rewrite <-Hst.
  destruct (RingBuffer.full (ring p')) eqn:Hf; [by left|right].
  by apply RingBuffer.push_apart; [apply Hp'| |].
Qed.

Lemma consume_held p p' amt : wf N p → extends p p' → (0 ≤ amt ≤ slice_len (front N p))%Z →
  ∃ p3, runs (consume N amt) p' tt p3 [] ∧ wf N p3 ∧
    contents N p3 = drop (Z.to_nat amt) (contents N p').
Proof using HN.
  intros Hp He Hamt. pose proof (extends_room p p' Hp He). rewrite length_front in Hamt by done.
  pose proof (runs_consume N HN amt p' (proj1 He) ltac:(lia)) as Hc.
  rewrite length_front in Hc by apply He. rewrite decide_True in Hc by lia.
  destruct Hc as (p3 & Hr & Hwf & Hc & _). by exists p3.
Qed.
End Slice.

(** ** Through the store *)
Section Facts.
Context `{Profile}.
Implicit Types s : Sys.

Definition pipe_ok (x : Z * Pipe.t) : Prop := RingBuffer.size_ok x.1 ∧ wf x.1 x.2.
Definition sys_ok s : Prop := map_Forall (λ _, pipe_ok) s.

Lemma runs_on_pipe {A} r (m : Z → Op Waker Pipe.t A) s N p a p' log :
  s !! r = Some (N, p) → runs (m N) p a p' log →
  runs (on_pipe r m) s a (<[r := (N, p')]> s) log.
Proof. intros Hr Hm. unfold runs, on_pipe. rewrite Hr.
  by apply (runs_zoom (λ _, p) (λ p s, <[r := (N, p)]> s)). Qed.

Lemma on_pipe_inv {A} r (m : Z → Op Waker Pipe.t A) s a s' log : runs (on_pipe r m) s a s' log →
  ∃ N p p', s !! r = Some (N, p) ∧ runs (m N) p a p' log ∧ s' = <[r := (N, p')]> s.
Proof.
  unfold runs, on_pipe. destruct (s !! r) as [[N p]|] eqn:Hr; [|done].
  intros (p' & Hm & ->)%runs_zoom_inv. by exists N, p, p'.
Qed.

(** Every pipe of the store keeps its size and its exposed bytes. *)
Definition store_extends s s' : Prop :=
  ∀ r N p, s !! r = Some (N, p) → ∃ p', s' !! r = Some (N, p') ∧ extends N p p'.

Lemma insert_extends s r N p p' : sys_ok s → s !! r = Some (N, p) → extends N p p' →
  sys_ok (<[r := (N, p')]> s) ∧ store_extends s (<[r := (N, p')]> s).
Proof.
  intros Hs Hr He. destruct (Hs r _ Hr) as [HN Hp]. split.
  - apply map_Forall_insert_2; [|done]. split; [done|apply He].
  - intros r2 N2 p2 Hr2. destruct (decide (r = r2)) as [<-|Hne].
    + simplify_eq. exists p'. by rewrite lookup_insert_eq.
    + exists p2. rewrite lookup_insert_ne by done. split; [done|].
      apply pipe_extends_refl, (Hs r2 _ Hr2).
Qed.

Lemma runs_writer c s : sys_ok s → is_Some (s !! writes_to c) →
  ∃ v s' log, runs (run_writer c) s v s' log ∧ sys_ok s' ∧ store_extends s s'.
Proof.
  intros Hs [[N p] Hr]. destruct (Hs _ _ Hr) as [HN Hp].
  assert (∃ cx b, ∀ r p' log, runs (try_write_with_context N cx b) p r p' log →
    ∃ v, runs (run_writer c) s v (<[writes_to c := (N, p')]> s) log) as (cx & b & Hrun).
  { destruct c as [h b|f cx]; cbn [writes_to] in *; [exists None, b|exists (Some cx), (WriteFuture_buf f)];
      intros r p' log Hw; eexists.
    - apply (runs_map _ Tried). by apply (runs_on_pipe _ _ _ _ _ _ _ _ Hr).
    - apply (runs_map _ Polled), runs_map. by apply (runs_on_pipe _ _ _ _ _ _ _ _ Hr). }
  destruct (write_extends N HN cx b p Hp) as (r & p' & log & Hw & He).
  destruct (Hrun r p' log Hw) as [v Hv]. exists v. do 2 eexists. split; [exact Hv|].
  by apply (insert_extends s _ N p).
Qed.

Lemma runs_writers cs : ∀ s, sys_ok s → Forall (λ c, is_Some (s !! writes_to c)) cs →
  ∃ io s' log, runs (op_calls run_writer cs) s io s' log ∧ io.*1 = cs ∧ sys_ok s' ∧ store_extends s s'.
Proof.
  induction cs as [|c cs IH]; intros s Hs Hcs.
  { exists [], s, []. split_and!; [apply runs_ret|done|done|]. intros r N p Hr. exists p.
    split; [done|]. apply pipe_extends_refl, (Hs r _ Hr). }
  apply Forall_cons in Hcs as [Hc Hcs].
  destruct (runs_writer c s Hs Hc) as (v & s1 & l1 & Hr & Hs1 & He).
  destruct (IH s1 Hs1) as (io & s2 & l2 & Hrs & <- & Hs2 & He2).
  { eapply Forall_impl; [exact Hcs|]. intros c2 [[N p] H2]. destruct (He _ _ _ H2) as (p' & -> & _). done. }
  exists ((c, v) :: io), s2, (l1 ++ l2). split_and!; [|done|done|].
  - by eapply runs_calls_cons.
  - intros r N p Hp. destruct (He _ _ _ Hp) as (p1 & Hp1 & H1).
    destruct (He2 _ _ _ Hp1) as (p2 & Hp2 & H2). exists p2. split; [done|]. by eapply pipe_extends_trans.
Qed.

(** A completed [fill_buf] has the front of the pipe. *)
Lemma fill_buf_front h cx s b f s1 log : sys_ok s →
  runs (FillBufFuture_poll (Reader_fill_buf h) cx) s (Ready b, f) s1 log →
  sys_ok s1 ∧ ∃ N p, s1 !! Reader_pipe h = Some (N, p) ∧ front N p = b ∧ b ≠ [].
Proof.
  intros Hs Hr. cbn [FillBufFuture_poll FillBufFuture_pipe Reader_fill_buf] in Hr.
  apply runs_bind_inv in Hr as (a & s2 & l1 & l2 & Ho & Hr & _).
  apply on_pipe_inv in Ho as (N & p & p' & Hp & Ho & ->). destruct (Hs _ _ Hp) as [HN Hwf].
  destruct (decide (contents N p = [])) as [He|He].
  - destruct (runs_det _ _ _ _ _ _ _ _ Ho (runs_fill_empty N HN _ p Hwf He)) as (<- & _ & _).
    by apply runs_ret_inv in Hr as ([=] & _).
  - destruct (runs_det _ _ _ _ _ _ _ _ Ho (runs_fill_some N HN _ p Hwf He)) as (<- & <- & _).
    apply runs_ret_inv in Hr as ([= -> _] & -> & _). split.
    + apply map_Forall_insert_2; [|done]. by split.
    + exists N, (wake_writers_if_full p). rewrite lookup_insert_eq. split_and!; [done|done|].
      intros Hf. by apply He, front_nil; [|unfold slice_len; rewrite Hf].
Qed.

(** C25: a slice of the pipe's buffer that [fill_buf] handed to the reader is
    sound while it is held.  Whatever writers do in the meantime, on this
    pipe or another, by any of their handles and futures, runs without a
    panic and leaves the bytes of the slice in place; the next range of
    the buffer that a writer gets a mutable slice of does not overlap it;
    and the slice is still the front of the queue, so that [consume] of any
    part of it succeeds and removes exactly that part. *)
Theorem fill_slice_stays (cs : list WriterCall) h cx s b f s1 log : sys_ok s →
  runs (FillBufFuture_poll (Reader_fill_buf h) cx) s (Ready b, f) s1 log →
  Forall (λ c, is_Some (s1 !! writes_to c)) cs →
  ∃ io s2 log2 N p p2, runs (op_calls run_writer cs) s1 io s2 log2 ∧ io.*1 = cs ∧ sys_ok s2 ∧
    s1 !! Reader_pipe h = Some (N, p) ∧ s2 !! Reader_pipe h = Some (N, p2) ∧
    buffer_get (buf p) (exposed N p) = Val b ∧ buffer_get (buf p2) (exposed N p) = Val b ∧
    (∃ w, RingBuffer.push_buf N (ring p2) = Val w ∧ apart w (exposed N p)) ∧
    b `prefix_of` contents N p2 ∧ b ≠ [] ∧
    ∀ amt, (0 ≤ amt ≤ slice_len b)%Z → ∃ p3,
      runs (Reader_consume h amt) s2 tt (<[Reader_pipe h := (N, p3)]> s2) [] ∧
      wf N p3 ∧ contents N p3 = drop (Z.to_nat amt) (contents N p2).
Proof.
  intros Hs Hr Hcs. destruct (fill_buf_front h cx s b f s1 log Hs Hr) as (Hs1 & N & p & Hp & <- & Hne).
  destruct (runs_writers cs s1 Hs1 Hcs) as (io & s2 & log2 & Hrs & Hio & Hs2 & He).
  destruct (He _ _ _ Hp) as (p2 & Hp2 & Hext). destruct (Hs1 _ _ Hp) as [HN Hwf].
  exists io, s2, log2, N, p, p2. split_and!; [done..|by apply exposed_kept, pipe_extends_refl| | | |done|].
  - by apply exposed_kept.
  - by apply exposed_apart.
  - erewrite front_prefix by done. apply prefix_take.
  - intros amt Hamt. destruct (consume_held N HN p p2 amt Hwf Hext Hamt) as (p3 & Hc & Hw3 & Hc3).
    exists p3. split_and!; [by eapply runs_on_pipe|done|done].
Qed.
End Facts.

(** ** Instances: a pipe of four bytes that holds two, at the end of its buffer *)
Definition demo_pipe : Pipe.t :=
  mk (bytes_of [1; 2; 3; 4]%Z)
     (mk_state (RingBuffer.mk 2 0 false) WakerRegistration.new WakerRegistration.new).
Definition demo : Sys := {[0%Z := (4%Z, demo_pipe)]}.
Definition demo_waker : Waker := mk_waker 9 TASK_VTABLE.
Definition demo_writes : list WriterCall :=
  [TryWrite (Writer_clone (split 0%Z).2) (bytes_of [5]%Z);
   PollWrite (Writer_write (split 0%Z).2 (bytes_of [6; 7]%Z)) demo_waker].

Lemma fill_slice_stays_witness : ∃ s1 log io s2 log2,
  runs (FillBufFuture_poll (H := true) (Reader_fill_buf (split 0%Z).1) demo_waker) demo
    (Ready (bytes_of [3; 4]%Z), mk_FillBufFuture None) s1 log ∧
  runs (op_calls (run_writer (H := true)) demo_writes) s1 io s2 log2 ∧
  ∃ p2, s2 !! 0%Z = Some (4%Z, p2) ∧ bytes_of [3; 4]%Z `prefix_of` contents 4 p2.
Proof.
  eexists _, _.
  edestruct (fill_slice_stays (H := true) demo_writes (split 0%Z).1 demo_waker demo) as
    (io & s2 & log2 & N & p & p2 & Hr & _ & _ & Hp & Hp2 & _ & _ & _ & Hpre & _).
  - apply map_Forall_singleton. by vm_compute.
  - vm_compute. reflexivity.
  - repeat constructor; eexists; by vm_compute.
  - exists io, s2, log2. split; [vm_compute; reflexivity|]. split; [exact Hr|].
    vm_compute in Hp. injection Hp as <- <-. exists p2. split; [exact Hp2|exact Hpre].
Defined.
End PipeEnds.
