(* ===== verification/DynChannel.v ===== *)
(** * Bounded channels: the [DynamicChannel] interface and its contract

    [sync/channel.rs] hides the size of a channel behind the trait
    [DynamicChannel].  The trait is a class of operations; what it promises is
    an abstract machine on views (the queued messages and the two wake-up
    registrations), parametric in the order in which messages are handed out.
    The theorems of this file hold of every implementation:
    [Channel] implements the first-in-first-out contract and
    [PriorityChannel] the priority one. *)

From S2P Require Import Prelude Heapless CriticalSection WaitQueue.

Inductive TryReceiveError := TryReceiveEmpty.
Inductive TrySendError (T : Type) := TrySendFull (m : T).
Arguments TrySendFull {T} m.

(** The trait; the state [C] is the channel behind its reference. *)
Class DynamicChannel (C T : Type) := {
  dyn_try_send_with_context : T → option Waker → Op Waker C (Result unit (TrySendError T));
  dyn_try_receive_with_context : option Waker → Op Waker C (Result T TryReceiveError);
  dyn_poll_ready_to_send : Waker → Op Waker C (Poll unit);
  dyn_poll_ready_to_receive : Waker → Op Waker C (Poll unit);
  dyn_poll_receive : Waker → Op Waker C (Poll T)
}.

(** ** The calls, as data *)
Inductive ChannelCall (T : Type) :=
| TrySend (m : T) (cx : option Waker)
| TryReceive (cx : option Waker)
| PollReadyToSend (w : Waker)
| PollReadyToReceive (w : Waker)
| PollReceive (w : Waker).
Arguments TrySend {T} m cx.
Arguments TryReceive {T} cx.
Arguments PollReadyToSend {T} w.
Arguments PollReadyToReceive {T} w.
Arguments PollReceive {T} w.

Inductive ChannelReply (T : Type) :=
| Sent (r : Result unit (TrySendError T))
| Received (r : Result T TryReceiveError)
| Polled (p : Poll unit)
| PolledMessage (p : Poll T).
Arguments Sent {T} r.
Arguments Received {T} r.
Arguments Polled {T} p.
Arguments PolledMessage {T} p.

Definition reply {C A T} (f : A → ChannelReply T) (m : Op Waker C A) : Op Waker C (ChannelReply T) :=
  a ← m; mret (f a).

Definition run_call `{DynamicChannel C T} (c : ChannelCall T) : Op Waker C (ChannelReply T) :=
  match c with
  | TrySend m cx => reply Sent (dyn_try_send_with_context m cx)
  | TryReceive cx => reply Received (dyn_try_receive_with_context cx)
  | PollReadyToSend w => reply Polled (dyn_poll_ready_to_send w)
  | PollReadyToReceive w => reply Polled (dyn_poll_ready_to_receive w)
  | PollReceive w => reply PolledMessage (dyn_poll_receive w)
  end.

Abbreviation run_calls cs := (op_calls run_call cs).

Lemma runs_reply {C A T} (f : A → ChannelReply T) (m : Op Waker C A) s a s' l :
  runs m s a s' l → runs (reply f m) s (f a) s' l.
Proof. apply runs_map. Qed.

(** ** The contract *)

(** In which order a channel of capacity [cap] hands out its messages:
    [put l m l'] adds [m] to the queue [l], [take l x l'] removes [x]; and on which
    queues a sender that asks is told that there is room. *)
Record Contract (T : Type) := contract {
  cap : nat;
  put : list T → T → list T → Prop;
  take : list T → T → list T → Prop;
  send_ready : list T → bool;
  put_perm l m l' : put l m l' → l' ≡ₚ m :: l;
  take_perm l x l' : take l x l' → l ≡ₚ x :: l'
}.
Arguments cap {T} _.
Arguments put {T} _ _ _ _.
Arguments take {T} _ _ _ _.
Arguments send_ready {T} _ _.
Arguments put_perm {T} _ _ _ _ _.
Arguments take_perm {T} _ _ _ _ _.

(** What is observed of a channel. *)
Record View (T : Type) := view {
  msgs : list T;
  receiver : WakerRegistration.t;
  senders : WakerRegistration.t
}.
Arguments view {T} _ _ _.
Arguments msgs {T} _.
Arguments receiver {T} _.
Arguments senders {T} _.

Section Contract.
Context {T : Type} (K : Contract T).

Definition full (l : list T) : bool := bool_decide (length l = cap K).

(** One call: the reply, the next view, the wakers woken. *)
Inductive step : View T → ChannelCall T → ChannelReply T → View T → list Waker → Prop :=
| step_send_ok l m cx l' rx tx :
    length l < cap K → put K l m l' →
    step (view l rx tx) (TrySend m cx) (Sent (Ok tt))
      (view l' WakerRegistration.new tx) (option_list (WakerRegistration.waker rx))
| step_send_full l m cx rx tx :
    length l = cap K →
    step (view l rx tx) (TrySend m cx) (Sent (Err (TrySendFull m)))
      (view l rx (WakerRegistration.registered cx tx)) (WakerRegistration.displaced cx tx)
| step_receive_ok l x l' cx rx tx :
    take K l x l' →
    step (view l rx tx) (TryReceive cx) (Received (Ok x))
      (view l' rx (WakerRegistration.after_wake (full l) tx)) (WakerRegistration.woken (full l) tx)
| step_receive_empty cx rx tx :
    step (view [] rx tx) (TryReceive cx) (Received (Err TryReceiveEmpty))
      (view [] (WakerRegistration.registered cx rx) (WakerRegistration.after_wake (full []) tx))
      (WakerRegistration.woken (full []) tx ++ WakerRegistration.displaced cx rx)
| step_poll_receive_ready l x l' w rx tx :
    take K l x l' →
    step (view l rx tx) (PollReceive w) (PolledMessage (Ready x))
      (view l' rx (WakerRegistration.after_wake (full l) tx)) (WakerRegistration.woken (full l) tx)
| step_poll_receive_pending w rx tx :
    step (view [] rx tx) (PollReceive w) (PolledMessage Pending)
      (view [] (WakerRegistration.registered (Some w) rx) (WakerRegistration.after_wake (full []) tx))
      (WakerRegistration.woken (full []) tx ++ WakerRegistration.displaced (Some w) rx)
| step_ready_to_receive l w rx tx :
    step (view l rx tx) (PollReadyToReceive w)
      (Polled (if bool_decide (l = []) then Pending else Ready tt))
      (view l (WakerRegistration.registered (Some w) rx) tx)
      (WakerRegistration.displaced (Some w) rx)
| step_ready_to_send l w rx tx :
    step (view l rx tx) (PollReadyToSend w) (Polled (if send_ready K l then Ready tt else Pending))
      (view l rx (WakerRegistration.registered (Some w) tx))
      (WakerRegistration.displaced (Some w) tx).

(** The messages a call accepted, and the messages it handed out. *)
Definition accepted (io : ChannelCall T * ChannelReply T) : list T :=
  match io with (TrySend m _, Sent (Ok _)) => [m] | _ => [] end.
Definition delivered (io : ChannelCall T * ChannelReply T) : list T :=
  match io with
  | (_, Received (Ok x)) | (_, PolledMessage (Ready x)) => [x]
  | _ => []
  end.

Lemma step_conserves v c r v' log : step v c r v' log →
  msgs v ++ accepted (c, r) ≡ₚ delivered (c, r) ++ msgs v'.
Proof.
  intros Hs. destruct Hs; simpl; rewrite ?app_nil_r; try done.
  - match goal with H : put K _ _ _ |- _ => rewrite (put_perm K _ _ _ H) end.
    apply Permutation_app_comm.
  - by eapply take_perm.
  - by eapply take_perm.
Qed.

Lemma steps_conserve v io v' log : trace step v io v' log →
  msgs v ++ (io ≫= accepted) ≡ₚ (io ≫= delivered) ++ msgs v'.
Proof.
  induction 1 as [v|v c r v1 l1 io v2 l2 Hs Hss IH]; [by rewrite app_nil_r|].
  cbn -[accepted delivered]. rewrite app_assoc, (step_conserves _ _ _ _ _ Hs).
  by rewrite <-!app_assoc, IH.
Qed.

(** A task waiting for a message, and one waiting for room. *)
Definition waits_message (w : Waker) (v : View T) : Prop :=
  msgs v = [] ∧ WakerRegistration.waker (receiver v) = Some w.
Definition waits_room (w : Waker) (v : View T) : Prop :=
  length (msgs v) = cap K ∧ WakerRegistration.waker (senders v) = Some w.

Lemma registered_waits cx w rx : WakerRegistration.waker rx = Some w →
  WakerRegistration.waker (WakerRegistration.registered cx rx) = Some w ∨
  w ∈ WakerRegistration.displaced cx rx.
Proof. intros Hw. by apply (WakerRegistration.kept_registered cx rx). Qed.

Lemma woken_in b rx w : b = true → WakerRegistration.waker rx = Some w →
  w ∈ WakerRegistration.woken b rx.
Proof. intros -> Hw. simpl. rewrite Hw. by apply list_elem_of_singleton. Qed.

Lemma take_not_nil x l' : ¬ take K [] x l'.
Proof. intros Ht%take_perm. by apply Permutation_nil_cons in Ht. Qed.

Hint Resolve woken_in : core.

Ltac displaced_waits rx Hw :=
  match goal with
  | |- context [WakerRegistration.displaced ?cx rx] =>
      destruct (registered_waits cx _ rx Hw); tauto
  end.

Lemma step_waits_message w v c r v' log : step v c r v' log → waits_message w v →
  waits_message w v' ∨ w ∈ log.
Proof.
  unfold waits_message. intros Hs [Hm Hw].
  destruct Hs; cbn [msgs receiver senders] in *; subst; try (by exfalso; eapply take_not_nil; eauto);
    try tauto; try (rewrite ?elem_of_app; displaced_waits rx Hw).
  right. rewrite Hw. by apply list_elem_of_singleton.
Qed.

Lemma full_true l : length l = cap K → full l = true.
Proof. apply bool_decide_eq_true. Qed.

Lemma step_waits_room w v c r v' log : step v c r v' log → waits_room w v →
  waits_room w v' ∨ w ∈ log.
Proof.
  unfold waits_room. intros Hs [Hm Hw].
  destruct Hs; cbn [msgs receiver senders] in *; try lia; try tauto; try displaced_waits tx Hw;
    rewrite ?elem_of_app; pose proof (full_true _ Hm); auto.
Qed.

(** The replies that tell a task [w] to wait for a message, or for room. *)
Inductive told_no_message (w : Waker) : ChannelCall T * ChannelReply T → Prop :=
| no_message_receive : told_no_message w (TryReceive (Some w), Received (Err TryReceiveEmpty))
| no_message_poll : told_no_message w (PollReceive w, PolledMessage Pending)
| no_message_ready : told_no_message w (PollReadyToReceive w, Polled Pending).
Inductive told_no_room (w : Waker) : ChannelCall T * ChannelReply T → Prop :=
| no_room_send m : told_no_room w (TrySend m (Some w), Sent (Err (TrySendFull m)))
| no_room_ready : told_no_room w (PollReadyToSend w, Polled Pending).

Lemma steps_last_no_message v io v' log x w : trace step v io v' log →
  last io = Some x → told_no_message w x → waits_message w v'.
Proof.
  intros Hs Hl Hx. destruct Hx; destruct (trace_last _ _ _ _ _ _ Hs Hl) as (v0 & l0 & Hst);
    inversion Hst as [| | | | | |l w' rx tx| ]; subst; try done.
  match goal with H : context [bool_decide (?l = [])] |- _ => destruct (decide (l = [])) as [->|Hne] end; [done|].
  by rewrite bool_decide_false in * by done.
Qed.

(** If senders are told to wait only when the channel is full. *)
Lemma steps_last_no_room v io v' log x w : trace step v io v' log →
  (∀ l, send_ready K l = false → length l = cap K) →
  last io = Some x → told_no_room w x → waits_room w v'.
Proof.
  intros Hs Hready Hl Hx. destruct Hx; destruct (trace_last _ _ _ _ _ _ Hs Hl) as (v0 & l0 & Hst);
    inversion Hst; subst; try done.
  match goal with H : context [send_ready K ?l] |- _ => destruct (send_ready K l) eqn:Hr; [done|] end.
  split; [by apply Hready|done].
Qed.
End Contract.

(** Sequences of calls. *)
Abbreviation steps K := (trace (step K)).

(** ** Implementations of the contract *)
Class Implements `{DynamicChannel C T} (K : Contract T) := {
  dyn_ok : C → Prop;
  dyn_view : C → View T;
  dyn_step s c : dyn_ok s →
    ∃ r s' log, runs (run_call c) s r s' log ∧ dyn_ok s' ∧ step K (dyn_view s) c r (dyn_view s') log
}.

Section Implements.
Context `{Implements C T K}.

(** Every sequence of calls runs without a panic and is one of the contract. *)
Lemma dyn_steps cs : ∀ s, dyn_ok s →
  ∃ io s' log, runs (run_calls cs) s io s' log ∧ io.*1 = cs ∧ dyn_ok s' ∧
    steps K (dyn_view s) io (dyn_view s') log.
Proof. apply calls_trace. intros s c. apply dyn_step. Qed.
End Implements.

(** ** The size-erased futures

    A future is the state it keeps between polls; it is polled together with
    the channel it refers to. *)
Module DynamicSendFuture.
Record t (T : Type) := mk { message : option T }.
Arguments mk {T} _.
Arguments message {T} _.

Definition poll `{DynamicChannel C T} (cx : Waker) : Op Waker (t T * C) (Poll unit) :=
  s ← op_get;
  op_modify (λ s, (mk None, s.2));;
  match message s.1 with
  | Some m =>
      r ← zoom snd (λ c s, (s.1, c)) (dyn_try_send_with_context m (Some cx));
      match r with
      | Ok _ => mret (Ready tt)
      | Err (TrySendFull m) => op_modify (λ s, (mk (Some m), s.2));; mret Pending
      end
  | None => op_panic
  end.

Section Facts.
Context `{Implements C T K}.

(** One poll: the message is handed over exactly when there is room, and
    kept (with the task registered) otherwise; a completed future panics
    when it is polled again. *)
Lemma send_poll_spec m cx c : dyn_ok c →
  ∃ p f' c' log, runs (poll cx) (mk (Some m), c) p (f', c') log ∧ dyn_ok c' ∧
    match p with
    | Ready _ => f' = mk None ∧ put K (msgs (dyn_view c)) m (msgs (dyn_view c'))
    | Pending => f' = mk (Some m) ∧ waits_room K cx (dyn_view c') ∧
                 msgs (dyn_view c') = msgs (dyn_view c)
    end.
Proof.
  intros Hc. destruct (dyn_step c (TrySend m (Some cx)) Hc) as (r & c' & log & Hr & Hc' & Hst).
  cbn [run_call] in Hr. apply op_bind_val in Hr as (a & s1 & l1 & l2 & Hr & Hret & ->).
  injection Hret as Ha Hs1 Hl2. subst s1.
  destruct (dyn_view c) as [l rx tx] eqn:Hv, (dyn_view c') as [l3 rx3 tx3] eqn:Hv2.
  inversion Hst as [l0 m0 cx0 l' rx0 tx0 Hlen Hput Hv0|l0 m0 cx0 rx0 tx0 Hlen Hv0| | | | | |];
    subst; simplify_eq.
  - exists (Ready tt), (mk None), c'. eexists. split; [|split; [done|]].
    + eapply runs_bind_nil; [op_prim|]. eapply runs_bind_nil; [op_prim|]. cbn.
      eapply runs_bind; [exact (runs_zoom snd _ _ (mk None, c) _ _ _ Hr)|apply runs_ret].
    + by rewrite Hv2.
  - exists Pending, (mk (Some m)), c'. eexists. split; [|split; [done|]].
    + eapply runs_bind_nil; [op_prim|]. eapply runs_bind_nil; [op_prim|]. cbn.
      eapply runs_bind; [exact (runs_zoom snd _ _ (mk None, c) _ _ _ Hr)|].
      cbn. eapply runs_bind_nil; [op_prim|apply runs_ret].
    + by rewrite Hv2.
Qed.

Lemma poll_done cx c : poll cx (mk None, c) = Panic.
Proof. done. Qed.
End Facts.
End DynamicSendFuture.

Module DynamicReceiveFuture.
Definition poll `{DynamicChannel C T} (cx : Waker) : Op Waker C (Poll T) :=
  r ← dyn_try_receive_with_context (Some cx);
  match r with
  | Ok v => mret (Ready v)
  | Err TryReceiveEmpty => mret Pending
  end.

(** One poll: a message in the contract's order, or the task is left waiting. *)
Lemma receive_poll_spec `{Implements C T K} cx c : dyn_ok c →
  ∃ p c' log, runs (poll cx) c p c' log ∧ dyn_ok c' ∧
    match p with
    | Ready x => take K (msgs (dyn_view c)) x (msgs (dyn_view c'))
    | Pending => waits_message cx (dyn_view c') ∧ msgs (dyn_view c) = []
    end.
Proof.
  intros Hc. destruct (dyn_step c (TryReceive (Some cx)) Hc) as (r & c' & log & Hr & Hc' & Hst).
  cbn [run_call] in Hr. apply op_bind_val in Hr as (a & s1 & l1 & l2 & Hr & Hret & ->).
  injection Hret as Ha Hs1 Hl2. subst s1.
  destruct (dyn_view c) as [l rx tx] eqn:Hv, (dyn_view c') as [l3 rx3 tx3] eqn:Hv2.
  inversion Hst as [| |l0 x l' cx0 rx0 tx0 Htake|cx0 rx0 tx0| | | |]; subst; simplify_eq.
  - exists (Ready x), c'. eexists. split; [|split; [done|]].
    + eapply runs_bind; [exact Hr|apply runs_ret].
    + by rewrite Hv2.
  - exists Pending, c'. eexists. split; [|split; [done|]].
    + eapply runs_bind; [exact Hr|apply runs_ret].
    + by rewrite Hv2.
Qed.
End DynamicReceiveFuture.

(** ** The state both channels protect with their mutex

    The two [ChannelState] structs differ in the container [Q] of the queue. *)
Module Parts.
Record t (Q : Type) := mk {
  queue : Q;
  receiver_waker : WakerRegistration.t;
  senders_waker : WakerRegistration.t
}.
Arguments mk {Q} _ _ _.
Arguments queue {Q} _.
Arguments receiver_waker {Q} _.
Arguments senders_waker {Q} _.

Section Parts.
Context {Q : Type}.
Implicit Types s : t Q.

Definition on_queue {E A} (f : Q → A * Q) : Op E (t Q) A :=
  zoom queue (λ q s, mk q (receiver_waker s) (senders_waker s)) (op_pure f).
Definition on_receiver {E A} (f : Op E WakerRegistration.t A) : Op E (t Q) A :=
  zoom receiver_waker (λ w s, mk (queue s) w (senders_waker s)) f.
Definition on_senders {E A} (f : Op E WakerRegistration.t A) : Op E (t Q) A :=
  zoom senders_waker (λ w s, mk (queue s) (receiver_waker s) w) f.

Definition set_receiver w s : t Q := mk (queue s) w (senders_waker s).
Definition set_senders w s : t Q := mk (queue s) (receiver_waker s) w.
Definition set_queue q s : t Q := mk q (receiver_waker s) (senders_waker s).

Lemma runs_wake_receiver s :
  runs (on_receiver WakerRegistration.wake) s tt (set_receiver WakerRegistration.new s)
    (option_list (WakerRegistration.waker (receiver_waker s))).
Proof. exact (runs_zoom _ _ _ _ _ _ _ (WakerRegistration.runs_wake _)). Qed.

Lemma runs_wake_senders_when b s :
  runs (op_when b (on_senders WakerRegistration.wake)) s tt
    (set_senders (WakerRegistration.after_wake b (senders_waker s)) s)
    (WakerRegistration.woken b (senders_waker s)).
Proof.
  destruct b; [|destruct s; apply runs_ret].
  exact (runs_zoom _ _ _ _ _ _ _ (WakerRegistration.runs_wake _)).
Qed.

Lemma runs_register_receiver w s :
  runs (on_receiver (WakerRegistration.register w)) s tt
    (set_receiver (WakerRegistration.registered (Some w) (receiver_waker s)) s)
    (WakerRegistration.displaced (Some w) (receiver_waker s)).
Proof. exact (runs_zoom _ _ _ _ _ _ _ (WakerRegistration.runs_register _ _)). Qed.

Lemma runs_register_receiver_cx cx s :
  runs (op_when_some cx (λ w, on_receiver (WakerRegistration.register w))) s tt
    (set_receiver (WakerRegistration.registered cx (receiver_waker s)) s)
    (WakerRegistration.displaced cx (receiver_waker s)).
Proof. destruct cx; [apply runs_register_receiver|destruct s; apply runs_ret]. Qed.

Lemma runs_register_senders w s :
  runs (on_senders (WakerRegistration.register w)) s tt
    (set_senders (WakerRegistration.registered (Some w) (senders_waker s)) s)
    (WakerRegistration.displaced (Some w) (senders_waker s)).
Proof. exact (runs_zoom _ _ _ _ _ _ _ (WakerRegistration.runs_register _ _)). Qed.

Lemma runs_register_senders_cx cx s :
  runs (op_when_some cx (λ w, on_senders (WakerRegistration.register w))) s tt
    (set_senders (WakerRegistration.registered cx (senders_waker s)) s)
    (WakerRegistration.displaced cx (senders_waker s)).
Proof. destruct cx; [apply runs_register_senders|destruct s; apply runs_ret]. Qed.

Lemma runs_queue {A} (f : Q → A * Q) a q s :
  f (queue s) = (a, q) → runs (on_queue f : Op Waker _ _) s a (set_queue q s) [].
Proof. intros Hf. by apply (runs_zoom queue (λ q s, set_queue q s)), runs_pure. Qed.

End Parts.

#[export] Hint Resolve runs_wake_receiver runs_wake_senders_when runs_register_receiver
  runs_register_receiver_cx runs_register_senders runs_register_senders_cx runs_queue : runtime.
End Parts.

(** ** A channel state behind its mutex

    [Channel] and [PriorityChannel] run the methods of their state under a
    mutex; the contract carries over. *)
Section Locked.
Context `{RawMutexLaws R} `{Implements C T K}.

Definition locked_ok (s : Cpu * Shared R C) : Prop :=
  cpu_wf s.1 ∧ shared_free s.2 ∧ dyn_ok (shared_value s.2).

Lemma runs_reply_lock {A} (f : A → ChannelReply T) (o : Op Waker C A) c (m : Shared R C) r v l :
  cpu_wf c → shared_free m → runs (reply f o) (shared_value m) r v l →
  runs (reply f (shared_lock o)) (c, m) r (c, shared_set v m) l.
Proof.
  intros Hc Hm (a & s1 & l1 & l2 & Ho & [= <- <- <-] & ->)%op_bind_val.
  rewrite app_nil_r. by apply runs_reply, runs_shared_lock.
Qed.

(** [D] runs the methods of the state under the mutex. *)
Definition locks (D : DynamicChannel (Cpu * Shared R C) T) : Prop :=
  ∀ call c m r v l, cpu_wf c → shared_free m →
    runs (run_call call) (shared_value m) r v l →
    runs (run_call call) (c, m) r (c, shared_set v m) l.

Program Definition locked_implements (D : DynamicChannel (Cpu * Shared R C) T)
    (Hlock : locks D) : Implements K := {|
  dyn_ok := locked_ok;
  dyn_view s := dyn_view (shared_value s.2)
|}.
Next Obligation.
  intros D Hlock [c m] call (Hc & Hm & Hs). cbn [fst snd] in *.
  destruct (dyn_step (shared_value m) call Hs) as (r & v & log & Hr & Hv & Hst).
  exists r, (c, shared_set v m), log. split_and!; [by apply Hlock|done..].
Qed.
End Locked.
