(* ===== verification/Channel.v ===== *)
(** * The first-in-first-out channel ([sync/channel.rs])

    [ChannelState] is what the channel's mutex protects, with its methods;
    [Channel] runs them under the mutex and implements the trait
    [DynamicChannel] with the first-in-first-out contract. *)

From S2P Require Import Prelude Heapless CriticalSection WaitQueue DynChannel.
Import Parts.

(** First in, first out. *)
Program Definition fifo_contract (T : Type) (N : nat) : Contract T := {|
  cap := N;
  put l m l' := l' = l ++ [m];
  take l x l' := l = x :: l';
  send_ready l := negb (bool_decide (length l = N))
|}.
Next Obligation. intros T N l m l' ->. symmetry. apply Permutation_cons_append. Qed.
Next Obligation. by intros T N l x l' ->. Qed.

Module ChannelState.
Definition t (D : Type → nat → Type) (T : Type) (N : nat) : Type := Parts.t (D T N).

Section Ops.
Context `{!DequeOps D} {T : Type} {N : nat}.

Definition new : t D T N := Parts.mk dq_new WakerRegistration.new WakerRegistration.new.

Definition try_receive_with_context (cx : option Waker) :
    Op Waker (t D T N) (Result T TryReceiveError) :=
  s ← op_get;
  op_when (dq_is_full (queue s)) (on_senders WakerRegistration.wake);;
  m ← on_queue dq_pop_front;
  match m with
  | Some message => mret (Ok message)
  | None =>
      op_when_some cx (λ w, on_receiver (WakerRegistration.register w));;
      mret (Err TryReceiveEmpty)
  end.

Definition try_receive := try_receive_with_context None.

Definition poll_receive (cx : Waker) : Op Waker (t D T N) (Poll T) :=
  s ← op_get;
  op_when (dq_is_full (queue s)) (on_senders WakerRegistration.wake);;
  m ← on_queue dq_pop_front;
  match m with
  | Some message => mret (Ready message)
  | None => on_receiver (WakerRegistration.register cx);; mret Pending
  end.

Definition poll_ready_to_receive (cx : Waker) : Op Waker (t D T N) (Poll unit) :=
  on_receiver (WakerRegistration.register cx);;
  s ← op_get;
  mret (if negb (dq_is_empty (queue s)) then Ready tt else Pending).

Definition try_send_with_context (message : T) (cx : option Waker) :
    Op Waker (t D T N) (Result unit (TrySendError T)) :=
  r ← on_queue (dq_push_back message);
  match r with
  | Ok _ => on_receiver WakerRegistration.wake;; mret (Ok tt)
  | Err message =>
      op_when_some cx (λ w, on_senders (WakerRegistration.register w));;
      mret (Err (TrySendFull message))
  end.

Definition try_send (message : T) := try_send_with_context message None.

Definition poll_ready_to_send (cx : Waker) : Op Waker (t D T N) (Poll unit) :=
  on_senders (WakerRegistration.register cx);;
  s ← op_get;
  mret (if negb (dq_is_full (queue s)) then Ready tt else Pending).

Definition len (s : t D T N) : Z := dq_len (queue s).
Definition is_empty (s : t D T N) : bool := dq_is_empty (queue s).
Definition is_full (s : t D T N) : bool := dq_is_full (queue s).
End Ops.

(** ** Behaviour of each operation *)
Section Facts.
Context `{DequeLaws D} {T : Type} {N : nat}.
Implicit Types s : t D T N.

(** The queued messages, oldest first. *)
Definition msgs s : list T := dq_iter (queue s).

(** The methods of the state, as an implementation of the trait. *)
#[local] Instance methods : DynamicChannel (t D T N) T := {
  dyn_try_send_with_context := try_send_with_context;
  dyn_try_receive_with_context := try_receive_with_context;
  dyn_poll_ready_to_send := poll_ready_to_send;
  dyn_poll_ready_to_receive := poll_ready_to_receive;
  dyn_poll_receive := poll_receive
}.

Definition state_view s : View T := view (msgs s) (receiver_waker s) (senders_waker s).

Lemma is_full_msgs s : dq_is_full (queue s) = full (fifo_contract T N) (msgs s).
Proof. apply dq_is_full_spec. Qed.

Lemma runs_send m cx s :
  ∃ r s' log, runs (try_send_with_context m cx) s r s' log ∧
    step (fifo_contract T N) (state_view s) (TrySend m cx) (Sent r) (state_view s') log.
Proof.
  destruct (dq_push_back_cases m (queue s)) as [(Hl & q & Hq & Hi)|[Hl Hq]].
  - eexists _, _, _. split; [unfold try_send_with_context; op_steps|].
    rewrite app_nil_r. unfold state_view, msgs at 2. cbn. rewrite Hi. by constructor.
  - eexists _, _, _. split; [unfold try_send_with_context; op_steps|].
    rewrite app_nil_r. unfold state_view. destruct s. by constructor.
Qed.

Lemma runs_receive cx s :
  ∃ r s' log, runs (try_receive_with_context cx) s r s' log ∧
    step (fifo_contract T N) (state_view s) (TryReceive cx) (Received r) (state_view s') log.
Proof.
  destruct (dq_pop_front_cases (queue s)) as [[Hi Hq]|(x & q & Hq & Hi)].
  - eexists _, _, _. split; [unfold try_receive_with_context; op_steps|].
    rewrite app_nil_r, is_full_msgs. unfold state_view, msgs. cbn. rewrite Hi. constructor.
  - eexists _, _, _. split; [unfold try_receive_with_context; op_steps|].
    rewrite !app_nil_r, is_full_msgs. unfold state_view, msgs. cbn. by constructor.
Qed.

Lemma runs_poll_receive cx s :
  ∃ r s' log, runs (poll_receive cx) s r s' log ∧
    step (fifo_contract T N) (state_view s) (PollReceive cx) (PolledMessage r) (state_view s') log.
Proof.
  destruct (dq_pop_front_cases (queue s)) as [[Hi Hq]|(x & q & Hq & Hi)].
  - eexists _, _, _. split; [unfold poll_receive; op_steps|].
    rewrite app_nil_r, is_full_msgs. unfold state_view, msgs. cbn. rewrite Hi. constructor.
  - eexists _, _, _. split; [unfold poll_receive; op_steps|].
    rewrite !app_nil_r, is_full_msgs. unfold state_view, msgs. cbn. by constructor.
Qed.

Lemma runs_ready_to_receive cx s :
  ∃ r s' log, runs (poll_ready_to_receive cx) s r s' log ∧
    step (fifo_contract T N) (state_view s) (PollReadyToReceive cx) (Polled r) (state_view s') log.
Proof.
  eexists _, _, _. split; [unfold poll_ready_to_receive; op_steps|].
  rewrite app_nil_r, dq_is_empty_spec. cbn [queue set_receiver]. fold (msgs s).
  replace (if negb (bool_decide (msgs s = [])) then Ready tt else Pending)
    with (if bool_decide (msgs s = []) then Pending else Ready tt)
    by (by destruct (bool_decide _)).
  constructor.
Qed.

(** Readiness to send is exact: there is room iff the poll is ready. *)
Lemma runs_ready_to_send cx s :
  runs (poll_ready_to_send cx) s
    (if bool_decide (length (msgs s) = N) then Pending else Ready tt)
    (set_senders (WakerRegistration.registered (Some cx) (senders_waker s)) s)
    (WakerRegistration.displaced (Some cx) (senders_waker s)).
Proof.
  eapply runs_log; [unfold poll_ready_to_send|apply app_nil_r].
  eapply runs_bind; [op_step|]. eapply runs_bind_nil; [op_prim|]. cbn.
  rewrite dq_is_full_spec. fold (msgs s). destruct (bool_decide _); apply runs_ret.
Qed.

#[local] Program Instance state_implements : Implements (fifo_contract T N) := {
  dyn_ok _ := True;
  dyn_view := state_view
}.
Next Obligation.
  intros s [m cx|cx|w|w|w] _; cbn [run_call].
  - destruct (runs_send m cx s) as (r & s' & log & Hr & Hst).
    exists (Sent r), s', log. split; [by apply runs_reply|done].
  - destruct (runs_receive cx s) as (r & s' & log & Hr & Hst).
    exists (Received r), s', log. split; [by apply runs_reply|done].
  - eexists (Polled _), _, _. split; [apply runs_reply, runs_ready_to_send|]. split; [done|].
    replace (if bool_decide (length (msgs s) = N) then Pending else Ready tt)
      with (if send_ready (fifo_contract T N) (msgs s) then Ready tt else Pending)
      by (cbn; by destruct (bool_decide _)).
    apply step_ready_to_send.
  - destruct (runs_ready_to_receive w s) as (r & s' & log & Hr & Hst).
    exists (Polled r), s', log. split; [by apply runs_reply|done].
  - destruct (runs_poll_receive w s) as (r & s' & log & Hr & Hst).
    exists (PolledMessage r), s', log. split; [by apply runs_reply|done].
Qed.
End Facts.
End ChannelState.

(** ** [Channel]: the methods under the mutex *)
Module Channel.
Section Ops.
Context `{RawMutex R} `{!DequeOps D} {T : Type} {N : nat}.

Definition t : Type := Shared R (ChannelState.t D T N).

Definition new : t := shared_new ChannelState.new.

Definition lock {E A} (f : Op E (ChannelState.t D T N) A) : Op E (Cpu * t) A := shared_lock f.

Definition try_receive_with_context (cx : option Waker) :=
  lock (ChannelState.try_receive_with_context cx).
Definition poll_receive (cx : Waker) := lock (ChannelState.poll_receive cx).
Definition try_send_with_context (m : T) (cx : option Waker) :=
  lock (ChannelState.try_send_with_context m cx).
Definition poll_ready_to_receive (cx : Waker) := lock (ChannelState.poll_ready_to_receive cx).
Definition poll_ready_to_send (cx : Waker) := lock (ChannelState.poll_ready_to_send cx).
Definition try_send (m : T) := lock (ChannelState.try_send m).
Definition try_receive := lock ChannelState.try_receive.
Definition len {E} : Op E (Cpu * t) Z := lock (s ← op_get; mret (ChannelState.len s)).
Definition is_empty {E} : Op E (Cpu * t) bool := lock (s ← op_get; mret (ChannelState.is_empty s)).
Definition is_full {E} : Op E (Cpu * t) bool := lock (s ← op_get; mret (ChannelState.is_full s)).

#[export] Instance dynamic_channel : DynamicChannel (Cpu * t) T := {
  dyn_try_send_with_context := try_send_with_context;
  dyn_try_receive_with_context := try_receive_with_context;
  dyn_poll_ready_to_send := poll_ready_to_send;
  dyn_poll_ready_to_receive := poll_ready_to_receive;
  dyn_poll_receive := poll_receive
}.

(** [send] and the future it returns; [Sender::send] is the same. *)
Definition send (m : T) : DynamicSendFuture.t T := DynamicSendFuture.mk (Some m).

Definition SendFuture_poll (cx : Waker) : Op Waker (DynamicSendFuture.t T * (Cpu * t)) (Poll unit) :=
  s ← op_get;
  op_modify (λ s, (DynamicSendFuture.mk None, s.2));;
  match DynamicSendFuture.message s.1 with
  | Some m =>
      r ← zoom snd (λ c s, (s.1, c)) (try_send_with_context m (Some cx));
      match r with
      | Ok _ => mret (Ready tt)
      | Err (TrySendFull m) =>
          op_modify (λ s, (DynamicSendFuture.mk (Some m), s.2));; mret Pending
      end
  | None => op_panic
  end.

Definition ReceiveFuture_poll (cx : Waker) : Op Waker (Cpu * t) (Poll T) := poll_receive cx.
Definition ReceiveReadyFuture_poll (cx : Waker) : Op Waker (Cpu * t) (Poll unit) :=
  poll_ready_to_receive cx.
End Ops.
Arguments t R D T N : clear implicits.

Section Facts.
Context `{RawMutexLaws R} `{DequeLaws D} {T : Type} {N : nat}.
Implicit Types s : Cpu * t R D T N.

#[local] Existing Instance ChannelState.methods.
#[local] Existing Instance ChannelState.state_implements.

Lemma dynamic_channel_locks : locks (dynamic_channel (R := R) (D := D) (T := T) (N := N)).
Proof. intros [] c m' r v l Hc Hm Hr; exact (runs_reply_lock _ _ _ _ _ _ _ Hc Hm Hr). Qed.

#[export] Instance channel_implements :
  Implements (C := Cpu * t R D T N) (fifo_contract T N) :=
  locked_implements _ dynamic_channel_locks.

(** Before any call: no message, nobody registered. *)
Definition idle_view : View T := view [] WakerRegistration.new WakerRegistration.new.

Lemma new_ok c : cpu_wf c → dyn_ok ((c, new) : Cpu * t R D T N) ∧
  dyn_view ((c, new) : Cpu * t R D T N) = idle_view.
Proof.
  intros Hc. split; [by split_and!|]. cbn. unfold ChannelState.state_view, ChannelState.msgs.
  cbn. by rewrite dq_new_iter.
Qed.

(** First in, first out, on sequences of calls of the abstract machine. *)
Lemma steps_fifo (v v' : View T) io log : steps (fifo_contract T N) v io v' log →
  msgs v ++ (io ≫= accepted) = (io ≫= delivered) ++ msgs v'.
Proof.
  induction 1 as [v|v c r v1 l1 io v2 l2 Hs Hss IH]; [by rewrite app_nil_r|].
  cbn -[accepted delivered]. rewrite <-app_assoc, <-IH, !app_assoc. f_equal.
  destruct Hs; simpl in *; subst; by rewrite ?app_nil_r.
Qed.

Lemma steps_bound (v v' : View T) io log : steps (fifo_contract T N) v io v' log →
  length (msgs v) ≤ N → length (msgs v') ≤ N.
Proof.
  induction 1 as [v|v c r v1 l1 io v2 l2 Hs Hss IH]; [done|]. intros Hv. apply IH.
  destruct Hs; simpl in *; subst; rewrite ?length_app in *; simpl in *; lia.
Qed.

(** C9: a channel refines a bounded queue.  Any sequence of calls on it, by any
    number of senders and receivers, runs without a panic and is a run of
    the abstract machine (which fixes every reply and every task woken);
    the messages accepted after those already queued are, in order, those
    delivered followed by those still queued; and the capacity is respected. *)
Theorem channel_fifo (cs : list (ChannelCall T)) s : dyn_ok s →
  ∃ io s' log, runs (run_calls cs) s io s' log ∧ io.*1 = cs ∧ dyn_ok s' ∧
    steps (fifo_contract T N) (dyn_view s) io (dyn_view s') log ∧
    msgs (dyn_view s) ++ (io ≫= accepted) = (io ≫= delivered) ++ msgs (dyn_view s') ∧
    length (msgs (dyn_view s')) ≤ N.
Proof.
  intros Hs. destruct (dyn_steps cs s Hs) as (io & s' & log & Hr & Hio & Hs' & Hst).
  exists io, s', log. split_and!; try done; [by eapply steps_fifo|].
  eapply steps_bound; [done|]. apply dq_bound.
Qed.

(** C10: no wake-up is lost.  Every call that tells its task to wait (a send, a
    receive or a poll, with a waker) leaves it registered, with an empty or a full
    channel; and through any further calls, a task waiting for a message is
    still waiting on an empty channel or has been woken, and a task waiting
    for room is still waiting on a full channel or has been woken. *)
Theorem channel_no_lost_wakeup (cs : list (ChannelCall T)) s io s' log w : dyn_ok s →
  runs (run_calls cs) s io s' log →
  (∀ x, last io = Some x → told_no_message w x → waits_message w (dyn_view s')) ∧
  (∀ x, last io = Some x → told_no_room w x → waits_room (fifo_contract T N) w (dyn_view s')) ∧
  (waits_message w (dyn_view s) → waits_message w (dyn_view s') ∨ w ∈ log) ∧
  (waits_room (fifo_contract T N) w (dyn_view s) →
    waits_room (fifo_contract T N) w (dyn_view s') ∨ w ∈ log).
Proof.
  intros Hs Hr. destruct (dyn_steps cs s Hs) as (io2 & s2 & log2 & Hr2 & Hio & Hs' & Hst).
  destruct (runs_det _ _ _ _ _ _ _ _ Hr2 Hr) as (-> & -> & ->).
  split_and!.
  - intros x. by eapply steps_last_no_message.
  - intros x. eapply steps_last_no_room; [done|]. intros l Hl. cbn in *.
    by apply negb_false_iff, bool_decide_eq_true in Hl.
  - eapply (trace_kept _ (waits_message w) (λ _, True)); [|done|by apply Forall_true].
    intros * Hst' _. by eapply step_waits_message.
  - eapply (trace_kept _ (waits_room _ w) (λ _, True)); [|done|by apply Forall_true].
    intros * Hst' _. by eapply step_waits_room.
Qed.

(** Polling the future of [send] hands the message over exactly when
    there is room and appends it once; otherwise the future keeps the
    message and the task is registered for room.  A completed future
    panics when polled again. *)
Theorem send_future_poll m cx (s : Cpu * t R D T N) : dyn_ok s →
  let room := bool_decide (length (msgs (dyn_view s)) < N) in
  ∃ s' log,
    runs (SendFuture_poll cx) (send m, s) (if room then Ready tt else Pending)
      (DynamicSendFuture.mk (if room then None else Some m), s') log ∧ dyn_ok s' ∧
    msgs (dyn_view s') = msgs (dyn_view s) ++ (if room then [m] else []) ∧
    (room = false → waits_room (fifo_contract T N) cx (dyn_view s')) ∧
    (room = true → SendFuture_poll cx (DynamicSendFuture.mk None, s') = Panic).
Proof.
  intros Hs. destruct (DynamicSendFuture.send_poll_spec m cx s Hs) as (p & f & s' & log & Hr & Hs' & Hp).
  exists s', log. destruct p as [[]|]; [destruct Hp as [-> Hput]|destruct Hp as (-> & Hw & Hm)].
  - change (msgs (dyn_view s') = msgs (dyn_view s) ++ [m]) in Hput.
    assert (length (msgs (dyn_view s')) ≤ N) as Hb by apply dq_bound.
    rewrite bool_decide_true; [by split_and!|]. rewrite Hput, length_app in Hb. change (length [m]) with 1 in Hb. lia.
  - rewrite bool_decide_false; [|rewrite <-Hm; destruct Hw as [Hw _]; simpl in *; lia].
    rewrite app_nil_r. by split_and!.
Qed.
End Facts.

(** ** Instances: a channel of two numbers on a core with interrupts on *)
#[local] Existing Instances cs_with_model cs_with_model_law.

Definition demo : Cpu * t CriticalSectionRawMutex blist Z 2 := (mk_cpu true 0 0, new).
Definition demo_waker : Waker := mk_waker 7 TASK_VTABLE.
Definition demo_calls : list (ChannelCall Z) :=
  [PollReceive demo_waker; TrySend 1%Z None; TrySend 2%Z None;
   TrySend 3%Z (Some demo_waker); TryReceive None].

Example channel_demo_runs :
  (match run_calls demo_calls demo with Val (io, _, log) => Some (io.*2, log) | Panic => None end) =
  Some ([PolledMessage Pending; Sent (Ok tt); Sent (Ok tt); Sent (Err (TrySendFull 3%Z));
         Received (Ok 1%Z)], [demo_waker; demo_waker]).
Proof. reflexivity. Qed.

Lemma channel_fifo_witness : ∃ io s' log, runs (run_calls demo_calls) demo io s' log ∧
  io.*1 = demo_calls ∧ dyn_ok s' ∧
  steps (fifo_contract Z 2) (dyn_view demo) io (dyn_view s') log ∧
  msgs (dyn_view demo) ++ (io ≫= accepted) = (io ≫= delivered) ++ msgs (dyn_view s') ∧
  length (msgs (dyn_view s')) ≤ 2.
Proof. apply (channel_fifo demo_calls demo). by repeat split. Defined.

Lemma channel_no_lost_wakeup_witness : ∃ io s' log io2 s2 log2,
  runs (run_calls [TryReceive (Some demo_waker)]) demo io s' log ∧ waits_message demo_waker (dyn_view s') ∧
  runs (run_calls [TrySend 1%Z None; TrySend 2%Z None; PollReadyToSend demo_waker]) demo io2 s2 log2 ∧
  waits_room (fifo_contract Z 2) demo_waker (dyn_view s2).
Proof.
  assert (dyn_ok demo) as Hok by (by repeat split).
  eexists _, _, _, _, _, _. split; [vm_compute; reflexivity|]. split; [|split; [vm_compute; reflexivity|]].
  - eapply (channel_no_lost_wakeup [TryReceive (Some demo_waker)] demo _ _ _ demo_waker);
      [done|vm_compute; reflexivity|reflexivity|constructor].
  - eapply (channel_no_lost_wakeup [TrySend 1%Z None; TrySend 2%Z None; PollReadyToSend demo_waker] demo _ _ _ demo_waker);
      [done|vm_compute; reflexivity|reflexivity|constructor].
Defined.

Lemma send_future_poll_witness : ∃ s' log,
  runs (SendFuture_poll demo_waker) (send 5%Z, demo) (Ready tt)
    (DynamicSendFuture.mk None, s') log ∧ msgs (dyn_view s') = [5%Z].
Proof.
  destruct (send_future_poll 5%Z demo_waker demo) as (s' & log & Hr & _ & Hm & _);
    [by repeat split|]. by exists s', log.
Defined.
End Channel.
