(* ===== verification/PriorityChannel.v ===== *)
(** * The priority channel ([sync/priority_channel.rs])

    Like [Channel], with a binary heap for the queue.  [Kind] is the sealed
    trait of the heap ([Min] or [Max]) and [cmp] the [Ord] of the messages.
    The contract is that a receive hands out a message no queued message
    precedes. *)

From S2P Require Import Prelude Heapless CriticalSection WaitQueue DynChannel.
Import Parts.
From Stdlib Require Import Sorting.Sorted.

(** Best first.  A sender that asks is told that there is room only if the bitwise
    complement of the length is the capacity. *)
Program Definition priority_contract {T : Type} (cmp : T → T → comparison) (K : Kind)
    (N : nat) : Contract T := {|
  cap := N;
  put l m l' := l' ≡ₚ m :: l;
  take l x l' := l ≡ₚ x :: l' ∧ Forall (served K cmp x) l;
  send_ready l := bool_decide (modulus usize - 1 - Z.of_nat (length l) = Z.of_nat N)%Z
|}.
Next Obligation. done. Qed.
Next Obligation. by intros T cmp K N l x l' [Hp _]. Qed.

Module PriorityChannelState.
Definition t (H : ∀ A : Type, (A → A → comparison) → Kind → nat → Type)
    (T : Type) (cmp : T → T → comparison) (K : Kind) (N : nat) : Type := Parts.t (H T cmp K N).

Section Ops.
Context `{!HeapOps H} {T : Type} {cmp : T → T → comparison} {K : Kind} {N : nat}.
Abbreviation state := (t H T cmp K N).

Definition new : state := Parts.mk bh_new WakerRegistration.new WakerRegistration.new.

Definition try_receive_with_context (cx : option Waker) :
    Op Waker state (Result T TryReceiveError) :=
  s ← op_get;
  op_when (Z.eqb (bh_len (queue s)) (bh_capacity (queue s))) (on_senders WakerRegistration.wake);;
  m ← on_queue bh_pop;
  match m with
  | Some message => mret (Ok message)
  | None =>
      op_when_some cx (λ w, on_receiver (WakerRegistration.register w));;
      mret (Err TryReceiveEmpty)
  end.

Definition try_receive := try_receive_with_context None.

Definition poll_receive (cx : Waker) : Op Waker state (Poll T) :=
  s ← op_get;
  op_when (Z.eqb (bh_len (queue s)) (bh_capacity (queue s))) (on_senders WakerRegistration.wake);;
  m ← on_queue bh_pop;
  match m with
  | Some message => mret (Ready message)
  | None => on_receiver (WakerRegistration.register cx);; mret Pending
  end.

Definition poll_ready_to_receive (cx : Waker) : Op Waker state (Poll unit) :=
  on_receiver (WakerRegistration.register cx);;
  s ← op_get;
  mret (if negb (bh_is_empty (queue s)) then Ready tt else Pending).

Definition try_send_with_context (message : T) (cx : option Waker) :
    Op Waker state (Result unit (TrySendError T)) :=
  r ← on_queue (bh_push message);
  match r with
  | Ok _ => on_receiver WakerRegistration.wake;; mret (Ok tt)
  | Err message =>
      op_when_some cx (λ w, on_senders (WakerRegistration.register w));;
      mret (Err (TrySendFull message))
  end.

Definition try_send (message : T) := try_send_with_context message None.

(** [!] binds tighter than [==] and is the bitwise complement on [usize]. *)
Definition poll_ready_to_send (cx : Waker) : Op Waker state (Poll unit) :=
  on_senders (WakerRegistration.register cx);;
  s ← op_get;
  mret (if Z.eqb (unot usize (bh_len (queue s))) (bh_capacity (queue s))
        then Ready tt else Pending).
End Ops.

(** ** Behaviour of each operation *)
Section Facts.
Context `{HeapLaws H} {T : Type} {cmp : T → T → comparison} `{!TotalCmp cmp} {K : Kind} {N : nat}.
Implicit Types s : t H T cmp K N.

(** The queued messages, in the heap's order. *)
Definition msgs s : list T := bh_elems (queue s).

(** The methods of the state, as an implementation of the trait. *)
#[local] Instance methods : DynamicChannel (t H T cmp K N) T := {
  dyn_try_send_with_context := try_send_with_context;
  dyn_try_receive_with_context := try_receive_with_context;
  dyn_poll_ready_to_send := poll_ready_to_send;
  dyn_poll_ready_to_receive := poll_ready_to_receive;
  dyn_poll_receive := poll_receive
}.

Definition state_view s : View T := view (msgs s) (receiver_waker s) (senders_waker s).

Lemma priority_is_full_msgs s :
  Z.eqb (bh_len (queue s)) (bh_capacity (queue s)) = full (priority_contract cmp K N) (msgs s).
Proof.
  rewrite bh_len_spec, bh_capacity_spec. unfold full, msgs. simpl.
  case_bool_decide; [apply Z.eqb_eq|apply Z.eqb_neq]; lia.
Qed.

Lemma priority_runs_send m cx s :
  ∃ r s' log, runs (try_send_with_context m cx) s r s' log ∧
    step (priority_contract cmp K N) (state_view s) (TrySend m cx) (Sent r) (state_view s') log.
Proof.
  destruct (bh_push_cases m (queue s)) as [(Hl & q & Hq & Hi)|[Hl Hq]].
  - eexists _, _, _. split; [unfold try_send_with_context; op_steps|].
    rewrite app_nil_r. by constructor.
  - eexists _, _, _. split; [unfold try_send_with_context; op_steps|].
    rewrite app_nil_r. unfold state_view. destruct s. by constructor.
Qed.

Lemma priority_runs_receive cx s :
  ∃ r s' log, runs (try_receive_with_context cx) s r s' log ∧
    step (priority_contract cmp K N) (state_view s) (TryReceive cx) (Received r) (state_view s') log.
Proof.
  destruct (bh_pop_cases (queue s)) as [[Hi Hq]|(x & q & Hq & Hi & HF)].
  - eexists _, _, _. split; [unfold try_receive_with_context; op_steps|].
    rewrite app_nil_r, priority_is_full_msgs. unfold state_view, msgs. cbn. rewrite Hi. constructor.
  - eexists _, _, _. split; [unfold try_receive_with_context; op_steps|].
    rewrite !app_nil_r, priority_is_full_msgs. unfold state_view, msgs. cbn. by constructor.
Qed.

Lemma priority_runs_poll_receive cx s :
  ∃ r s' log, runs (poll_receive cx) s r s' log ∧
    step (priority_contract cmp K N) (state_view s) (PollReceive cx) (PolledMessage r) (state_view s') log.
Proof.
  destruct (bh_pop_cases (queue s)) as [[Hi Hq]|(x & q & Hq & Hi & HF)].
  - eexists _, _, _. split; [unfold poll_receive; op_steps|].
    rewrite app_nil_r, priority_is_full_msgs. unfold state_view, msgs. cbn. rewrite Hi. constructor.
  - eexists _, _, _. split; [unfold poll_receive; op_steps|].
    rewrite !app_nil_r, priority_is_full_msgs. unfold state_view, msgs. cbn. by constructor.
Qed.

Lemma priority_runs_ready_to_receive cx s :
  ∃ r s' log, runs (poll_ready_to_receive cx) s r s' log ∧
    step (priority_contract cmp K N) (state_view s) (PollReadyToReceive cx) (Polled r) (state_view s') log.
Proof.
  eexists _, _, _. split; [unfold poll_ready_to_receive; op_steps|].
  rewrite app_nil_r, bh_is_empty_spec. cbn [queue set_receiver]. fold (msgs s).
  replace (if negb (bool_decide (msgs s = [])) then Ready tt else Pending)
    with (if bool_decide (msgs s = []) then Pending else Ready tt)
    by (by destruct (bool_decide _)).
  constructor.
Qed.

(** The poll is ready iff the complement of the length is the capacity. *)
Lemma priority_runs_ready_to_send cx s : (Z.of_nat N < modulus usize)%Z →
  runs (poll_ready_to_send cx) s
    (if bool_decide (modulus usize - 1 - Z.of_nat (length (msgs s)) = Z.of_nat N)%Z
     then Ready tt else Pending)
    (set_senders (WakerRegistration.registered (Some cx) (senders_waker s)) s)
    (WakerRegistration.displaced (Some cx) (senders_waker s)).
Proof.
  intros HN. eapply runs_log; [unfold poll_ready_to_send|apply app_nil_r].
  eapply runs_bind; [op_step|]. eapply runs_bind_nil; [op_prim|]. cbn [queue set_senders].
  pose proof (bh_bound (queue s)) as Hb.
  rewrite bh_len_spec, bh_capacity_spec, unot_in by width. fold (msgs s).
  case_bool_decide as Hd; [rewrite (proj2 (Z.eqb_eq _ _)) by done
                          |rewrite (proj2 (Z.eqb_neq _ _)) by done]; apply runs_ret.
Qed.

#[local] Program Definition state_implements (HN : (Z.of_nat N < modulus usize)%Z) :
    Implements (priority_contract cmp K N) := {|
  dyn_ok _ := True;
  dyn_view := state_view
|}.
Next Obligation.
  intros HN s [m cx|cx|w|w|w] _; cbn [run_call].
  - destruct (priority_runs_send m cx s) as (r & s' & log & Hr & Hst).
    exists (Sent r), s', log. split; [by apply runs_reply|done].
  - destruct (priority_runs_receive cx s) as (r & s' & log & Hr & Hst).
    exists (Received r), s', log. split; [by apply runs_reply|done].
  - eexists (Polled _), _, _. split; [by apply runs_reply, priority_runs_ready_to_send|].
    split; [done|]. apply (step_ready_to_send (priority_contract cmp K N)).
  - destruct (priority_runs_ready_to_receive w s) as (r & s' & log & Hr & Hst).
    exists (Polled r), s', log. split; [by apply runs_reply|done].
  - destruct (priority_runs_poll_receive w s) as (r & s' & log & Hr & Hst).
    exists (PolledMessage r), s', log. split; [by apply runs_reply|done].
Qed.
End Facts.
End PriorityChannelState.

(** ** [PriorityChannel]: the methods under the mutex *)
Module PriorityChannel.
Section Ops.
Context `{HM : RawMutex R} `{!HeapOps H} {T : Type} {cmp : T → T → comparison} {K : Kind} {N : nat}.

Definition t : Type := Shared R (PriorityChannelState.t H T cmp K N).

Definition new : t := shared_new PriorityChannelState.new.

Definition lock {E A} (f : Op E (PriorityChannelState.t H T cmp K N) A) : Op E (Cpu * t) A :=
  shared_lock f.

Definition try_receive_with_context (cx : option Waker) :=
  lock (PriorityChannelState.try_receive_with_context cx).
Definition poll_receive (cx : Waker) := lock (PriorityChannelState.poll_receive cx).
Definition try_send_with_context (m : T) (cx : option Waker) :=
  lock (PriorityChannelState.try_send_with_context m cx).
Definition poll_ready_to_receive (cx : Waker) :=
  lock (PriorityChannelState.poll_ready_to_receive cx).
Definition poll_ready_to_send (cx : Waker) := lock (PriorityChannelState.poll_ready_to_send cx).
Definition try_send (m : T) := lock (PriorityChannelState.try_send m).
Definition try_receive := lock PriorityChannelState.try_receive.

#[export] Instance dynamic_channel : DynamicChannel (Cpu * t) T := {
  dyn_try_send_with_context := try_send_with_context;
  dyn_try_receive_with_context := try_receive_with_context;
  dyn_poll_ready_to_send := poll_ready_to_send;
  dyn_poll_ready_to_receive := poll_ready_to_receive;
  dyn_poll_receive := poll_receive
}.

(** [send] and the poll of the future it returns. *)
Definition send (m : T) : DynamicSendFuture.t T := DynamicSendFuture.mk (Some m).

Definition SendFuture_poll (cx : Waker) : Op Waker (DynamicSendFuture.t T * (Cpu * t)) (Poll unit) :=
  s ← op_get;
  op_modify (λ s, (DynamicSendFuture.mk None, s.2));;
  match DynamicSendFuture.message s.1 with
  | Some m =>
      r ← zoom snd (λ c s, (s.1, c)) (try_send_with_context m (Some cx));
      match r with
      | Ok _ => mret (Ready tt)
      | Err (TrySendFull m) =>
          op_modify (λ s, (DynamicSendFuture.mk (Some m), s.2));; mret Pending
      end
  | None => op_panic
  end.

Definition ReceiveFuture_poll (cx : Waker) : Op Waker (Cpu * t) (Poll T) := poll_receive cx.
End Ops.
Arguments t R H T cmp K N : clear implicits.

Section Facts.
Context `{HM : RawMutexLaws R} `{HL : HeapLaws H} {T : Type} {cmp : T → T → comparison} `{!TotalCmp cmp}
  {K : Kind} {N : nat}.
Hypothesis HN : (Z.of_nat N < modulus usize)%Z.
Implicit Types s : Cpu * t R H T cmp K N.
Abbreviation order := (priority_contract cmp K N).

Lemma priority_dynamic_channel_locks :
  locks (C := PriorityChannelState.t H T cmp K N) (R := R)
    (H0 := PriorityChannelState.methods) dynamic_channel.
Proof. intros [] c m' r v l Hc Hm Hr; exact (runs_reply_lock _ _ _ _ _ _ _ Hc Hm Hr). Qed.

Definition channel_implements : Implements (C := Cpu * t R H T cmp K N) order :=
  locked_implements (H1 := PriorityChannelState.state_implements HN)
    _ priority_dynamic_channel_locks.
#[local] Existing Instance channel_implements.

Lemma priority_new_ok c : cpu_wf c → dyn_ok ((c, new) : Cpu * t R H T cmp K N) ∧
  dyn_view ((c, new) : Cpu * t R H T cmp K N) =
    view [] WakerRegistration.new WakerRegistration.new.
Proof.
  intros Hc. split; [by split_and!|]. cbn.
  unfold PriorityChannelState.state_view, PriorityChannelState.msgs. cbn. by rewrite bh_new_elems.
Qed.

(** Draining the abstract machine. *)
Lemma steps_drain (v v' : View T) io log : steps order v io v' log →
  ∀ n, io.*1 = replicate n (TryReceive None) →
  StronglySorted (served K cmp) (io ≫= delivered) ∧
  msgs v ≡ₚ (io ≫= delivered) ++ msgs v' ∧
  Forall (λ x, Forall (served K cmp x) (msgs v')) (io ≫= delivered) ∧
  length (io ≫= delivered) = Nat.min n (length (msgs v)).
Proof.
  induction 1 as [v|v c r v1 l1 io v2 l2 Hs Hss IH]; intros n Hn.
  { destruct n; [|done]. by repeat constructor. }
  destruct n as [|n]; [done|]. simpl in Hn. injection Hn as -> Hn.
  destruct (IH n Hn) as (Hso & Hp & HF & Hl). clear IH.
  inversion Hs as [| |l x l' cx rx tx Htake|cx rx tx| | | |]; subst; simpl in *.
  - destruct Htake as [Hlx Hbest]. rewrite Hlx in Hbest |- *.
    apply Forall_cons in Hbest as [_ Hbest]. rewrite Hp in Hbest.
    apply Forall_app in Hbest as [Hb1 Hb2].
    split_and!; [by constructor|by rewrite Hp|by constructor|exact (f_equal S Hl)].
  - split_and!; [done|done|done|by rewrite Nat.min_0_r in Hl].
Qed.

(** A priority channel refines a bounded priority queue.  Any sequence of
    calls runs without a panic and is a run of the abstract machine, in
    which each delivered message is one that no queued message precedes;
    and messages are neither lost nor duplicated. *)
Theorem priority_channel_refines (cs : list (ChannelCall T)) s : dyn_ok s →
  ∃ io s' log, runs (run_calls cs) s io s' log ∧ io.*1 = cs ∧ dyn_ok s' ∧
    steps order (dyn_view s) io (dyn_view s') log ∧
    msgs (dyn_view s) ++ (io ≫= accepted) ≡ₚ (io ≫= delivered) ++ msgs (dyn_view s') ∧
    length (msgs (dyn_view s')) ≤ N.
Proof.
  intros Hs. destruct (dyn_steps cs s Hs) as (io & s' & log & Hr & Hio & Hs' & Hst).
  exists io, s', log. split_and!; try done; [by eapply (steps_conserve order)|apply bh_bound].
Qed.

(** C22: receiving repeatedly hands the queued messages out in order of
    priority, highest first for [Max] and lowest first for [Min]: what is
    delivered is sorted, nothing that stays precedes what was delivered,
    and exactly the requested number is delivered, as long as it lasts. *)
Theorem priority_channel_drains_sorted n s : dyn_ok s →
  ∃ io s' log, runs (run_calls (replicate n (TryReceive None))) s io s' log ∧
    StronglySorted (served K cmp) (io ≫= delivered) ∧
    msgs (dyn_view s) ≡ₚ (io ≫= delivered) ++ msgs (dyn_view s') ∧
    Forall (λ x, Forall (served K cmp x) (msgs (dyn_view s'))) (io ≫= delivered) ∧
    length (io ≫= delivered) = Nat.min n (length (msgs (dyn_view s))).
Proof.
  intros Hs. destruct (dyn_steps (replicate n (TryReceive None)) s Hs)
    as (io & s' & log & Hr & Hio & Hs' & Hst).
  exists io, s', log. split; [done|]. by eapply steps_drain.
Qed.

(** [poll_ready_to_send] is wrong.  For a capacity below 2^31 the poll is
    pending whatever the queue holds, an empty queue included: the
    complement of the length is never the capacity. *)
Theorem priority_ready_to_send_never w s :
  (Z.of_nat N < 2147483648)%Z → dyn_ok s →
  ∃ s' log, runs (poll_ready_to_send w) s Pending s' log ∧ dyn_ok s' ∧
    msgs (dyn_view s') = msgs (dyn_view s) ∧
    WakerRegistration.waker (senders (dyn_view s')) = Some w.
Proof.
  destruct s as [c m]. intros Hsmall (Hc & Hm & Hs). cbn [fst snd] in *.
  pose proof (PriorityChannelState.priority_runs_ready_to_send w (shared_value m) HN) as Hr.
  pose proof (bh_bound (Parts.queue (shared_value m)) :
    length (PriorityChannelState.msgs (shared_value m)) ≤ N) as Hb.
  rewrite bool_decide_false in Hr by width.
  eexists (c, _), _. split; [by apply (runs_shared_lock (R := R))|]. by split_and!.
Qed.
End Facts.

(** ** Instances: a channel of three numbers, greatest first *)
#[local] Existing Instances cs_with_model cs_with_model_law.

#[local] Instance z_total : TotalCmp Z.compare.
Proof.
  split; [intros x y; apply Z.compare_antisym|].
  intros x y z. rewrite !Z.compare_le_iff. lia.
Qed.

Definition demo : Cpu * t CriticalSectionRawMutex blist_bh Z Z.compare Max 3 :=
  (mk_cpu true 0 0, new).
Definition demo_waker : Waker := mk_waker 7 TASK_VTABLE.
Definition demo_calls : list (ChannelCall Z) :=
  [TrySend 1%Z None; TrySend 3%Z None; TrySend 2%Z None; TrySend 9%Z None;
   TryReceive None; TryReceive None; TryReceive None].

Example priority_demo_runs :
  (match run_calls demo_calls demo with Val (io, _, _) => Some (io ≫= delivered) | Panic => None end) =
  Some [3%Z; 2%Z; 1%Z].
Proof. reflexivity. Qed.

Definition demo_N : (Z.of_nat 3 < modulus usize)%Z := eq_refl.
#[local] Instance demo_implements :
  Implements (C := Cpu * t CriticalSectionRawMutex blist_bh Z Z.compare Max 3)
    (priority_contract Z.compare Max 3) := channel_implements demo_N.

Lemma priority_channel_refines_witness : ∃ io s' log,
  runs (run_calls demo_calls) demo io s' log ∧ io.*1 = demo_calls ∧ dyn_ok s' ∧
  steps (priority_contract Z.compare Max 3) (dyn_view demo) io (dyn_view s') log ∧
  msgs (dyn_view demo) ++ (io ≫= accepted) ≡ₚ (io ≫= delivered) ++ msgs (dyn_view s') ∧
  length (msgs (dyn_view s')) ≤ 3.
Proof. apply (priority_channel_refines demo_N demo_calls demo). by repeat split. Defined.

Lemma priority_channel_drains_sorted_witness : ∃ s0 io s' log,
  runs (run_calls (firstn 3 demo_calls)) demo io s0 log ∧
  ∃ io2 log2, runs (run_calls (replicate 2 (TryReceive None))) s0 io2 s' log2 ∧
    StronglySorted (served Max Z.compare) (io2 ≫= delivered) ∧ length (io2 ≫= delivered) = 2.
Proof.
  destruct (run_calls (firstn 3 demo_calls) demo) as [[[io s0] log]|] eqn:Hrun; [|discriminate].
  assert (dyn_ok s0) as Hok by (vm_compute in Hrun; injection Hrun as <- <- <-; by repeat split).
  destruct (priority_channel_drains_sorted demo_N 2 s0 Hok) as (io2 & s' & log2 & Hr & Hso & Hp & HF & Hl).
  exists s0, io, s', log. split; [done|]. exists io2, log2. split_and!; [done|done|].
  rewrite Hl. vm_compute in Hrun. injection Hrun as <- <- <-. reflexivity.
Defined.

Lemma priority_ready_to_send_never_witness : ∃ s' log,
  runs (poll_ready_to_send demo_waker) demo Pending s' log ∧ msgs (dyn_view s') = [].
Proof.
  destruct (priority_ready_to_send_never demo_N demo_waker demo)
    as (s' & log & Hr & _ & Hm & _); [reflexivity|by repeat split|]. by exists s', log.
Defined.
End PriorityChannel.
