(* ===== verification/Handles.v ===== *)
(** * Handles to channels ([sync/channel.rs], [sync/priority_channel.rs])

    Senders, receivers, their size-erased variants and the futures they return
    are references to a channel.  The channels of a program live in a store;
    a handle is the place of its channel, so that handles may be copied and
    shared.  A [&dyn DynamicChannel] refers to a channel of either kind. *)

From S2P Require Import Prelude Heapless CriticalSection WaitQueue DynChannel Channel PriorityChannel.

Module Handles.
Section Ops.
Context `{HR : RawMutex R} `{HD : !DequeOps D} `{HB : !HeapOps B}.
Context {T : Type} {cmp : T → T → comparison}.

(** ** The store *)
Definition Ref : Type := Z.

Inductive Object :=
| FifoObject (N : nat) (c : Channel.t R D T N)
| PriorityObject (K : Kind) (N : nat) (c : PriorityChannel.t R B T cmp K N).

Definition Sys : Type := Cpu * gmap Ref Object.
Abbreviation SOp := (Op Waker Sys).

(** A method of the channel a reference refers to, whatever its size. *)
Definition on_fifo {A} (r : Ref) (m : ∀ N, Op Waker (Cpu * Channel.t R D T N) A) : SOp A := λ s,
  match s.2 !! r with
  | Some (FifoObject N c) =>
      zoom (λ s, (s.1, c)) (λ x s, (x.1, <[r := FifoObject N x.2]> s.2)) (m N) s
  | _ => Panic
  end.
Definition on_priority {A} (r : Ref)
    (m : ∀ K N, Op Waker (Cpu * PriorityChannel.t R B T cmp K N) A) : SOp A := λ s,
  match s.2 !! r with
  | Some (PriorityObject K N c) =>
      zoom (λ s, (s.1, c)) (λ x s, (x.1, <[r := PriorityObject K N x.2]> s.2)) (m K N) s
  | _ => Panic
  end.

(** A call through the trait. *)
Definition on_dyn {A} (r : Ref) (m : ∀ C, DynamicChannel C T → Op Waker C A) : SOp A := λ s,
  match s.2 !! r with
  | Some (FifoObject _ _) => on_fifo r (λ N, m _ Channel.dynamic_channel) s
  | Some (PriorityObject _ _ _) => on_priority r (λ K N, m _ PriorityChannel.dynamic_channel) s
  | None => Panic
  end.

(** ** [channel.rs] *)
Record Sender := mk_Sender { Sender_channel : Ref }.
Record Receiver := mk_Receiver { Receiver_channel : Ref }.
Record DynamicSender := mk_DynamicSender { DynamicSender_channel : Ref }.
Record DynamicReceiver := mk_DynamicReceiver { DynamicReceiver_channel : Ref }.

Record SendFuture := mk_SendFuture { SendFuture_channel : Ref; SendFuture_message : option T }.
Record ReceiveFuture := mk_ReceiveFuture { ReceiveFuture_channel : Ref }.
Record ReceiveReadyFuture := mk_ReceiveReadyFuture { ReceiveReadyFuture_channel : Ref }.
Record DynamicSendFuture := mk_DynamicSendFuture { DynamicSendFuture_channel : Ref; DynamicSendFuture_message : option T }.
Record DynamicReceiveFuture := mk_DynamicReceiveFuture { DynamicReceiveFuture_channel : Ref }.

(** Of a [Channel]. *)
Definition sender (self : Ref) : Sender := mk_Sender self.
Definition receiver (self : Ref) : Receiver := mk_Receiver self.
Definition dyn_sender (self : Ref) : DynamicSender := mk_DynamicSender self.
Definition dyn_receiver (self : Ref) : DynamicReceiver := mk_DynamicReceiver self.
Definition send (self : Ref) (message : T) : SendFuture := mk_SendFuture self (Some message).
Definition receive (self : Ref) : ReceiveFuture := mk_ReceiveFuture self.
Definition ready_to_receive (self : Ref) : ReceiveReadyFuture := mk_ReceiveReadyFuture self.

Definition Sender_clone (self : Sender) : Sender := mk_Sender (Sender_channel self).
Definition Sender_send (self : Sender) (message : T) : SendFuture := send (Sender_channel self) message.
Definition Sender_try_send (self : Sender) (message : T) : SOp (Result unit (TrySendError T)) :=
  on_fifo (Sender_channel self) (λ N, Channel.try_send message).
Definition Sender_poll_ready_to_send (self : Sender) (cx : Waker) : SOp (Poll unit) :=
  on_fifo (Sender_channel self) (λ N, Channel.poll_ready_to_send cx).

Definition Receiver_clone (self : Receiver) : Receiver := mk_Receiver (Receiver_channel self).
Definition Receiver_receive (self : Receiver) : ReceiveFuture := receive (Receiver_channel self).
Definition Receiver_ready_to_receive (self : Receiver) : ReceiveReadyFuture :=
  ready_to_receive (Receiver_channel self).
Definition Receiver_try_receive (self : Receiver) : SOp (Result T TryReceiveError) :=
  on_fifo (Receiver_channel self) (λ N, Channel.try_receive).
Definition Receiver_poll_ready_to_receive (self : Receiver) (cx : Waker) : SOp (Poll unit) :=
  on_fifo (Receiver_channel self) (λ N, Channel.poll_ready_to_receive cx).
Definition Receiver_poll_receive (self : Receiver) (cx : Waker) : SOp (Poll T) :=
  on_fifo (Receiver_channel self) (λ N, Channel.poll_receive cx).

Definition DynamicSender_clone (self : DynamicSender) : DynamicSender :=
  mk_DynamicSender (DynamicSender_channel self).
Definition DynamicSender_from (s : Sender) : DynamicSender := mk_DynamicSender (Sender_channel s).
Definition DynamicSender_send (self : DynamicSender) (message : T) : DynamicSendFuture :=
  mk_DynamicSendFuture (DynamicSender_channel self) (Some message).
Definition DynamicSender_try_send (self : DynamicSender) (message : T) : SOp (Result unit (TrySendError T)) :=
  on_dyn (DynamicSender_channel self) (λ _ _, dyn_try_send_with_context message None).
Definition DynamicSender_poll_ready_to_send (self : DynamicSender) (cx : Waker) : SOp (Poll unit) :=
  on_dyn (DynamicSender_channel self) (λ _ _, dyn_poll_ready_to_send (T := T) cx).

Definition DynamicReceiver_clone (self : DynamicReceiver) : DynamicReceiver :=
  mk_DynamicReceiver (DynamicReceiver_channel self).
Definition DynamicReceiver_from (s : Receiver) : DynamicReceiver := mk_DynamicReceiver (Receiver_channel s).
Definition DynamicReceiver_receive (self : DynamicReceiver) : DynamicReceiveFuture :=
  mk_DynamicReceiveFuture (DynamicReceiver_channel self).
Definition DynamicReceiver_try_receive (self : DynamicReceiver) : SOp (Result T TryReceiveError) :=
  on_dyn (DynamicReceiver_channel self) (λ _ _, dyn_try_receive_with_context None).
Definition DynamicReceiver_poll_ready_to_receive (self : DynamicReceiver) (cx : Waker) : SOp (Poll unit) :=
  on_dyn (DynamicReceiver_channel self) (λ _ _, dyn_poll_ready_to_receive (T := T) cx).
Definition DynamicReceiver_poll_receive (self : DynamicReceiver) (cx : Waker) : SOp (Poll T) :=
  on_dyn (DynamicReceiver_channel self) (λ _ _, dyn_poll_receive cx).

(** ** Futures *)
Definition ReceiveFuture_poll (self : ReceiveFuture) (cx : Waker) : SOp (Poll T) :=
  on_fifo (ReceiveFuture_channel self) (λ N, Channel.poll_receive cx).
Definition ReceiveReadyFuture_poll (self : ReceiveReadyFuture) (cx : Waker) : SOp (Poll unit) :=
  on_fifo (ReceiveReadyFuture_channel self) (λ N, Channel.poll_ready_to_receive cx).
Definition DynamicReceiveFuture_poll (self : DynamicReceiveFuture) (cx : Waker) : SOp (Poll T) :=
  on_dyn (DynamicReceiveFuture_channel self) (λ _ _, DynamicReceiveFuture.poll cx).
Definition DynamicReceiveFuture_from (value : ReceiveFuture) : DynamicReceiveFuture :=
  mk_DynamicReceiveFuture (ReceiveFuture_channel value).
Definition DynamicSendFuture_from (value : SendFuture) : DynamicSendFuture :=
  mk_DynamicSendFuture (SendFuture_channel value) (SendFuture_message value).

(** The poll of a future that sends: [take] the message, keep it when the
    channel is full. *)
Definition poll_sending (message : option T) (try : T → SOp (Result unit (TrySendError T))) :
    SOp (Poll unit * option T) :=
  match message with
  | Some m =>
      r ← try m;
      match r with
      | Ok _ => mret (Ready tt, None)
      | Err (TrySendFull m) => mret (Pending, Some m)
      end
  | None => op_panic
  end.
Definition SendFuture_poll (self : SendFuture) (cx : Waker) : SOp (Poll unit * SendFuture) :=
  p ← poll_sending (SendFuture_message self) (λ m,
    on_fifo (SendFuture_channel self) (λ N, Channel.try_send_with_context m (Some cx)));
  mret (p.1, mk_SendFuture (SendFuture_channel self) p.2).
Definition DynamicSendFuture_poll (self : DynamicSendFuture) (cx : Waker) : SOp (Poll unit * DynamicSendFuture) :=
  p ← poll_sending (DynamicSendFuture_message self) (λ m,
    on_dyn (DynamicSendFuture_channel self) (λ _ _, dyn_try_send_with_context m (Some cx)));
  mret (p.1, mk_DynamicSendFuture (DynamicSendFuture_channel self) p.2).

(** ** [priority_channel.rs] *)
Record PrioritySender := mk_PrioritySender { PrioritySender_channel : Ref }.
Record PriorityReceiver := mk_PriorityReceiver { PriorityReceiver_channel : Ref }.
Record PrioritySendFuture := mk_PrioritySendFuture
  { PrioritySendFuture_channel : Ref; PrioritySendFuture_message : option T }.
Record PriorityReceiveFuture := mk_PriorityReceiveFuture { PriorityReceiveFuture_channel : Ref }.

(** Of a [PriorityChannel]. *)
Definition priority_sender (self : Ref) : PrioritySender := mk_PrioritySender self.
Definition priority_receiver (self : Ref) : PriorityReceiver := mk_PriorityReceiver self.
Definition priority_send (self : Ref) (message : T) : PrioritySendFuture :=
  mk_PrioritySendFuture self (Some message).
Definition priority_receive (self : Ref) : PriorityReceiveFuture := mk_PriorityReceiveFuture self.

Definition PrioritySender_clone (self : PrioritySender) : PrioritySender :=
  mk_PrioritySender (PrioritySender_channel self).
Definition PrioritySender_send (self : PrioritySender) (message : T) : PrioritySendFuture :=
  priority_send (PrioritySender_channel self) message.
Definition PrioritySender_try_send (self : PrioritySender) (message : T) : SOp (Result unit (TrySendError T)) :=
  on_priority (PrioritySender_channel self) (λ K N, PriorityChannel.try_send message).
Definition PrioritySender_poll_ready_to_send (self : PrioritySender) (cx : Waker) : SOp (Poll unit) :=
  on_priority (PrioritySender_channel self) (λ K N, PriorityChannel.poll_ready_to_send cx).
Definition DynamicSender_from_priority (s : PrioritySender) : DynamicSender :=
  mk_DynamicSender (PrioritySender_channel s).

Definition PriorityReceiver_clone (self : PriorityReceiver) : PriorityReceiver :=
  mk_PriorityReceiver (PriorityReceiver_channel self).
Definition PriorityReceiver_receive (self : PriorityReceiver) : PriorityReceiveFuture :=
  priority_receive (PriorityReceiver_channel self).
Definition PriorityReceiver_try_receive (self : PriorityReceiver) : SOp (Result T TryReceiveError) :=
  on_priority (PriorityReceiver_channel self) (λ K N, PriorityChannel.try_receive).
Definition PriorityReceiver_poll_ready_to_receive (self : PriorityReceiver) (cx : Waker) : SOp (Poll unit) :=
  on_priority (PriorityReceiver_channel self) (λ K N, PriorityChannel.poll_ready_to_receive cx).
Definition PriorityReceiver_poll_receive (self : PriorityReceiver) (cx : Waker) : SOp (Poll T) :=
  on_priority (PriorityReceiver_channel self) (λ K N, PriorityChannel.poll_receive cx).
Definition DynamicReceiver_from_priority (s : PriorityReceiver) : DynamicReceiver :=
  mk_DynamicReceiver (PriorityReceiver_channel s).

Definition PriorityReceiveFuture_poll (self : PriorityReceiveFuture) (cx : Waker) : SOp (Poll T) :=
  on_priority (PriorityReceiveFuture_channel self) (λ K N, PriorityChannel.poll_receive cx).
Definition PrioritySendFuture_poll (self : PrioritySendFuture) (cx : Waker) :
    SOp (Poll unit * PrioritySendFuture) :=
  p ← poll_sending (PrioritySendFuture_message self) (λ m,
    on_priority (PrioritySendFuture_channel self) (λ K N, PriorityChannel.try_send_with_context m (Some cx)));
  mret (p.1, mk_PrioritySendFuture (PrioritySendFuture_channel self) p.2).

(** ** The calls, as data *)

(** A call of a method of a handle, or a poll of a future. *)
Inductive HandleCall :=
| BySender (h : Sender) (m : T)
| BySenderReady (h : Sender) (cx : Waker)
| ByReceiver (h : Receiver)
| ByReceiverReady (h : Receiver) (cx : Waker)
| ByReceiverPoll (h : Receiver) (cx : Waker)
| BySendFuture (f : SendFuture) (cx : Waker)
| ByReceiveFuture (f : ReceiveFuture) (cx : Waker)
| ByReceiveReadyFuture (f : ReceiveReadyFuture) (cx : Waker)
| ByDynSender (h : DynamicSender) (m : T)
| ByDynSenderReady (h : DynamicSender) (cx : Waker)
| ByDynReceiver (h : DynamicReceiver)
| ByDynReceiverReady (h : DynamicReceiver) (cx : Waker)
| ByDynReceiverPoll (h : DynamicReceiver) (cx : Waker)
| ByDynamicSendFuture (f : DynamicSendFuture) (cx : Waker)
| ByDynamicReceiveFuture (f : DynamicReceiveFuture) (cx : Waker)
| ByPrioritySender (h : PrioritySender) (m : T)
| ByPrioritySenderReady (h : PrioritySender) (cx : Waker)
| ByPriorityReceiver (h : PriorityReceiver)
| ByPriorityReceiverReady (h : PriorityReceiver) (cx : Waker)
| ByPriorityReceiverPoll (h : PriorityReceiver) (cx : Waker)
| ByPrioritySendFuture (f : PrioritySendFuture) (cx : Waker)
| ByPriorityReceiveFuture (f : PriorityReceiveFuture) (cx : Waker).

(** What a poll of a future that sends says of the send, and what a poll of
    the size-erased future that receives says of the receive. *)
Definition send_result (p : Poll unit) (kept : option T) : Result unit (TrySendError T) :=
  match p, kept with Pending, Some m => Err (TrySendFull m) | _, _ => Ok tt end.
Definition receive_result (p : Poll T) : Result T TryReceiveError :=
  match p with Ready x => Ok x | Pending => Err TryReceiveEmpty end.

Definition run_handle (c : HandleCall) : SOp (ChannelReply T) :=
  match c with
  | BySender h m => reply Sent (Sender_try_send h m)
  | BySenderReady h cx => reply Polled (Sender_poll_ready_to_send h cx)
  | ByReceiver h => reply Received (Receiver_try_receive h)
  | ByReceiverReady h cx => reply Polled (Receiver_poll_ready_to_receive h cx)
  | ByReceiverPoll h cx => reply PolledMessage (Receiver_poll_receive h cx)
  | BySendFuture f cx => reply (λ p, Sent (send_result p.1 (SendFuture_message p.2))) (SendFuture_poll f cx)
  | ByReceiveFuture f cx => reply PolledMessage (ReceiveFuture_poll f cx)
  | ByReceiveReadyFuture f cx => reply Polled (ReceiveReadyFuture_poll f cx)
  | ByDynSender h m => reply Sent (DynamicSender_try_send h m)
  | ByDynSenderReady h cx => reply Polled (DynamicSender_poll_ready_to_send h cx)
  | ByDynReceiver h => reply Received (DynamicReceiver_try_receive h)
  | ByDynReceiverReady h cx => reply Polled (DynamicReceiver_poll_ready_to_receive h cx)
  | ByDynReceiverPoll h cx => reply PolledMessage (DynamicReceiver_poll_receive h cx)
  | ByDynamicSendFuture f cx =>
      reply (λ p, Sent (send_result p.1 (DynamicSendFuture_message p.2))) (DynamicSendFuture_poll f cx)
  | ByDynamicReceiveFuture f cx => reply (λ p, Received (receive_result p)) (DynamicReceiveFuture_poll f cx)
  | ByPrioritySender h m => reply Sent (PrioritySender_try_send h m)
  | ByPrioritySenderReady h cx => reply Polled (PrioritySender_poll_ready_to_send h cx)
  | ByPriorityReceiver h => reply Received (PriorityReceiver_try_receive h)
  | ByPriorityReceiverReady h cx => reply Polled (PriorityReceiver_poll_ready_to_receive h cx)
  | ByPriorityReceiverPoll h cx => reply PolledMessage (PriorityReceiver_poll_receive h cx)
  | ByPrioritySendFuture f cx =>
      reply (λ p, Sent (send_result p.1 (PrioritySendFuture_message p.2))) (PrioritySendFuture_poll f cx)
  | ByPriorityReceiveFuture f cx => reply PolledMessage (PriorityReceiveFuture_poll f cx)
  end.

(** The channel a call goes to. *)
Definition target (c : HandleCall) : Ref :=
  match c with
  | BySender h _ | BySenderReady h _ => Sender_channel h
  | ByReceiver h | ByReceiverReady h _ | ByReceiverPoll h _ => Receiver_channel h
  | BySendFuture f _ => SendFuture_channel f
  | ByReceiveFuture f _ => ReceiveFuture_channel f
  | ByReceiveReadyFuture f _ => ReceiveReadyFuture_channel f
  | ByDynSender h _ | ByDynSenderReady h _ => DynamicSender_channel h
  | ByDynReceiver h | ByDynReceiverReady h _ | ByDynReceiverPoll h _ => DynamicReceiver_channel h
  | ByDynamicSendFuture f _ => DynamicSendFuture_channel f
  | ByDynamicReceiveFuture f _ => DynamicReceiveFuture_channel f
  | ByPrioritySender h _ | ByPrioritySenderReady h _ => PrioritySender_channel h
  | ByPriorityReceiver h | ByPriorityReceiverReady h _ | ByPriorityReceiverPoll h _ =>
      PriorityReceiver_channel h
  | ByPrioritySendFuture f _ => PrioritySendFuture_channel f
  | ByPriorityReceiveFuture f _ => PriorityReceiveFuture_channel f
  end.

(** The call it is there; none for a future that has sent its message. *)
Definition call_there (c : HandleCall) : option (ChannelCall T) :=
  match c with
  | BySender _ m | ByDynSender _ m | ByPrioritySender _ m => Some (TrySend m None)
  | ByReceiver _ | ByDynReceiver _ | ByPriorityReceiver _ => Some (TryReceive None)
  | BySenderReady _ cx | ByDynSenderReady _ cx | ByPrioritySenderReady _ cx => Some (PollReadyToSend cx)
  | ByReceiverReady _ cx | ByDynReceiverReady _ cx | ByPriorityReceiverReady _ cx
  | ByReceiveReadyFuture _ cx => Some (PollReadyToReceive cx)
  | ByReceiverPoll _ cx | ByDynReceiverPoll _ cx | ByPriorityReceiverPoll _ cx
  | ByReceiveFuture _ cx | ByPriorityReceiveFuture _ cx => Some (PollReceive cx)
  | BySendFuture f cx => (λ m, TrySend m (Some cx)) <$> SendFuture_message f
  | ByDynamicSendFuture f cx => (λ m, TrySend m (Some cx)) <$> DynamicSendFuture_message f
  | ByPrioritySendFuture f cx => (λ m, TrySend m (Some cx)) <$> PrioritySendFuture_message f
  | ByDynamicReceiveFuture _ cx => Some (TryReceive (Some cx))
  end.

(** The Rust type of a channel, and whether a handle may refer to one. *)
Inductive ChannelType :=
| FifoType (N : nat)
| PriorityType (K : Kind) (N : nat).
Definition type_of (o : Object) : ChannelType :=
  match o with FifoObject N _ => FifoType N | PriorityObject K N _ => PriorityType K N end.
Definition refers (c : HandleCall) (ty : ChannelType) : bool :=
  match c, ty with
  | (ByDynSender _ _ | ByDynSenderReady _ _ | ByDynReceiver _ | ByDynReceiverReady _ _
    | ByDynReceiverPoll _ _ | ByDynamicSendFuture _ _ | ByDynamicReceiveFuture _ _), _ => true
  | (ByPrioritySender _ _ | ByPrioritySenderReady _ _ | ByPriorityReceiver _
    | ByPriorityReceiverReady _ _ | ByPriorityReceiverPoll _ _ | ByPrioritySendFuture _ _
    | ByPriorityReceiveFuture _ _), PriorityType _ _ => true
  | (BySender _ _ | BySenderReady _ _ | ByReceiver _ | ByReceiverReady _ _ | ByReceiverPoll _ _
    | BySendFuture _ _ | ByReceiveFuture _ _ | ByReceiveReadyFuture _ _), FifoType _ => true
  | _, _ => false
  end.
Definition well_typed (tys : gmap Ref ChannelType) (c : HandleCall) : Prop :=
  is_Some (call_there c) ∧ ∃ ty, tys !! target c = Some ty ∧ refers c ty = true.

(** The calls that reach a channel, with their replies. *)
Definition calls_at (r : Ref) : list (HandleCall * ChannelReply T) → list (ChannelCall T * ChannelReply T) :=
  omap (λ '(c, v), if decide (target c = r) then (λ call, (call, v)) <$> call_there c else None).
End Ops.
Arguments Object R D B T cmp : clear implicits.
Arguments Sys R D B T cmp : clear implicits.

(** ** What the handles promise *)
Section Facts.
Context `{HR : RawMutexLaws R} `{HD : DequeLaws D} `{HB : HeapLaws B}.
Context {T : Type} {cmp : T → T → comparison} `{HC : !TotalCmp cmp}.
Implicit Types (s : Sys R D B T cmp) (r : Ref) (c : HandleCall (T := T)).

Definition contract_of (ty : ChannelType) : Contract T :=
  match ty with FifoType N => fifo_contract T N | PriorityType K N => priority_contract cmp K N end.

(** No closure runs on the channel; the size of a heap is a [usize]. *)
Definition object_ok (o : Object R D B T cmp) : Prop :=
  match o with
  | FifoObject _ c => shared_free c
  | PriorityObject _ N c => shared_free c ∧ (Z.of_nat N < modulus usize)%Z
  end.
Definition object_view (o : Object R D B T cmp) : View T :=
  match o with
  | FifoObject _ c => ChannelState.state_view (shared_value c)
  | PriorityObject _ _ c => PriorityChannelState.state_view (shared_value c)
  end.
Definition sys_ok s : Prop := cpu_wf s.1 ∧ map_Forall (λ _, object_ok) s.2.
Definition types s : gmap Ref ChannelType := type_of <$> s.2.

(** Replying commutes with reaching the channel. *)
Lemma zoom_reply {C A} (f : A → ChannelReply T) (get : Sys R D B T cmp → C) set (m : Op Waker C A) s v s' log :
  runs (zoom get set (reply f m)) s v s' log → ∃ a, v = f a ∧ runs (zoom get set m) s a s' log.
Proof.
  intros (t & (a & t1 & l1 & l2 & Hm & [= <- <- <-] & ->)%op_bind_val & ->)%runs_zoom_inv.
  exists a. split; [done|]. rewrite app_nil_r. by apply (runs_zoom get set).
Qed.
Lemma on_fifo_reply {A} (f : A → ChannelReply T) r (m : ∀ N, Op Waker (Cpu * Channel.t R D T N) A) s v s' log :
  runs (on_fifo r (λ N, reply f (m N))) s v s' log → ∃ a, v = f a ∧ runs (on_fifo r m) s a s' log.
Proof.
  unfold on_fifo, runs. destruct (s.2 !! r) as [[N c|]|]; [|by intros [=]..]. apply zoom_reply.
Qed.
Lemma on_priority_reply {A} (f : A → ChannelReply T) r
    (m : ∀ K N, Op Waker (Cpu * PriorityChannel.t R B T cmp K N) A) s v s' log :
  runs (on_priority r (λ K N, reply f (m K N))) s v s' log →
  ∃ a, v = f a ∧ runs (on_priority r m) s a s' log.
Proof.
  unfold on_priority, runs. destruct (s.2 !! r) as [[|K N c]|]; [by intros [=]| |by intros [=]].
  apply zoom_reply.
Qed.
Lemma on_dyn_reply {A} (f : A → ChannelReply T) r (m : ∀ C, DynamicChannel C T → Op Waker C A) s v s' log :
  runs (on_dyn r (λ C D, reply f (m C D))) s v s' log → ∃ a, v = f a ∧ runs (on_dyn r m) s a s' log.
Proof.
  unfold runs, on_dyn. destruct (s.2 !! r) as [[N c|K N c]|]; [|  |done].
  - apply (on_fifo_reply f r (λ N, m _ Channel.dynamic_channel)).
  - apply (on_priority_reply f r (λ K N, m _ PriorityChannel.dynamic_channel)).
Qed.

Lemma zoom_weaken {C A A'} (get : Sys R D B T cmp → C) set (m : Op Waker C A) (m' : Op Waker C A') s a b s' log :
  (∀ x y l, runs m x a y l → runs m' x b y l) →
  runs (zoom get set m) s a s' log → runs (zoom get set m') s b s' log.
Proof. intros Hm (t & Hr%Hm & ->)%runs_zoom_inv. by apply (runs_zoom get set). Qed.
Lemma on_dyn_weaken {A A'} r (m : ∀ C, DynamicChannel C T → Op Waker C A)
    (m' : ∀ C, DynamicChannel C T → Op Waker C A') s a b s' log :
  (∀ C D x y l, runs (m C D) x a y l → runs (m' C D) x b y l) →
  runs (on_dyn r m) s a s' log → runs (on_dyn r m') s b s' log.
Proof.
  unfold runs at 3 4, on_dyn, on_fifo, on_priority. intros Hm.
  destruct (s.2 !! r) as [[N c|K N c]|]; [| |by intros [=]]; apply zoom_weaken, Hm.
Qed.

(** One poll of a future that still has its message. *)
Lemma runs_poll_sending {F} (mk : option T → F) (kept : F → option T) m
    (try : T → Op Waker (Sys R D B T cmp) _) s a s' log :
  (∀ x, kept (mk x) = x) → runs (try m) s a s' log →
  runs (reply (λ p, Sent (send_result p.1 (kept p.2)))
          (p ← poll_sending (Some m) try; mret (p.1, mk p.2))) s (Sent a) s' log.
Proof.
  intros Hk Hr.
  set (p := match a with Ok _ => Ready tt | Err _ => Pending end).
  set (k := match a with Ok _ => None | Err (TrySendFull m) => Some m end).
  assert (runs (poll_sending (Some m) try) s (p, k) s' log) as Hp.
  { eapply runs_log; [eapply runs_bind; [exact Hr|]|apply app_nil_r]. destruct a as [[]|[]]; apply runs_ret. }
  replace (Sent a : ChannelReply T) with (Sent (send_result (p, mk k).1 (kept (p, mk k).2)) : ChannelReply T)
    by (cbn; rewrite Hk; by destruct a as [[]|[]]).
  apply (runs_reply (λ p, Sent (send_result p.1 (kept p.2)))).
  eapply runs_log; [eapply runs_bind; [exact Hp|apply (runs_ret (p, mk k))]|apply app_nil_r].
Qed.
Lemma runs_receive_poll f cx s a s' log :
  runs (on_dyn (DynamicReceiveFuture_channel f) (λ _ _, dyn_try_receive_with_context (Some cx))) s a s' log →
  runs (run_handle (ByDynamicReceiveFuture f cx)) s (Received a) s' log.
Proof.
  intros Hr. replace (Received a : ChannelReply T) with
    (Received (receive_result (match a with Ok x => Ready x | Err _ => Pending end)) : ChannelReply T)
    by (by destruct a as [|[]]).
  apply (runs_reply (λ p, Received (receive_result p))). revert Hr. apply on_dyn_weaken.
  intros C DC x y l Hx. eapply runs_log; [eapply runs_bind; [exact Hx|]|apply app_nil_r].
  destruct a as [|[]]; apply runs_ret.
Qed.

(** A call through the trait is one step of the channel it reaches. *)
Lemma runs_on_dyn r call s o : sys_ok s → s.2 !! r = Some o →
  ∃ v o' log, runs (on_dyn r (λ C D, run_call call)) s v (s.1, <[r := o']> s.2) log ∧
    object_ok o' ∧ type_of o' = type_of o ∧
    step (contract_of (type_of o)) (object_view o) call v (object_view o') log.
Proof using HR HD HB HC.
  intros [Hcpu Hok] Ho. pose proof (Hok r o Ho) as Hoo.
  unfold on_dyn, runs. rewrite Ho. destruct o as [N c|K N c].
  - destruct (dyn_step (Implements := ChannelState.state_implements) (shared_value c) call I)
      as (v & x & log & Hr & _ & Hst).
    exists v, (FifoObject N (shared_set x c)), log. split_and!; [|done..].
    unfold on_fifo. rewrite Ho.
    apply (runs_zoom (λ s, (s.1, c)) (λ x s, (x.1, <[r := FifoObject N x.2]> s.2)) _ s v
      (s.1, shared_set x c)).
    by apply (Channel.dynamic_channel_locks call s.1 c v x log Hcpu Hoo Hr).
  - destruct Hoo as [Hf HN].
    destruct (dyn_step (Implements := PriorityChannel.PriorityChannelState.state_implements HN) (shared_value c) call I)
      as (v & x & log & Hr & _ & Hst).
    exists v, (PriorityObject K N (shared_set x c)), log. split_and!; [|done..].
    unfold on_priority. rewrite Ho.
    apply (runs_zoom (λ s, (s.1, c)) (λ x s, (x.1, <[r := PriorityObject K N x.2]> s.2)) _ s v
      (s.1, shared_set x c)).
    by apply (PriorityChannel.priority_dynamic_channel_locks call s.1 c v x log Hcpu Hf Hr).
Qed.

Ltac reaches H lem := let a := fresh "a" in
  apply lem in H as (a & -> & H).

(** Every handle makes the call it stands for on its channel. *)
Lemma handle_is_call c call s o v s' log :
  s.2 !! target c = Some o → refers c (type_of o) = true → call_there c = Some call →
  runs (on_dyn (target c) (λ C D, run_call call)) s v s' log → runs (run_handle c) s v s' log.
Proof using.
  intros Ho Hty Hc Hr.
  assert (match o with
          | FifoObject _ _ => runs (on_fifo (target c) (λ N, @run_call _ _ Channel.dynamic_channel call)) s v s' log
          | PriorityObject _ _ _ => 
              runs (on_priority (target c) (λ K N, @run_call _ _ PriorityChannel.dynamic_channel call)) s v s' log
          end) as Hs.
  { unfold runs, on_dyn in Hr. rewrite Ho in Hr. by destruct o. }
  destruct c; destruct o; try discriminate Hty; cbn [call_there] in Hc;
    try (apply fmap_Some in Hc as (m & Hm & ->)); try (injection Hc as <-); cbn [run_call] in Hr, Hs;
    first
    [ reaches Hr (@on_dyn_reply); apply runs_reply; exact Hr
    | reaches Hs (@on_fifo_reply); apply runs_reply; exact Hs
    | reaches Hs (@on_priority_reply); apply runs_reply; exact Hs
    | reaches Hr (@on_dyn_reply); cbn [run_handle]; unfold DynamicSendFuture_poll;
      rewrite Hm; by apply runs_poll_sending
    | reaches Hs (@on_fifo_reply); cbn [run_handle]; unfold SendFuture_poll;
      rewrite Hm; by apply runs_poll_sending
    | reaches Hs (@on_priority_reply); cbn [run_handle]; unfold PrioritySendFuture_poll;
      rewrite Hm; by apply runs_poll_sending
    | reaches Hr (@on_dyn_reply); by apply runs_receive_poll ].
Qed.

(** One call: a step of the channel it reaches, nothing for the others. *)
Lemma handle_step c s : sys_ok s → well_typed (types s) c →
  ∃ v s' log, runs (run_handle c) s v s' log ∧ sys_ok s' ∧ types s' = types s ∧
    ∀ r o, s.2 !! r = Some o → ∃ o', s'.2 !! r = Some o' ∧ type_of o' = type_of o ∧
      if decide (target c = r)
      then ∃ call, call_there c = Some call ∧
        step (contract_of (type_of o)) (object_view o) call v (object_view o') log
      else o' = o.
Proof using HR HD HB HC.
  intros Hs ([call Hcall] & ty & Hty & Href). unfold types in Hty.
  apply lookup_fmap_Some in Hty as (o & <- & Ho).
  destruct (runs_on_dyn (target c) call s o Hs Ho) as (v & o' & log & Hr & Hok & Hsame & Hst).
  exists v, (s.1, <[target c := o']> s.2), log. split_and!.
  - by eapply handle_is_call.
  - destruct Hs as [Hcpu Hall]. split; [done|]. by apply map_Forall_insert_2.
  - unfold types. cbn. rewrite fmap_insert, Hsame. apply insert_id. by rewrite lookup_fmap, Ho.
  - intros r o1 Ho1. cbn. destruct (decide (target c = r)) as [<-|Hne].
    + simplify_eq. exists o'. rewrite lookup_insert_eq. eauto.
    + exists o1. by rewrite lookup_insert_ne.
Qed.

(** C23: handles share their channels.  Through any copies of static and
    size-erased senders and receivers and any futures, over any number of
    channels of both kinds, a sequence of calls runs without a panic; a call
    touches the one channel its handle refers to, and the calls that reach a
    channel, whoever made them, are in their order a run of that channel's
    own contract, which fixes their replies and the tasks they wake.  No
    message moves between channels, is lost or is delivered twice. *)
Theorem handles_share_channels (cs : list (HandleCall (T := T))) s :
  sys_ok s → Forall (well_typed (types s)) cs →
  ∃ io s' log, runs (op_calls run_handle cs) s io s' log ∧ io.*1 = cs ∧ sys_ok s' ∧
    types s' = types s ∧
    ∀ r o, s.2 !! r = Some o → ∃ o' l, s'.2 !! r = Some o' ∧
      steps (contract_of (type_of o)) (object_view o) (calls_at r io) (object_view o') l ∧
      l `sublist_of` log ∧
      msgs (object_view o) ++ (calls_at r io ≫= accepted) ≡ₚ
        (calls_at r io ≫= delivered) ++ msgs (object_view o').
Proof using HR HD HB HC.
  intros Hs Hcs. cut (∃ io s' log, runs (op_calls run_handle cs) s io s' log ∧ io.*1 = cs ∧ sys_ok s' ∧
    types s' = types s ∧ ∀ r o, s.2 !! r = Some o → ∃ o' l, s'.2 !! r = Some o' ∧
      steps (contract_of (type_of o)) (object_view o) (calls_at r io) (object_view o') l ∧
      l `sublist_of` log).
  { intros (io & s' & log & Hr & Hio & Hs' & Hty & Hall). exists io, s', log. split_and!; [done..|].
    intros r o Ho. destruct (Hall r o Ho) as (o' & l & Ho' & Hst & Hl). exists o', l.
    split_and!; [done..|]. by eapply steps_conserve. }
  revert s Hs Hcs. induction cs as [|c cs IH]; intros s Hs Hcs.
  { exists [], s, []. split_and!; [apply runs_ret|done..|]. intros r o Ho. exists o, [].
    split_and!; [done|constructor|done]. }
  apply Forall_cons in Hcs as [Hc Hcs].
  destruct (handle_step c s Hs Hc) as (v & s1 & l1 & Hr & Hs1 & Hty & Hone).
  rewrite <-Hty in Hcs. destruct (IH s1 Hs1 Hcs) as (io & s' & l2 & Hrs & <- & Hs' & Hty' & Hall).
  exists ((c, v) :: io), s', (l1 ++ l2). split_and!; [|done..|by rewrite Hty'|].
  { by eapply runs_calls_cons. }
  intros r o Ho. destruct (Hone r o Ho) as (o1 & Ho1 & Hsame & Hst).
  destruct (Hall r o1 Ho1) as (o' & l & Ho' & Htr & Hsub). rewrite Hsame in Htr.
  cbn [calls_at omap list_omap]. destruct (decide (target c = r)) as [<-|Hne].
  - destruct Hst as (call & Hcall & Hst). rewrite Hcall. exists o', (l1 ++ l).
    split_and!; [done|by econstructor|]. by apply sublist_app.
  - subst o1. exists o', l. split_and!; [done..|]. by apply sublist_inserts_l.
Qed.

(** Only a future that has sent its message stands for no call, and polling
    it panics. *)
Lemma no_call_panics c s : call_there c = None → run_handle c s = Panic.
Proof using.
  destruct c; try done; cbn [call_there]; intros Hm%fmap_None; cbn [run_handle reply];
    unfold SendFuture_poll, DynamicSendFuture_poll, PrioritySendFuture_poll; by rewrite Hm.
Qed.
End Facts.

(** ** Instances: a channel of two numbers and a priority channel of one *)
#[local] Existing Instances cs_with_model cs_with_model_law PriorityChannel.PriorityChannel.z_total.

Abbreviation DemoSys := (Sys CriticalSectionRawMutex blist blist_bh Z Z.compare).
Definition demo_channel : Object CriticalSectionRawMutex blist blist_bh Z Z.compare := FifoObject 2 Channel.new.
Definition demo : DemoSys :=
  (mk_cpu true 0 0, {[0%Z := demo_channel; 1%Z := PriorityObject Max 1 PriorityChannel.new]}).
Definition demo_waker : Waker := mk_waker 7 TASK_VTABLE.
Definition demo_tx : Sender := sender 0%Z.
Definition demo_dyn : DynamicSender := DynamicSender_from (Sender_clone demo_tx).
Definition demo_priority : DynamicSender := DynamicSender_from_priority (priority_sender 1%Z).

(** Two senders of one channel and a size-erased one of the other; the
    second send of the priority channel finds it full. *)
Definition demo_calls : list (HandleCall (T := Z)) :=
  [BySender demo_tx 1%Z; ByDynSender demo_priority 5%Z;
   ByDynamicSendFuture (DynamicSender_send demo_dyn 2%Z) demo_waker;
   ByDynamicSendFuture (DynamicSender_send demo_priority 9%Z) demo_waker;
   ByReceiveFuture (Receiver_receive (receiver 0%Z)) demo_waker;
   ByDynamicReceiveFuture (DynamicReceiver_receive (DynamicReceiver_from_priority (priority_receiver 1%Z))) demo_waker;
   ByReceiver (receiver 0%Z); ByReceiver (receiver 0%Z)].

Example handles_demo_runs :
  (match op_calls run_handle demo_calls demo with Val (io, _, log) => Some (io.*2, log) | Panic => None end) =
  Some ([Sent (Ok tt); Sent (Ok tt); Sent (Ok tt); Sent (Err (TrySendFull 9%Z)); PolledMessage (Ready 1%Z);
         Received (Ok 5%Z); Received (Ok 2%Z); Received (Err TryReceiveEmpty)], [demo_waker]).
Proof. vm_compute. reflexivity. Qed.

Lemma demo_sys_ok : sys_ok demo.
Proof.
  split; [done|]. apply map_Forall_insert_2; [done|]. by apply map_Forall_singleton.
Qed.

Lemma handles_share_channels_witness : ∃ io s' log, runs (op_calls run_handle demo_calls) demo io s' log ∧
  ∃ o, s'.2 !! 0%Z = Some o ∧
    msgs (object_view demo_channel) ++ (calls_at 0%Z io ≫= accepted) ≡ₚ (calls_at 0%Z io ≫= delivered) ++ msgs (object_view o).
Proof.
  destruct (handles_share_channels demo_calls demo demo_sys_ok) as (io & s' & log & Hr & _ & _ & _ & Hall).
  { repeat constructor; eexists; by vm_compute. }
  exists io, s', log. split; [done|].
  destruct (Hall 0%Z demo_channel eq_refl) as (o & l & Ho & _ & _ & Hp).
  exists o. split; [exact Ho|exact Hp].
Defined.
End Handles.
