(* ===== verification/Bump.v ===== *)
(** * The bump allocator ([memory/bump.rs])

    Tasks and their futures live in static memory handed out by a bump pointer
    that never goes back.  A type is its size and alignment; a pointer is an
    address.  [Tasks] allocates the task headers with it. *)

From S2P Require Import Prelude.

(** [core::alloc::Layout] of a type: [size_of] and [align_of]. *)
Record Layout := mk_layout { size_of : Z; align_of : Z }.

(** What the language guarantees of the layout of a type on a 32-bit target. *)
Definition layout_ok (l : Layout) : Prop :=
  (0 ≤ size_of l < 2147483648 ∧ 0 < align_of l ≤ 536870912)%Z.

#[export] Instance layout_ok_dec l : Decision (layout_ok l).
Proof. unfold layout_ok. apply _. Defined.

Module Bump.
Record t := mk { len : Z; pos : Z; start : Z }.

(** [BumpAllocator::new] on a slice of [length] bytes at address [address]. *)
Definition new (length address : Z) : t := mk length 0 address.

Section Ops.
Context `{Profile}.

(** Rounds up [n] to the nearest multiple of [m]. *)
Definition round_up (n m : Z) : Outcome Z :=
  let rem := (n mod m)%Z in
  if Z.eqb rem 0 then Val n
  else s ← uadd usize n m; usub usize s rem.

Definition alloc {E} (l : Layout) : Op E t Z :=
  s ← op_get;
  new_pos ← op_lift (round_up (pos s) (align_of l));
  end_ ← op_lift (uadd usize new_pos (size_of l));
  if Z.ltb end_ (len s) then
    op_put (mk (len s) end_ (start s));;
    mret (start s + new_pos)%Z
  else op_panic.

(** [alloc_init] returns the reference; what is written there is the typed
    memory of the component that allocates. *)
Definition alloc_init {E} (l : Layout) : Op E t Z := alloc l.
End Ops.

(** A region of less than 1 GiB that does not wrap around the address space. *)
Definition wf (s : t) : Prop :=
  (0 ≤ pos s ≤ len s ∧ len s < 1073741824 ∧ 0 ≤ start s ∧ start s + len s ≤ modulus usize)%Z.

#[export] Instance wf_dec s : Decision (wf s).
Proof. unfold wf. apply _. Defined.

(** The smallest multiple of [m] from [n] on. *)
Definition ceil (n m : Z) : Z := if Z.eqb (n mod m) 0 then n else (n + m - n mod m)%Z.

Lemma ceil_spec n m : (0 < m)%Z → (n ≤ ceil n m < n + m ∧ ceil n m mod m = 0)%Z.
Proof.
  intros Hm. unfold ceil. pose proof (Z.mod_pos_bound n m Hm).
  destruct (Z.eqb_spec (n mod m) 0) as [|Hne]; [lia|]. split; [lia|].
  replace (n + m - n mod m)%Z with ((n / m + 1) * m)%Z by (pose proof (Z.div_mod n m); lia).
  apply Z.mod_mul. lia.
Qed.

Section Facts.
Context `{Profile}.
Implicit Types s : t.

Lemma round_up_eq n m : (0 ≤ n < 1073741824)%Z → (0 < m ≤ 536870912)%Z →
  round_up n m = Val (ceil n m).
Proof.
  intros Hn Hm. unfold round_up, ceil. pose proof (Z.mod_pos_bound n m (proj1 Hm)).
  destruct (Z.eqb_spec (n mod m) 0); [done|].
  rewrite uadd_in by width. cbv [mbind outcome_bind]. apply usub_in. width.
Qed.

(** Where the next allocation of a layout would begin. *)
Definition next s (l : Layout) : Z := ceil (pos s) (align_of l).

Lemma alloc_eq {E} l s : wf s → layout_ok l →
  alloc l s =
    if Z.ltb (next s l + size_of l) (len s)
    then Val (start s + next s l, mk (len s) (next s l + size_of l) (start s), [] : list E)%Z
    else Panic.
Proof.
  intros Hs [Hsz Hal]. pose proof (ceil_spec (pos s) (align_of l) (proj1 Hal)) as [Hc _].
  unfold wf in Hs. unfold alloc, next in *. run_op.
  rewrite round_up_eq by lia. rewrite uadd_in by width. by destruct (Z.ltb _ _).
Qed.

Lemma alloc_wf s l : wf s → layout_ok l → (next s l + size_of l < len s)%Z →
  wf (mk (len s) (next s l + size_of l) (start s)).
Proof.
  intros Hs [Hsz Hal] Hlt. pose proof (ceil_spec (pos s) (align_of l) (proj1 Hal)).
  unfold wf, next in *. cbn [len pos start] in *. lia.
Qed.

(** An allocation that succeeds lies in what was still free. *)
Lemma alloc_bounds {E} l s p s' (lg : list E) : wf s → layout_ok l → alloc l s = Val (p, s', lg) →
  wf s' ∧ start s' = start s ∧ lg = [] ∧
  (start s + pos s ≤ p ∧ p + size_of l = start s' + pos s' ∧ pos s ≤ pos s')%Z.
Proof.
  intros Hs Hl Ha. rewrite alloc_eq in Ha by done.
  destruct (Z.ltb_spec (next s l + size_of l) (len s)) as [Hlt|]; [|done].
  injection Ha as <- <- <-. pose proof (alloc_wf s l Hs Hl Hlt) as Hw.
  destruct Hl as [Hsz Hal]. pose proof (ceil_spec (pos s) (align_of l) (proj1 Hal)) as [Hc _].
  fold (next s l) in Hc. cbn. split_and!; try done; lia.
Qed.

(** A run of allocations: the blocks handed out, first to last. *)
Record Block := block { address : Z; layout : Layout }.

Fixpoint alloc_all {E} (ls : list Layout) : Op E t (list Block) :=
  match ls with
  | [] => mret []
  | l :: ls => p ← alloc l; bs ← alloc_all ls; mret (block p l :: bs)
  end.

(** The block lies in the region [lo, hi), and its offset from [base] is a multiple
    of its alignment.  [alloc] aligns the offset, not the address: the address is
    aligned only if [base] is, and the memory is a static [[u8]], which the
    language aligns to one byte. *)
Definition placed (base lo hi : Z) (b : Block) : Prop :=
  (lo ≤ address b ∧ address b + size_of (layout b) < hi ∧
   (address b - base) mod align_of (layout b) = 0)%Z.

(** Each block ends before any later one begins. *)
Inductive stacked : list Block → Prop :=
| stacked_nil : stacked []
| stacked_cons b bs :
    Forall (λ c, (address b + size_of (layout b) ≤ address c)%Z) bs → stacked bs →
    stacked (b :: bs).

Lemma placed_weaken base lo lo' hi b : (lo' ≤ lo)%Z → placed base lo hi b → placed base lo' hi b.
Proof. unfold placed. lia. Qed.

Lemma alloc_all_runs {E} ls : ∀ s r, wf s → Forall layout_ok ls →
  (alloc_all ls : Op E t _) s = Val r →
  wf r.1.2 ∧ layout <$> r.1.1 = ls ∧ stacked r.1.1 ∧
  Forall (placed (start s) (start s + pos s) (start s + len s)) r.1.1.
Proof.
  induction ls as [|l ls IH]; intros s [[bs s'] lg] Hs HF Hr.
  { injection Hr as <- <- <-. split_and!; [done|done|constructor|constructor]. }
  inversion_clear HF as [|?? Hl HF']. cbn [alloc_all] in Hr.
  apply op_bind_val in Hr as (p & s1 & l1 & l2 & Hp & Hr & ->).
  rewrite alloc_eq in Hp by done. destruct (Z.ltb_spec (next s l + size_of l) (len s)); [|done].
  injection Hp as <- <- <-.
  apply op_bind_val in Hr as (bs' & s2 & l3 & l4 & Hbs & [= <- <- <-] & ->).
  pose proof (alloc_wf s l Hs Hl ltac:(lia)) as Hs1.
  pose proof (ceil_spec (pos s) (align_of l) (proj1 (proj2 Hl))) as [Hc Hmod]. fold (next s l) in *.
  destruct (IH _ _ Hs1 HF' Hbs) as (Hw & Hls & Hst & Hpl). cbn in *.
  split_and!; [done|by f_equal| |].
  - constructor; [|done]. eapply Forall_impl; [exact Hpl|]. intros b Hb. unfold placed in Hb. cbn. lia.
  - constructor; [|eapply Forall_impl; [exact Hpl|]].
    + unfold placed. cbn. split_and!; [lia|lia|].
      by replace (start s + next s l - start s)%Z with (next s l) by lia.
    + intros b. apply placed_weaken. destruct Hl. lia.
Qed.

(** C34: memory handed out is never handed out again.  Of any sequence of
    allocations that succeeds, every block lies inside the region and after
    the memory already in use, blocks do not overlap, and the offset of each
    block from the start of the region is a multiple of its alignment. *)
Theorem bump_blocks_disjoint ls s bs s' : wf s → Forall layout_ok ls →
  alloc_all ls s = Val (bs, s', [] : list unit) →
  wf s' ∧ layout <$> bs = ls ∧ stacked bs ∧
  Forall (placed (start s) (start s + pos s) (start s + len s)) bs.
Proof. intros Hs HF Hr. exact (alloc_all_runs ls s _ Hs HF Hr). Qed.

(** C40: an allocation panics exactly when the block would end at or after the end
    of the region, so that the request that would exactly fill it is refused and the
    last byte is never handed out.  Otherwise it returns the start of the region
    plus the smallest multiple of the alignment from the position on, and moves
    the position behind the block.  The address itself is aligned exactly when the
    start of the region is. *)
Theorem bump_alloc_exact l s : wf s → layout_ok l →
  (alloc l s = (Panic : Outcome (Z * t * list unit)) ↔ len s ≤ next s l + size_of l)%Z ∧
  (next s l + size_of l < len s → let p := start s + next s l in
    alloc l s = Val (p, mk (len s) (next s l + size_of l) (start s), [] : list unit) ∧
    pos s ≤ next s l ∧ next s l mod align_of l = 0 ∧
    (∀ k, pos s ≤ k → k mod align_of l = 0 → next s l ≤ k) ∧
    (p mod align_of l = 0 ↔ start s mod align_of l = 0))%Z.
Proof.
  intros Hs Hl. rewrite alloc_eq by done.
  destruct Hl as [_ Hal]. destruct (ceil_spec (pos s) (align_of l)) as [Hc Hmod]; [lia|].
  fold (next s l) in Hc, Hmod.
  split; [|intros Hlen; split_and!].
  - destruct (Z.ltb_spec (next s l + size_of l) (len s)); split; (done || lia).
  - by rewrite (proj2 (Z.ltb_lt _ _)) by lia.
  - lia.
  - done.
  - intros k Hk Hkm. apply Z.mod_divide in Hmod as [a Ha]; [|lia]. apply Z.mod_divide in Hkm as [b Hb]; [|lia].
    assert (a < b + 1)%Z by (apply (Z.mul_lt_mono_pos_r (align_of l)); lia).
    rewrite Ha, Hb. apply Z.mul_le_mono_nonneg_r; lia.
  - by rewrite Z.add_mod, Hmod, Z.add_0_r, Z.mod_mod by lia.
Qed.
End Facts.

Definition demo : t := new 32 1073741825.
Definition demo_layouts : list Layout := [mk_layout 5 1; mk_layout 8 8; mk_layout 4 4].

Lemma bump_blocks_disjoint_witness : ∃ bs s',
  alloc_all (H := true) demo_layouts demo = Val (bs, s', [] : list unit) ∧ stacked bs ∧
  address <$> bs = [1073741825; 1073741833; 1073741841]%Z.
Proof.
  destruct (alloc_all (H := true) demo_layouts demo) as [[[bs s'] l]|] eqn:Hr; [|discriminate].
  exists bs, s'. vm_compute in Hr. injection Hr as <- <- <-. split; [done|].
  split; [|done].
  eapply (bump_blocks_disjoint (H := true) demo_layouts demo); [done| |by vm_compute].
  by repeat constructor.
Defined.

Lemma bump_alloc_exact_witness :
  alloc (H := true) (mk_layout 32 4) demo = (Panic : Outcome (Z * t * list unit)) ∧
  alloc (H := true) (mk_layout 8 4) demo = Val (1073741825, mk 32 8 1073741825, [] : list unit)%Z.
Proof.
  split.
  - by apply (bump_alloc_exact (H := true) (mk_layout 32 4) demo).
  - by apply (bump_alloc_exact (H := true) (mk_layout 8 4) demo).
Defined.
End Bump.
