(* ===== verification/Heap.v ===== *)
(** * The free-list heap ([memory/heap.rs])

    The free memory of a region is a list of holes, sorted by address; a hole
    stores its size and the address of the next one in its own first bytes.
    Memory is a map from addresses to the holes written there: writing a hole
    destroys those it overlaps, and reading a hole where none is left is
    undefined behaviour, here a panic.  The functions [align_up],
    [align_up_size] and [align_down_size], which the file calls but the
    repository does not have, are parameters with what their names promise. *)

From S2P Require Import Prelude Bump.

(** What rounding to a multiple of a power of two is. *)
Class AlignOps := {
  align_up : Z → Z → Z;
  align_up_size : Z → Z → Z;
  align_down_size : Z → Z → Z
}.

(** A power of two, which every alignment is. *)
Definition pow2 (n : Z) : Prop := (0 < n ∧ Z.log2_up n = Z.log2 n)%Z.

#[export] Instance pow2_dec n : Decision (pow2 n).
Proof. unfold pow2. apply _. Defined.

Class AlignLaws `{!AlignOps} : Prop := {
  align_up_spec a n : pow2 n → (0 ≤ a → a + n ≤ modulus usize →
    (a ≤ align_up a n < a + n ∧ align_up a n mod n = 0))%Z;
  align_up_size_spec a n : pow2 n → (0 ≤ a → a + n ≤ modulus usize →
    (a ≤ align_up_size a n < a + n ∧ align_up_size a n mod n = 0))%Z;
  align_down_size_spec a n : pow2 n → (0 ≤ a < modulus usize →
    (align_down_size a n ≤ a < align_down_size a n + n ∧ align_down_size a n mod n = 0))%Z
}.

Module Heap.
(** [Hole]: eight bytes, aligned to four on a 32-bit target. *)
Record Hole := mk_hole { size : Z; next : option Z }.
Definition hole_layout : Layout := mk_layout 8 4.

(** A node of the list: the dummy in front, or a hole in memory. *)
Inductive Node := First | At (a : Z).

(** [HoleList], and the memory its holes are in. *)
Record t := mk {
  mem : gmap Z Hole;
  first : Hole;
  bottom : Z;
  top : Z;
  pending_extend : Z
}.

Definition set_mem m s : t := mk m (first s) (bottom s) (top s) (pending_extend s).
Definition set_first h s : t := mk (mem s) h (bottom s) (top s) (pending_extend s).
Definition set_top a s : t := mk (mem s) (first s) (bottom s) a (pending_extend s).
Definition set_pending n s : t := mk (mem s) (first s) (bottom s) (top s) n.

Record Cursor := cursor_at { prev : Node; hole : Z; cursor_top : Z }.

Record HoleInfo := info { addr : Z; info_size : Z }.

Definition min_size : Z := 4 * 2.

(** Bytes [a, a + 8) and [k, k + 8) overlap. *)
Definition overlaps (a k : Z) : Prop := (a - 8 < k < a + 8)%Z.
#[export] Instance overlaps_dec a k : Decision (overlaps a k).
Proof. unfold overlaps. apply _. Defined.

Definition write_mem (a : Z) (h : Hole) (m : gmap Z Hole) : gmap Z Hole :=
  <[a := h]> (filter (λ kv, ¬ overlaps a kv.1) m).

(** [wrapping_add] *)
Definition wrapping_add (a b : Z) : Z := ((a + b) mod modulus usize)%Z.

Section Ops.
Context `{HP : Profile} `{AlignOps} {E : Type}.
Abbreviation HOp := (Op E t).

(** [debug_assert!] is on in the dev profile, like the overflow checks. *)
Definition debug_assert (b : bool) : Outcome unit := if overflow_checks then assert_that b else Val tt.

Definition read_node (n : Node) : HOp Hole :=
  s ← op_get;
  match n with
  | First => mret (first s)
  | At a => op_lift (unwrap (mem s !! a))
  end.
Definition write_node (n : Node) (h : Hole) : HOp unit :=
  match n with
  | First => op_modify (set_first h)
  | At a => op_modify (λ s, set_mem (write_mem a h (mem s)) s)
  end.
Definition set_next (n : Node) (o : option Z) : HOp unit :=
  h ← read_node n;
  write_node n (mk_hole (size h) o).
Definition set_size (n : Node) (z : Z) : HOp unit :=
  h ← read_node n;
  write_node n (mk_hole z (next h)).

(** ** [Cursor] *)
Definition cursor_next (c : Cursor) : HOp (option Cursor) :=
  h ← read_node (At (hole c));
  mret ((λ nhole, cursor_at (At (hole c)) nhole (cursor_top c)) <$> next h).

Definition current (c : Cursor) : HOp Hole := read_node (At (hole c)).
Definition previous (c : Cursor) : HOp Hole := read_node (prev c).

(** The first part of [split_current]: where the allocation goes, and the
    holes left before and after it; [None] if the hole does not do. *)
Definition split_place (hole_addr hole_size : Z) (l : Layout) :
    Outcome (option (Z * option HoleInfo * option HoleInfo)) :=
  if Z.ltb hole_size (size_of l) then Val None
  else
    '(aligned_addr, front_padding) ←
      (if Z.eqb hole_addr (align_up hole_addr (align_of l)) then Val (hole_addr, None)
       else
         let aligned_addr := align_up (wrapping_add hole_addr min_size) (align_of l) in
         n ← usub usize aligned_addr hole_addr;
         Val (aligned_addr, Some (info hole_addr n)));
    let allocation_end := wrapping_add aligned_addr (size_of l) in
    let hole_end := wrapping_add hole_addr hole_size in
    if Z.ltb hole_end allocation_end then Val None
    else
      back_padding_size ← usub usize hole_end allocation_end;
      if Z.eqb back_padding_size 0 then Val (Some (aligned_addr, front_padding, None))
      else
        let back_padding_start := align_up allocation_end (align_of hole_layout) in
        let back_padding_end := wrapping_add back_padding_start (size_of hole_layout) in
        if Z.leb back_padding_end hole_end
        then Val (Some (aligned_addr, front_padding, Some (info back_padding_start back_padding_size)))
        else Val None.

(** Its last part: the holes that are left go where the hole was. *)
Definition link_pads (prev : Node) (front_padding back_padding : option HoleInfo)
    (maybe_next_addr : option Z) : HOp unit :=
  match front_padding, back_padding with
  | None, None => set_next prev maybe_next_addr
  | None, Some singlepad | Some singlepad, None =>
      write_node (At (addr singlepad)) (mk_hole (info_size singlepad) maybe_next_addr);;
      set_next prev (Some (addr singlepad))
  | Some frontpad, Some backpad =>
      write_node (At (addr backpad)) (mk_hole (info_size backpad) maybe_next_addr);;
      write_node (At (addr frontpad)) (mk_hole (info_size frontpad) (Some (addr backpad)));;
      set_next prev (Some (addr frontpad))
  end.

Definition split_current (c : Cursor) (l : Layout) : HOp (Result (Z * Z) Cursor) :=
  cur ← current c;
  p ← op_lift (split_place (hole c) (size cur) l);
  match p with
  | None => mret (Err c)
  | Some (alloc_ptr, front_padding, back_padding) =>
      set_next (prev c) None;;
      h ← read_node (At (hole c));
      let maybe_next_addr := next h in
      set_next (At (hole c)) None;;
      link_pads (prev c) front_padding back_padding maybe_next_addr;;
      mret (Ok (alloc_ptr, size_of l))
  end.

Definition check_merge_top (node top : Z) : HOp unit :=
  h ← read_node (At node);
  let end_ := wrapping_add node (size h) in
  if Z.ltb end_ top then
    let next_hole_end := wrapping_add (align_up end_ (align_of hole_layout)) (size_of hole_layout) in
    if Z.ltb top next_hole_end then
      offset ← op_lift (usub usize top end_);
      n ← op_lift (uadd usize (size h) offset);
      set_size (At node) n
    else mret tt
  else mret tt.

Definition make_hole (addr size : Z) : HOp Z :=
  op_lift (debug_assert (Z.eqb (addr mod align_of hole_layout) 0));;
  write_node (At addr) (mk_hole size None);;
  mret addr.

Definition check_merge_bottom (node bottom : Z) : HOp Z :=
  if Z.ltb node (wrapping_add bottom (size_of hole_layout)) then
    offset ← op_lift (usub usize node bottom);
    h ← read_node (At node);
    size ← op_lift (uadd usize (size h) offset);
    make_hole bottom size
  else mret node.

(** ** [HoleList] *)
Definition empty : t := mk ∅ (mk_hole 0 None) 0 0 0.

Definition cursor : HOp (option Cursor) :=
  s ← op_get;
  mret ((λ hole, cursor_at First hole (top s)) <$> next (first s)).

Definition new (hole_addr hole_size : Z) : Outcome t :=
  assert_that (Z.eqb (size_of hole_layout) min_size);;
  assert_that (Z.leb (size_of hole_layout) hole_size);;
  let aligned_hole_addr := align_up hole_addr (align_of hole_layout) in
  n ← usub usize aligned_hole_addr hole_addr;
  requested_hole_size ← usub usize hole_size n;
  let aligned_hole_size := align_down_size requested_hole_size (align_of hole_layout) in
  assert_that (Z.leb (size_of hole_layout) aligned_hole_size);;
  assert_that (Z.eqb (wrapping_add hole_addr hole_size) (wrapping_add aligned_hole_addr requested_hole_size));;
  rest ← usub usize requested_hole_size aligned_hole_size;
  Val (mk (write_mem aligned_hole_addr (mk_hole aligned_hole_size None) ∅)
    (mk_hole 0 (Some aligned_hole_addr)) aligned_hole_addr
    (wrapping_add aligned_hole_addr aligned_hole_size) (rest mod modulus W8)).

(** [Layout::from_size_align(..).unwrap()] *)
Definition layout_from_size_align (size align : Z) : Outcome Layout :=
  assert_that (bool_decide (0 < align ∧ Z.log2_up align = Z.log2 align)%Z
               && Z.leb size (2147483647 - (align - 1)))%Z;;
  Val (mk_layout size align).

Definition align_layout (layout : Layout) : Outcome Layout :=
  let size := if Z.ltb (size_of layout) min_size then min_size else size_of layout in
  layout_from_size_align (align_up_size size (align_of hole_layout)) (align_of layout).

(** The loop of [allocate_first_fit]; outer [None] is exhausted fuel. *)
Fixpoint first_fit_loop (fuel : nat) (c : Cursor) (l : Layout) :
    HOp (option (Result (Z * Layout) unit)) :=
  match fuel with
  | O => mret None
  | S fuel =>
      r ← split_current c l;
      match r with
      | Ok (ptr, _) => mret (Some (if Z.eqb ptr 0 then Err tt else Ok (ptr, l)))
      | Err curs =>
          o ← cursor_next curs;
          match o with
          | Some c => first_fit_loop fuel c l
          | None => mret (Some (Err tt))
          end
      end
  end.

Definition allocate_first_fit (fuel : nat) (layout : Layout) : HOp (option (Result (Z * Layout) unit)) :=
  aligned_layout ← op_lift (align_layout layout);
  o ← cursor;
  match o with
  | None => mret (Some (Err tt))
  | Some c => first_fit_loop fuel c aligned_layout
  end.

(** ** Insertion and merging *)
Definition try_insert_back (c : Cursor) (node bottom : Z) : HOp (Result Cursor Cursor) :=
  if Z.ltb node (hole c) then
    node' ← check_merge_bottom node bottom;
    set_next (prev c) (Some node');;
    set_next (At node') (Some (hole c));;
    mret (Ok (cursor_at (prev c) node (cursor_top c)))
  else mret (Err c).

Definition try_insert_after (c : Cursor) (node : Z) : HOp (Result unit unit) :=
  h ← current c;
  if match next h with Some n => negb (Z.ltb node n) | None => false end then mret (Err tt)
  else
    maybe_next ← (h ← read_node (At (hole c)); set_next (At (hole c)) (Some node);; mret (next h));
    set_next (At node) maybe_next;;
    mret (Ok tt).

(** What [try_merge_next_n] does to a hole that touches the next. *)
Definition absorb_next (hole next_ : Z) : HOp unit :=
  n ← read_node (At next_);
  set_next (At next_) None;;
  set_next (At hole) (next n);;
  h ← read_node (At hole);
  z ← op_lift (uadd usize (size h) (size n));
  set_size (At hole) z.

(** [for _ in 0..max] *)
Fixpoint try_merge_next_n (max : nat) (hole top : Z) : HOp unit :=
  match max with
  | O => mret tt
  | S max =>
      h ← read_node (At hole);
      match next h with
      | None => check_merge_top hole top
      | Some next_ =>
          if Z.eqb (wrapping_add hole (size h)) next_ then
            absorb_next hole next_;;
            try_merge_next_n max hole top
          else try_merge_next_n max next_ top
      end
  end.

(** The [while] loop of [deallocate]; [None] is exhausted fuel. *)
Fixpoint insert_after_loop (fuel : nat) (c : Cursor) (node : Z) : HOp (option Cursor) :=
  match fuel with
  | O => mret None
  | S fuel =>
      r ← try_insert_after c node;
      match r with
      | Ok _ => mret (Some c)
      | Err _ =>
          o ← cursor_next c;
          c ← op_lift (unwrap o);
          insert_after_loop fuel c node
      end
  end.

Definition deallocate_at (fuel : nat) (addr size : Z) : HOp (option unit) :=
  hole_ ← make_hole addr size;
  s ← op_get;
  o ← cursor;
  match o with
  | None =>
      hole_ ← check_merge_bottom hole_ (bottom s);
      check_merge_top hole_ (top s);;
      set_next First (Some hole_);;
      mret (Some tt)
  | Some c =>
      r ← try_insert_back c hole_ (bottom s);
      match r with
      | Ok c => try_merge_next_n 1 (hole c) (cursor_top c);; mret (Some tt)
      | Err c =>
          o ← insert_after_loop fuel c hole_;
          match o with
          | Some c => try_merge_next_n 2 (hole c) (cursor_top c);; mret (Some tt)
          | None => mret None
          end
      end
  end.

Definition deallocate (fuel : nat) (ptr : Z) (layout : Layout) : HOp (option Layout) :=
  aligned_layout ← op_lift (align_layout layout);
  o ← deallocate_at fuel ptr (size_of aligned_layout);
  mret ((λ _, aligned_layout) <$> o).

Definition extend (fuel : nat) (by_ : Z) : HOp (option unit) :=
  s ← op_get;
  op_lift (assert_that (negb (Z.eqb (top s) 0)));;
  op_lift (debug_assert (Z.eqb (top s mod align_of hole_layout) 0));;
  op_lift (debug_assert (Z.ltb (pending_extend s) min_size));;
  extend_by ← op_lift (uadd usize (pending_extend s) by_);
  if Z.ltb extend_by min_size then
    op_modify (set_pending (extend_by mod modulus W8));;
    mret (Some tt)
  else
    let new_hole_size := align_down_size extend_by (align_of hole_layout) in
    layout ← op_lift (layout_from_size_align new_hole_size 1);
    o ← deallocate fuel (top s) layout;
    match o with
    | None => mret None
    | Some _ =>
        op_modify (set_top (top s + new_hole_size)%Z);;
        rest ← op_lift (usub usize extend_by new_hole_size);
        op_modify (set_pending (rest mod modulus W8));;
        mret (Some tt)
    end.
End Ops.
End Heap.
