(* ===== verification/HeapFacts.v ===== *)
(** * The free-list heap as a list of holes

    A heap represents the list of its holes, lowest first: [listed s hs].
    Allocation is the first fit of [fit] on that list and deallocation the
    insertion of [insert_hole], which joins a freed block with the holes it
    touches.  In the middle of an operation the list is in two parts, the
    holes the list still reaches and those it is to be linked to again. *)

From S2P Require Import Prelude Bump Heap.

Import Heap.

Ltac mod_lia := Z.to_euclidean_division_equations; lia.

(** Where a list that goes on at [o] begins. *)
Definition head_or (hs : list (Z * Z)) (o : option Z) : option Z :=
  match hs with [] => o | (a, _) :: _ => Some a end.

(** The holes [hs] are in memory, each linked to the next and the last to [o]. *)
Fixpoint seg (m : gmap Z Hole) (hs : list (Z * Z)) (o : option Z) : Prop :=
  match hs with
  | [] => True
  | (a, z) :: hs => m !! a = Some (mk_hole z (head_or hs o)) ∧ seg m hs o
  end.

(** Holes in [lo, hi), in order, none overlapping, each good for a node. *)
Fixpoint spaced (lo : Z) (hs : list (Z * Z)) (hi : Z) : Prop :=
  match hs with
  | [] => lo ≤ hi
  | (a, z) :: hs => lo ≤ a ∧ a mod 4 = 0 ∧ z mod 4 = 0 ∧ 8 ≤ z ∧ spaced (a + z) hs hi
  end%Z.

Definition linked (s : t) (hs : list (Z * Z)) (o : option Z) : Prop :=
  first s = mk_hole 0 (head_or hs o) ∧ seg (mem s) hs o.

(** The list reaches [pre] and goes on at [o]; [post] is linked to its end. *)
Definition parts (s : t) (pre : list (Z * Z)) (o : option Z) (post : list (Z * Z)) : Prop :=
  linked s pre o ∧ seg (mem s) post None.

Definition listed (s : t) (hs : list (Z * Z)) : Prop := linked s hs None.

Definition prev_of (pre : list (Z * Z)) : Node :=
  match last pre with Some (a, _) => At a | None => First end.

(** What the operations on the list leave alone. *)
Definition kept (s s' : t) : Prop :=
  bottom s' = bottom s ∧ top s' = top s ∧ pending_extend s' = pending_extend s.

Lemma heap_kept_refl s : kept s s.
Proof. done. Qed.
Lemma heap_kept_trans s1 s2 s3 : kept s1 s2 → kept s2 s3 → kept s1 s3.
Proof. unfold kept. intuition congruence. Qed.
#[export] Hint Resolve heap_kept_refl : core.

(** ** Memory *)
Lemma write_mem_eq a h m : write_mem a h m !! a = Some h.
Proof. unfold write_mem. by simplify_map_eq. Qed.

Lemma write_mem_ne a h m k : (k + 8 ≤ a ∨ a + 8 ≤ k)%Z → write_mem a h m !! k = m !! k.
Proof.
  intros Hk. unfold write_mem. rewrite lookup_insert_ne by lia.
  destruct (m !! k) as [h'|] eqn:Hm.
  - apply map_lookup_filter_Some. split; [done|]. cbn. unfold overlaps. lia.
  - apply map_lookup_filter_None. by left.
Qed.

Lemma spaced_le lo hs hi : spaced lo hs hi → (lo ≤ hi)%Z.
Proof. revert lo. induction hs as [|[a z] hs IH]; intros lo; cbn; [done|]. intros (?&?&?&?&Hs). apply IH in Hs. lia. Qed.

Lemma spaced_weaken lo lo' hs hi hi' :
  spaced lo hs hi → (lo' ≤ lo)%Z → (hi ≤ hi')%Z → spaced lo' hs hi'.
Proof.
  revert lo lo'. induction hs as [|[a z] hs IH]; intros lo lo'; cbn; [lia|].
  intros (?&?&?&?&?). intros. split_and!; try lia; try done. eapply IH; [done|lia|done].
Qed.

Lemma spaced_app lo h1 h2 hi :
  spaced lo (h1 ++ h2) hi ↔ ∃ mid, spaced lo h1 mid ∧ spaced mid h2 hi.
Proof.
  revert lo. induction h1 as [|[a z] h1 IH]; intros lo; cbn.
  - split; [intros; exists lo; split; [lia|done]|]. intros (mid & Hm & H2).
    eapply spaced_weaken; [done|lia|done].
  - rewrite IH. split.
    + intros (?&?&?&?&mid&?&?). by exists mid.
    + intros (mid&(?&?&?&?&?)&?). split_and!; try done. by exists mid.
Qed.

(** A write above or below a segment does not touch it. *)
Lemma seg_write m hs o a h lo hi : seg m hs o → spaced lo hs hi → (hi ≤ a ∨ a + 8 ≤ lo)%Z →
  seg (write_mem a h m) hs o.
Proof.
  revert lo. induction hs as [|[b z] hs IH]; intros lo; cbn; [done|].
  intros [Hb Hs] (?&?&?&?&Hsp) Ha. pose proof (spaced_le _ _ _ Hsp).
  split; [|apply (IH (b + z)%Z); [done..|lia]].
  rewrite write_mem_ne by lia. done.
Qed.

Lemma seg_app m h1 h2 o : seg m (h1 ++ h2) o ↔ seg m h1 (head_or h2 o) ∧ seg m h2 o.
Proof.
  induction h1 as [|[a z] h1 IH]; cbn; [tauto|]. rewrite IH.
  replace (head_or (h1 ++ h2) o) with (head_or h1 (head_or h2 o)); [tauto|].
  by destruct h1 as [|[??]?].
Qed.

Lemma parts_listed s pre post : parts s pre (head_or post None) post ↔ listed s (pre ++ post).
Proof.
  unfold parts, listed, linked. rewrite seg_app.
  replace (head_or (pre ++ post) None) with (head_or pre (head_or post None)); [tauto|].
  by destruct pre as [|[??]?].
Qed.

Lemma parts_clear s pre o post a h lo mid hi : parts s pre o post → spaced lo pre mid →
  spaced (a + 8) post hi → (mid ≤ a)%Z →
  parts (set_mem (write_mem a h (mem s)) s) pre o post.
Proof.
  intros [[Hf Hp] Hq] Hsp Hsq Ha. split; [split|]; cbn [set_mem mem first]; [done| |].
  - eapply seg_write; [done..|lia].
  - eapply seg_write; [done..|lia].
Qed.

Lemma parts_write s pre o post a z lo mid hi : parts s pre o post → spaced lo pre mid →
  spaced (a + z) post hi → (mid ≤ a)%Z → (8 ≤ z)%Z →
  parts (set_mem (write_mem a (mk_hole z (head_or post None)) (mem s)) s) pre o ((a, z) :: post).
Proof.
  intros Hp Hsp Hsq Ha Hz. eapply (parts_clear s pre o post a _ lo mid hi) in Hp as [Hl Hs];
    [|done|eapply spaced_weaken; [done|lia|lia]|done].
  split; [exact Hl|]. split; [apply write_mem_eq|exact Hs].
Qed.

Section Code.
Context `{HP : Profile} `{HA : AlignOps} {E : Type}.
Implicit Types s : t.
Abbreviation HOp := (Op E t).

Lemma runs_read_at s a h : mem s !! a = Some h → runs (read_node (At a) : HOp _) s h s [].
Proof. intros Ha. unfold read_node. eapply runs_bind_nil; [apply runs_get|]. apply runs_lift. by rewrite Ha. Qed.

Lemma runs_set_next_at s a h o : mem s !! a = Some h →
  runs (set_next (At a) o : HOp _) s tt (set_mem (write_mem a (mk_hole (size h) o) (mem s)) s) [].
Proof. intros Ha. unfold set_next. eapply runs_bind_nil; [by apply runs_read_at|]. exact (runs_modify _ _). Qed.

Lemma runs_set_size_at s a h z : mem s !! a = Some h →
  runs (set_size (At a) z : HOp _) s tt (set_mem (write_mem a (mk_hole z (next h)) (mem s)) s) [].
Proof. intros Ha. unfold set_size. eapply runs_bind_nil; [by apply runs_read_at|]. exact (runs_modify _ _). Qed.

(** Relinking the end of the part that is reached. *)
Lemma runs_link s pre o o' post lo mid hi : parts s pre o post → spaced lo pre mid →
  spaced mid post hi → ∃ s', runs (set_next (prev_of pre) o' : HOp _) s tt s' [] ∧
    parts s' pre o' post ∧ kept s s' ∧ (∀ k, (mid ≤ k)%Z → mem s' !! k = mem s !! k).
Proof.
  intros [[Hf Hp] Hq] Hsp Hsq. destruct (decide (pre = [])) as [->|Hne].
  { exists (set_first (mk_hole (size (first s)) o') s). split; [|split; [split; [split|]|split]]; try done.
    cbn [set_first first head_or]. by rewrite Hf. }
  destruct (exists_last Hne) as (pre' & [a z] & ->). clear Hne.
  apply seg_app in Hp as [Hp [Ha _]]. apply spaced_app in Hsp as (m1 & Hs1 & Hm & Ha4 & Hz4 & Hz & Hmid).
  cbn in Hmid, Ha.
  exists (set_mem (write_mem a (mk_hole z o') (mem s)) s). split; [|split; [|split]].
  - unfold prev_of. rewrite last_snoc. exact (runs_set_next_at s a _ o' Ha).
  - split; [split|].
    + cbn [set_mem first]. rewrite Hf. by destruct pre' as [|[??]?].
    + cbn [set_mem mem]. apply seg_app. split; [|split; [apply write_mem_eq|done]].
      cbn [head_or] in *. eapply seg_write; [done..|lia].
    + cbn [set_mem mem]. eapply seg_write; [done..|lia].
  - done.
  - intros k Hk. cbn [set_mem mem]. apply write_mem_ne. lia.
Qed.

(** Reading the hole after [pre]. *)
Lemma listed_lookup s pre a z post : listed s (pre ++ (a, z) :: post) →
  mem s !! a = Some (mk_hole z (head_or post None)).
Proof. intros [_ Hs]. apply seg_app in Hs as [_ [Ha _]]. done. Qed.
End Code.

(** ** Rounding *)
Lemma mod_unique n a x : (0 < n → a ≤ x < a + n → x mod n = 0 → a mod n = 0 → x = a)%Z.
Proof.
  intros Hn Hx Hxm Ham. apply Z.mod_divide in Hxm as [i ->]; [|lia].
  apply Z.mod_divide in Ham as [j ->]; [|lia].
  assert (j ≤ i)%Z by nia. assert (i < j + 1)%Z by nia. f_equal. lia.
Qed.

Lemma ceil_fix n a : (0 < n → a mod n = 0 → Bump.ceil a n = a)%Z.
Proof. intros Hn Ha. unfold Bump.ceil. by rewrite Ha. Qed.

(** An alignment is 1, 2 or 4, or a multiple of 8. *)
Lemma pow2_cases n : pow2 n → (n = 1 ∨ n = 2 ∨ n = 4 ∨ n mod 8 = 0)%Z.
Proof.
  intros [Hn Hl]. symmetry in Hl. apply Z.log2_log2_up_exact in Hl as [k ->]; [|done].
  assert (0 ≤ k)%Z as Hk by (destruct (decide (0 ≤ k)%Z); [done|]; rewrite Z.pow_neg_r in Hn; lia).
  destruct (decide (k ≤ 2)%Z) as [Hk2|Hk2].
  - assert (k = 0 ∨ k = 1 ∨ k = 2)%Z as [-> | [-> | ->]] by lia; auto.
  - right. right. right. replace k with (3 + (k - 3))%Z by lia.
    rewrite Z.pow_add_r by lia. rewrite Z.mul_comm. apply Z.mod_mul. done.
Qed.

(** A multiple of an alignment that is not a multiple of 4 is none either. *)
Lemma pow2_mod4 n a : pow2 n → (a mod 4 = 0)%Z →
  (a mod n = 0 ∨ (8 ≤ n ∧ n mod 8 = 0))%Z.
Proof.
  intros Hn Ha. destruct (pow2_cases n Hn) as [-> | [-> | [-> | H8]]];
    [left; mod_lia..|]. right. destruct Hn. split; [mod_lia|done].
Qed.

Lemma mod8_mod4 n x : (0 < n → n mod 8 = 0 → x mod n = 0 → x mod 4 = 0)%Z.
Proof.
  intros Hn H8 Hx. apply Z.mod_divide in Hx as [i ->]; [|lia].
  apply Z.mod_divide in H8 as [j ->]; [|lia].
  apply Z.mod_divide; [lia|]. exists (i * j * 2)%Z. lia.
Qed.

(** ** First fit *)

(** Where in the hole [a, a + z) a block of the layout goes, and the holes
    that stay: at the start, or behind a gap wide enough for a node. *)
Definition place (a z : Z) (l : Layout) : option (Z * list (Z * Z)) :=
  let p := if Z.eqb (a mod align_of l) 0 then a else Bump.ceil (a + min_size) (align_of l) in
  let front := if Z.eqb p a then [] else [(a, p - a)]%Z in
  let e := (p + size_of l)%Z in
  if Z.eqb e (a + z) then Some (p, front)
  else if Z.leb (e + min_size) (a + z) then Some (p, front ++ [(e, a + z - e)%Z])
  else None.

(** The first hole that has room. *)
Fixpoint fit (hs : list (Z * Z)) (l : Layout) : option (Z * list (Z * Z)) :=
  match hs with
  | [] => None
  | (a, z) :: hs =>
      match place a z l with
      | Some (p, rest) => Some (p, rest ++ hs)
      | None => prod_map id (cons (a, z)) <$> fit hs l
      end
  end.

Lemma fit_cons a z hs l : fit ((a, z) :: hs) l =
  match place a z l with
  | Some (p, rest) => Some (p, rest ++ hs)
  | None => prod_map id (cons (a, z)) <$> fit hs l
  end.
Proof. done. Qed.

(** A place for a block of the layout in the hole: aligned, and the bytes left
    on either side are none or enough for a node. *)
Definition legal (a z : Z) (l : Layout) (p : Z) : Prop :=
  (p mod align_of l = 0 ∧ (p = a ∨ a + 8 ≤ p) ∧
   (p + size_of l = a + z ∨ p + size_of l + 8 ≤ a + z))%Z.

(** What the allocator makes of a layout. *)
Definition good (l : Layout) : Prop :=
  pow2 (align_of l) ∧ (8 ≤ size_of l ∧ size_of l mod 4 = 0)%Z.

Lemma place_start l a : good l → (a mod 4 = 0)%Z →
  let p := if Z.eqb (a mod align_of l) 0 then a else Bump.ceil (a + min_size) (align_of l) in
  (p mod align_of l = 0 ∧ p mod 4 = 0 ∧ (p = a ∨ (a + 8 ≤ p < a + 8 + align_of l)) ∧
   (p = a ↔ a mod align_of l = 0))%Z.
Proof.
  intros [Hp [Hsz Hs4]] Ha. cbv zeta. pose proof (proj1 Hp) as Hn.
  destruct (Z.eqb_spec (a mod align_of l) 0) as [He|Hne]; [tauto|].
  destruct (Bump.ceil_spec (a + min_size) (align_of l) Hn) as [Hb Hm]. unfold min_size in *.
  destruct (pow2_mod4 (align_of l) a Hp Ha) as [|[H8 H80]]; [done|].
  split_and!; [done|by eapply mod8_mod4|lia|]. split; [lia|done].
Qed.

Lemma place_some l a z p rest : good l → (a mod 4 = 0)%Z → (z mod 4 = 0)%Z →
  place a z l = Some (p, rest) →
  legal a z l p ∧ rest = (if Z.eqb p a then [] else [(a, p - a)]%Z) ++
    (if Z.eqb (p + size_of l) (a + z) then [] else [(p + size_of l, a + z - (p + size_of l))]%Z).
Proof.
  intros Hl Ha Hz. pose proof (place_start l a Hl Ha) as Hp. unfold place.
  set (p0 := if Z.eqb (a mod align_of l) 0 then a else _) in *. cbv zeta in *.
  destruct Hp as (Hm & _ & Hpa & _). unfold min_size, legal.
  destruct (Z.eqb_spec (p0 + size_of l) (a + z)) as [He|Hne].
  - intros [= <- <-]. rewrite He, Z.eqb_refl, app_nil_r. split; [lia|done].
  - destruct (Z.leb_spec (p0 + size_of l + 4 * 2) (a + z)); [|done]. intros [= <- <-].
    destruct (Z.eqb_spec (p0 + size_of l) (a + z)); [done|]. split; [lia|done].
Qed.

Lemma place_mod4 l a z p rest : good l → (a mod 4 = 0)%Z → place a z l = Some (p, rest) →
  (p mod 4 = 0)%Z.
Proof.
  intros Hl Ha Hpl. pose proof (place_start l a Hl Ha) as Hst. cbv zeta in Hst.
  unfold place in Hpl. repeat case_match; simplify_eq; apply Hst.
Qed.

(** [place] misses no place, and takes the lowest. *)
Lemma place_lowest l a z p : good l → (a mod 4 = 0)%Z → (z mod 4 = 0)%Z → legal a z l p →
  ∃ p' rest, place a z l = Some (p', rest) ∧ (p' ≤ p)%Z.
Proof.
  intros Hl Ha Hz (Hpm & Hpa & Hpe). pose proof (place_start l a Hl Ha) as Hp. unfold place.
  set (p0 := if Z.eqb (a mod align_of l) 0 then a else _) in *. cbv zeta in *.
  destruct Hp as (Hm & Hm4 & Hp0 & Hiff). unfold min_size. destruct Hl as [Hpow [Hsz Hs4]].
  assert (p0 ≤ p)%Z as Hle.
  { destruct (decide (p0 = a)) as [->|Hne]; [lia|]. destruct (decide (p < p0)%Z); [|lia].
    assert (p ≠ a) by (intros ->; apply Hne, Hiff, Hpm). exfalso. apply Hne.
    assert (p0 = p); [|lia]. apply (mod_unique (align_of l)); [apply Hpow|lia|done|done]. }
  assert (p0 = p ∨ p0 + 8 ≤ p)%Z as Hgap.
  { destruct (decide (p0 = p)); [by left|right].
    destruct (pow2_mod4 (align_of l) a Hpow Ha) as [H0|[H8 _]]; [apply Hiff in H0; lia|].
    destruct (decide (p < p0 + align_of l)%Z); [|lia].
    exfalso. assert (p = p0); [|lia]. apply (mod_unique (align_of l)); [apply Hpow|lia|done|done]. }
  destruct (Z.eqb_spec (p0 + size_of l) (a + z)); [by eexists _, _|].
  destruct (Z.leb_spec (p0 + size_of l + 4 * 2) (a + z)); [by eexists _, _|]. lia.
Qed.

Section Alloc.
Context `{HP : Profile} `{HA : AlignOps} `{!AlignLaws} {E : Type}.
Implicit Types s : t.

Lemma align_up_ceil a n : pow2 n → (0 ≤ a → a + n ≤ modulus usize → align_up a n = Bump.ceil a n)%Z.
Proof.
  intros Hp Ha Hb. pose proof (proj1 Hp) as Hn. destruct (align_up_spec a n) as [Hu Hum]; [done..|].
  destruct (Bump.ceil_spec a n Hn) as [Hc Hcm].
  destruct (decide (align_up a n ≤ Bump.ceil a n)%Z).
  - symmetry. apply (mod_unique n); [done|lia|done..].
  - apply (mod_unique n); [done|lia|done..].
Qed.

Lemma wrapping_add_in a b : in_width usize (a + b) → wrapping_add a b = (a + b)%Z.
Proof. unfold wrapping_add, in_width. intros. by apply Z.mod_small. Qed.

(** Room for the largest address [split_current] computes. *)
Definition within (hi : Z) (l : Layout) : Prop :=
  (hi + 8 + align_of l < modulus usize)%Z.

Definition pads (a z p : Z) (l : Layout) : option HoleInfo * option HoleInfo :=
  (if Z.eqb p a then None else Some (info a (p - a)),
   if Z.eqb (p + size_of l) (a + z) then None
   else Some (info (p + size_of l) (a + z - (p + size_of l))))%Z.

Lemma split_place_eq l a z hi : good l → (0 < a)%Z → (a mod 4 = 0)%Z → (z mod 4 = 0)%Z →
  (0 < z)%Z → (a + z ≤ hi)%Z → within hi l →
  split_place a z l =
    Val ((λ pr, (pr.1, (pads a z pr.1 l).1, (pads a z pr.1 l).2)) <$> place a z l).
Proof.
  intros Hl Ha0 Ha Hz Hz0 Hhi Hw. unfold within in Hw. unfold split_place, place.
  pose proof (place_start l a Hl Ha) as Hp. cbv zeta in Hp.
  destruct Hl as [Hpow [Hsz Hs4]]. pose proof (proj1 Hpow) as Hal.
  set (p := if Z.eqb (a mod align_of l) 0 then a else Bump.ceil (a + min_size) (align_of l)) in *.
  cbv zeta. destruct Hp as (Hpm & Hp4 & Hpa & Hiff).
  assert (a ≤ p)%Z by lia. assert (size_of l ≤ z → a + size_of l ≤ hi)%Z by lia.
  destruct (Z.ltb_spec z (size_of l)) as [Hlt|Hge].
  { destruct (Z.eqb_spec (p + size_of l) (a + z)); [lia|].
    destruct (Z.leb_spec (p + size_of l + min_size) (a + z)); [unfold min_size in *; lia|done]. }
  assert ((if Z.eqb a (align_up a (align_of l)) then Val (a, None)
    else n ← usub usize (align_up (wrapping_add a min_size) (align_of l)) a;
      Val (align_up (wrapping_add a min_size) (align_of l), Some (info a n))) =
    Val (p, (pads a z p l).1)) as ->.
  { unfold pads. cbn [fst]. rewrite align_up_ceil by (done || unfold modulus in *; lia). unfold p in *.
    destruct (Z.eqb_spec (a mod align_of l) 0) as [Hm|Hm].
    - by rewrite ceil_fix, !Z.eqb_refl by done.
    - rewrite wrapping_add_in by (unfold min_size; width).
      rewrite align_up_ceil by (done || unfold min_size, modulus in *; lia).
      destruct (Z.eqb_spec a (Bump.ceil a (align_of l))) as [He|_].
      { destruct Hm. rewrite He. by apply Bump.ceil_spec. }
      rewrite usub_in by width. destruct (Z.eqb_spec (Bump.ceil (a + min_size) (align_of l)) a); [tauto|done]. }
  cbv [mbind outcome_bind]. 
  assert (p + size_of l < modulus usize)%Z by lia.
  rewrite !wrapping_add_in by width.
  destruct (Z.ltb_spec (a + z) (p + size_of l)) as [Hlt|Hle].
  { destruct (Z.eqb_spec (p + size_of l) (a + z)); [lia|].
    destruct (Z.leb_spec (p + size_of l + min_size) (a + z)); [unfold min_size in *; lia|done]. }
  rewrite usub_in by width. unfold pads. cbn [align_of size_of hole_layout].
  destruct (Z.eqb_spec (p + size_of l) (a + z)) as [He|Hne].
  { rewrite (proj2 (Z.eqb_eq _ _)) by lia. cbn. by rewrite He, Z.eqb_refl. }
  rewrite (proj2 (Z.eqb_neq _ _)) by lia.
  rewrite align_up_ceil by (done || unfold modulus in *; lia). rewrite ceil_fix by (try lia; mod_lia).
  rewrite wrapping_add_in by width. unfold min_size.
  destruct (Z.leb_spec (p + size_of l + 8) (a + z)); destruct (Z.leb_spec (p + size_of l + 4 * 2) (a + z)); try lia; [|done].
  cbn. by rewrite (proj2 (Z.eqb_neq _ _) Hne).
Qed.

(** Linking the holes that stay. *)
Definition pad_holes (o : option HoleInfo) : list (Z * Z) :=
  match o with Some i => [(addr i, info_size i)] | None => [] end.

Lemma runs_link_pads s pre post fp bp lo mid hi : parts s pre None post →
  spaced lo pre mid → spaced mid (pad_holes fp ++ pad_holes bp ++ post) hi →
  ∃ s', runs (link_pads (prev_of pre) fp bp (head_or post None) : Op E t _) s tt s' [] ∧
    listed s' (pre ++ pad_holes fp ++ pad_holes bp ++ post) ∧ kept s s'.
Proof.
  intros Hs Hpre Hall. pose proof (spaced_le _ _ _ Hpre).
  assert (∀ b w, pad_holes fp ++ pad_holes bp = [(b, w)] → ∃ s',
    runs (write_node (At b) (mk_hole w (head_or post None));; set_next (prev_of pre) (Some b)
      : Op E t _) s tt s' [] ∧ listed s' (pre ++ [(b, w)] ++ post) ∧ kept s s') as Hone.
  { intros b w Hbw. rewrite app_assoc, Hbw in Hall. pose proof Hall as (Hb & _ & _ & Hw & Hpost).
    eapply (parts_write s pre None post b w) in Hs; [|done..].
    eapply runs_link in Hs as (s' & Hr & Hp & Hk & _); [|done..].
    exists s'. split; [|split; [by apply parts_listed|exact Hk]].
    eapply runs_bind_nil; [exact (runs_modify _ _)|exact Hr]. }
  destruct fp as [[a z]|], bp as [[b w]|]; cbn [pad_holes addr info_size app] in *; try by apply Hone.
  - pose proof Hall as (Ha & _ & _ & Hz & Hb & Hb4 & Hw4 & Hw & Hpost).
    eapply (parts_write s pre None post b w) in Hs; [|done|done|lia|done].
    eapply (parts_write _ pre None _ a z) in Hs; [|done|by split_and!|done|done].
    eapply runs_link in Hs as (s' & Hr & Hp & Hk & _); [|done..].
    exists s'. split; [|split; [by apply parts_listed|exact Hk]].
    do 2 (eapply runs_bind_nil; [exact (runs_modify _ _)|]). exact Hr.
  - eapply runs_link in Hs as (s' & Hr & Hp & Hk & _); [|done..].
    exists s'. split; [exact Hr|]. split; [by apply parts_listed|exact Hk].
Qed.

(** The holes that stay lie in the old one. *)
Lemma place_spaced l a z p rest post hi : good l → (a mod 4 = 0)%Z → (z mod 4 = 0)%Z →
  spaced (a + z) post hi → place a z l = Some (p, rest) → spaced a (rest ++ post) hi.
Proof.
  intros Hl Ha Hz Hpost Hpl.
  pose proof (proj2 (proj2 Hl)) as Hs4. pose proof (proj1 (proj2 Hl)).
  pose proof (place_mod4 _ _ _ _ _ Hl Ha Hpl) as Hp4. apply place_some in Hpl as ((Hpm & Hpa & Hpe) & ->); [|done..].
  pose proof (spaced_le _ _ _ Hpost).
  destruct (Z.eqb_spec p a), (Z.eqb_spec (p + size_of l) (a + z)); cbn [app spaced].
  all: try split_and!; try lia; try mod_lia; (eapply spaced_weaken; [exact Hpost|lia|lia]).
Qed.

(** [split_current] is [place] on the current hole. *)
Lemma runs_split_current s pre a z post lo hi l c : good l → within hi l → (0 < lo)%Z →
  listed s (pre ++ (a, z) :: post) → spaced lo (pre ++ (a, z) :: post) hi →
  prev c = prev_of pre → hole c = a →
  match place a z l with
  | None => runs (split_current c l : Op E t _) s (Err c) s []
  | Some (p, rest) => ∃ s', runs (split_current c l : Op E t _) s (Ok (p, size_of l)) s' [] ∧
      listed s' (pre ++ rest ++ post) ∧ kept s s'
  end.
Proof.
  intros Hl Hw Hlo Hs Hsp Hpr Hho. pose proof (listed_lookup _ _ _ _ _ Hs) as Ha.
  apply spaced_app in Hsp as (mid & Hpre & Hma & Ha4 & Hz4 & Hz & Hpost).
  pose proof (spaced_le _ _ _ Hpre). pose proof (spaced_le _ _ _ Hpost).
  pose proof (split_place_eq l a z hi Hl ltac:(lia) Ha4 Hz4 ltac:(lia) ltac:(lia) Hw) as Hsplit.
  destruct (place a z l) as [[p rest]|] eqn:Hpl.
  2:{ unfold split_current, current. rewrite Hho.
      eapply runs_bind_nil; [exact (runs_read_at _ _ _ Ha)|].
      eapply runs_bind_nil; [exact (runs_lift _ _ _ Hsplit)|]. apply runs_ret. }
  pose proof (place_spaced _ _ _ _ _ _ _ Hl Ha4 Hz4 Hpost Hpl) as Hrest.
  apply (proj2 (parts_listed _ _ _)) in Hs. destruct Hs as [Hs1 [_ Hs2]].
  destruct (runs_link (E:=E) s pre (Some a) None post lo mid hi) as (s1 & Hr1 & Hp1 & Hk1 & Hm1);
    [by split|done|by eapply spaced_weaken; [exact Hpost|lia|lia]|].
  assert (mem s1 !! a = Some (mk_hole z (head_or post None))) as Ha1 by (rewrite Hm1; [done|lia]).
  pose proof (runs_set_next_at (E:=E) s1 a _ None Ha1) as Hr2.
  eapply (parts_clear s1 pre None post a (mk_hole z None) lo mid hi) in Hp1;
    [|exact Hpre|by eapply spaced_weaken; [exact Hpost|lia|lia]|lia].
  set (s2 := set_mem (write_mem a (mk_hole z None) (mem s1)) s1) in *. cbn [size] in Hr2. fold s2 in Hr2.
  assert (kept s s2) as Hk2 by exact Hk1.
  assert (rest = pad_holes (pads a z p l).1 ++ pad_holes (pads a z p l).2) as ->.
  { apply place_some in Hpl as [_ ->]; [|done..]. unfold pads. by repeat case_match. }
  rewrite <-!app_assoc in *.
  eapply (runs_link_pads s2 pre post _ _ lo mid hi) in Hp1 as (s' & Hr3 & Hs' & Hk3);
    [|exact Hpre|by eapply spaced_weaken; [exact Hrest|lia|lia]].
  exists s'. split; [|split; [done|by eapply heap_kept_trans]].
  unfold split_current, current. rewrite Hho, Hpr.
  eapply runs_bind_nil; [exact (runs_read_at _ _ _ Ha)|].
  eapply runs_bind_nil; [exact (runs_lift _ _ _ Hsplit)|]. cbn [fmap option_fmap option_map fst snd].
  eapply runs_bind_nil; [exact Hr1|].
  eapply runs_bind_nil; [exact (runs_read_at _ _ _ Ha1)|].
  eapply runs_bind_nil; [exact Hr2|]. cbn [next].
  eapply runs_bind_nil; [exact Hr3|]. apply runs_ret.
Qed.

(** ** Allocation *)
Lemma runs_cursor_next s pre a z post c : listed s (pre ++ (a, z) :: post) → hole c = a →
  runs (cursor_next c : Op E t _) s
    ((λ b, cursor_at (At a) b (cursor_top c)) <$> head_or post None) s [].
Proof.
  intros Hs <-. unfold cursor_next.
  eapply runs_bind_nil; [exact (runs_read_at _ _ _ (listed_lookup _ _ _ _ _ Hs))|].
  apply runs_ret.
Qed.

Lemma prev_of_snoc pre a z : prev_of (pre ++ [(a, z)]) = At a.
Proof. unfold prev_of. by rewrite last_snoc. Qed.

Lemma runs_first_fit_loop s lo hi l : good l → within hi l → (0 < lo)%Z →
  ∀ post fuel pre a z c, length post < fuel →
  listed s (pre ++ (a, z) :: post) → spaced lo (pre ++ (a, z) :: post) hi →
  prev c = prev_of pre → hole c = a →
  match fit ((a, z) :: post) l with
  | Some (p, hs') => ∃ s', runs (first_fit_loop fuel c l : Op E t _) s (Some (Ok (p, l))) s' [] ∧
      listed s' (pre ++ hs') ∧ kept s s'
  | None => runs (first_fit_loop fuel c l : Op E t _) s (Some (Err tt)) s []
  end.
Proof.
  intros Hl Hw Hlo. induction post as [|[b w] post IH]; intros fuel pre a z c Hf Hs Hsp Hpr Hho.
  all: destruct fuel as [|fuel]; cbn [length] in Hf; [lia|].
  all: pose proof (runs_split_current s pre a z _ lo hi l c Hl Hw Hlo Hs Hsp Hpr Hho) as Hc.
  all: pose proof Hsp as (mid & Hpre & Hma & Ha4 & Hz4 & Hz & Hpost)%spaced_app.
  all: pose proof (spaced_le _ _ _ Hpre); pose proof (spaced_le _ _ _ Hpost).
  all: rewrite fit_cons; destruct (place a z l) as [[p rest]|] eqn:Hpl.
  1, 3: apply place_some in Hpl as [(_ & Hp & _) _]; [|done..];
    destruct Hc as (s' & Hr & Hs' & Hk); exists s'; split; [|done];
    eapply runs_bind_nil; [exact Hr|]; cbv beta iota;
    rewrite (proj2 (Z.eqb_neq p 0)) by lia; apply runs_ret.
  - eapply runs_bind_nil; [exact Hc|].
    eapply runs_bind_nil; [exact (runs_cursor_next _ _ _ _ _ _ Hs Hho)|]. apply runs_ret.
  - specialize (IH fuel (pre ++ [(a, z)]) b w (cursor_at (At a) b (cursor_top c)) ltac:(lia)).
    rewrite <-app_assoc, prev_of_snoc in IH. cbn [app prev hole] in IH.
    specialize (IH Hs Hsp eq_refl eq_refl).
    pose proof (runs_cursor_next s pre a z _ c Hs Hho) as Hn. cbn [head_or fmap option_fmap option_map] in Hn.
    destruct (fit ((b, w) :: post) l) as [[p' hs']|]; cbn [fmap option_fmap option_map prod_map id fst snd].
    + destruct IH as (s' & Hr & Hs' & Hk). exists s'. rewrite <-app_assoc in Hs'. split; [|done].
      eapply runs_bind_nil; [exact Hc|]. eapply runs_bind_nil; [exact Hn|exact Hr].
    + eapply runs_bind_nil; [exact Hc|]. eapply runs_bind_nil; [exact Hn|exact IH].
Qed.

(** What [align_layout] makes of a layout. *)
Definition aligned (l : Layout) : Layout :=
  mk_layout (Bump.ceil (Z.max min_size (size_of l)) 4) (align_of l).

(** A layout of the language whose size can be rounded up. *)
Definition valid (l : Layout) : Prop :=
  pow2 (align_of l) ∧ (0 ≤ size_of l ∧ size_of l + align_of l + 11 ≤ 2147483648)%Z.

Lemma aligned_good l : valid l → good (aligned l).
Proof.
  intros (Hp & Hs0 & _). unfold good, aligned, min_size. cbn [align_of size_of].
  destruct (Bump.ceil_spec (Z.max (4 * 2) (size_of l)) 4); [lia|]. split; [done|]. split; [lia|done].
Qed.

Lemma align_layout_eq l : valid l → align_layout l = Val (aligned l).
Proof.
  intros (Hp & Hs0 & Hs). unfold align_layout, aligned. cbn [align_of size_of hole_layout].
  replace (if Z.ltb (size_of l) min_size then min_size else size_of l) with (Z.max min_size (size_of l))
    by (destruct (Z.ltb_spec (size_of l) min_size); lia).
  pose proof (proj1 Hp) as Hal. unfold min_size in *.
  set (z := Z.max (4 * 2) (size_of l)).
  destruct (align_up_size_spec z 4) as [Hu Hum]; [done|unfold modulus; lia..|].
  destruct (Bump.ceil_spec z 4) as [Hc Hcm]; [lia|].
  assert (align_up_size z 4 = Bump.ceil z 4) as -> by (clearbody z; mod_lia).
  unfold layout_from_size_align. rewrite (bool_decide_eq_true_2 _ Hp), (proj2 (Z.leb_le _ _)) by lia. done.
Qed.

Lemma runs_allocate s hs lo hi l fuel : valid l → within hi l → (0 < lo)%Z →
  listed s hs → spaced lo hs hi → length hs < fuel →
  match fit hs (aligned l) with
  | Some (p, hs') => ∃ s', runs (allocate_first_fit fuel l : Op E t _) s (Some (Ok (p, aligned l))) s' [] ∧
      listed s' hs' ∧ kept s s'
  | None => runs (allocate_first_fit fuel l : Op E t _) s (Some (Err tt)) s []
  end.
Proof.
  intros Hl Hw Hlo Hs Hsp Hf. pose proof (align_layout_eq l Hl) as Ha.
  assert (∀ a s' o, runs (match head_or hs None with
      | None => mret (Some (Err tt))
      | Some h => first_fit_loop fuel (cursor_at First h (top s)) (aligned l)
      end : Op E t _) s a s' o → runs (allocate_first_fit fuel l : Op E t _) s a s' o) as Hgo.
  { intros a s' o Hr. eapply runs_bind_nil; [exact (runs_lift _ _ _ Ha)|].
    eapply runs_bind_nil.
    - eapply runs_bind_nil; [apply runs_get|]. apply runs_ret.
    - destruct Hs as [-> _]. cbn [next]. by destruct (head_or hs None). }
  destruct hs as [|[a z] hs]; [by apply Hgo, runs_ret|].
  pose proof (runs_first_fit_loop s lo hi (aligned l) (aligned_good l Hl) Hw Hlo hs fuel [] a z
    (cursor_at First a (top s)) ltac:(cbn in Hf; lia) Hs Hsp eq_refl eq_refl) as Hr.
  destruct (fit ((a, z) :: hs) (aligned l)) as [[p hs']|].
  - destruct Hr as (s' & Hr & Hs' & Hk). exists s'. split; [by apply Hgo|done].
  - by apply Hgo.
Qed.
End Alloc.
