(* ===== verification/HeapFree.v ===== *)
(** * The free-list heap: deallocation

    [insert_hole] puts a freed block among the holes and joins it with those
    it touches; the lemmas show that [deallocate] and [extend] do just that. *)

From S2P Require Import Prelude Bump Heap HeapFacts.

Import Heap.

(** A hole in front of others, as one with the first if they touch. *)
Definition glue (h : Z * Z) (hs : list (Z * Z)) : list (Z * Z) :=
  match hs with
  | (c, w) :: hs' => if Z.eqb (h.1 + h.2) c then (h.1, h.2 + w)%Z :: hs' else h :: hs
  | [] => [h]
  end.

(** The block [a, a + n) becomes free. *)
Fixpoint insert_hole (hs : list (Z * Z)) (a n : Z) : list (Z * Z) :=
  match hs with
  | [] => [(a, n)]
  | (b, m) :: hs' => if Z.ltb a b then glue (a, n) hs else glue (b, m) (insert_hole hs' a n)
  end.

(** [k] rounds of merging. *)
Fixpoint merged (k : nat) (h : Z * Z) (hs : list (Z * Z)) : list (Z * Z) :=
  match k, hs with
  | S k, (c, w) :: hs' =>
      if Z.eqb (h.1 + h.2) c then merged k (h.1, h.2 + w)%Z hs' else h :: merged k (c, w) hs'
  | _, _ => h :: hs
  end.

Lemma merged_one h hs : merged 1 h hs = glue h hs.
Proof. by destruct hs as [|[c w] hs]; cbn; [|destruct (Z.eqb _ _)]. Qed.

Lemma merged_two h a n hs : merged 2 h ((a, n) :: hs) = glue h (glue (a, n) hs).
Proof.
  change (merged 2 h ((a, n) :: hs)) with
    (if Z.eqb (h.1 + h.2) a then merged 1 (h.1, h.2 + n)%Z hs else h :: merged 1 (a, n) hs).
  rewrite !merged_one. destruct hs as [|[c w] hs]; cbn [glue fst snd]; [done|].
  destruct (Z.eqb_spec (a + n) c) as [<-|]; cbn [glue fst snd].
  - destruct (Z.eqb_spec (h.1 + h.2) a) as [<-|]; [|done].
    by rewrite !Z.add_assoc, Z.eqb_refl.
  - destruct (Z.eqb_spec (h.1 + h.2) a) as [<-|]; [|done].
    rewrite (proj2 (Z.eqb_neq _ _)) by lia. done.
Qed.

(** No two neighbours touch. *)
Fixpoint apart (hs : list (Z * Z)) : Prop :=
  match hs with
  | (a, z) :: hs' => match hs' with (b, _) :: _ => (a + z ≠ b)%Z | [] => True end ∧ apart hs'
  | [] => True
  end.

Lemma glue_apart h b m hs : (h.1 + h.2 ≠ b)%Z → glue h ((b, m) :: hs) = h :: (b, m) :: hs.
Proof. intros Hh. cbn. by rewrite (proj2 (Z.eqb_neq _ _) Hh). Qed.

Lemma glue_head h hs : ∃ z hs', glue h hs = (h.1, z) :: hs'.
Proof. destruct h as [a n], hs as [|[c w] hs]; cbn; [|case_match]; eauto. Qed.

Lemma insert_hole_head hs a n lo hi : spaced lo hs hi → (a < lo)%Z → insert_hole hs a n = glue (a, n) hs.
Proof.
  destruct hs as [|[b m] hs]; [done|]. cbn [spaced insert_hole]. intros [Hb _] Ha.
  by rewrite (proj2 (Z.ltb_lt _ _)) by lia.
Qed.

Lemma insert_hole_after pre b m post a n lo mid hi : spaced lo (pre ++ [(b, m)]) mid → (mid ≤ a)%Z →
  spaced (a + n) post hi → (0 < n)%Z → apart (pre ++ (b, m) :: post) →
  insert_hole (pre ++ (b, m) :: post) a n = pre ++ glue (b, m) (glue (a, n) post).
Proof.
  intros Hsp Hm Hpost Hn. revert lo Hsp. induction pre as [|[c w] pre IH]; intros lo.
  - cbn. intros (? & ? & ? & ? & Hb) _. rewrite (proj2 (Z.ltb_ge _ _)) by lia.
    by erewrite insert_hole_head by (done || lia).
  - cbn [app spaced insert_hole apart]. intros (Hc & _ & _ & Hw & Hsp) [Hn1 Ha].
    pose proof (spaced_le _ _ _ Hsp). rewrite (proj2 (Z.ltb_ge _ _)) by lia.
    erewrite IH by done. destruct pre as [|[d x] pre]; cbn [app] in *.
    + destruct (glue_head (b, m) (glue (a, n) post)) as (z & hs' & ->). by apply glue_apart.
    + by apply glue_apart.
Qed.

Section Dealloc.
Context `{HP : Profile} `{HA : AlignOps} `{!AlignLaws} {E : Type}.
Implicit Types s : t.

(** An end at the top, or leaving room for a node below it. *)
Definition clear_top (tp : Z) (h : Z * Z) : Prop := (tp ≤ h.1 + h.2 ∨ h.1 + h.2 + 8 ≤ tp)%Z.

Lemma runs_check_merge_top s a z o tp : mem s !! a = Some (mk_hole z o) → (0 ≤ a)%Z → (0 ≤ z)%Z →
  (a mod 4 = 0)%Z → (z mod 4 = 0)%Z → (a + z + 12 < modulus usize)%Z → clear_top tp (a, z) →
  runs (check_merge_top a tp : Op E t _) s tt s [].
Proof.
  intros Ha Ha0 Hz0 Ha4 Hz4 Hw Htp. unfold clear_top in Htp. cbn [fst snd] in Htp.
  unfold check_merge_top. eapply runs_bind_nil; [exact (runs_read_at _ _ _ Ha)|].
  cbn [size align_of size_of hole_layout].
  rewrite (wrapping_add_in a z) by width. destruct (Z.ltb_spec (a + z) tp); [|apply runs_ret].
  rewrite align_up_ceil by (done || unfold modulus in *; lia). rewrite ceil_fix by (try lia; mod_lia).
  rewrite wrapping_add_in by width. rewrite (proj2 (Z.ltb_ge _ _)) by lia. apply runs_ret.
Qed.

(** Merging a hole with the next, which it touches. *)
Lemma runs_absorb_next s pre b m c w rest lo hi : (c = b + m)%Z → (0 ≤ lo)%Z → (hi < modulus usize)%Z →
  listed s (pre ++ (b, m) :: (c, w) :: rest) → spaced lo (pre ++ (b, m) :: (c, w) :: rest) hi →
  ∃ s', runs (absorb_next b c : Op E t _) s tt s' [] ∧
    listed s' (pre ++ (b, m + w)%Z :: rest) ∧ kept s s'.
Proof.
  intros Hc Hlo Hhi Hs Hsp. pose proof (listed_lookup s (pre ++ [(b, m)]) c w rest) as Hmc.
  rewrite <-app_assoc in Hmc. specialize (Hmc Hs). pose proof (listed_lookup _ _ _ _ _ Hs) as Hmb.
  apply spaced_app in Hsp as (mid & Hpre & Hb & Hb4 & Hm4 & Hm & Hc' & Hc4 & Hw4 & Hw & Hrest).
  pose proof (spaced_le _ _ _ Hrest). pose proof (spaced_le _ _ _ Hpre).
  apply parts_listed in Hs as [Hl [_ [_ Hr]]].
  assert (parts s pre (Some b) rest) as Hp by (by split).
  eapply (parts_clear _ _ _ _ c (mk_hole w None) lo mid hi) in Hp;
    [|done|by eapply spaced_weaken; [exact Hrest|lia|lia]|lia].
  set (s1 := set_mem (write_mem c (mk_hole w None) (mem s)) s) in *.
  assert (mem s1 !! b = Some (mk_hole m (Some c))) as Hb1.
  { cbn [s1 set_mem mem]. rewrite write_mem_ne by lia. done. }
  eapply (parts_clear _ _ _ _ b (mk_hole m (head_or rest None)) lo mid hi) in Hp;
    [|done|by eapply spaced_weaken; [exact Hrest|lia|lia]|lia].
  set (s2 := set_mem (write_mem b (mk_hole m (head_or rest None)) (mem s1)) s1) in *.
  assert (mem s2 !! b = Some (mk_hole m (head_or rest None))) as Hb2 by apply write_mem_eq.
  eapply (parts_write _ _ _ _ b (m + w) lo mid hi) in Hp;
    [|done|by eapply spaced_weaken; [exact Hrest|lia|lia]|lia|lia].
  exists (set_mem (write_mem b (mk_hole (m + w) (head_or rest None)) (mem s2)) s2).
  split; [|split; [by apply parts_listed|done]].
  eapply runs_bind_nil; [exact (runs_read_at _ _ _ Hmc)|]. cbn [next size].
  eapply runs_bind_nil; [exact (runs_set_next_at _ _ _ None Hmc)|]. cbn [size]. fold s1.
  eapply runs_bind_nil; [exact (runs_set_next_at _ _ _ (head_or rest None) Hb1)|]. cbn [size]. fold s2.
  eapply runs_bind_nil; [exact (runs_read_at _ _ _ Hb2)|]. cbn [next size].
  eapply runs_bind_nil; [apply runs_lift, uadd_in; width|].
  exact (runs_set_size_at _ _ _ (m + w)%Z Hb2).
Qed.

Lemma runs_try_merge tp lo hi : (0 ≤ lo)%Z → (hi + 12 < modulus usize)%Z → ∀ k s pre b m rest,
  listed s (pre ++ (b, m) :: rest) → spaced lo (pre ++ (b, m) :: rest) hi →
  Forall (clear_top tp) ((b, m) :: rest) →
  ∃ s', runs (try_merge_next_n k b tp : Op E t _) s tt s' [] ∧
    listed s' (pre ++ merged k (b, m) rest) ∧ kept s s'.
Proof.
  intros Hlo Hhi. induction k as [|k IH]; intros s pre b m rest Hs Hsp Htp.
  { exists s. split; [apply runs_ret|]. by destruct rest as [|[??]?]. }
  pose proof (listed_lookup _ _ _ _ _ Hs) as Hb.
  pose proof Hsp as (mid & Hpre & Hb0 & Hb4 & Hm4 & Hm & Hrest)%spaced_app.
  pose proof (spaced_le _ _ _ Hpre). pose proof (spaced_le _ _ _ Hrest).
  apply Forall_cons in Htp as [Htb Htp].
  destruct rest as [|[c w] rest]; cbn [merged fst snd head_or] in *.
  { exists s. split; [|done]. eapply runs_bind_nil; [exact (runs_read_at _ _ _ Hb)|].
    eapply runs_check_merge_top; try done; try lia. }
  destruct (Z.eqb_spec (b + m) c) as [He|Hne].
  - destruct (runs_absorb_next s pre b m c w rest lo hi) as (s1 & Hr1 & Hs1 & Hk1); [lia|done|lia|done..|].
    destruct Hrest as (Hc & Hc4 & Hw4 & Hw & Hrest). apply Forall_cons in Htp as [Htc Htp].
    destruct (IH s1 pre b (m + w)%Z rest) as (s2 & Hr2 & Hs2 & Hk2); [done| | |].
    { apply spaced_app. exists mid. split; [done|]. cbn. split_and!; try done; try lia; try mod_lia.
      eapply spaced_weaken; [done|lia|lia]. }
    { constructor; [|done]. unfold clear_top in *. cbn [fst snd] in *. lia. }
    exists s2. split; [|split; [done|by eapply heap_kept_trans]].
    eapply runs_bind_nil; [exact (runs_read_at _ _ _ Hb)|]. cbn [size next].
    rewrite wrapping_add_in by width. rewrite (proj2 (Z.eqb_eq _ _) He).
    eapply runs_bind_nil; [exact Hr1|exact Hr2].
  - destruct (IH s (pre ++ [(b, m)]) c w rest) as (s2 & Hr2 & Hs2 & Hk2);
      [by rewrite <-app_assoc..|done|]. rewrite <-app_assoc in Hs2.
    exists s2. split; [|done].
    eapply runs_bind_nil; [exact (runs_read_at _ _ _ Hb)|]. cbn [size next].
    rewrite wrapping_add_in by width. by rewrite (proj2 (Z.eqb_neq _ _) Hne).
Qed.

(** The bottom of the region is a hole's start or too far from one. *)
Definition clear_bottom (bt a : Z) : Prop := (a = bt ∨ bt + 8 ≤ a)%Z.

(** [check_merge_bottom] leaves the hole as it is. *)
Lemma runs_check_merge_bottom s pre o post a n lo mid hi : parts s pre o post →
  mem s !! a = Some (mk_hole n None) → spaced lo pre mid → spaced (a + n) post hi →
  (mid ≤ a)%Z → (8 ≤ n)%Z → (0 ≤ bottom s)%Z → (a mod 4 = 0)%Z → (hi + 8 < modulus usize)%Z →
  clear_bottom (bottom s) a →
  ∃ s', runs (check_merge_bottom a (bottom s) : Op E t _) s a s' [] ∧ parts s' pre o post ∧
    mem s' !! a = Some (mk_hole n None) ∧ kept s s'.
Proof.
  intros Hp Ha Hpre Hpost Hm Hn Hb Ha4 Hhi Hcl. pose proof (spaced_le _ _ _ Hpost).
  unfold check_merge_bottom, clear_bottom in *. cbn [size_of hole_layout].
  rewrite wrapping_add_in by width. destruct (Z.ltb_spec a (bottom s + 8)) as [Hlt|Hge].
  2:{ exists s. split; [apply runs_ret|done]. }
  assert (a = bottom s) as <- by lia.
  exists (set_mem (write_mem a (mk_hole n None) (mem s)) s). split; [|split; [|split]].
  - eapply runs_bind_nil; [apply runs_lift, usub_in; width|].
    eapply runs_bind_nil; [exact (runs_read_at _ _ _ Ha)|]. cbn [size].
    eapply runs_bind_nil; [apply runs_lift, uadd_in; width|].
    replace (n + (a - a))%Z with n by lia. unfold make_hole, debug_assert. cbn [align_of hole_layout].
    eapply runs_bind_nil; [apply (runs_lift _ tt)|].
    { by rewrite Ha4; destruct overflow_checks. }
    eapply runs_bind_nil; [exact (runs_modify _ _)|apply runs_ret].
  - eapply parts_clear; [done..| |lia]. eapply spaced_weaken; [done|lia|done].
  - apply write_mem_eq.
  - done.
Qed.

(** The walk to the last hole below the block, which it is linked behind. *)
Lemma runs_insert_after_loop post a n lo hi : spaced (a + n) post hi → (8 ≤ n)%Z →
  ∀ mid fuel s pre b m c e, length mid < fuel →
  listed s (pre ++ (b, m) :: mid ++ post) → mem s !! a = Some (mk_hole n None) →
  spaced lo (pre ++ (b, m) :: mid) e → (e ≤ a)%Z → hole c = b →
  ∃ pre' b' m' c' s', runs (insert_after_loop fuel c a : Op E t _) s (Some c') s' [] ∧
    pre ++ (b, m) :: mid = pre' ++ [(b', m')] ∧ hole c' = b' ∧ cursor_top c' = cursor_top c ∧
    listed s' (pre' ++ (b', m') :: (a, n) :: post) ∧ kept s s'.
Proof.
  intros Hpost Hn. induction mid as [|[c1 w] mid IH]; intros fuel s pre b m c e Hf Hs Ha Hsp He Hho.
  all: destruct fuel as [|fuel]; cbn [length] in Hf; [lia|]; cbn [app] in Hs.
  all: pose proof (listed_lookup _ _ _ _ _ Hs) as Hb; cbn [head_or] in Hb.
  - pose proof Hs as Hp. change ((b, m) :: post) with ([(b, m)] ++ post) in Hp.
    rewrite app_assoc in Hp. apply parts_listed in Hp.
    destruct (runs_link (E:=E) s (pre ++ [(b, m)]) _ (Some a) post lo e hi Hp Hsp)
      as (s1 & Hr1 & Hp1 & Hk1 & Hm1).
    { eapply spaced_weaken; [exact Hpost|lia|lia]. }
    rewrite prev_of_snoc in Hr1.
    assert (mem s1 !! a = Some (mk_hole n None)) as Ha1 by (by rewrite Hm1).
    eapply (parts_write _ _ _ _ a n lo e hi) in Hp1; [|done..].
    pose proof (runs_set_next_at (E:=E) s1 a _ (head_or post None) Ha1) as Hr2. cbn [size] in Hr2.
    eexists pre, b, m, c, (set_mem _ s1). split; [|split; [done|split; [done|split; [done|]]]].
    2:{ split; [|split_and!; apply Hk1]. apply (proj1 (parts_listed _ _ ((a, n) :: post))) in Hp1.
        rewrite <-app_assoc in Hp1. exact Hp1. }
    eapply (runs_bind_nil _ _ _ (Ok tt)); [|apply runs_ret].
    unfold try_insert_after, current. rewrite Hho.
    eapply runs_bind_nil; [exact (runs_read_at _ _ _ Hb)|]. cbn [next].
    replace (match head_or post None with Some n0 => negb (Z.ltb a n0) | None => false end) with false.
    2:{ destruct post as [|[d x] post]; [done|]. destruct Hpost as [Hd _]. cbn [head_or].
        by rewrite (proj2 (Z.ltb_lt _ _)) by lia. }
    eapply runs_bind_nil.
    { eapply runs_bind_nil; [exact (runs_read_at _ _ _ Hb)|].
      eapply runs_bind_nil; [exact Hr1|]. apply runs_ret. }
    eapply runs_bind_nil; [exact Hr2|]. apply runs_ret.
  - pose proof Hsp as (e1 & _ & _ & _ & _ & _ & Hc1 & _ & _ & Hw & Hmid)%spaced_app.
    pose proof (spaced_le _ _ _ Hmid).
    destruct (IH fuel s (pre ++ [(b, m)]) c1 w (cursor_at (At b) c1 (cursor_top c)) e)
      as (pre' & b' & m' & c' & s' & Hr & Hpre & Hc' & Ht & Hs' & Hk);
      [lia|by rewrite <-app_assoc|done|by rewrite <-app_assoc|done|done|].
    rewrite <-app_assoc in Hpre.
    exists pre', b', m', c', s'. split_and!; try done.
    eapply runs_bind_nil.
    { unfold try_insert_after, current. rewrite Hho.
      eapply runs_bind_nil; [exact (runs_read_at _ _ _ Hb)|]. cbn [next].
      rewrite (proj2 (Z.ltb_ge _ _)) by lia. apply runs_ret. }
    cbv beta iota. eapply runs_bind_nil; [exact (runs_cursor_next _ _ _ _ _ _ Hs Hho)|].
    eapply runs_bind_nil; [by apply runs_lift|exact Hr].
Qed.

Lemma runs_make_hole s a n : (a mod 4 = 0)%Z →
  runs (make_hole a n : Op E t _) s a (set_mem (write_mem a (mk_hole n None) (mem s)) s) [].
Proof.
  intros Ha. unfold make_hole, debug_assert. cbn [align_of hole_layout].
  eapply runs_bind_nil; [apply (runs_lift _ tt); by rewrite Ha; destruct overflow_checks|].
  eapply runs_bind_nil; [exact (runs_modify _ _)|apply runs_ret].
Qed.

Lemma runs_cursor s hs : listed s hs →
  runs (cursor : Op E t _) s ((λ h, cursor_at First h (top s)) <$> head_or hs None) s [].
Proof. intros [Hf _]. eapply runs_bind_nil; [apply runs_get|]. rewrite Hf. apply runs_ret. Qed.

(** What [deallocate] needs of the block [a, a + n) between the holes [pre]
    and [post]. *)
Record freeable (s : t) (pre : list (Z * Z)) (a n : Z) (post : list (Z * Z)) (hi : Z) : Prop := {
  free_listed : listed s (pre ++ post);
  free_spaced : spaced 0 (pre ++ (a, n) :: post) hi;
  free_apart : apart (pre ++ post);
  free_top : Forall (clear_top (top s)) (pre ++ (a, n) :: post);
  free_bottom : (0 ≤ bottom s)%Z ∧ clear_bottom (bottom s) a;
  free_hi : (hi + 12 < modulus usize)%Z
}.

(** The block as a node in memory, not yet linked. *)
Lemma made_parts s pre a n post hi : freeable s pre a n post hi →
  let s1 := set_mem (write_mem a (mk_hole n None) (mem s)) s in
  ∃ mid, spaced 0 pre mid ∧ (mid ≤ a)%Z ∧ (a mod 4 = 0)%Z ∧ (8 ≤ n)%Z ∧ spaced (a + n) post hi ∧
    parts s1 pre (head_or post None) post ∧ mem s1 !! a = Some (mk_hole n None) ∧ kept s s1.
Proof.
  intros [Hs Hsp Hap Ht Hb Hhi]. cbv zeta.
  apply spaced_app in Hsp as (mid & Hpre & Hm & Ha4 & Hn4 & Hn & Hpost).
  exists mid. split_and!; try done.
  - eapply parts_clear; [by apply parts_listed|done| |done].
    eapply spaced_weaken; [exact Hpost|lia|done].
  - apply write_mem_eq.
Qed.

(** No hole is left: the block is the only one. *)
Lemma runs_deallocate_first s a n hi fuel : freeable s [] a n [] hi →
  ∃ s', runs (deallocate_at fuel a n : Op E t _) s (Some tt) s' [] ∧
    listed s' [(a, n)] ∧ kept s s'.
Proof.
  intros Hf. destruct (made_parts _ _ _ _ _ _ Hf) as (mid & Hpre & Hm & Ha4 & Hn & Hpost & Hp & Ha & Hk).
  destruct Hf as [Hs Hsp Hap Ht [Hb0 Hb] Hhi]. cbn in Hsp.
  pose proof (runs_make_hole s a n Ha4) as Hr0.
  set (s1 := set_mem _ s) in *. apply Forall_cons in Ht as [Ht _].
  destruct (runs_check_merge_bottom s1 [] _ [] a n 0 mid hi Hp Ha) as (s2 & Hr2 & Hp2 & Ha2 & Hk2);
    try done; try lia.
  pose proof (runs_check_merge_top s2 a n None (top s) Ha2) as Hr3.
  eapply (parts_write _ _ _ _ a n 0 mid hi) in Hp2 as Hp3; [|done..].
  destruct Hp2 as [[Hf2 _] _].
  exists (set_first (mk_hole 0 (Some a)) s2). split; [|split; [split; [done|]|]].
  - eapply runs_bind_nil; [exact Hr0|]. eapply runs_bind_nil; [apply runs_get|].
    eapply runs_bind_nil; [apply runs_cursor, (proj1 (parts_listed s1 [] [])); exact Hp|].
    cbn [head_or fmap option_fmap option_map].
    eapply runs_bind_nil; [exact Hr2|].
    eapply runs_bind_nil; [apply Hr3; try done; try lia; by destruct Hsp as (?&?&?&?&?)|].
    eapply runs_bind_nil; [|apply runs_ret].
    unfold set_next. eapply runs_bind_nil; [eapply runs_bind_nil; [apply runs_get|apply runs_ret]|].
    rewrite Hf2. exact (runs_modify _ _).
  - cbn [set_first mem seg head_or]. done.
  - exact (heap_kept_trans _ _ _ Hk Hk2).
Qed.

(** The block is below all holes. *)
Lemma runs_deallocate_front s a n c w post hi fuel : freeable s [] a n ((c, w) :: post) hi →
  ∃ s', runs (deallocate_at fuel a n : Op E t _) s (Some tt) s' [] ∧
    listed s' (glue (a, n) ((c, w) :: post)) ∧ kept s s'.
Proof.
  intros Hf. destruct (made_parts _ _ _ _ _ _ Hf) as (mid & Hpre & Hm & Ha4 & Hn & Hpost & Hp & Ha & Hk).
  destruct Hf as [Hs Hsp Hap Ht [Hb0 Hb] Hhi]. cbn [app] in *.
  pose proof (runs_make_hole s a n Ha4) as Hr0.
  set (s1 := set_mem _ s) in *.
  destruct (runs_check_merge_bottom s1 [] _ ((c, w) :: post) a n 0 mid hi Hp Ha) as (s2 & Hr2 & Hp2 & Ha2 & Hk2);
    try done; try lia.
  destruct (runs_link (E:=E) s2 [] _ (Some a) ((c, w) :: post) 0 mid hi Hp2 Hpre) as (s3 & Hr3 & Hp3 & Hk3 & Hm3).
  { eapply spaced_weaken; [exact Hpost|lia|done]. }
  assert (mem s3 !! a = Some (mk_hole n None)) as Ha3 by (by rewrite Hm3).
  eapply (parts_write _ _ _ _ a n 0 mid hi) in Hp3; [|done..].
  pose proof (runs_set_next_at (E:=E) s3 a _ (Some c) Ha3) as Hr4. cbn [size] in Hr4.
  set (s4 := set_mem _ s3) in *. cbn [head_or] in Hp3. fold s4 in Hp3.
  destruct (runs_try_merge (top s) 0 hi) with (k := 1) (s := s4) (pre := @nil (Z * Z)) (b := a) (m := n)
    (rest := (c, w) :: post) as (s5 & Hr5 & Hs5 & Hk5); try done.
  { by apply (proj1 (parts_listed s4 [] ((a, n) :: (c, w) :: post))) in Hp3. }
  exists s5. rewrite merged_one in Hs5. split; [|split; [exact Hs5|]].
  2:{ apply (heap_kept_trans _ _ _ Hk), (heap_kept_trans _ _ _ Hk2), (heap_kept_trans _ _ _ Hk3), Hk5. }
  eapply runs_bind_nil; [exact Hr0|]. eapply runs_bind_nil; [apply runs_get|].
  eapply runs_bind_nil; [exact (runs_cursor s1 ((c, w) :: post) (proj1 (parts_listed s1 [] ((c, w) :: post)) Hp))|].
  cbn [head_or fmap option_fmap option_map].
  eapply (runs_bind_nil _ _ _ (Ok _)); [|cbv beta iota].
  - unfold try_insert_back. cbn [hole prev]. destruct Hpost as [Hc _].
    rewrite (proj2 (Z.ltb_lt _ _)) by lia.
    eapply runs_bind_nil; [exact Hr2|]. eapply runs_bind_nil; [exact Hr3|].
    eapply runs_bind_nil; [exact Hr4|]. apply runs_ret.
  - eapply runs_bind_nil; [exact Hr5|apply runs_ret].
Qed.

(** The block is above some hole. *)
Lemma runs_deallocate_behind s c w mid a n post hi fuel : freeable s ((c, w) :: mid) a n post hi →
  length mid < fuel →
  ∃ s', runs (deallocate_at fuel a n : Op E t _) s (Some tt) s' [] ∧
    listed s' (insert_hole ((c, w) :: mid ++ post) a n) ∧ kept s s'.
Proof.
  intros Hf Hlen. destruct (made_parts _ _ _ _ _ _ Hf) as (e & Hpre & He & Ha4 & Hn & Hpost & Hp & Ha & Hk).
  destruct Hf as [Hs Hsp Hap Ht [Hb0 Hb] Hhi]. cbn [app] in *.
  pose proof (runs_make_hole s a n Ha4) as Hr0.
  set (s1 := set_mem _ s) in *.
  apply (proj1 (parts_listed s1 ((c, w) :: mid) post)) in Hp.
  destruct (runs_insert_after_loop post a n 0 hi Hpost Hn mid fuel s1 [] c w (cursor_at First c (top s)) e)
    as (pre' & b & m & c' & s2 & Hr2 & Hpre' & Hc' & Hct & Hs2 & Hk2); [done..|].
  cbn [app] in Hpre'.
  assert ((c, w) :: mid ++ post = pre' ++ (b, m) :: post) as Heq.
  { change ((c, w) :: mid ++ post) with (((c, w) :: mid) ++ post). by rewrite Hpre', <-app_assoc. }
  assert ((c, w) :: mid ++ (a, n) :: post = pre' ++ (b, m) :: (a, n) :: post) as Heq2.
  { change ((c, w) :: mid ++ (a, n) :: post) with (((c, w) :: mid) ++ (a, n) :: post).
    by rewrite Hpre', <-app_assoc. }
  rewrite Heq in *. rewrite Heq2 in *. rewrite Hpre' in Hpre.
  destruct (runs_try_merge (top s) 0 hi) with (k := 2) (s := s2) (pre := pre') (b := b) (m := m)
    (rest := (a, n) :: post) as (s3 & Hr3 & Hs3 & Hk3); try done.
  { by apply Forall_app in Ht as [_ ?]. }
  exists s3. rewrite merged_two in Hs3. split; [|split].
  - eapply runs_bind_nil; [exact Hr0|]. eapply runs_bind_nil; [apply runs_get|].
    eapply runs_bind_nil; [exact (runs_cursor _ _ Hp)|].
    cbn [app head_or fmap option_fmap option_map].
    eapply (runs_bind_nil _ _ _ (Err _)); [|cbv beta iota].
    + unfold try_insert_back. cbn [hole].
      assert (c ≤ a)%Z. { rewrite <-Hpre' in Hpre. destruct Hpre as (? & _ & _ & ? & ?%spaced_le). lia. }
      rewrite (proj2 (Z.ltb_ge _ _)) by lia. apply runs_ret.
    + eapply runs_bind_nil; [exact Hr2|]. cbv beta iota. rewrite Hc', Hct. cbn [cursor_top].
      eapply runs_bind_nil; [exact Hr3|apply runs_ret].
  - erewrite insert_hole_after; [exact Hs3|exact Hpre|done|exact Hpost|lia|exact Hap].
  - apply (heap_kept_trans _ _ _ Hk), (heap_kept_trans _ _ _ Hk2), Hk3.
Qed.

Lemma runs_deallocate_at s pre a n post hi fuel : freeable s pre a n post hi → length pre ≤ fuel →
  ∃ s', runs (deallocate_at fuel a n : Op E t _) s (Some tt) s' [] ∧
    listed s' (insert_hole (pre ++ post) a n) ∧ kept s s'.
Proof.
  intros Hf Hlen. destruct pre as [|[c w] mid]; [|by eapply runs_deallocate_behind].
  destruct post as [|[c w] post]; [by eapply runs_deallocate_first|].
  cbn [app]. pose proof (free_spaced _ _ _ _ _ _ Hf) as (_ & _ & _ & Hn & Hpost). cbn [app] in *.
  erewrite insert_hole_head; [by eapply runs_deallocate_front|exact Hpost|lia].
Qed.

Lemma runs_deallocate s pre p l post hi fuel : valid l →
  freeable s pre p (size_of (aligned l)) post hi → length pre ≤ fuel →
  ∃ s', runs (deallocate fuel p l : Op E t _) s (Some (aligned l)) s' [] ∧
    listed s' (insert_hole (pre ++ post) p (size_of (aligned l))) ∧ kept s s'.
Proof.
  intros Hl Hf Hlen. destruct (runs_deallocate_at _ _ _ _ _ _ _ Hf Hlen) as (s' & Hr & Hs').
  exists s'. split; [|exact Hs'].
  eapply runs_bind_nil; [apply runs_lift, align_layout_eq, Hl|].
  eapply runs_bind_nil; [exact Hr|apply runs_ret].
Qed.

(** ** Growth and creation *)
Definition floor4 (n : Z) : Z := (n - n mod 4)%Z.

Lemma floor4_spec n : (floor4 n ≤ n < floor4 n + 4 ∧ floor4 n mod 4 = 0)%Z.
Proof. unfold floor4. mod_lia. Qed.

Lemma align_down_floor4 n : in_width usize n → align_down_size n 4 = floor4 n.
Proof.
  intros Hn. destruct (align_down_size_spec n 4) as [Hd Hm]; [done|exact Hn|].
  pose proof (floor4_spec n). mod_lia.
Qed.

Lemma ceil4_fix n : (n mod 4 = 0 → Bump.ceil n 4 = n)%Z.
Proof. intros. by apply ceil_fix. Qed.

(** [extend] keeps less than a node's worth of bytes for later, or makes a
    hole of the bytes above the top. *)
Lemma runs_extend_small s by_ fuel : (top s ≠ 0)%Z → (top s mod 4 = 0)%Z →
  (0 ≤ pending_extend s)%Z → (0 ≤ by_)%Z → (pending_extend s + by_ < 8)%Z →
  runs (extend fuel by_ : Op E t _) s (Some tt) (set_pending (pending_extend s + by_) s) [].
Proof.
  intros Ht Ht4 Hp Hby Hsum. unfold extend, debug_assert. cbn [align_of hole_layout].
  eapply runs_bind_nil; [apply runs_get|].
  eapply runs_bind_nil; [apply (runs_lift _ tt); by rewrite (proj2 (Z.eqb_neq _ _) Ht)|].
  eapply runs_bind_nil; [apply (runs_lift _ tt); by rewrite Ht4; destruct overflow_checks|].
  eapply runs_bind_nil; [apply (runs_lift _ tt)|].
  { unfold min_size. rewrite (proj2 (Z.ltb_lt _ _)) by lia. by destruct overflow_checks. }
  eapply runs_bind_nil; [apply runs_lift, uadd_in; width|].
  unfold min_size. rewrite (proj2 (Z.ltb_lt _ _)) by lia.
  eapply runs_bind_nil; [apply runs_modify|]. rewrite Z.mod_small by (unfold modulus; lia). apply runs_ret.
Qed.

Lemma runs_extend_large s hs by_ fuel : (0 < top s)%Z → (top s mod 4 = 0)%Z →
  (0 ≤ pending_extend s < 8)%Z → (0 ≤ by_)%Z → (8 ≤ pending_extend s + by_)%Z →
  (pending_extend s + by_ + 12 ≤ 2147483648)%Z →
  freeable s hs (top s) (floor4 (pending_extend s + by_)) [] (top s + floor4 (pending_extend s + by_)) →
  length hs ≤ fuel →
  ∃ s', runs (extend fuel by_ : Op E t _) s (Some tt) s' [] ∧
    listed s' (insert_hole hs (top s) (floor4 (pending_extend s + by_))) ∧
    bottom s' = bottom s ∧ top s' = (top s + floor4 (pending_extend s + by_))%Z ∧
    pending_extend s' = (pending_extend s + by_ - floor4 (pending_extend s + by_))%Z.
Proof.
  set (eb := (pending_extend s + by_)%Z). intros Ht Ht4 Hp Hby Hge Hle Hf Hlen.
  pose proof (floor4_spec eb) as [He He4]. set (n := floor4 eb) in *.
  assert (valid (mk_layout n 1)) as Hv by (split; cbn [align_of size_of]; [done|lia]).
  assert (aligned (mk_layout n 1) = mk_layout n 1) as Hal.
  { unfold aligned, min_size. cbn [align_of size_of]. rewrite Z.max_r by mod_lia. by rewrite ceil4_fix. }
  destruct (runs_deallocate s hs (top s) (mk_layout n 1) [] (top s + n) fuel Hv) as (s' & Hr & Hs' & Hk);
    [by rewrite Hal|done|].
  rewrite Hal, app_nil_r in *. cbn [size_of] in *. destruct Hk as (Hkb & Hkt & Hkp).
  exists (set_pending (eb - n) (set_top (top s + n) s')). split; [|done].
  unfold extend, debug_assert. cbn [align_of hole_layout].
  eapply runs_bind_nil; [apply runs_get|].
  eapply runs_bind_nil; [apply (runs_lift _ tt); by rewrite (proj2 (Z.eqb_neq _ _)) by lia|].
  eapply runs_bind_nil; [apply (runs_lift _ tt); by rewrite Ht4; destruct overflow_checks|].
  eapply runs_bind_nil; [apply (runs_lift _ tt)|].
  { unfold min_size. rewrite (proj2 (Z.ltb_lt _ _)) by lia. by destruct overflow_checks. }
  eapply runs_bind_nil; [apply runs_lift, uadd_in; width|]. fold eb.
  unfold min_size. rewrite (proj2 (Z.ltb_ge _ _)) by lia.
  rewrite align_down_floor4 by width. fold n. cbv zeta.
  eapply runs_bind_nil; [apply (runs_lift _ (mk_layout n 1))|].
  { unfold layout_from_size_align. rewrite bool_decide_eq_true_2 by done.
    by rewrite (proj2 (Z.leb_le _ _)) by lia. }
  eapply runs_bind_nil; [exact Hr|]. cbv beta iota.
  eapply runs_bind_nil; [apply runs_modify|].
  eapply runs_bind_nil; [apply runs_lift, usub_in; width|].
  eapply runs_bind_nil; [apply runs_modify|].
  rewrite Z.mod_small by (unfold modulus; lia). apply runs_ret.
Qed.

(** The region a new heap manages. *)
Definition region (addr size : Z) : Z * Z :=
  let b := Bump.ceil addr 4 in (b, floor4 (size - (b - addr)))%Z.

Lemma new_eq addr size : (0 < addr)%Z → (12 ≤ size)%Z → (addr + size < modulus usize)%Z →
  ∃ s, new addr size = Val s ∧ listed s [region addr size] ∧ bottom s = (region addr size).1 ∧
    top s = ((region addr size).1 + (region addr size).2)%Z ∧ (0 ≤ pending_extend s < 4)%Z ∧
    (bottom s mod 4 = 0 ∧ (region addr size).2 mod 4 = 0 ∧ 8 ≤ (region addr size).2 ∧
     addr ≤ bottom s ∧ top s + pending_extend s = addr + size)%Z.
Proof.
  intros Ha Hs Has. unfold region. cbv zeta. cbn [fst snd].
  destruct (Bump.ceil_spec addr 4) as [Hb Hb4]; [lia|].
  set (b := Bump.ceil addr 4) in *. set (r := (size - (b - addr))%Z).
  destruct (floor4_spec r) as [Hn Hn4]. set (n := floor4 r) in *.
  assert (8 ≤ n)%Z as Hn8 by mod_lia.
  exists (mk (write_mem b (mk_hole n None) ∅) (mk_hole 0 (Some b)) b (b + n) (r - n)). split.
  - unfold new. cbn [align_of size_of hole_layout]. unfold min_size.
    rewrite (proj2 (Z.leb_le 8 size)) by lia. cbv [mbind outcome_bind assert_that]. cbn [Z.eqb Z.mul Pos.mul Pos.eqb].
    rewrite align_up_ceil by (done || unfold modulus in *; lia). fold b.
    rewrite usub_in by width. cbn. rewrite usub_in by (fold r; width). fold r.
    rewrite align_down_floor4 by width. fold n.
    rewrite (proj2 (Z.leb_le 8 n)) by lia.
    rewrite !wrapping_add_in by width. rewrite (proj2 (Z.eqb_eq _ _)) by lia.
    rewrite usub_in by width. by rewrite Z.mod_small by (unfold modulus; lia).
  - cbn [bottom top pending_extend]. split_and!; try done; try lia.
    split; [done|]. split; [apply write_mem_eq|done].
Qed.
End Dealloc.
