(* ===== verification/HeapProps.v ===== *)
(** * The free-list heap: its clients

    The region of a heap is a row of tiles, each a hole or a block in use.  A
    client allocates blocks, frees those it has and extends the region; the
    theorems are about any sequence of such calls, and about where one
    allocation goes. *)

From S2P Require Import Prelude Bump Heap HeapFacts HeapFree.

Import Heap.

(** ** Tiles *)

(** A tile is free or not, and its size. *)
Abbreviation tile := (bool * Z)%type.

(** The tiles of one kind, with their addresses, in a row that starts at [lo]. *)
Fixpoint pick (b : bool) (lo : Z) (ts : list tile) : list (Z * Z) :=
  match ts with
  | [] => []
  | (f, z) :: ts => (if eqb b f then [(lo, z)] else []) ++ pick b (lo + z)%Z ts
  end.

Fixpoint total (ts : list tile) : Z :=
  match ts with [] => 0 | (_, z) :: ts => z + total ts end%Z.

Definition tile_ok (t : tile) : Prop := (8 ≤ t.2 ∧ t.2 mod 4 = 0)%Z.

(** No two holes are neighbours. *)
Fixpoint joined (ts : list tile) : Prop :=
  match ts with
  | (f, _) :: ts' => match ts' with (g, _) :: _ => f && g = false | [] => True end ∧ joined ts'
  | [] => True
  end.

(** A tile in front of a row: two holes become one. *)
Definition join (t : tile) (ts : list tile) : list tile :=
  match t, ts with
  | (true, z), (true, w) :: ts' => (true, z + w)%Z :: ts'
  | _, _ => t :: ts
  end.

Lemma total_app t1 t2 : total (t1 ++ t2) = (total t1 + total t2)%Z.
Proof. induction t1 as [|[f z] t1 IH]; cbn; lia. Qed.

Lemma pick_app b lo t1 t2 : pick b lo (t1 ++ t2) = pick b lo t1 ++ pick b (lo + total t1) t2.
Proof.
  revert lo. induction t1 as [|[f z] t1 IH]; intros lo; cbn [app pick total].
  - by rewrite Z.add_0_r.
  - by rewrite IH, Z.add_assoc, app_assoc.
Qed.

Lemma total_ok ts : Forall tile_ok ts → (total ts mod 4 = 0 ∧ (ts = [] ∧ total ts = 0 ∨ 8 ≤ total ts))%Z.
Proof.
  induction 1 as [|[f z] ts [Hz Hz4] _ IH]; cbn [total fst snd] in *; [split; [done|by left]|].
  destruct IH as [IH4 IH]. split; [mod_lia|right]. destruct IH as [[_ ->]|]; lia.
Qed.

Lemma total_pos ts : Forall tile_ok ts → (0 ≤ total ts)%Z.
Proof. intros [_ [[_ ->]|]]%total_ok; lia. Qed.

Lemma pick_spaced b lo ts : (lo mod 4 = 0)%Z → Forall tile_ok ts →
  spaced lo (pick b lo ts) (lo + total ts).
Proof.
  intros Hlo Hts. revert lo Hlo. induction Hts as [|[f z] ts [Hz Hz4] Hts IH]; intros lo Hlo; cbn [pick total fst snd] in *.
  - cbn. lia.
  - specialize (IH (lo + z)%Z ltac:(mod_lia)). rewrite Z.add_assoc.
    destruct (eqb b f); cbn [app spaced]; [by split_and!; [lia|..]|].
    eapply spaced_weaken; [exact IH|lia|lia].
Qed.

Lemma pick_length b lo ts : Forall tile_ok ts → (8 * Z.of_nat (length (pick b lo ts)) ≤ total ts)%Z.
Proof.
  intros Hts. revert lo. induction Hts as [|[f z] ts [Hz Hz4] _ IH]; intros lo; cbn [pick total fst snd] in *; [done|].
  specialize (IH (lo + z)%Z). destruct (eqb b f); cbn [app length]; lia.
Qed.

(** Each tile ends at the end of the row or leaves room for another. *)
Lemma pick_clear b lo ts : Forall tile_ok ts → Forall (clear_top (lo + total ts)) (pick b lo ts).
Proof.
  intros Hts. revert lo. induction Hts as [|[f z] ts [Hz Hz4] Hts IH]; intros lo; cbn [pick total fst snd] in *; [done|].
  specialize (IH (lo + z)%Z). rewrite Z.add_assoc. destruct (eqb b f); [|exact IH].
  constructor; [|exact IH]. unfold clear_top. cbn [fst snd].
  destruct (total_ok ts Hts) as [_ [[_ ->]|]]; lia.
Qed.

Lemma pick_lower b lo ts : Forall tile_ok ts → Forall (λ h, (lo ≤ h.1)%Z) (pick b lo ts).
Proof.
  intros Hts. revert lo. induction Hts as [|[f z] ts [Hz _] _ IH]; intros lo; cbn [pick fst snd] in *; [done|].
  assert (Forall (λ h : Z * Z, (lo ≤ h.1)%Z) (pick b (lo + z) ts)).
  { eapply Forall_impl; [apply IH|]. intros [??]; cbn; lia. }
  destruct (eqb b f); [by constructor|done].
Qed.

Lemma pick_apart lo ts : Forall tile_ok ts → joined ts → apart (pick true lo ts).
Proof.
  intros Hts. revert lo. induction Hts as [|[f z] ts [Hz Hz4] Hts IH]; intros lo; cbn [pick joined]; [done|].
  intros [Hn Hj]. specialize (IH (lo + z)%Z Hj). destruct f; cbn [eqb app]; [|exact IH].
  split; [|exact IH]. destruct ts as [|[[] w] ts]; [done|done|]. apply Forall_cons in Hts as [[Hw _] Hts].
  cbn [pick eqb app fst snd] in *.
  pose proof (pick_lower true (lo + z + w) ts Hts) as Hl.
  destruct (pick true (lo + z + w) ts) as [|[c x] hs]; [done|].
  apply Forall_cons in Hl as [Hl _]. cbn [fst] in Hl. lia.
Qed.

(** ** Freeing on tiles *)
Lemma join_total t ts : total (join t ts) = (t.2 + total ts)%Z.
Proof. destruct t as [[] z], ts as [|[[] w] ts]; cbn [join total snd]; lia. Qed.

Lemma join_ok t ts : tile_ok t → Forall tile_ok ts → Forall tile_ok (join t ts).
Proof.
  destruct t as [[] z], ts as [|[[] w] ts]; cbn [join]; intros Ht Hts; try by constructor.
  apply Forall_cons in Hts as [Hw Hts]. constructor; [|done].
  unfold tile_ok in *. cbn [snd] in *. split; [lia|mod_lia].
Qed.

Lemma join_joined t ts : joined ts → joined (join t ts).
Proof. destruct t as [[] z], ts as [|[[] w] ts]; cbn; try tauto. Qed.

Lemma join_used lo t ts : pick false lo (join t ts) = pick false lo (t :: ts).
Proof. destruct t as [[] z], ts as [|[[] w] ts]; cbn [join pick eqb app]; try done. by rewrite Z.add_assoc. Qed.

Lemma join_hole lo z ts : Forall tile_ok ts →
  pick true lo (join (true, z) ts) = glue (lo, z) (pick true (lo + z) ts).
Proof.
  intros Hts. destruct ts as [|[[] w] ts]; [done|..]; cbn [join pick eqb app glue fst snd].
  - by rewrite Z.eqb_refl, Z.add_assoc.
  - apply Forall_cons in Hts as [[Hw _] Hts]. cbn [snd] in Hw.
    pose proof (pick_lower true (lo + z + w) ts Hts) as Hl.
    destruct (pick true (lo + z + w) ts) as [|[c x] hs]; [done|].
    apply Forall_cons in Hl as [Hl _]. cbn [fst snd] in *. rewrite glue_apart by (cbn; lia). done.
Qed.

(** The tile of [n] bytes between [pre] and [post] becomes free. *)
Definition free_tile (pre : list tile) (n : Z) (post : list tile) : list tile :=
  foldr join (join (true, n) post) pre.

Lemma free_tile_ok pre n post : Forall tile_ok pre → tile_ok (true, n) → Forall tile_ok post →
  Forall tile_ok (free_tile pre n post).
Proof. intros Hpre Hn Hpost. induction Hpre; [by apply join_ok|by apply join_ok]. Qed.

Lemma joined_tail pre post : joined (pre ++ post) → joined post.
Proof. induction pre as [|[f z] pre IH]; [done|]. intros [_ Hj]. auto. Qed.

Lemma free_tile_joined pre n post : joined post → joined (free_tile pre n post).
Proof. intros Hj. induction pre; by apply join_joined. Qed.

Lemma free_tile_total pre n post : total (free_tile pre n post) = (total pre + n + total post)%Z.
Proof.
  unfold free_tile. induction pre as [|[f z] pre IH]; cbn [foldr total];
    rewrite join_total; cbn [snd]; lia.
Qed.

Lemma free_tile_used lo pre n post :
  pick false lo (free_tile pre n post) = pick false lo pre ++ pick false (lo + total pre + n) post.
Proof.
  revert lo. unfold free_tile. induction pre as [|[f z] pre IH]; intros lo;
    cbn [foldr total]; rewrite join_used; cbn [pick eqb app].
  - by rewrite Z.add_0_r.
  - rewrite IH, app_assoc. do 2 f_equal. lia.
Qed.

Lemma free_tile_holes lo pre n post : Forall tile_ok pre → tile_ok (true, n) → Forall tile_ok post →
  (lo mod 4 = 0)%Z →
  pick true lo (free_tile pre n post) =
    insert_hole (pick true lo pre ++ pick true (lo + total pre + n) post) (lo + total pre) n.
Proof.
  intros Hpre Hn Hpost. revert lo. induction Hpre as [|[f z] pre [Hz Hz4] Hpre IH]; intros lo Hlo;
    cbn [free_tile foldr total pick app fst snd] in *.
  - rewrite Z.add_0_r, join_hole by done. symmetry.
    destruct Hn as [Hn Hn4]. cbn [fst snd] in *.
    eapply insert_hole_head; [apply pick_spaced; [mod_lia|done]|lia].
  - specialize (IH (lo + z)%Z ltac:(mod_lia)). fold (free_tile pre n post) in *.
    rewrite !Z.add_assoc. destruct f; cbn [eqb app].
    + rewrite join_hole by (by apply free_tile_ok). rewrite IH. cbn [insert_hole].
      pose proof (total_pos pre Hpre). by rewrite (proj2 (Z.ltb_ge _ _)) by lia.
    + destruct (free_tile pre n post) eqn:?; cbn [join pick eqb app]; exact IH.
Qed.

(** The tile of a block in use. *)
Lemma pick_split lo ts p n : (p, n) ∈ pick false lo ts →
  ∃ pre post, ts = pre ++ (false, n) :: post ∧ p = (lo + total pre)%Z.
Proof.
  revert lo. induction ts as [|[f z] ts IH]; intros lo; cbn [pick]; [by intros ?%elem_of_nil|].
  rewrite elem_of_app. intros [Hin|Hin].
  - destruct f; cbn [eqb] in Hin; [by apply elem_of_nil in Hin|].
    apply list_elem_of_singleton in Hin as [= -> ->]. exists [], ts. cbn. split; [done|lia].
  - destruct (IH _ Hin) as (pre & post & -> & ->). exists ((f, z) :: pre), post. cbn. split; [done|lia].
Qed.

(** ** Allocating on tiles *)

(** A hole with a block in it. *)
Definition cut_tile (a z p n : Z) : list tile :=
  (if Z.eqb p a then [] else [(true, p - a)%Z]) ++ (false, n) ::
  (if Z.eqb (p + n) (a + z) then [] else [(true, a + z - (p + n))%Z]).

Lemma cut_tile_facts l a z p rest : good l → (a mod 4 = 0)%Z → (z mod 4 = 0)%Z →
  place a z l = Some (p, rest) →
  Forall tile_ok (cut_tile a z p (size_of l)) ∧ total (cut_tile a z p (size_of l)) = z ∧
  pick true a (cut_tile a z p (size_of l)) = rest ∧
  pick false a (cut_tile a z p (size_of l)) = [(p, size_of l)].
Proof.
  intros Hl Ha Hz Hpl. pose proof (place_mod4 _ _ _ _ _ Hl Ha Hpl) as Hp4.
  apply place_some in Hpl as ((_ & Hpa & Hpe) & ->); [|done..]. destruct Hl as [_ [Hs Hs4]].
  unfold cut_tile, tile_ok.
  destruct (Z.eqb_spec p a) as [He|He], (Z.eqb_spec (p + size_of l) (a + z)) as [Hee|Hee].
  all: cbn [app total pick eqb]; split_and!.
  all: try (repeat constructor; cbn [fst snd]; first [lia|mod_lia]).
  all: try lia; repeat first [done | progress f_equal | lia].
Qed.

Lemma joined_cut pre z post a p n : joined (pre ++ (true, z) :: post) →
  joined (pre ++ cut_tile a z p n ++ post).
Proof.
  unfold cut_tile. induction pre as [|[f w] pre IH]; cbn [app].
  - intros [Hn Hj]. destruct post as [|[g y] post]; repeat case_match; cbn in *; tauto.
  - intros [Hn Hj]. split; [|exact (IH Hj)].
    destruct pre as [|[g y] pre]; [|exact Hn]. cbn [app] in *. rewrite andb_true_r in Hn.
    rewrite Hn. by repeat case_match.
Qed.

(** First fit on the holes of a row cuts one tile. *)
Lemma fit_tile lo ts l p hs : fit (pick true lo ts) l = Some (p, hs) →
  ∃ pre z post rest, ts = pre ++ (true, z) :: post ∧ place (lo + total pre) z l = Some (p, rest) ∧
    hs = pick true lo pre ++ rest ++ pick true (lo + total pre + z) post.
Proof.
  revert lo hs. induction ts as [|[f z] ts IH]; intros lo hs; cbn [pick]; [done|].
  assert (∀ hs', fit (pick true (lo + z) ts) l = Some (p, hs') →
    hs = (if f then [(lo, z)] else []) ++ hs' →
    ∃ pre z' post rest, (f, z) :: ts = pre ++ (true, z') :: post ∧
      place (lo + total pre) z' l = Some (p, rest) ∧
      hs = pick true lo pre ++ rest ++ pick true (lo + total pre + z') post) as Hlater.
  { intros hs' Hf ->. destruct (IH _ _ Hf) as (pre & z' & post & rest & -> & Hpl & ->).
    exists ((f, z) :: pre), z', post, rest. cbn [total pick app]. rewrite !Z.add_assoc.
    split_and!; [done|done|]. by destruct f. }
  destruct f; cbn [eqb app] in *; [|intros Hf; by apply (Hlater hs)].
  rewrite fit_cons. destruct (place lo z l) as [[p' rest]|] eqn:Hpl.
  - intros [= -> <-]. exists [], z, ts, rest. cbn [total pick app]. by rewrite Z.add_0_r.
  - destruct (fit (pick true (lo + z) ts) l) as [[p' hs']|] eqn:Hf; [|done].
    intros [= -> <-]. by apply (Hlater hs').
Qed.

(** ** Clients *)

(** The calls of a client that has blocks in use: the [i]-th of them goes back
    to the heap with the layout it was allocated with. *)
Inductive Call := Alloc (l : Layout) | Free (i : nat) | Extend (by_ : Z).

Section Client.
Context `{HP : Profile} `{HA : AlignOps} {E : Type}.

(** As many holes as the region has room for. *)
Definition fuel_of (s : t) : nat := S (Z.to_nat ((top s - bottom s) / 8)).

Definition on_heap {A} (m : Op E t A) : Op E (t * list (Z * Layout)) A :=
  zoom fst (λ h w, (h, w.2)) m.

Definition run (c : Call) : Op E (t * list (Z * Layout)) (option Z) :=
  w ← op_get;
  match c with
  | Alloc l =>
      o ← on_heap (allocate_first_fit (fuel_of w.1) l);
      match o with
      | Some (Ok (p, _)) => op_modify (λ w, (w.1, (p, l) :: w.2));; mret (Some p)
      | Some (Err _) => mret None
      | None => op_panic
      end
  | Free i =>
      match w.2 !! i with
      | None => mret None
      | Some (p, l) =>
          o ← on_heap (deallocate (fuel_of w.1) p l);
          match o with
          | Some _ => op_modify (λ w, (w.1, delete i w.2));; mret (Some p)
          | None => op_panic
          end
      end
  | Extend by_ =>
      o ← on_heap (extend (fuel_of w.1) by_);
      match o with Some _ => mret None | None => op_panic end
  end.
End Client.

(** The bytes the calls add to the region. *)
Definition extends (cs : list Call) : Z :=
  foldr (λ c n, match c with Extend by_ => by_ + n | _ => n end)%Z 0%Z cs.

(** Layouts and extensions for a region that stays below [limit]. *)
Definition call_ok (limit : Z) (c : Call) : Prop :=
  match c with
  | Alloc l => valid l ∧ within limit l
  | Free _ => True
  | Extend by_ => 0 ≤ by_ ≤ 2147483600
  end%Z.

(** The bytes a block takes. *)
Definition need (b : Z * Layout) : Z * Z := (b.1, size_of (aligned b.2)).

Record inv (s : t) (live : list (Z * Layout)) (ts : list tile) : Prop := {
  inv_listed : listed s (pick true (bottom s) ts);
  inv_ok : Forall tile_ok ts;
  inv_joined : joined ts;
  inv_top : top s = (bottom s + total ts)%Z;
  inv_live : need <$> live ≡ₚ pick false (bottom s) ts;
  inv_blocks : Forall (λ b, valid b.2 ∧ b.1 mod align_of b.2 = 0)%Z live;
  inv_bottom : (0 < bottom s ∧ bottom s mod 4 = 0)%Z;
  inv_pending : (0 ≤ pending_extend s < 8)%Z
}.

Lemma inv_fuel s live ts : inv s live ts → length (pick true (bottom s) ts) < fuel_of s.
Proof.
  intros [_ Hok _ Ht _ _ _ _]. unfold fuel_of. rewrite Ht.
  pose proof (pick_length true (bottom s) ts Hok) as Hl. pose proof (total_pos ts Hok).
  replace (bottom s + total ts - bottom s)%Z with (total ts) by lia.
  assert (Z.of_nat (length (pick true (bottom s) ts)) ≤ total ts / 8)%Z; [|lia].
  apply Z.div_le_lower_bound; lia.
Qed.

Section Steps.
Context `{HP : Profile} `{HA : AlignOps} `{!AlignLaws} {E : Type}.
Variable limit : Z.
Hypothesis Hlimit : (limit + 12 < modulus usize)%Z.

(** What a call does to the region, with [b] the blocks in use after it. *)
Definition stepped (c : Call) (w : t * list (Z * Layout)) : Prop :=
  ∃ r s' live' ts', runs (run c : Op E _ _) w r (s', live') [] ∧ inv s' live' ts' ∧
    bottom s' = bottom w.1 ∧
    (top s' + pending_extend s' = top w.1 + pending_extend w.1 + extends [c])%Z.

Lemma run_alloc s live ts l : inv s live ts → (top s ≤ limit)%Z → call_ok limit (Alloc l) →
  stepped (Alloc l) (s, live).
Proof.
  intros Hi Hle [Hl Hw]. pose proof (inv_fuel _ _ _ Hi) as Hf.
  destruct Hi as [Hs Hok Hj Ht Hlive Hbs [Hb Hb4] Hp].
  pose proof (runs_allocate (E:=E) s (pick true (bottom s) ts) (bottom s) (bottom s + total ts) l (fuel_of s) Hl) as Hr.
  specialize (Hr ltac:(unfold within in *; rewrite <-Ht; lia) Hb Hs (pick_spaced _ _ _ Hb4 Hok) Hf).
  destruct (fit (pick true (bottom s) ts) (aligned l)) as [[p hs]|] eqn:Hfit.
  2:{ exists None, s, live, ts. split; [|split; [by constructor|cbn; lia]].
      eapply runs_bind_nil; [apply runs_get|]. eapply runs_bind_nil; [by apply runs_zoom|]. apply runs_ret. }
  destruct Hr as (s' & Hr & Hs' & Hkb & Hkt & Hkp).
  apply fit_tile in Hfit as (pre & z & post & rest & -> & Hpl & ->).
  pose proof Hok as [Hok1 [[Hz Hz4] Hok2]%Forall_cons]%Forall_app. cbn [snd] in *.
  destruct (total_ok pre Hok1) as [Hpre4 _].
  destruct (cut_tile_facts (aligned l) (bottom s + total pre) z p rest (aligned_good l Hl) ltac:(clear -Hb4 Hpre4; mod_lia) Hz4 Hpl)
    as (Hc1 & Hc2 & Hc3 & Hc4).
  set (cut := cut_tile _ z p _) in *.
  exists (Some p), s', ((p, l) :: live), (pre ++ cut ++ post).
  split; [|split; [constructor|cbn; lia]].
  - eapply runs_bind_nil; [apply runs_get|]. eapply runs_bind_nil; [by apply runs_zoom|]. cbv beta iota.
    eapply runs_bind_nil; [apply runs_modify|]. apply runs_ret.
  - by rewrite Hkb, !pick_app, Hc3, Hc2.
  - apply Forall_app_2; [exact Hok1|]. apply Forall_app_2; [exact Hc1|exact Hok2].
  - by apply joined_cut.
  - rewrite Hkt, Hkb, Ht, !total_app, Hc2. cbn [total]. lia.
  - rewrite Hkb, !pick_app, Hc4, Hc2. cbn [fmap list_fmap]. rewrite Hlive, pick_app.
    cbn [pick eqb app]. by rewrite Permutation_middle.
  - constructor; [|done]. split; [done|].
    apply place_some in Hpl as ((Hm & _) & _); [exact Hm|by apply aligned_good| |done].
    clear -Hb4 Hpre4. mod_lia.
  - by rewrite Hkb.
  - by rewrite Hkp.
Qed.

(** What [deallocate] needs, on tiles. *)
Lemma tiles_freeable s pre n post : listed s (pick true (bottom s) pre ++ pick true (bottom s + total pre + n) post) →
  Forall tile_ok pre → tile_ok (true, n) → Forall tile_ok post → apart (pick true (bottom s) pre ++ pick true (bottom s + total pre + n) post) →
  (0 < bottom s ∧ bottom s mod 4 = 0)%Z → (bottom s + total pre + n + total post ≤ limit)%Z →
  (top s = bottom s + total pre + n + total post ∨ post = [] ∧ top s = bottom s + total pre)%Z →
  freeable s (pick true (bottom s) pre) (bottom s + total pre) n (pick true (bottom s + total pre + n) post)
    (bottom s + total pre + n + total post).
Proof.
  intros Hs Hpre Hn Hpost Hap [Hb Hb4] Hle Ht.
  assert (Forall tile_ok (pre ++ (true, n) :: post)) as Hall by (apply Forall_app_2; [done|by constructor]).
  pose proof (pick_spaced true (bottom s) _ Hb4 Hall) as Hsp.
  pose proof (pick_clear true (bottom s) _ Hall) as Hcl.
  rewrite total_app, pick_app in Hsp, Hcl. cbn [total pick eqb app] in Hsp, Hcl.
  rewrite !Z.add_assoc in Hsp, Hcl.
  constructor; [done| |done| |split; [lia|]|lia].
  - eapply spaced_weaken; [exact Hsp|lia|lia].
  - destruct Ht as [->|[-> Ht]]; [exact Hcl|]. rewrite Ht.
    apply Forall_app. split; [by apply pick_clear|]. constructor; [|done].
    unfold clear_top. cbn [fst snd]. destruct Hn as [Hn _]. cbn [snd] in Hn. lia.
  - unfold clear_bottom. destruct (total_ok pre Hpre) as [_ [[_ ->]|]]; lia.
Qed.

Lemma joined_free_apart lo pre n post : Forall tile_ok pre → tile_ok (false, n) → Forall tile_ok post →
  joined (pre ++ (false, n) :: post) → apart (pick true lo pre ++ pick true (lo + total pre + n) post).
Proof.
  intros Hpre Hn Hpost Hj.
  pose proof (pick_apart lo (pre ++ (false, n) :: post)) as Hap.
  rewrite pick_app in Hap. apply Hap; [|done]. apply Forall_app_2; [done|by constructor].
Qed.

Lemma run_free s live ts i : inv s live ts → (top s ≤ limit)%Z → stepped (Free i) (s, live).
Proof.
  intros Hi Hle. pose proof (inv_fuel _ _ _ Hi) as Hf.
  destruct (live !! i) as [[p l]|] eqn:Hp.
  2:{ exists None, s, live, ts. split; [|split; [done|cbn; lia]].
      eapply runs_bind_nil; [apply runs_get|]. cbn [snd]. rewrite Hp. apply runs_ret. }
  destruct Hi as [Hs Hok Hj Ht Hlive Hbs [Hb Hb4] Hpe].
  pose proof (delete_Permutation _ _ _ Hp) as Hperm.
  assert (Hin : need (p, l) ∈ pick false (bottom s) ts).
  { rewrite <-Hlive, Hperm. by left. }
  unfold need in Hin. cbn [fst snd] in Hin. apply pick_split in Hin as (pre & post & -> & Hpp).
  pose proof Hok as [Hok1 [Hn Hok2]%Forall_cons]%Forall_app.
  pose proof (Forall_lookup_1 _ _ _ _ Hbs Hp) as [Hl _]. cbn [snd] in Hl.
  rewrite total_app in Ht. cbn [total] in Ht. rewrite pick_app in Hs, Hf, Hlive. cbn [pick eqb app] in Hs, Hf, Hlive.
  set (n := size_of (aligned l)) in *.
  pose proof (tiles_freeable s pre n post Hs Hok1 Hn Hok2 (joined_free_apart _ _ _ _ Hok1 Hn Hok2 Hj)
    (conj Hb Hb4) ltac:(lia) ltac:(left; lia)) as Hfree.
  rewrite <-Hpp in Hfree. rewrite length_app in Hf.
  destruct (runs_deallocate (E:=E) s _ p l _ _ (fuel_of s) Hl Hfree) as (s' & Hr & Hs' & Hkb & Hkt & Hkp); [lia|].
  exists (Some p), s', (delete i live), (free_tile pre n post).
  split; [|split; [constructor|cbn; lia]].
  - eapply runs_bind_nil; [apply runs_get|]. cbn [fst snd]. rewrite Hp.
    eapply runs_bind_nil; [by apply runs_zoom|]. cbv beta iota.
    eapply runs_bind_nil; [apply runs_modify|]. apply runs_ret.
  - rewrite Hkb, free_tile_holes by done. rewrite <-Hpp. exact Hs'.
  - by apply free_tile_ok.
  - apply free_tile_joined. by apply (joined_tail pre) in Hj as [_ Hj].
  - rewrite Hkt, Hkb, Ht, free_tile_total. lia.
  - rewrite Hkb, free_tile_used. apply (Permutation_cons_inv (a := (p, n))).
    transitivity (need <$> live); [symmetry; exact (fmap_Permutation need _ _ Hperm)|].
    rewrite Hlive, <-Hpp. symmetry. apply Permutation_middle.
  - by apply Forall_delete.
  - by rewrite Hkb.
  - by rewrite Hkp.
Qed.

Lemma run_extend s live ts by_ : inv s live ts → (0 ≤ by_ ≤ 2147483600)%Z →
  (top s + pending_extend s + by_ ≤ limit)%Z → stepped (Extend by_) (s, live).
Proof.
  intros Hi Hby Hle. pose proof (inv_fuel _ _ _ Hi) as Hf.
  destruct Hi as [Hs Hok Hj Ht Hlive Hbs [Hb Hb4] Hp].
  destruct (total_ok ts Hok) as [Ht4 _]. pose proof (total_pos ts Hok) as Ht0.
  assert (top s mod 4 = 0)%Z as Hts4 by (rewrite Ht; clear -Hb4 Ht4; mod_lia).
  destruct (decide (pending_extend s + by_ < 8)%Z) as [Hlt|Hge].
  { exists None, (set_pending (pending_extend s + by_) s), live, ts.
    split; [|split; [by constructor; cbn; try lia|cbn; lia]].
    eapply runs_bind_nil; [apply runs_get|]. eapply (runs_bind_nil _ _ _ (Some tt)); [|apply runs_ret].
    apply (runs_zoom fst (λ h w, (h, w.2))). apply runs_extend_small; try done; lia. }
  destruct (floor4_spec (pending_extend s + by_)) as [He He4].
  set (n := floor4 (pending_extend s + by_)) in *.
  assert (tile_ok (true, n)) as Hn by (split; [cbn; clear -Hge He He4; mod_lia|done]).
  pose proof (tiles_freeable s ts n []) as Hfree. cbn [pick total] in Hfree. rewrite app_nil_r in Hfree.
  specialize (Hfree Hs Hok Hn ltac:(done) (pick_apart _ _ Hok Hj) (conj Hb Hb4) ltac:(lia) ltac:(right; done)).
  rewrite <-Ht, Z.add_0_r in Hfree.
  destruct (runs_extend_large (E:=E) s (pick true (bottom s) ts) by_ (fuel_of s))
    as (s' & Hr & Hs' & Hkb & Hkt & Hkp); [lia|done..|lia|lia|lia|exact Hfree|lia|].
  fold n in Hs', Hkt, Hkp.
  exists None, s', live, (free_tile ts n []).
  split; [|split; [constructor|cbn in *; lia]].
  - eapply runs_bind_nil; [apply runs_get|]. eapply (runs_bind_nil _ _ _ (Some tt)); [|apply runs_ret].
    by apply (runs_zoom fst (λ h w, (h, w.2))).
  - rewrite Hkb, free_tile_holes by done. cbn [pick]. by rewrite app_nil_r, <-Ht.
  - by apply free_tile_ok.
  - by apply free_tile_joined.
  - rewrite Hkt, Hkb, Ht, free_tile_total. cbn [total]. lia.
  - rewrite Hkb, free_tile_used. cbn [pick]. by rewrite app_nil_r.
  - done.
  - by rewrite Hkb.
  - lia.
Qed.

Lemma extends_cons c cs : extends (c :: cs) = (extends [c] + extends cs)%Z.
Proof. unfold extends. destruct c; cbn [foldr]; lia. Qed.

Lemma extends_nonneg cs : Forall (call_ok limit) cs → (0 ≤ extends cs)%Z.
Proof. induction 1 as [|c cs Hc _ IH]; [done|]. rewrite extends_cons. destruct c; cbn in *; lia. Qed.

Lemma run_step s live ts c : inv s live ts → call_ok limit c →
  (top s + pending_extend s + extends [c] ≤ limit)%Z → stepped c (s, live).
Proof.
  intros Hi Hc Hle. pose proof (inv_pending _ _ _ Hi). destruct c; cbn in Hle.
  - eapply run_alloc; [done|lia|done].
  - eapply run_free; [done|lia].
  - eapply run_extend; [done..|lia].
Qed.

Lemma run_calls cs s live ts : inv s live ts → Forall (call_ok limit) cs →
  (top s + pending_extend s + extends cs ≤ limit)%Z →
  ∃ io s' live' ts', runs (op_calls run cs : Op E _ _) (s, live) io (s', live') [] ∧ inv s' live' ts' ∧
    bottom s' = bottom s ∧ (top s' + pending_extend s' = top s + pending_extend s + extends cs)%Z.
Proof.
  intros Hi Hcs. revert s live ts Hi. induction Hcs as [|c cs Hc Hcs IH]; intros s live ts Hi Hle.
  { exists [], s, live, ts. split; [apply runs_ret|]. cbn. split_and!; [done|done|lia]. }
  rewrite extends_cons in *. pose proof (extends_nonneg cs Hcs).
  destruct (run_step s live ts c Hi Hc) as (r & s1 & live1 & ts1 & Hr1 & Hi1 & Hb1 & Ht1); [lia|].
  cbn [fst] in Hb1, Ht1.
  destruct (IH s1 live1 ts1 Hi1) as (io & s2 & live2 & ts2 & Hr2 & Hi2 & Hb2 & Ht2); [lia|].
  exists ((c, r) :: io), s2, live2, ts2. split; [|split; [done|split; [congruence|lia]]].
  cbn [op_calls]. eapply runs_bind_nil; [exact Hr1|].
  eapply runs_bind_nil; [exact Hr2|apply runs_ret].
Qed.

(** From a new heap. *)
Lemma new_calls addr size cs : (0 < addr)%Z → (12 ≤ size)%Z → (addr + size + extends cs ≤ limit)%Z →
  Forall (call_ok limit) cs →
  ∃ s0 io s live ts, new addr size = Val s0 ∧
    runs (op_calls run cs : Op E _ _) (s0, []) io (s, live) [] ∧ inv s live ts ∧
    bottom s = bottom s0 ∧ (addr ≤ bottom s0 ∧ bottom s0 + 8 ≤ top s)%Z ∧
    (top s ≤ addr + size + extends cs)%Z.
Proof.
  intros Ha Hs Hle Hcs. pose proof (extends_nonneg cs Hcs).
  destruct (new_eq addr size Ha Hs) as (s0 & Hnew & Hl & Hb & Ht & Hp & Hb4 & Hr4 & Hr8 & Hab & Hend); [lia|].
  assert (inv s0 [] [(true, (region addr size).2)]) as Hi.
  { constructor; try done; cbn [pick eqb app total].
    - rewrite Hb. by destruct (region addr size).
    - by repeat constructor.
    - lia.
    - lia.
    - lia. }
  destruct (run_calls cs s0 [] _ Hi Hcs) as (io & s & live & ts & Hr & Hi' & Hbs & Hts); [lia|].
  exists s0, io, s, live, ts. pose proof (inv_pending _ _ _ Hi').
  pose proof (inv_top _ _ _ Hi'). destruct (total_ok ts (inv_ok _ _ _ Hi')) as [_ Htot]. split_and!; try done; try lia.
Qed.
End Steps.

(** ** What clients see *)

(** Two ranges of bytes, an address and a size each, share none. *)
Definition disjoint_ranges (x y : Z * Z) : Prop := (x.1 + x.2 ≤ y.1 ∨ y.1 + y.2 ≤ x.1)%Z.

Lemma spaced_above lo hs hi y : spaced lo hs hi → y ∈ hs → (lo ≤ y.1 ∧ y.1 + y.2 ≤ hi)%Z.
Proof.
  revert lo. induction hs as [|[a z] hs IH]; intros lo; [by intros _ ?%elem_of_nil|].
  cbn. intros (Ha & _ & _ & Hz & Hs) [-> | Hy]%elem_of_cons; cbn.
  - apply spaced_le in Hs. lia.
  - specialize (IH _ Hs Hy). lia.
Qed.

Lemma spaced_disjoint lo hs hi x y rest : spaced lo hs hi → x :: y :: rest ≡ₚ hs →
  disjoint_ranges x y.
Proof.
  intros Hs Hp. assert (x ∈ hs) as Hx by (rewrite <-Hp; left).
  apply list_elem_of_split in Hx as (h1 & h2 & ->). destruct x as [a z].
  apply Permutation_cons_app_inv in Hp.
  assert (y ∈ h1 ++ h2) as Hy by (rewrite <-Hp; left).
  apply spaced_app in Hs as (mid & H1 & Hm & _ & _ & Hz & H2).
  unfold disjoint_ranges. cbn [fst snd].
  apply elem_of_app in Hy as [Hy|Hy].
  - apply (spaced_above _ _ _ _ H1) in Hy. lia.
  - apply (spaced_above _ _ _ _ H2) in Hy. lia.
Qed.

Lemma aligned_size l : (size_of l ≤ size_of (aligned l))%Z.
Proof.
  unfold aligned. cbn [size_of]. destruct (Bump.ceil_spec (Z.max min_size (size_of l)) 4); lia.
Qed.

(** The blocks of a client, two different ones and one. *)
Lemma inv_disjoint s live ts i j b c : inv s live ts → i ≠ j → live !! i = Some b → live !! j = Some c →
  disjoint_ranges (b.1, size_of b.2) (c.1, size_of c.2).
Proof.
  intros Hi Hij Hb Hc. pose proof (delete_Permutation _ _ _ Hb) as Hp1.
  assert (∃ rest, delete i live ≡ₚ c :: rest) as [rest Hp2].
  { assert (∃ k, delete i live !! k = Some c) as [k Hk]; [|eexists; exact (delete_Permutation _ _ _ Hk)].
    destruct (decide (j < i)) as [Hlt|].
    - exists j. by rewrite list_lookup_delete_lt.
    - exists (pred j). rewrite list_lookup_delete_ge by lia. by replace (S (pred j)) with j by lia. }
  rewrite Hp2 in Hp1. apply (fmap_Permutation need) in Hp1. cbn [fmap list_fmap] in Hp1.
  rewrite (inv_live _ _ _ Hi) in Hp1. symmetry in Hp1.
  pose proof (spaced_disjoint _ _ _ _ _ _
    (pick_spaced false _ ts (proj2 (inv_bottom _ _ _ Hi)) (inv_ok _ _ _ Hi)) Hp1) as Hd.
  unfold disjoint_ranges, need in *. cbn [fst snd] in *.
  pose proof (aligned_size b.2). pose proof (aligned_size c.2). lia.
Qed.

Lemma inv_placed s live ts b : inv s live ts → b ∈ live →
  (bottom s ≤ b.1 ∧ b.1 + size_of b.2 ≤ top s ∧ b.1 mod align_of b.2 = 0)%Z.
Proof.
  intros Hi Hb. assert (need b ∈ pick false (bottom s) ts) as Hin.
  { rewrite <-(inv_live _ _ _ Hi). by apply list_elem_of_fmap_2. }
  apply (spaced_above _ _ _ _ (pick_spaced false _ ts (proj2 (inv_bottom _ _ _ Hi)) (inv_ok _ _ _ Hi))) in Hin.
  rewrite <-(inv_top _ _ _ Hi) in Hin. unfold need in Hin. cbn [fst snd] in Hin.
  pose proof (aligned_size b.2).
  pose proof (proj1 (Forall_forall _ _) (inv_blocks _ _ _ Hi) b Hb) as [_ Hm]. lia.
Qed.

(** Without blocks in use the region is one hole. *)
Lemma inv_whole s ts : inv s [] ts → (bottom s < top s)%Z → listed s [(bottom s, top s - bottom s)%Z].
Proof.
  intros [Hs Hok Hj Ht Hlive _ _ _] Hlt. symmetry in Hlive. apply Permutation_nil_r in Hlive.
  assert (∀ lo ts', pick false lo ts' = [] → joined ts' → ts' = [] ∨ ∃ z, ts' = [(true, z)]) as Hone.
  { clear. intros lo ts' Hp Hj. destruct ts' as [|[f z] ts']; [by left|right]. cbn in Hp.
    destruct f; [|done]. cbn [eqb app] in Hp. destruct ts' as [|[[] w] ts']; [by exists z|by destruct Hj|done]. }
  destruct (Hone _ _ Hlive Hj) as [-> | [z ->]]; cbn [total] in Ht; [lia|].
  cbn [pick eqb app] in Hs. by replace (top s - bottom s)%Z with z by lia.
Qed.

(** First fit: the lowest place of the first hole that has one. *)
Lemma fit_spec l hs lo hi : good l → spaced lo hs hi →
  match fit hs l with
  | Some (p, hs') => ∃ pre a z post rest, hs = pre ++ (a, z) :: post ∧ hs' = pre ++ rest ++ post ∧
      legal a z l p ∧ (∀ q, legal a z l q → (p ≤ q)%Z) ∧
      Forall (λ h, ∀ q, ¬ legal h.1 h.2 l q) pre ∧ place a z l = Some (p, rest)
  | None => Forall (λ h, ∀ q, ¬ legal h.1 h.2 l q) hs
  end.
Proof.
  intros Hl. revert lo. induction hs as [|[a z] hs IH]; intros lo; [by constructor|].
  intros (_ & Ha & Hz & _ & Hs). specialize (IH _ Hs). rewrite fit_cons.
  destruct (place a z l) as [[p rest]|] eqn:Hpl.
  - exists [], a, z, hs, rest. pose proof (place_some l a z p rest Hl Ha Hz Hpl) as [Hleg _].
    split_and!; try done. intros q Hq.
    destruct (place_lowest l a z q Hl Ha Hz Hq) as (p' & rest' & Hp' & Hle). congruence.
  - assert (∀ q, ¬ legal a z l q) as Hno.
    { intros q Hq. destruct (place_lowest l a z q Hl Ha Hz Hq) as (p' & rest' & Hp' & _). congruence. }
    destruct (fit hs l) as [[p hs']|]; cbn [fmap option_fmap option_map prod_map id fst snd].
    + destruct IH as (pre & a' & z' & post & rest & -> & -> & Hleg & Hlow & Hpre & Hp').
      exists ((a, z) :: pre), a', z', post, rest. split_and!; try done. by constructor.
    + by constructor.
Qed.

Section Theorems.
Context `{HP : Profile} `{HA : AlignOps} `{!AlignLaws}.
Variable limit : Z.
Hypothesis Hlimit : (limit + 12 < modulus usize)%Z.

(** C13: From a new heap, any sequence of allocations, deallocations of blocks
    in use and extensions runs without a panic, and the blocks in use are then
    pairwise disjoint, inside the region and aligned as they were asked for. *)
Theorem heap_blocks_disjoint addr size cs :
  (0 < addr)%Z → (12 ≤ size)%Z → (addr + size + extends cs ≤ limit)%Z → Forall (call_ok limit) cs →
  ∃ s0 io s live, new addr size = Val s0 ∧
    runs (op_calls run cs : Op unit _ _) (s0, []) io (s, live) [] ∧
    (∀ i j b c, i ≠ j → live !! i = Some b → live !! j = Some c →
      disjoint_ranges (b.1, size_of b.2) (c.1, size_of c.2)) ∧
    (∀ b, b ∈ live → addr ≤ b.1 ∧ b.1 + size_of b.2 ≤ addr + size + extends cs ∧
      b.1 mod align_of b.2 = 0)%Z.
Proof.
  intros Ha Hs Hle Hcs.
  destruct (new_calls (E:=unit) limit Hlimit addr size cs Ha Hs Hle Hcs) as (s0 & io & s & live & ts & Hn & Hr & Hi & Hb & Hb0 & Ht).
  exists s0, io, s, live. split; [done|]. split; [exact Hr|]. split.
  - intros. by eapply inv_disjoint.
  - intros b Hin. pose proof (inv_placed _ _ _ _ Hi Hin). lia.
Qed.

(** C14: However a client has allocated, freed and extended, once it has no
    block in use the heap is a single hole again, the whole of its region:
    freed blocks are joined with the holes they touch. *)
Theorem heap_frees_whole addr size cs :
  (0 < addr)%Z → (12 ≤ size)%Z → (addr + size + extends cs ≤ limit)%Z → Forall (call_ok limit) cs →
  ∃ s0 io s live, new addr size = Val s0 ∧
    runs (op_calls run cs : Op unit _ _) (s0, []) io (s, live) [] ∧ bottom s = bottom s0 ∧
    (live = [] → first s = mk_hole 0 (Some (bottom s)) ∧
      mem s !! bottom s = Some (mk_hole (top s - bottom s) None)).
Proof.
  intros Ha Hs Hle Hcs.
  destruct (new_calls (E:=unit) limit Hlimit addr size cs Ha Hs Hle Hcs) as (s0 & io & s & live & ts & Hn & Hr & Hi & Hb & Hb0 & Ht).
  exists s0, io, s, live. split; [done|]. split; [exact Hr|]. split; [done|]. intros ->.
  destruct (inv_whole _ _ Hi) as [Hf [Hm _]]; [lia|]. done.
Qed.
End Theorems.

(** C21: An allocation takes the lowest place there is in the first hole that
    has one, a place being aligned and leaving on either side no byte or
    enough for a hole; it fails, and changes nothing, exactly when no hole has
    a place. *)
Theorem heap_first_fit `{Profile, !AlignOps, !AlignLaws} s hs lo hi l fuel :
  valid l → within hi l → (0 < lo)%Z → listed s hs → spaced lo hs hi → length hs < fuel →
  (∃ pre a z post p rest s', hs = pre ++ (a, z) :: post ∧
    runs (allocate_first_fit fuel l : Op unit _ _) s (Some (Ok (p, aligned l))) s' [] ∧
    legal a z (aligned l) p ∧ (∀ q, legal a z (aligned l) q → (p ≤ q)%Z) ∧
    Forall (λ h, ∀ q, ¬ legal h.1 h.2 (aligned l) q) pre ∧
    place a z (aligned l) = Some (p, rest) ∧ listed s' (pre ++ rest ++ post)) ∨
  Forall (λ h, ∀ q, ¬ legal h.1 h.2 (aligned l) q) hs ∧
    runs (allocate_first_fit fuel l : Op unit _ _) s (Some (Err tt)) s [].
Proof.
  intros Hl Hw Hlo Hs Hsp Hf. pose proof (runs_allocate (E:=unit) s hs lo hi l fuel Hl Hw Hlo Hs Hsp Hf) as Hr.
  pose proof (fit_spec (aligned l) hs lo hi (aligned_good l Hl) Hsp) as Hfit.
  destruct (fit hs (aligned l)) as [[p hs']|]; [left|by right].
  destruct Hr as (s' & Hr & Hs' & _). destruct Hfit as (pre & a & z & post & rest & -> & -> & Hx).
  exists pre, a, z, post, p, rest, s'. tauto.
Qed.

(** ** Witnesses: rounding by remainders, a heap in the scratch-pad memory *)
#[local] Instance dev : Profile := true.
#[local] Instance ops : AlignOps := {|
  align_up := Bump.ceil;
  align_up_size := Bump.ceil;
  align_down_size := λ a n, (a - a mod n)%Z
|}.

#[local] Instance ops_laws : AlignLaws.
Proof.
  constructor.
  - intros a n [Hn _] _ _. by apply Bump.ceil_spec.
  - intros a n [Hn _] _ _. by apply Bump.ceil_spec.
  - intros a n [Hn _] _. cbn. pose proof (Z.mod_pos_bound a n Hn). split; [lia|].
    replace (a - a mod n)%Z with (a / n * n)%Z by (pose proof (Z.div_mod a n); lia).
    apply Z.mod_mul. lia.
Qed.

Definition calls : list Call :=
  [Alloc (mk_layout 20 8); Alloc (mk_layout 4 4); Free 1; Extend 64; Alloc (mk_layout 24 32); Free 0; Free 0].

Lemma calls_ok : Forall (call_ok 1879052288) calls.
Proof. repeat constructor; cbn; unfold within; cbn; try lia; done. Qed.

Lemma heap_blocks_disjoint_witness : ∃ s0 io s live, new 1879048194 1000 = Val s0 ∧
  runs (op_calls (@run dev ops unit) (take 5 calls)) (s0, []) io (s, live) [] ∧ length live = 2 ∧
  ∀ i j b c, i ≠ j → live !! i = Some b → live !! j = Some c →
    disjoint_ranges (b.1, size_of b.2) (c.1, size_of c.2).
Proof.
  destruct (@heap_blocks_disjoint dev ops ops_laws 1879052288 ltac:(width) 1879048194 1000 (take 5 calls)
    ltac:(lia) ltac:(lia) ltac:(vm_compute; done) (Forall_take _ 5 _ calls_ok))
    as (s0 & io & s & live & Hn & Hr & Hd & _).
  exists s0, io, s, live. split; [exact Hn|]. split; [exact Hr|]. split; [|exact Hd].
  assert (match new 1879048194 1000 with
    | Val s0 => match op_calls (@run dev ops unit) (take 5 calls) (s0, []) with
        | Val (_, (_, live), _) => Nat.eqb (length live) 2 | Panic => false end
    | Panic => false end = true) as He by (vm_compute; reflexivity).
  rewrite Hn, Hr in He. by apply Nat.eqb_eq.
Defined.

Lemma heap_frees_whole_witness : ∃ s0 io s, new 1879048194 1000 = Val s0 ∧
  runs (op_calls (@run dev ops unit) calls) (s0, []) io (s, []) [] ∧
  first s = mk_hole 0 (Some (bottom s)) ∧
  mem s !! bottom s = Some (mk_hole (top s - bottom s) None).
Proof.
  destruct (@heap_frees_whole dev ops ops_laws 1879052288 ltac:(width) 1879048194 1000 calls
    ltac:(lia) ltac:(lia) ltac:(vm_compute; done) calls_ok) as (s0 & io & s & live & Hn & Hr & _ & Hw).
  assert (match new 1879048194 1000 with
    | Val s0 => match op_calls (@run dev ops unit) calls (s0, []) with
        | Val (_, (_, []), _) => true | _ => false end
    | Panic => false end = true) as He by (vm_compute; reflexivity).
  rewrite Hn, Hr in He. destruct live as [|? live]; [|discriminate He].
  exists s0, io, s. split; [exact Hn|]. split; [exact Hr|]. exact (Hw eq_refl).
Defined.

(** Two holes, the first too narrow for the alignment. *)
Definition two_holes : t :=
  mk (write_mem 1879048196 (mk_hole 24 (Some 1879048256%Z)) (write_mem 1879048256 (mk_hole 64 None) ∅))
    (mk_hole 0 (Some 1879048196%Z)) 1879048196 1879048320 0.

Lemma heap_first_fit_witness : ∃ p l s', 
  runs (@allocate_first_fit dev ops unit 3 (mk_layout 16 16)) two_holes (Some (Ok (p, l))) s' [].
Proof.
  assert (spaced 1879048196 [(1879048196, 24); (1879048256, 64)] 1879048320)%Z as Hsp by
    (cbn; split_and!; try lia; reflexivity).
  destruct (@heap_first_fit dev ops ops_laws two_holes [(1879048196, 24); (1879048256, 64)]%Z 1879048196
    1879048320 (mk_layout 16 16) 3) as [(? & ? & ? & ? & p & ? & s' & ? & Hr & _)|[Hno _]].
  - split; cbn; [done|lia].
  - unfold within. cbn. lia.
  - lia.
  - split; [done|]. cbn. split; [|split; [|done]]; vm_compute; reflexivity.
  - exact Hsp.
  - cbn. lia.
  - by exists p, (aligned (mk_layout 16 16)), s'.
  - apply Forall_cons in Hno as [_ [Hno _]%Forall_cons]. destruct (Hno 1879048256%Z).
    change (aligned (mk_layout 16 16)) with (mk_layout 16 16). unfold legal. cbn. split; [reflexivity|lia].
Defined.
