(* ===== verification/Timers.v ===== *)
(** * Timer queues and alarms ([time/timer_queue.rs], [cpu/alarm.rs])

    Each executor keeps the timers of its tasks in a [TimerQueue]; the core
    keeps the alarms of its executors in an [AlarmQueue], served from the timer
    interrupt.  Both are bounded min-heaps drained up to the current tick. *)

From S2P Require Import Prelude Heapless WaitQueue.
From Stdlib Require Import Sorting.Sorted.

Module TimerQueue.
(** [expires_at] is a [u64]; items are compared by it alone. *)
Record Item := item { expires_at : Z; waker : Waker }.

Definition item_cmp (x y : Item) : comparison := Z.compare (expires_at x) (expires_at y).

#[export] Instance item_total : TotalCmp item_cmp.
Proof.
  split; unfold item_cmp; [intros x y; apply Z.compare_antisym|].
  intros x y z. rewrite !Z.compare_le_iff. lia.
Qed.

Definition N_TIMERS : nat := 64.

Record t (H : ∀ A : Type, (A → A → comparison) → Kind → nat → Type) := mk {
  queue : H Item item_cmp Min N_TIMERS
}.
Arguments mk {H} _.
Arguments queue {H} _.

Section Ops.
Context `{HP : Profile} `{!HeapOps H}.

Definition new : t H := mk bh_new.

Definition enqueue {E} (i : Item) : Op E (t H) (option unit) :=
  s ← op_get;
  let '(r, q) := bh_push i (queue s) in
  op_put (mk q);;
  mret (result_ok r).

(** The closure [on_each] runs on the state [W] it captures.  [fuel] bounds the
    number of iterations, [None] is exhausted fuel. *)
Fixpoint dequeue_loop {E W} (fuel : nat) (now : Z) (on_each : Item → Op E W unit) (x : Z) :
    Op E (t H * W) (option Z) :=
  match fuel with
  | O => mret None
  | S fuel =>
      s ← op_get;
      match bh_peek (queue s.1) with
      | Some i =>
          if Z.leb (expires_at i) now then
            let '(r, q) := bh_pop (queue s.1) in
            op_modify (λ s, (mk q, s.2));;
            i ← op_lift (unwrap r);
            zoom snd (λ w s, (s.1, w)) (on_each i);;
            x ← op_lift (uadd usize x 1);
            dequeue_loop fuel now on_each x
          else mret (Some x)
      | None => mret (Some x)
      end
  end.

Definition dequeue_expired {E W} (now : Z) (on_each : Item → Op E W unit) :
    Op E (t H * W) (option Z) :=
  dequeue_loop (S N_TIMERS) now on_each 0.

Definition next_expiration (s : t H) : option Z :=
  match bh_peek (queue s) with Some i => Some (expires_at i) | None => None end.
End Ops.

Section Facts.
Context `{HP : Profile} `{HL : HeapLaws H}.
Implicit Types s : t H.

Definition items s : list Item := bh_elems (queue s).

Lemma item_key x y : item_cmp x y ≠ Gt → (expires_at x ≤ expires_at y)%Z.
Proof. apply Z.compare_le_iff. Qed.

(** The timers due at [now], earliest first, and the queue without them. *)
Definition due (now : Z) s (l : list Item) s' : Prop :=
  drained expires_at now (queue s) l (queue s').

Lemma due_exists now s : ∃ l s', due now s l s'.
Proof using HL.
  destruct (drained_exists expires_at now (queue s)) as (l & h & Hd).
  by exists l, (mk h).
Qed.

Lemma due_spec now s l s' : due now s l s' →
  items s ≡ₚ l ++ items s' ∧
  Forall (λ x, expires_at x ≤ now)%Z l ∧ Forall (λ x, now < expires_at x)%Z (items s') ∧
  StronglySorted (λ x y, expires_at x ≤ expires_at y)%Z l.
Proof using HL. apply drained_spec, item_key. Qed.

Lemma nothing_due now s : Forall (λ x, now < expires_at x)%Z (items s) → due now s [] s.
Proof using HL.
  intros HF. rewrite Forall_forall in HF.
  destruct (bh_peek_cases (queue s)) as [[_ Hp]|(i & Hp & Hi & _)]; [by constructor|].
  eapply drained_later; [exact Hp|by apply HF].
Qed.

Lemma items_bound s : length (items s) ≤ N_TIMERS.
Proof using HL. apply bh_bound. Qed.

Lemma dequeue_loop_eq {E W} now (f : Item → Op E W unit) h l h' : drained expires_at now h l h' →
  ∀ fuel x w, length l < fuel → (0 ≤ x)%Z → (x + Z.of_nat (length l) < modulus usize)%Z →
  dequeue_loop fuel now f x (mk h, w) =
    match op_for_each f l w with
    | Val (_, w', log) => Val (Some (x + Z.of_nat (length l)), (mk h', w'), log)%Z
    | Panic => Panic
    end.
Proof.
  induction 1 as [h Hp|h i Hp Hi|h i h1 l h' Hp Hi Hpop Hd IH]; intros fuel x w Hfuel Hx Hxl;
    (destruct fuel as [|fuel]; [simpl in Hfuel; lia|]); cbn [dequeue_loop op_for_each length] in *;
    cbv [mbind mret op_bind op_ret op_get]; cbn [fst snd queue]; rewrite Hp.
  - cbn. by rewrite Z.add_0_r.
  - rewrite (proj2 (Z.leb_gt _ _)) by lia. cbn. by rewrite Z.add_0_r.
  - rewrite (proj2 (Z.leb_le _ _)) by lia. rewrite Hpop. cbn.
    destruct (f i w) as [[[[] w1] l1]|]; [|done]. rewrite uadd_in by width.
    rewrite IH by lia. destruct (op_for_each f l w1) as [[[[] w2] l2]|]; [|done].
    rewrite app_nil_l. replace (x + 1 + Z.of_nat (length l))%Z with (x + Z.of_nat (S (length l)))%Z by lia.
    done.
Qed.

(** [dequeue_expired] terminates and runs its closure on the timers due. *)
Lemma dequeue_expired_eq {E W} now (f : Item → Op E W unit) s l s' w : due now s l s' →
  dequeue_expired now f (s, w) =
    match op_for_each f l w with
    | Val (_, w', log) => Val (Some (Z.of_nat (length l)), (s', w'), log)
    | Panic => Panic
    end.
Proof.
  intros Hd. pose proof (drained_length _ item_key _ _ _ _ Hd) as Hl.
  pose proof (items_bound s) as Hb. unfold items in Hb.
  destruct s as [h], s' as [h']. unfold due in Hd. cbn [queue] in *.
  unfold dequeue_expired. erewrite dequeue_loop_eq by (done || unfold N_TIMERS, modulus in *; lia).
  done.
Qed.

(** The next expiration is that of an earliest timer. *)
Lemma next_expiration_spec s :
  match next_expiration s with
  | Some e => ∃ i, i ∈ items s ∧ expires_at i = e ∧ Forall (λ j, e ≤ expires_at j)%Z (items s)
  | None => items s = []
  end.
Proof.
  unfold next_expiration, items. destruct (bh_peek_cases (queue s)) as [[He ->]|(i & -> & Hi & HF)].
  - done.
  - exists i. split_and!; [done|done|]. eapply Forall_impl; [exact HF|]. intros j. apply item_key.
Qed.

Lemma enqueue_spec {E} i s :
  (length (items s) < N_TIMERS ∧ ∃ s', enqueue i s = Val (Some tt, s', [] : list E) ∧
     items s' ≡ₚ i :: items s) ∨
  (length (items s) = N_TIMERS ∧ enqueue i s = Val (None, s, [] : list E)).
Proof.
  unfold enqueue. run_op. destruct (bh_push_cases i (queue s)) as [(Hl & h & -> & Hh)|[Hl ->]].
  - left. split; [done|]. by exists (mk h).
  - right. by destruct s.
Qed.
End Facts.
End TimerQueue.

(** ** [AlarmQueue]

    A callback is a function pointer with its context: a value of type [Cb]
    here, and [run_cb] is what calling it does to the rest [W] of the system. *)
Module AlarmQueue.
Record AlarmItem := item { expires_at : Z; handle : Z }.

(** The derived order: [expires_at] first, then the handle. *)
Definition item_cmp (x y : AlarmItem) : comparison :=
  match Z.compare (expires_at x) (expires_at y) with
  | Eq => Z.compare (handle x) (handle y)
  | c => c
  end.

Lemma item_cmp_le x y : item_cmp x y ≠ Gt ↔
  (expires_at x < expires_at y)%Z ∨ (expires_at x = expires_at y ∧ handle x ≤ handle y)%Z.
Proof.
  unfold item_cmp. destruct (Z.compare_spec (expires_at x) (expires_at y)).
  - rewrite Z.compare_le_iff. lia.
  - split; [lia|done].
  - split; [done|lia].
Qed.

#[export] Instance alarm_total : TotalCmp item_cmp.
Proof.
  split.
  - intros x y. unfold item_cmp.
    rewrite (Z.compare_antisym (expires_at x)), (Z.compare_antisym (handle x)).
    by destruct (Z.compare (expires_at x) (expires_at y)).
  - intros x y z. rewrite !item_cmp_le. lia.
Qed.

Lemma alarm_key x y : item_cmp x y ≠ Gt → (expires_at x ≤ expires_at y)%Z.
Proof. rewrite item_cmp_le. lia. Qed.

Record t (V : Type → nat → Type) (H : ∀ A : Type, (A → A → comparison) → Kind → nat → Type)
    (Cb : Type) (NH NA : nat) := mk {
  callbacks : V (option Cb) NH;
  queue : H AlarmItem item_cmp Min NA
}.
Arguments mk {V H Cb NH NA} _ _.
Arguments callbacks {V H Cb NH NA} _.
Arguments queue {V H Cb NH NA} _.

Section Ops.
Context `{HP : Profile} `{!VecOps V} `{!HeapOps H} {Cb : Type} {NH NA : nat}.
Abbreviation aq := (t V H Cb NH NA).

Definition new : aq := mk vec_new bh_new.

(** The handle is the index of the new slot, truncated to a [u8]. *)
Definition try_allocate_handle {E} : Op E aq (option Z) :=
  s ← op_get;
  let '(r, v) := vec_push None (callbacks s) in
  op_put (mk v (queue s));;
  match r with
  | Ok _ =>
      idx ← op_lift (usub usize (vec_len v) 1);
      mret (Some (idx mod modulus W8)%Z)
  | Err _ => mret None
  end.

Definition register_callback {E} (h : Z) (cb : Cb) : Op E aq unit :=
  s ← op_get;
  op_lift (unwrap (vec_get (callbacks s) h));;
  op_put (mk (vec_write h (Some cb) (callbacks s)) (queue s)).

Definition set_alarm {E} (h : Z) (e : Z) : Op E aq (option unit) :=
  s ← op_get;
  let '(r, q) := bh_push (item e h) (queue s) in
  op_put (mk (callbacks s) q);;
  mret (result_ok r).

Definition get_one_expired_item {E} (now : Z) : Op E aq (option AlarmItem) :=
  s ← op_get;
  match bh_peek (queue s) with
  | Some i =>
      if Z.leb (expires_at i) now then
        let '(r, q) := bh_pop (queue s) in
        op_put (mk (callbacks s) q);;
        mret r
      else mret None
  | None => mret None
  end.

Section Callbacks.
Context {E W : Type} (run_cb : Cb → Op E W unit).

Definition on_queue {A} (m : Op E aq A) : Op E (aq * W) A := zoom fst (λ q s, (q, s.2)) m.

Definition call (h : Z) : Op E (aq * W) (option unit) :=
  s ← op_get;
  cb ← op_lift (unwrap (vec_get (callbacks s.1) h));
  match cb with
  | Some cb => zoom snd (λ w s, (s.1, w)) (run_cb cb);; mret (Some tt)
  | None => mret None
  end.

Fixpoint call_loop (fuel : nat) (now : Z) (count : Z) : Op E (aq * W) (option Z) :=
  match fuel with
  | O => mret None
  | S fuel =>
      i ← on_queue (get_one_expired_item now);
      match i with
      | Some i =>
          if Z.leb (expires_at i) now then
            call (handle i);;
            count ← op_lift (uadd usize count 1);
            call_loop fuel now count
          else mret (Some count)
      | None => mret (Some count)
      end
  end.

Definition call_all_expired (now : Z) : Op E (aq * W) (option Z) := call_loop (S NA) now 0.
End Callbacks.
End Ops.

Section Facts.
Context `{HP : Profile} `{HV : VecLaws V} `{HL : HeapLaws H} {Cb : Type} {NH NA : nat}.
Implicit Types s : t V H Cb NH NA.

Definition alarms s : list AlarmItem := bh_elems (queue s).
Definition slots s : list (option Cb) := vec_iter (callbacks s).

(** The alarms due at [now], in the order in which they are served. *)
Definition due (now : Z) s (l : list AlarmItem) s' : Prop :=
  drained expires_at now (queue s) l (queue s') ∧ callbacks s' = callbacks s.

Lemma alarms_due_exists now s : ∃ l s', due now s l s'.
Proof using HL.
  destruct (drained_exists expires_at now (queue s)) as (l & h & Hd).
  by exists l, (mk (callbacks s) h).
Qed.

Lemma alarms_due_spec now s l s' : due now s l s' →
  alarms s ≡ₚ l ++ alarms s' ∧
  Forall (λ x, expires_at x ≤ now)%Z l ∧ Forall (λ x, now < expires_at x)%Z (alarms s') ∧
  StronglySorted (λ x y, expires_at x ≤ expires_at y)%Z l ∧ slots s' = slots s.
Proof using HL.
  intros [Hd Hc]. destruct (drained_spec _ alarm_key _ _ _ _ Hd) as (H1 & H2 & H3 & H4).
  split_and!; try done. unfold slots. by rewrite Hc.
Qed.

Lemma no_alarm_due now s : Forall (λ x, now < expires_at x)%Z (alarms s) → due now s [] s.
Proof using HL.
  intros HF. split; [|done]. rewrite Forall_forall in HF.
  destruct (bh_peek_cases (queue s)) as [[_ Hp]|(i & Hp & Hi & _)]; [by constructor|].
  eapply drained_later; [exact Hp|by apply HF].
Qed.

(** What serving one alarm does. *)
Definition fire {E W} (run_cb : Cb → Op E W unit) (l : list (option Cb)) (i : AlarmItem) :
    Op E W unit :=
  match l !! Z.to_nat (handle i) with
  | Some (Some cb) => run_cb cb
  | Some None => mret tt
  | None => op_panic
  end.

(** Handles are indices. *)
Definition handles_ok s : Prop := Forall (λ i, 0 ≤ handle i)%Z (alarms s).

Lemma call_loop_eq {E W} (run_cb : Cb → Op E W unit) now v h l h' :
  drained expires_at now h l h' → Forall (λ i, 0 ≤ handle i)%Z l →
  ∀ fuel x w, length l < fuel → (0 ≤ x)%Z → (x + Z.of_nat (length l) < modulus usize)%Z →
  call_loop run_cb fuel now x (mk v h : t V H Cb NH NA, w) =
    match op_for_each (fire run_cb (vec_iter v)) l w with
    | Val (_, w', log) => Val (Some (x + Z.of_nat (length l)), (mk v h', w'), log)%Z
    | Panic => Panic
    end.
Proof using HV.
  induction 1 as [h Hp|h i Hp Hi|h i h1 l h' Hp Hi Hpop Hd IH]; intros HF fuel x w Hfuel Hx Hxl;
    (destruct fuel as [|fuel]; [simpl in Hfuel; lia|]); cbn [call_loop op_for_each length] in *;
    unfold on_queue, get_one_expired_item, zoom;
    cbv [mbind mret op_bind op_ret op_get]; cbn [fst snd queue]; rewrite Hp.
  - cbn. by rewrite Z.add_0_r.
  - rewrite (proj2 (Z.leb_gt _ _)) by lia. cbn. by rewrite Z.add_0_r.
  - apply Forall_cons in HF as [Hh HF].
    rewrite (proj2 (Z.leb_le _ _)) by lia. rewrite Hpop. cbn.
    rewrite (proj2 (Z.leb_le _ _)) by lia. unfold call, fire.
    cbv [mbind mret op_bind op_ret op_get]. cbn. rewrite vec_get_spec by done.
    destruct (vec_iter v !! Z.to_nat (handle i)) as [[cb|]|]; cbn.
    + destruct (run_cb cb w) as [[[[] w1] l1]|]; [|done]. cbn. rewrite uadd_in by width.
      rewrite IH by (done || lia).
      destruct (op_for_each _ l w1) as [[[[] w2] l2]|]; [|done].
      rewrite app_nil_r. by replace (x + 1 + Z.of_nat (length l))%Z
        with (x + Z.of_nat (S (length l)))%Z by lia.
    + rewrite uadd_in by width. rewrite IH by (done || lia).
      unfold fire. destruct (op_for_each _ l w) as [[[[] w2] l2]|]; [|done].
      by replace (x + 1 + Z.of_nat (length l))%Z with (x + Z.of_nat (S (length l)))%Z by lia.
    + done.
Qed.

(** [call_all_expired] terminates, takes exactly the alarms due out of the
    queue and calls the callbacks of their handles, earliest first. *)
Lemma call_all_expired_eq {E W} (run_cb : Cb → Op E W unit) now s l s' w :
  (Z.of_nat NA < modulus usize - 1)%Z → handles_ok s → due now s l s' →
  call_all_expired run_cb now (s, w) =
    match op_for_each (fire run_cb (slots s)) l w with
    | Val (_, w', log) => Val (Some (Z.of_nat (length l)), (s', w'), log)
    | Panic => Panic
    end.
Proof using HV HL.
  intros HNA Hok [Hd Hc]. pose proof (drained_length _ alarm_key _ _ _ _ Hd) as Hl.
  pose proof (bh_bound (queue s)) as Hb.
  assert (Forall (λ i, 0 ≤ handle i)%Z l) as HF.
  { destruct (drained_spec _ alarm_key _ _ _ _ Hd) as (Hp & _).
    unfold handles_ok, alarms in Hok. rewrite Hp in Hok. by apply Forall_app in Hok as [? _]. }
  destruct s as [v h], s' as [v' h']. cbn in *. subst v'.
  exact (call_loop_eq run_cb now v h l h' Hd HF (S NA) 0 w ltac:(lia) ltac:(lia) ltac:(unfold modulus; lia)).
Qed.

Lemma set_alarm_spec {E} h e s :
  (length (alarms s) < NA ∧ ∃ s', set_alarm h e s = Val (Some tt, s', [] : list E) ∧
     alarms s' ≡ₚ item e h :: alarms s ∧ callbacks s' = callbacks s) ∨
  (length (alarms s) = NA ∧ set_alarm h e s = Val (None, s, [] : list E)).
Proof.
  unfold set_alarm. run_op.
  destruct (bh_push_cases (item e h) (queue s)) as [(Hl & q & -> & Hh)|[Hl ->]].
  - left. split; [done|]. by exists (mk (callbacks s) q).
  - right. by destruct s.
Qed.

(** Handles are handed out in order, each slot empty until its callback is
    registered; there is none left when all are taken. *)
Lemma try_allocate_handle_spec {E} s : NH ≤ 256 →
  (length (slots s) < NH ∧ ∃ s',
     try_allocate_handle s = Val (Some (Z.of_nat (length (slots s))), s', [] : list E) ∧
     slots s' = slots s ++ [None] ∧ alarms s' = alarms s) ∨
  (length (slots s) = NH ∧ try_allocate_handle s = Val (None, s, [] : list E)).
Proof.
  intros HNH. unfold try_allocate_handle. run_op. unfold slots.
  pose proof (vec_bound (callbacks s)) as Hb.
  destruct (decide (length (vec_iter (callbacks s)) = NH)) as [Hf|Hf].
  - right. rewrite vec_push_full by done. by destruct s.
  - left. split; [lia|].
    destruct (vec_push_ok None (callbacks s)) as (v & -> & Hv); [lia|].
    rewrite vec_len_spec, Hv, length_app. cbn [length].
    rewrite usub_in by width. exists (mk v (queue s)). split; [|by split].
    rewrite Z.mod_small by width.
    by replace (Z.of_nat (length (vec_iter (callbacks s)) + 1) - 1)%Z
      with (Z.of_nat (length (vec_iter (callbacks s)))) by lia.
Qed.

Lemma register_callback_spec {E} h cb s : (0 ≤ h)%Z →
  register_callback h cb s =
    if decide (Z.to_nat h < length (slots s))
    then Val (tt, mk (vec_write h (Some cb) (callbacks s)) (queue s), [] : list E)
    else Panic.
Proof.
  intros Hh. unfold register_callback. run_op. rewrite vec_get_spec by done. unfold slots.
  destruct (decide _) as [Hlt|Hge].
  - by destruct (lookup_lt_is_Some_2 _ _ Hlt) as [x ->].
  - by rewrite lookup_ge_None_2 by lia.
Qed.
End Facts.
End AlarmQueue.
