(* ===== verification/Kernel.v ===== *)
(** * The kernel: tasks, wakers, executors, ticks ([executor/], [cpu/], [time/timer_fut.rs])

    The statics of the program and what they point to form one [World]; a
    pointer is an address into it, so that a task header reached through a run
    queue, a timer or a waker is the same header.  Every method is an operation
    on the world, logging what it asks of the interrupt controller.  Mutexes
    of the kernel are critical sections around one closure each: by
    [CriticalSection.Mutex.lock_transparent] the operations are the closures,
    and interleavings at the boundaries of the sections are the subject of
    [Scheduling].

    The bodies of tasks are user code: [fut_poll] is a parameter that may do
    anything to the world.  The two futures of the program, [Timer] and
    [Yielder], are defined here. *)

From S2P Require Import Prelude Heapless WaitQueue Bump Timers.

(** ** The environment: containers, interrupt nodes, task bodies *)

Class Platform := {
  Deque : Type → nat → Type;
  Vec : Type → nat → Type;
  LinearMap : Type → nat → Type;
  BinaryHeap : ∀ A : Type, (A → A → comparison) → Kind → nat → Type;
  platform_deque :: DequeOps Deque;
  platform_vec :: VecOps Vec;
  platform_map :: MapOps LinearMap;
  platform_heap :: HeapOps BinaryHeap;
  (** [SoftwareInterruptNode] of the drivers, and its priority *)
  Node : Type;
  get_prio : Node → Z;
  (** the bodies of the tasks, and the state they share *)
  Fut : Type;
  User : Type;
  (** the layout of a [TaskHeader], and the static memory of the allocator *)
  header_layout : Layout;
  memory_start : Z;
  (** where [HEAP_MEM] is *)
  heap_start : Z
}.

Class PlatformLaws `{Platform} : Prop := {
  platform_deque_laws :: DequeLaws Deque;
  platform_vec_laws :: VecLaws Vec;
  platform_map_laws :: MapLaws LinearMap;
  platform_heap_laws :: HeapLaws BinaryHeap
}.

(** ** Data *)

(** A [&'static BaseExecutor]: the thread executor, or the slot of the
    executor list with a priority. *)
Inductive ExecRef := ThreadRef | InterruptRef (prio : Z).

#[export] Instance exec_ref_eq_dec : EqDecision ExecRef.
Proof. solve_decision. Defined.

(** [TaskRef]: the address of a header. *)
Definition TaskRef : Type := Z.

Definition MAX_TASKS : nat := 32.
Definition N_ALARM_HANDLES : nat := 8.
Definition N_ALARM_ITEMS : nat := 64.
Definition N_EXECUTORS : nat := 4.
Definition MEMORY_SIZE : Z := 1024 * 10.
Definition HEAP_SIZE : Z := 1024 * 1024.

Section Data.
Context `{Platform}.

Record TaskHeader := mk_header {
  fut_ref : Fut;
  executor : ExecRef;
  expires_at : option Z
}.

Inductive Pender := ThreadExecutorPender | InterruptExecutorPender (sw_interrupt : Node).

Record BaseExecutor := mk_executor {
  run_queue : Deque TaskRef MAX_TASKS;
  timer_queue : TimerQueue.t BinaryHeap;
  next_alarm_at : option Z;
  alarm_handle : option Z;
  pender : Pender
}.

(** The only callback the program registers is [BaseExecutor::alarm_callback],
    so a callback is its context: an executor. *)
Record World := mk_world {
  event : bool;
  ticks : Z;
  alarms : AlarmQueue.t Vec BinaryHeap ExecRef N_ALARM_HANDLES N_ALARM_ITEMS;
  thread_executor : BaseExecutor;
  initialised : bool;
  executors : LinearMap BaseExecutor N_EXECUTORS;
  headers : gmap TaskRef TaskHeader;
  allocator : Bump.t;
  user : User
}.

(** What the kernel asks of an interrupt node, and of the rest of the hardware
    and the global allocator when it is initialised. *)
Inductive KEvent :=
| NodeSetRequest (n : Node)
| NodeInit (n : Node)
| NodeEnable (n : Node)
| TimerInit (prio : Z)
| InterruptsEnable
| HeapInit (start size : Z).

Definition set_event (b : bool) (w : World) : World :=
  mk_world b (ticks w) (alarms w) (thread_executor w) (initialised w) (executors w)
    (headers w) (allocator w) (user w).
Definition set_ticks (n : Z) (w : World) : World :=
  mk_world (event w) n (alarms w) (thread_executor w) (initialised w) (executors w)
    (headers w) (allocator w) (user w).
Definition set_alarms a (w : World) : World :=
  mk_world (event w) (ticks w) a (thread_executor w) (initialised w) (executors w)
    (headers w) (allocator w) (user w).
Definition set_thread x (w : World) : World :=
  mk_world (event w) (ticks w) (alarms w) x (initialised w) (executors w)
    (headers w) (allocator w) (user w).
Definition set_initialised b (w : World) : World :=
  mk_world (event w) (ticks w) (alarms w) (thread_executor w) b (executors w)
    (headers w) (allocator w) (user w).
Definition set_executors x (w : World) : World :=
  mk_world (event w) (ticks w) (alarms w) (thread_executor w) (initialised w) x
    (headers w) (allocator w) (user w).
Definition set_headers h (w : World) : World :=
  mk_world (event w) (ticks w) (alarms w) (thread_executor w) (initialised w) (executors w)
    h (allocator w) (user w).
Definition set_allocator a (w : World) : World :=
  mk_world (event w) (ticks w) (alarms w) (thread_executor w) (initialised w) (executors w)
    (headers w) a (user w).
Definition set_user u (w : World) : World :=
  mk_world (event w) (ticks w) (alarms w) (thread_executor w) (initialised w) (executors w)
    (headers w) (allocator w) u.

Definition set_run_queue q (x : BaseExecutor) : BaseExecutor :=
  mk_executor q (timer_queue x) (next_alarm_at x) (alarm_handle x) (pender x).
Definition set_timer_queue q (x : BaseExecutor) : BaseExecutor :=
  mk_executor (run_queue x) q (next_alarm_at x) (alarm_handle x) (pender x).
Definition set_alarm_handle a (x : BaseExecutor) : BaseExecutor :=
  mk_executor (run_queue x) (timer_queue x) (next_alarm_at x) a (pender x).

(** Dereferencing an executor; the slots of the list are never removed. *)
Definition get_executor (r : ExecRef) (w : World) : option BaseExecutor :=
  match r with
  | ThreadRef => Some (thread_executor w)
  | InterruptRef p => lm_get p (executors w)
  end.

Definition put_executor (r : ExecRef) (x : BaseExecutor) (w : World) : World :=
  match r with
  | ThreadRef => set_thread x w
  | InterruptRef p => set_executors (lm_write p x (executors w)) w
  end.
End Data.

Section Kernel.
Context `{HP : Profile} `{P : Platform}.
Abbreviation KOp := (Op KEvent World).

(** An operation on the executor a reference points to; a dangling reference
    is undefined behaviour. *)
Definition on_executor {A} (r : ExecRef) (m : Op KEvent BaseExecutor A) : KOp A := λ w,
  match get_executor r w with
  | Some x => zoom (λ _, x) (put_executor r) m w
  | None => Panic
  end.

Definition on_run_queue {A} (r : ExecRef) (f : Deque TaskRef MAX_TASKS → A * Deque TaskRef MAX_TASKS) :
    KOp A :=
  on_executor r (zoom run_queue set_run_queue (op_pure f)).

(** The header a pointer points to. *)
Definition read_header (p : TaskRef) : KOp TaskHeader :=
  w ← op_get;
  op_lift (unwrap (headers w !! p)).
Definition write_header (p : TaskRef) (h : TaskHeader) : KOp unit :=
  op_modify (λ w, set_headers (<[p := h]> (headers w)) w).

(** ** [Kernel]: the event flag and the tick counter ([cpu0.rs]) *)

Definition signal_event_local : KOp unit := op_modify (set_event true).

Definition event_fetch_and_clear_local : KOp bool :=
  w ← op_get;
  op_modify (set_event false);;
  mret (event w).

(** [TICKS] is 32 bits wide. *)
Definition now : KOp Z := w ← op_get; mret (ticks w).
Definition current_tick : KOp Z := w ← op_get; mret (ticks w).

Definition modify_alarm_queue {A} (f : Op KEvent _ A) : KOp A := zoom alarms set_alarms f.

Definition allocate_alarm : KOp (option Z) := modify_alarm_queue AlarmQueue.try_allocate_handle.
Definition set_alarm_callback (h : Z) (context : ExecRef) : KOp unit :=
  modify_alarm_queue (AlarmQueue.register_callback h context).
Definition kernel_set_alarm (h : Z) (e : Z) : KOp (option unit) :=
  modify_alarm_queue (AlarmQueue.set_alarm h e).

(** ** [Pender] *)
Definition pend (p : Pender) : KOp unit :=
  match p with
  | ThreadExecutorPender => signal_event_local
  | InterruptExecutorPender sw_interrupt => op_emit (NodeSetRequest sw_interrupt)
  end.

Definition pend_executor (r : ExecRef) : KOp unit :=
  w ← op_get;
  x ← op_lift (unwrap (get_executor r w));
  pend (pender x).

(** ** Waking ([base_executor.rs], [waker.rs]) *)

Definition enqueue_and_pend (r : ExecRef) (task : TaskRef) : KOp (option unit) :=
  x ← on_run_queue r (dq_push_back task);
  pend_executor r;;
  mret (result_ok x).

Definition enqueue_no_pend (r : ExecRef) (task : TaskRef) : KOp (option unit) :=
  x ← on_run_queue r (dq_push_back task);
  mret (result_ok x).

(** The functions of [VTABLE]; the result of [enqueue_and_pend] is dropped. *)
Definition vtable_clone (p : TaskRef) : Waker := mk_waker p TASK_VTABLE.
Definition vtable_wake_by_ref (p : TaskRef) : KOp unit :=
  task ← read_header p;
  enqueue_and_pend (executor task) p;;
  mret tt.
Definition vtable_wake (p : TaskRef) : KOp unit := vtable_wake_by_ref p.

Definition task_from_waker (w : Waker) : Outcome TaskRef :=
  if decide (w_vtable w = TASK_VTABLE) then Val (w_data w) else Panic.

(** ** The alarm callback and the timer interrupt *)

Definition alarm_callback (ctx_as_self : ExecRef) : KOp unit := pend_executor ctx_as_self.

(** The callbacks run on the world the queue is part of; they do not touch it. *)
Definition call_all_expired (now : Z) : KOp (option Z) :=
  zoom (λ w, (alarms w, w)) (λ aw _, set_alarms aw.1 aw.2)
    (AlarmQueue.call_all_expired alarm_callback now).

Definition on_timer_interrupt : KOp unit :=
  w ← op_get;
  let now := ticks w in
  op_modify (set_ticks ((now + 1) mod modulus W32));;
  n ← call_all_expired now;
  mret tt.

(** ** [BaseExecutor] *)

Definition new_executor (p : Pender) (alarm : option Z) : BaseExecutor :=
  mk_executor dq_new TimerQueue.new None alarm p.

Definition thread_executor_new (alarm : option Z) : BaseExecutor :=
  new_executor ThreadExecutorPender alarm.
Definition interrupt_executor_new (sw_interrupt : Node) (alarm : option Z) : BaseExecutor :=
  new_executor (InterruptExecutorPender sw_interrupt) alarm.

Definition register_alarm (r : ExecRef) (handle : Z) : KOp unit :=
  on_executor r (op_modify (set_alarm_handle (Some handle))).

Definition register_alarm_callback (r : ExecRef) : KOp unit :=
  w ← op_get;
  x ← op_lift (unwrap (get_executor r w));
  match alarm_handle x with
  | Some h => set_alarm_callback h r
  | None => mret tt
  end.

Definition set_alarm (r : ExecRef) (e : Z) : KOp (option unit) :=
  w ← op_get;
  x ← op_lift (unwrap (get_executor r w));
  handle ← op_lift (unwrap (alarm_handle x));
  kernel_set_alarm handle e.

(** The closure given to [dequeue_expired] pushes onto [ready]. *)
Definition push_ready (i : TimerQueue.Item) : Op KEvent (Vec TaskRef MAX_TASKS) unit :=
  ready ← op_get;
  task ← op_lift (task_from_waker (TimerQueue.waker i));
  let '(x, ready) := vec_push task ready in
  op_put ready;;
  op_lift (unwrap_ok x).

(** The first critical section of [check_timer_queue], after reading the tick
    counter. *)
Definition dequeue_ready (now : Z) (r : ExecRef) : KOp (Vec TaskRef MAX_TASKS) :=
  on_executor r (zoom (λ x, (timer_queue x, vec_new)) (λ y x, set_timer_queue y.1 x)
    (TimerQueue.dequeue_expired now push_ready;; y ← op_get; mret y.2)).
Definition collect_ready (r : ExecRef) : KOp (Vec TaskRef MAX_TASKS) :=
  now ← now;
  dequeue_ready now r.

(** The second one. *)
Definition push_task (r : ExecRef) (task : TaskRef) : KOp unit :=
  x ← on_run_queue r (dq_push_back task);
  op_lift (unwrap_ok x).
Definition enqueue_ready (r : ExecRef) (ready : Vec TaskRef MAX_TASKS) : KOp unit :=
  op_for_each (push_task r) (vec_iter ready).

Definition check_timer_queue (r : ExecRef) : KOp unit :=
  ready ← collect_ready r;
  enqueue_ready r ready.

Definition update_timer_queue (r : ExecRef) (task : TaskRef) : KOp unit :=
  h ← read_header task;
  match expires_at h with
  | Some e =>
      on_executor r (zoom timer_queue set_timer_queue
        (TimerQueue.enqueue (TimerQueue.item e (mk_waker task TASK_VTABLE))));;
      mret tt
  | None => mret tt
  end.

(** [renew_alarm] looks at the timer queue, then sets the alarm. *)
Definition next_timer (r : ExecRef) : KOp (option Z) :=
  w ← op_get;
  x ← op_lift (unwrap (get_executor r w));
  mret (TimerQueue.next_expiration (timer_queue x)).
Definition set_next_alarm (r : ExecRef) (next : option Z) : KOp unit :=
  match next with
  | Some next_tick => set_alarm r next_tick;; mret tt
  | None => mret tt
  end.
Definition renew_alarm (r : ExecRef) : KOp unit :=
  next ← next_timer r;
  set_next_alarm r next.

(** ** Spawning ([task.rs], [BaseExecutor::spawn]) *)

Definition use_alloc (l : Layout) : KOp Z := zoom allocator set_allocator (Bump.alloc_init l).

(** [l] is the layout of the block [allocate_static_future] stores. *)
Definition task_header_new (fut : Fut) (l : Layout) (r : ExecRef) : KOp TaskRef :=
  use_alloc l;;
  p ← use_alloc header_layout;
  write_header p (mk_header fut r None);;
  mret p.

Definition spawn (r : ExecRef) (fut : Fut) (l : Layout) : KOp unit :=
  t ← task_header_new fut l r;
  x ← on_run_queue r (dq_push_front t);
  op_lift (unwrap_ok x).

(** [InterruptExecutor::start], and what [ThreadExecutor::start] does before
    its loop. *)
Definition start_interrupt (r : ExecRef) : KOp unit :=
  register_alarm_callback r;;
  pend_executor r.
Definition start_thread : KOp unit := register_alarm_callback ThreadRef.

(** ** The executor list ([executor_list.rs]) *)

Definition list_thread_executor : KOp ExecRef :=
  w ← op_get;
  (if negb (initialised w) then
     alarm ← allocate_alarm;
     alarm ← op_lift (unwrap alarm);
     register_alarm ThreadRef alarm;;
     op_modify (set_initialised true)
   else mret tt);;
  mret ThreadRef.

Definition list_allocate (node : Node) : KOp (option Z) :=
  if Z.eqb (get_prio node) 0 then op_panic
  else
    alarm ← allocate_alarm;
    match alarm with
    | None => op_panic
    | Some alarm =>
        w ← op_get;
        let '(x, m) := lm_insert (get_prio node)
          (interrupt_executor_new node (Some alarm)) (executors w) in
        op_modify (set_executors m);;
        match x with
        | Ok _ =>
            op_emit (NodeInit node);;
            op_emit (NodeEnable node);;
            mret (Some (get_prio node))
        | Err _ => op_panic
        end
    end.

Definition list_get (handle : Z) : KOp ExecRef :=
  w ← op_get;
  op_lift (unwrap (lm_get handle (executors w)));;
  mret (InterruptRef handle).

Definition list_spawn (handle : Z) (fut : Fut) (l : Layout) : KOp unit :=
  r ← list_get handle;
  spawn r fut l.

Definition list_start_interrupt_executor (handle : Z) : KOp unit :=
  r ← list_get handle;
  start_interrupt r.

(** ** The interface of [Kernel] ([cpu0.rs]) *)

Definition allocate_interrupt_executor (node : Node) : KOp Z :=
  h ← list_allocate node;
  op_lift (unwrap h).
Definition spawn_executor (handle : Z) (fut : Fut) (l : Layout) : KOp unit :=
  list_spawn handle fut l.
Definition kernel_get_executor (handle : Z) : KOp ExecRef := list_get handle.
Definition start_interrupt_executor (handle : Z) : KOp unit := list_start_interrupt_executor handle.
Definition kernel_spawn (fut : Fut) (l : Layout) : KOp unit :=
  r ← list_thread_executor;
  spawn r fut l.

(** What [start_thread_executor] does before the loop of its executor. *)
Definition start_thread_executor : KOp unit :=
  list_thread_executor;;
  start_thread.

Definition init : KOp unit :=
  op_modify (set_alarms AlarmQueue.new);;
  op_emit (TimerInit 6);;
  op_emit InterruptsEnable;;
  op_modify (set_allocator (Bump.new MEMORY_SIZE memory_start));;
  op_emit (HeapInit heap_start HEAP_SIZE).

(** [main] of [main.rs], with the driver that sets up the UART; its endless loop
    does nothing. *)
Definition main (init_uart_io : KOp unit) : KOp unit :=
  init_uart_io;;
  init.

(** The statics before [init]. *)
Definition initial_world (u : User) : World :=
  mk_world true 0 AlarmQueue.new (thread_executor_new None) false lm_new ∅
    (Bump.new 0 memory_start) u.

(** ** The futures of the program ([timer_fut.rs], [yields.rs]) *)

Definition timer_after_ticks (n : Z) : KOp Z :=
  now ← now;
  op_lift (uadd W64 now n).

Definition timer_poll (e : Z) (cx : Waker) : KOp (Poll unit) :=
  now ← now;
  if Z.leb e now then mret (Ready tt)
  else
    p ← op_lift (task_from_waker cx);
    h ← read_header p;
    write_header p (mk_header (fut_ref h) (executor h) (Some e));;
    mret Pending.

(** [Yielder::new], which is all of [Kernel::yields]. *)
Definition yielder_new : bool := false.

(** [yielded] is the state of the future; [cx] is the waker of a task. *)
Definition yielder_poll (yielded : bool) (cx : Waker) : KOp (Poll unit * bool) :=
  if yielded then mret (Ready tt, yielded)
  else
    p ← op_lift (task_from_waker cx);
    vtable_wake_by_ref p;;
    mret (Pending, true).

(** ** Polling

    [fut_poll f cx] polls the body [f] of a task in the context of the waker
    [cx]; it returns what the body has become. *)
Section Poll.
Variable fut_poll : Fut → Waker → KOp (Poll unit * Fut).

(** The block [allocate_static_future] wraps around a body: a task whose body
    finishes panics. *)
Definition static_future_poll (f : Fut) (cx : Waker) : KOp (Poll unit * Fut) :=
  r ← fut_poll f cx;
  match r.1 with
  | Ready _ => op_panic
  | Pending => mret (Pending, r.2)
  end.

(** The body of the loop, between popping the task and [update_timer_queue]. *)
Definition poll_task (task_ref : TaskRef) : KOp unit :=
  h ← read_header task_ref;
  write_header task_ref (mk_header (fut_ref h) (executor h) None);;
  r ← static_future_poll (fut_ref h) (mk_waker task_ref TASK_VTABLE);
  h ← read_header task_ref;
  write_header task_ref (mk_header r.2 (executor h) (expires_at h)).

Definition run_task (r : ExecRef) (task_ref : TaskRef) : KOp unit :=
  poll_task task_ref;;
  update_timer_queue r task_ref.

(** [fuel] bounds the number of tasks run, [None] is exhausted fuel. *)
Fixpoint advance_runnable_tasks (fuel : nat) (r : ExecRef) : KOp (option unit) :=
  match fuel with
  | O => mret None
  | S fuel =>
      t ← on_run_queue r dq_pop_front;
      match t with
      | Some task_ref => run_task r task_ref;; advance_runnable_tasks fuel r
      | None => mret (Some tt)
      end
  end.

Definition exec_once (fuel : nat) (r : ExecRef) : KOp (option unit) :=
  check_timer_queue r;;
  d ← advance_runnable_tasks fuel r;
  match d with
  | Some _ => renew_alarm r;; mret (Some tt)
  | None => mret None
  end.

(** [InterruptExecutor::on_interrupt], and one turn of the loop of
    [ThreadExecutor::start]. *)
Definition on_interrupt (fuel : nat) (r : ExecRef) : KOp (option unit) := exec_once fuel r.

Definition thread_turn (fuel : nat) : KOp (option unit) :=
  b ← event_fetch_and_clear_local;
  if negb b then mret (Some tt) else exec_once fuel ThreadRef.

(** One turn of the loop of [BaseExecutor::start]. *)
Definition base_turn (fuel : nat) (r : ExecRef) : KOp (option unit) :=
  b ← event_fetch_and_clear_local;
  if negb b then mret (Some tt)
  else
    check_timer_queue r;;
    d ← advance_runnable_tasks fuel r;
    match d with
    | Some _ => renew_alarm r;; mret (Some tt)
    | None => mret None
    end.
End Poll.
End Kernel.
