(* ===== verification/Executor.v ===== *)
(** * The executor: what its operations do to the world

    Closed forms of the operations of [Kernel] on the run queues, the timer
    queues and the alarms, then the properties of one run of an executor. *)

From S2P Require Import Prelude Heapless WaitQueue Bump Timers Kernel.
From Stdlib Require Import Sorting.Sorted.

Section Executor.
Context `{HP : Profile} `{PL : PlatformLaws}.
Implicit Types (w : World) (x : BaseExecutor) (r : ExecRef) (t : TaskRef).
Abbreviation KOp := (Op KEvent World).

(** ** Views *)

Definition queued (x : BaseExecutor) : list TaskRef := dq_iter (run_queue x).
Definition timers (x : BaseExecutor) : list TimerQueue.Item := TimerQueue.items (timer_queue x).
Definition slots w : list (option ExecRef) := AlarmQueue.slots (alarms w).
Definition alarms_of w : list AlarmQueue.AlarmItem := AlarmQueue.alarms (alarms w).

Lemma queued_bound x : length (queued x) ≤ MAX_TASKS.
Proof. apply dq_bound. Qed.

(** ** Executors by reference *)

Lemma get_put_executor r x y w : get_executor r w = Some y →
  get_executor r (put_executor r x w) = Some x.
Proof.
  destruct r as [|p]; [done|]. cbn. rewrite !lm_get_spec. intros Hy.
  rewrite lm_write_map by eauto. by rewrite lookup_insert_eq.
Qed.

Lemma get_put_other r r' x y w : get_executor r w = Some y → r ≠ r' →
  get_executor r' (put_executor r x w) = get_executor r' w.
Proof.
  destruct r as [|p], r' as [|p']; try done. cbn. rewrite !lm_get_spec. intros Hy Hne.
  rewrite lm_write_map by eauto. rewrite lookup_insert_ne by congruence. done.
Qed.

Lemma runs_on_executor {A} r (m : Op KEvent BaseExecutor A) w x a x' l :
  get_executor r w = Some x → runs m x a x' l →
  runs (on_executor r m) w a (put_executor r x' w) l.
Proof. unfold runs, on_executor, zoom. by intros -> ->. Qed.

Lemma runs_on_run_queue {A} r f w x (a : A) q :
  get_executor r w = Some x → f (run_queue x) = (a, q) →
  runs (on_run_queue r f) w a (put_executor r (set_run_queue q x) w) [].
Proof.
  intros Hx Hf. eapply runs_on_executor; [done|].
  by apply (runs_zoom run_queue set_run_queue), runs_pure.
Qed.

(** [x] with [t] offered to the back of its run queue. *)
Definition pushed t x : BaseExecutor := set_run_queue (dq_push_back t (run_queue x)).2 x.

Lemma queued_pushed t x :
  queued (pushed t x) = queued x ++ (if decide (length (queued x) < MAX_TASKS) then [t] else []).
Proof.
  unfold queued, pushed. cbn. destruct (dq_push_back_cases t (run_queue x)) as [(Hl & q & -> & Hi)|[Hl ->]].
  - by rewrite decide_True.
  - rewrite decide_False by lia. by rewrite app_nil_r.
Qed.

Lemma push_back_ok t x : length (queued x) < MAX_TASKS →
  (dq_push_back t (run_queue x)).1 = Ok tt.
Proof. intros Hl. by destruct (dq_push_back_ok t (run_queue x) Hl) as (q & -> & _). Qed.

Lemma push_back_full t x : length (queued x) = MAX_TASKS →
  (dq_push_back t (run_queue x)).1 = Err t.
Proof. intros Hl. by rewrite dq_push_back_full. Qed.

Lemma runs_push_back r t w x : get_executor r w = Some x →
  runs (on_run_queue r (dq_push_back t)) w (dq_push_back t (run_queue x)).1
    (put_executor r (pushed t x) w) [].
Proof. intros Hx. apply runs_on_run_queue; [done|]. by destruct (dq_push_back t _). Qed.

Lemma set_run_queue_id x : set_run_queue (run_queue x) x = x.
Proof. by destruct x. Qed.

(** Writing an executor back unchanged is not observable. *)
Lemma get_put_id r r' x w : get_executor r w = Some x →
  get_executor r' (put_executor r x w) = get_executor r' w.
Proof.
  intros Hx. destruct (decide (r = r')) as [<-|Hne].
  - by rewrite (get_put_executor _ _ x).
  - by rewrite (get_put_other _ _ _ x).
Qed.

(** Fields a write to an executor leaves alone. *)
Lemma put_executor_frame r x w :
  event (put_executor r x w) = event w ∧ ticks (put_executor r x w) = ticks w ∧
  alarms (put_executor r x w) = alarms w ∧ headers (put_executor r x w) = headers w ∧
  user (put_executor r x w) = user w ∧ allocator (put_executor r x w) = allocator w.
Proof. by destruct r. Qed.

(** ** Pending an executor *)

(** The executor [x] has been pended: the event flag is set, or its interrupt
    node has been asked for an interrupt. *)
Definition pended (x : BaseExecutor) w (log : list KEvent) : Prop :=
  match pender x with
  | ThreadExecutorPender => event w = true
  | InterruptExecutorPender n => NodeSetRequest n ∈ log
  end.

(** Pending touches nothing but the event flag. *)
Definition after_pend (x : BaseExecutor) w : World :=
  match pender x with ThreadExecutorPender => set_event true w | _ => w end.
Definition pend_log (x : BaseExecutor) : list KEvent :=
  match pender x with
  | ThreadExecutorPender => [] | InterruptExecutorPender n => [NodeSetRequest n] end.

Lemma runs_pend x w : runs (pend (pender x)) w tt (after_pend x w) (pend_log x).
Proof. unfold after_pend, pend_log. by destruct (pender x). Qed.

Lemma runs_pend_executor r x w : get_executor r w = Some x →
  runs (pend_executor r) w tt (after_pend x w) (pend_log x).
Proof.
  intros Hx. unfold pend_executor. eapply runs_bind_nil; [op_prim|].
  eapply runs_bind_nil; [by apply runs_lift; rewrite Hx|apply runs_pend].
Qed.

Lemma after_pend_pended x w : pended x (after_pend x w) (pend_log x).
Proof.
  unfold pended, after_pend, pend_log. destruct (pender x); [done|by apply list_elem_of_singleton].
Qed.

Lemma after_pend_get x r w : get_executor r (after_pend x w) = get_executor r w.
Proof. unfold after_pend. by destruct (pender x), r. Qed.

Lemma after_pend_event x w : event w = true → event (after_pend x w) = true.
Proof. unfold after_pend. by destruct (pender x). Qed.

(** ** Waking a task *)

(** The world after [task] has been enqueued on [r] and [r] pended. *)
Definition woken r t x w : World := after_pend x (put_executor r (pushed t x) w).

Lemma runs_enqueue_and_pend r t w x : get_executor r w = Some x →
  runs (enqueue_and_pend r t) w (result_ok (dq_push_back t (run_queue x)).1)
    (woken r t x w) (pend_log x).
Proof.
  intros Hx. unfold enqueue_and_pend. eapply runs_bind_nil; [by apply runs_push_back|].
  op_map idtac.
  apply (runs_pend_executor r (pushed t x)). by rewrite (get_put_executor _ _ x).
Qed.

(** Waking a live task enqueues it on its executor and pends the executor. *)
Lemma runs_wake_by_ref t h w x : headers w !! t = Some h → get_executor (executor h) w = Some x →
  runs (vtable_wake_by_ref t) w tt (woken (executor h) t x w) (pend_log x).
Proof.
  intros Hh Hx. unfold vtable_wake_by_ref.
  eapply runs_bind_nil; [unfold read_header; eapply runs_bind_nil; [op_prim|]; by apply runs_lift; rewrite Hh|].
  op_map (by apply runs_enqueue_and_pend).
Qed.

Lemma woken_get r t x w : get_executor r w = Some x →
  get_executor r (woken r t x w) = Some (pushed t x).
Proof. intros Hx. unfold woken. by rewrite after_pend_get, (get_put_executor _ _ x). Qed.

Lemma woken_get_other r r' t x w : get_executor r w = Some x → r ≠ r' →
  get_executor r' (woken r t x w) = get_executor r' w.
Proof. intros Hx Hne. unfold woken. by rewrite after_pend_get, (get_put_other _ _ _ x). Qed.

Lemma woken_frame r t x w :
  ticks (woken r t x w) = ticks w ∧ alarms (woken r t x w) = alarms w ∧
  headers (woken r t x w) = headers w ∧ user (woken r t x w) = user w ∧
  allocator (woken r t x w) = allocator w ∧ (event w = true → event (woken r t x w) = true).
Proof. unfold woken, after_pend. by destruct r, (pender x). Qed.

Lemma woken_pended r t x w : pended x (woken r t x w) (pend_log x).
Proof. apply after_pend_pended. Qed.

(** ** The timer interrupt *)

(** Every alarm carries the handle of a registered callback, whose executor
    exists. *)
Definition alarm_target w (i : AlarmQueue.AlarmItem) r : Prop :=
  (0 ≤ AlarmQueue.handle i)%Z ∧ slots w !! Z.to_nat (AlarmQueue.handle i) = Some (Some r) ∧
  is_Some (get_executor r w).
Definition alarms_ok w : Prop := Forall (λ i, ∃ r, alarm_target w i r) (alarms_of w).

(** Two worlds with the same executors, headers and user state. *)
Definition same_tasks w w' : Prop :=
  (∀ r, get_executor r w' = get_executor r w) ∧ headers w' = headers w ∧ user w' = user w ∧
  allocator w' = allocator w.

Lemma same_tasks_refl w : same_tasks w w.
Proof. done. Qed.
Lemma same_tasks_trans w1 w2 w3 : same_tasks w1 w2 → same_tasks w2 w3 → same_tasks w1 w3.
Proof. intros (H1&H2&H3&H4) (G1&G2&G3&G4). split_and!; [|congruence..]. intros r. by rewrite G1, H1. Qed.
Lemma same_tasks_pend x w : same_tasks w (after_pend x w).
Proof. unfold after_pend. split; [intros r; by destruct (pender x), r|by destruct (pender x)]. Qed.

(** The alarms of [l] have pended their executors. *)
Definition all_pended w (l : list AlarmQueue.AlarmItem) w' log : Prop :=
  ∀ i r x, i ∈ l → alarm_target w i r → get_executor r w = Some x → pended x w' log.

Lemma pended_mono x w w' log log' : (event w = true → event w' = true) → log ⊆ log' →
  pended x w log → pended x w' log'.
Proof. unfold pended. destruct (pender x); auto. Qed.

Lemma fire_all w l : ∀ w0, same_tasks w w0 →
  Forall (λ i, ∃ r, alarm_target w i r) l →
  ∃ w' log, runs (op_for_each (AlarmQueue.fire alarm_callback (slots w)) l) w0 tt w' log ∧
    same_tasks w w' ∧ ticks w' = ticks w0 ∧ (event w0 = true → event w' = true) ∧
    all_pended w l w' log.
Proof.
  induction l as [|i l IH]; intros w0 Hs HF.
  { exists w0, []. split_and!; try done. intros i r x Hi. by apply elem_of_nil in Hi. }
  apply Forall_cons in HF as [(r & Hh & Hslot & [x Hx]) HF].
  destruct (IH (after_pend x w0)) as (w' & log & Hr & Hs' & Ht' & He & Hall);
    [by eapply same_tasks_trans, same_tasks_pend|done|].
  exists w', (pend_log x ++ log). split_and!.
  - cbn [op_for_each]. eapply runs_bind; [|exact Hr]. unfold AlarmQueue.fire. rewrite Hslot.
    apply runs_pend_executor. by rewrite (proj1 Hs).
  - done.
  - rewrite Ht'. unfold after_pend. by destruct (pender x).
  - intros Hev. by apply He, after_pend_event.
  - intros i' r' x' [->|Hi']%elem_of_cons Htgt Hx'.
    + destruct Htgt as (_ & Hslot' & _). rewrite Hslot in Hslot'. injection Hslot' as <-.
      rewrite Hx in Hx'. injection Hx' as <-.
      eapply (pended_mono x (after_pend x w0)); [exact He| |apply after_pend_pended].
      intros e Hel. apply elem_of_app. by left.
    + eapply pended_mono; [| |by eapply Hall]; [done|].
      intros e Hel. apply elem_of_app. by right.
Qed.

Lemma same_tasks_set_ticks n w : same_tasks w (set_ticks n w).
Proof. by split_and!. Qed.
Lemma same_tasks_set_alarms a w : same_tasks w (set_alarms a w).
Proof. by split_and!. Qed.

(** One timer interrupt: the tick advances (and wraps), the alarms that were
    due before the tick are taken out, and their executors are pended. *)
Lemma runs_on_timer_interrupt w : alarms_ok w →
  ∃ w' log l, runs on_timer_interrupt w tt w' log ∧ same_tasks w w' ∧
    ticks w' = ((ticks w + 1) mod modulus W32)%Z ∧
    alarms_of w ≡ₚ l ++ alarms_of w' ∧ slots w' = slots w ∧
    Forall (λ i, AlarmQueue.expires_at i ≤ ticks w)%Z l ∧
    Forall (λ i, ticks w < AlarmQueue.expires_at i)%Z (alarms_of w') ∧
    (event w = true → event w' = true) ∧ all_pended w l w' log.
Proof.
  intros Hok. destruct (AlarmQueue.alarms_due_exists (ticks w) (alarms w)) as (l & a & Hdue).
  destruct (AlarmQueue.alarms_due_spec _ _ _ _ Hdue) as (Hp & Hl & Hlate & _ & Hslots).
  set (w1 := set_ticks ((ticks w + 1) mod modulus W32)%Z w).
  assert (Forall (λ i, ∃ r, alarm_target w i r) l) as Htgt.
  { unfold alarms_ok, alarms_of in Hok. rewrite Hp in Hok. by apply Forall_app in Hok as [? _]. }
  destruct (fire_all w l w1) as (w' & log & Hr & Hs' & Ht' & He & Hall);
    [apply same_tasks_set_ticks|done|].
  exists (set_alarms a w'), log, l. split_and!; try done.
  - unfold on_timer_interrupt. eapply runs_bind_nil; [op_prim|]. eapply runs_bind_nil; [op_prim|].
    op_map idtac.
    unfold call_all_expired. apply (runs_zoom _ (λ aw _, set_alarms aw.1 aw.2) _ _ _ (a, w')).
    unfold runs. change (alarms (set_ticks _ w)) with (alarms w).
    rewrite (AlarmQueue.call_all_expired_eq _ _ (alarms w) l a); [|done| |done].
    + change (AlarmQueue.slots (alarms w)) with (slots w). fold w1. by rewrite Hr.
    + eapply Forall_impl; [exact Hok|]. by intros i (r & Hh & _).
Qed.

(** An interrupt at which no alarm is due only counts. *)
Lemma runs_tick_nothing_due w : Forall (λ i, 0 ≤ AlarmQueue.handle i)%Z (alarms_of w) →
  Forall (λ i, ticks w < AlarmQueue.expires_at i)%Z (alarms_of w) →
  runs on_timer_interrupt w tt (set_ticks ((ticks w + 1) mod modulus W32)%Z w) [].
Proof.
  intros Hok Hlate. set (w1 := set_ticks ((ticks w + 1) mod modulus W32)%Z w).
  unfold on_timer_interrupt. eapply runs_bind_nil; [op_prim|]. eapply runs_bind_nil; [op_prim|].
  eapply (runs_bind_nil _ _ _ (Some 0%Z)); [|apply runs_ret].
  change w1 with (set_alarms (alarms w) w1).
  unfold call_all_expired. apply (runs_zoom _ (λ aw _, set_alarms aw.1 aw.2) _ _ _ (alarms w, w1)).
  unfold runs. change (alarms (set_ticks _ w)) with (alarms w).
  rewrite (AlarmQueue.call_all_expired_eq _ _ (alarms w) [] (alarms w)); [done|done|exact Hok|].
  by apply AlarmQueue.no_alarm_due.
Qed.

(** ** Updating one executor *)

(** [w'] is [w] with executor [r] replaced by [x'], as far as can be observed. *)
Record updates r x' w w' : Prop := {
  upd_get : get_executor r w' = Some x';
  upd_other r' : r' ≠ r → get_executor r' w' = get_executor r' w;
  upd_event : event w' = event w;
  upd_ticks : ticks w' = ticks w;
  upd_alarms : alarms w' = alarms w;
  upd_headers : headers w' = headers w;
  upd_user : user w' = user w;
  upd_allocator : allocator w' = allocator w
}.

Lemma updates_refl r x w : get_executor r w = Some x → updates r x w w.
Proof. by constructor. Qed.

Lemma updates_put r x x' w : get_executor r w = Some x → updates r x' w (put_executor r x' w).
Proof.
  intros Hx. destruct (put_executor_frame r x' w) as (?&?&?&?&?&?).
  constructor; try done; [by eapply get_put_executor|].
  intros r' Hr. by eapply get_put_other.
Qed.

Lemma updates_trans r x1 x2 w w1 w2 : updates r x1 w w1 → updates r x2 w1 w2 → updates r x2 w w2.
Proof.
  intros [] []. constructor; [done|intros r' Hr|etrans; eauto..].
  rewrite upd_other1 by done. by apply upd_other0.
Qed.

(** ** [check_timer_queue] *)

Definition item_task (i : TimerQueue.Item) : TaskRef := w_data (TimerQueue.waker i).
Definition task_item (e : Z) t : TimerQueue.Item := TimerQueue.item e (mk_waker t TASK_VTABLE).
(** The wakers in the timer queue are those of tasks. *)
Definition task_items (l : list TimerQueue.Item) : Prop :=
  Forall (λ i, w_vtable (TimerQueue.waker i) = TASK_VTABLE) l.

Lemma for_each_push_ready l : ∀ v : Vec TaskRef MAX_TASKS, task_items l →
  if decide (length (vec_iter v) + length l ≤ MAX_TASKS)
  then ∃ v', runs (op_for_each push_ready l) v tt v' [] ∧ vec_iter v' = vec_iter v ++ (item_task <$> l)
  else op_for_each push_ready l v = Panic.
Proof.
  induction l as [|i l IH]; intros v Hl; cbn [length op_for_each].
  { rewrite decide_True by (pose proof (vec_bound v); lia).
    exists v. split; [done|]. by rewrite app_nil_r. }
  apply Forall_cons in Hl as [Hi Hl].
  assert (task_from_waker (TimerQueue.waker i) = Val (item_task i)) as Ht.
  { unfold task_from_waker. by rewrite decide_True. }
  destruct (decide (length (vec_iter v) = MAX_TASKS)) as [Hf|Hf].
  { rewrite decide_False by lia. unfold push_ready. run_op.
    by rewrite Ht, vec_push_full. }
  destruct (vec_push_ok (item_task i) v) as (v1 & Hv & Hvi); [pose proof (vec_bound v); lia|].
  specialize (IH v1 Hl). rewrite Hvi, length_app in IH. cbn [length] in IH.
  assert (runs (push_ready i) v tt v1 []) as Hr.
  { unfold push_ready. eapply runs_bind_nil; [op_prim|].
    eapply runs_bind_nil; [by apply runs_lift|]. rewrite Hv.
    eapply runs_bind_nil; [op_prim|]. by apply runs_lift. }
  destruct (decide (length (vec_iter v) + S (length l) ≤ MAX_TASKS)) as [Hle|Hgt].
  - rewrite decide_True in IH by lia. destruct IH as (v' & Hr' & Hv').
    exists v'. split; [by eapply runs_bind_nil|]. by rewrite Hv', <-app_assoc.
  - rewrite decide_False in IH by lia. cbv [mbind op_bind]. by rewrite Hr, IH.
Qed.

(** The timers due are taken out of the queue and their tasks listed, earliest
    first; more than [MAX_TASKS] of them is a panic. *)
Lemma collect_ready_spec r w x l tq : get_executor r w = Some x →
  task_items (timers x) → TimerQueue.due (ticks w) (timer_queue x) l tq →
  if decide (length l ≤ MAX_TASKS)
  then ∃ v, runs (collect_ready r) w v (put_executor r (set_timer_queue tq x) w) [] ∧
    vec_iter v = item_task <$> l
  else collect_ready r w = Panic.
Proof.
  intros Hx Hitems Hdue.
  assert (task_items l) as Hl.
  { destruct (TimerQueue.due_spec _ _ _ _ Hdue) as (Hp & _). unfold task_items, timers in *.
    rewrite Hp in Hitems. by apply Forall_app in Hitems as [? _]. }
  pose proof (for_each_push_ready l vec_new Hl) as Hpush. rewrite vec_new_iter in Hpush.
  pose proof (TimerQueue.dequeue_expired_eq (ticks w) push_ready (timer_queue x) l tq vec_new Hdue)
    as Hdq.
  change (length [] + length l) with (length l) in Hpush. case_decide.
  - destruct Hpush as (v & Hr & Hv). rewrite Hr in Hdq. exists v. split; [|done].
    unfold collect_ready, dequeue_ready. eapply runs_bind_nil; [unfold now; by op_steps|].
    eapply runs_on_executor; [done|].
    apply (runs_zoom (λ x, (timer_queue x, vec_new)) (λ y x, set_timer_queue y.1 x) _ x v (tq, v)).
    eapply runs_bind_nil; [exact Hdq|]. by op_steps.
  - rewrite Hpush in Hdq. unfold collect_ready, dequeue_ready, on_executor, zoom, now. run_op.
    rewrite Hx. cbv beta iota. by rewrite Hdq.
Qed.

(** The tasks of [ts] are appended to the run queue, or the executor panics. *)
Lemma enqueue_all r ts : ∀ w x, get_executor r w = Some x →
  if decide (length (queued x) + length ts ≤ MAX_TASKS)
  then ∃ w' x', runs (op_for_each (push_task r) ts) w tt w' [] ∧ updates r x' w w' ∧
    queued x' = queued x ++ ts ∧ timer_queue x' = timer_queue x ∧ pender x' = pender x ∧
    alarm_handle x' = alarm_handle x
  else op_for_each (push_task r) ts w = Panic.
Proof.
  induction ts as [|t ts IH]; intros w x Hx; cbn [length op_for_each].
  { rewrite decide_True by (pose proof (queued_bound x); lia).
    exists w, x. rewrite app_nil_r. by split_and!; [|apply updates_refl|..]. }
  destruct (decide (length (queued x) = MAX_TASKS)) as [Hf|Hf].
  { rewrite decide_False by lia. unfold push_task. cbv [mbind op_bind].
    by rewrite (runs_push_back r t w x Hx), (push_back_full t x) by done. }
  pose proof (queued_bound x) as Hb.
  assert (runs (push_task r t) w tt (put_executor r (pushed t x) w) []) as Hr.
  { unfold push_task. eapply runs_bind_nil; [by apply runs_push_back|].
    apply runs_lift. by rewrite push_back_ok by lia. }
  pose proof (queued_pushed t x) as Hq. rewrite decide_True in Hq by lia.
  specialize (IH (put_executor r (pushed t x) w) (pushed t x)
    (get_put_executor r (pushed t x) x w Hx)).
  rewrite Hq, length_app in IH. cbn [length] in IH.
  destruct (decide (length (queued x) + S (length ts) ≤ MAX_TASKS)).
  - rewrite decide_True in IH by lia. destruct IH as (w' & x' & Hr' & Hu & Hq' & Htq & Hp & Ha).
    exists w', x'. split_and!; try done; [by eapply runs_bind_nil| |by rewrite Hq', <-app_assoc].
    eapply updates_trans; [by eapply updates_put|done].
  - rewrite decide_False in IH by lia. cbv [mbind op_bind]. by rewrite Hr, IH.
Qed.

(** [check_timer_queue]: the tasks of exactly the due timers join the run
    queue; the executor panics if there are more than [MAX_TASKS] of them or
    the run queue has no room for them. *)
Lemma check_timer_queue_spec r w x l tq : get_executor r w = Some x →
  task_items (timers x) → TimerQueue.due (ticks w) (timer_queue x) l tq →
  if decide (length (queued x) + length l ≤ MAX_TASKS)
  then ∃ w' x', runs (check_timer_queue r) w tt w' [] ∧ updates r x' w w' ∧
    queued x' = queued x ++ (item_task <$> l) ∧ timer_queue x' = tq ∧ pender x' = pender x ∧
    alarm_handle x' = alarm_handle x
  else check_timer_queue r w = Panic.
Proof.
  intros Hx Hitems Hdue. pose proof (collect_ready_spec r w x l tq Hx Hitems Hdue) as Hc.
  destruct (decide (length l ≤ MAX_TASKS)) as [Hl|Hl].
  - destruct Hc as (v & Hr & Hv).
    pose proof (enqueue_all r (vec_iter v) _ _ (get_put_executor r (set_timer_queue tq x) x w Hx)) as He.
    rewrite Hv, length_fmap in He. change (queued (set_timer_queue tq x)) with (queued x) in He.
    case_decide.
    + destruct He as (w' & x' & Hr' & Hu & Hq & Htq & Hp & Ha). exists w', x'.
      split_and!; try done; [|eapply updates_trans; [by eapply updates_put|done]].
      unfold check_timer_queue, enqueue_ready. eapply runs_bind_nil; [done|]. by rewrite Hv.
    + unfold check_timer_queue, enqueue_ready. cbv [mbind op_bind].
      rewrite Hr, Hv. by rewrite He.
  - rewrite decide_False by (pose proof (queued_bound x); lia).
    unfold check_timer_queue. cbv [mbind op_bind]. by rewrite Hc.
Qed.

(** ** [renew_alarm] *)

(** The alarm of an executor is set for a given tick, if there is one, unless
    the alarm queue is full, in which case nothing happens. *)
Definition renewed (n : option Z) w x w' : Prop :=
  same_tasks w w' ∧ event w' = event w ∧ ticks w' = ticks w ∧ slots w' = slots w ∧
  match n, alarm_handle x with
  | Some e, Some h =>
      if decide (length (alarms_of w) < N_ALARM_ITEMS)
      then alarms_of w' ≡ₚ AlarmQueue.item e h :: alarms_of w
      else alarms_of w' = alarms_of w
  | _, _ => alarms_of w' = alarms_of w
  end.

Lemma runs_next_timer r w x : get_executor r w = Some x →
  runs (next_timer r) w (TimerQueue.next_expiration (timer_queue x)) w [].
Proof.
  intros Hx. unfold next_timer. eapply runs_bind_nil; [op_prim|].
  eapply runs_bind_nil; [by apply runs_lift; rewrite Hx|]. apply runs_ret.
Qed.

Lemma set_next_alarm_spec n r w x : get_executor r w = Some x → is_Some (alarm_handle x) →
  ∃ w', runs (set_next_alarm r n) w tt w' [] ∧ renewed n w x w'.
Proof.
  intros Hx [h Hh]. unfold renewed. rewrite Hh. destruct n as [e|].
  - assert (∀ a o, AlarmQueue.set_alarm h e (alarms w) = Val (o, a, [] : list KEvent) →
      runs (set_next_alarm r (Some e)) w tt (set_alarms a w) []) as Hrun.
    { intros a o Ha. eapply runs_bind_nil; [|apply runs_ret]. unfold set_alarm.
      eapply runs_bind_nil; [op_prim|]. eapply runs_bind_nil; [by apply runs_lift; rewrite Hx|].
      eapply runs_bind_nil; [by apply runs_lift; rewrite Hh|].
      by apply (runs_zoom alarms set_alarms). }
    destruct (AlarmQueue.set_alarm_spec (E := KEvent) h e (alarms w)) as [(Hl & a & Ha & Hp & Hc)|[Hl Ha]].
    + exists (set_alarms a w). split; [by eapply Hrun|].
      split_and!; try done; [unfold slots, AlarmQueue.slots; cbn; by rewrite Hc|].
      by rewrite decide_True.
    + exists (set_alarms (alarms w) w). split; [by eapply Hrun|].
      split_and!; try done. rewrite decide_False; [done|].
      unfold alarms_of. unfold N_ALARM_ITEMS in *. lia.
  - exists w. split; [apply runs_ret|by split_and!].
Qed.

Lemma renew_alarm_spec r w x : get_executor r w = Some x → is_Some (alarm_handle x) →
  ∃ w', runs (renew_alarm r) w tt w' [] ∧
    renewed (TimerQueue.next_expiration (timer_queue x)) w x w'.
Proof.
  intros Hx Hh. destruct (set_next_alarm_spec (TimerQueue.next_expiration (timer_queue x)) r w x Hx Hh)
    as (w' & Hr & Hn). exists w'. split; [|done].
  eapply runs_bind_nil; [by apply runs_next_timer|done].
Qed.

(** ** Running tasks *)

(** Headers stay where they are and keep their executor. *)
Definition headers_persist w w' : Prop :=
  ∀ t h, headers w !! t = Some h → ∃ h', headers w' !! t = Some h' ∧ executor h' = executor h.

Lemma headers_persist_refl w : headers_persist w w.
Proof. intros t h Hh. eauto. Qed.
Lemma headers_persist_eq w w' : headers w' = headers w → headers_persist w w'.
Proof. intros Heq t h Hh. rewrite Heq. eauto. Qed.
Lemma headers_persist_trans w1 w2 w3 :
  headers_persist w1 w2 → headers_persist w2 w3 → headers_persist w1 w3.
Proof.
  intros H12 H23 t h Hh. destruct (H12 t h Hh) as (h2 & Hh2 & He2).
  destruct (H23 t h2 Hh2) as (h3 & Hh3 & He3). exists h3. by rewrite He3.
Qed.
Lemma headers_persist_insert w t h h0 : headers w !! t = Some h0 → executor h = executor h0 →
  headers_persist w (set_headers (<[t := h]> (headers w)) w).
Proof.
  intros H0 He t' h' Hh'. cbn. destruct (decide (t = t')) as [<-|Hne].
  - rewrite lookup_insert_eq. exists h. rewrite H0 in Hh'. by injection Hh' as <-.
  - rewrite lookup_insert_ne by done. eauto.
Qed.

Definition live w t : Prop := is_Some (headers w !! t).

Lemma live_persist w w' t : headers_persist w w' → live w t → live w' t.
Proof. intros Hp [h Hh]. destruct (Hp t h Hh) as (h' & Hh' & _). by exists h'. Qed.

Lemma runs_read_header t h w : headers w !! t = Some h → runs (read_header t) w h w [].
Proof. intros Hh. unfold read_header. eapply runs_bind_nil; [op_prim|]. by apply runs_lift; rewrite Hh. Qed.
Lemma runs_write_header t h w :
  runs (write_header t h) w tt (set_headers (<[t := h]> (headers w)) w) [].
Proof. done. Qed.

(** [update_timer_queue] puts the timer a task has set into the queue, if there
    is room for it; if not, the timer is dropped and nobody is told. *)
Definition after_update (t : TaskRef) (e : option Z) (l l' : list TimerQueue.Item) : Prop :=
  match e with
  | Some e =>
      if decide (length l < TimerQueue.N_TIMERS) then l' ≡ₚ task_item e t :: l else l' = l
  | None => l' = l
  end.

Lemma update_timer_queue_spec r t w x h : get_executor r w = Some x → headers w !! t = Some h →
  ∃ w' x', runs (update_timer_queue r t) w tt w' [] ∧ updates r x' w w' ∧
    run_queue x' = run_queue x ∧ pender x' = pender x ∧ alarm_handle x' = alarm_handle x ∧
    after_update t (expires_at h) (timers x) (timers x').
Proof.
  intros Hx Hh. unfold after_update. destruct (expires_at h) as [e|] eqn:He.
  - destruct (TimerQueue.enqueue_spec (E := KEvent) (task_item e t) (timer_queue x))
      as [(Hl & q & Hq & Hi)|[Hl Hq]].
    + exists (put_executor r (set_timer_queue q x) w), (set_timer_queue q x).
      split_and!; try done; [|by eapply updates_put|by rewrite decide_True].
      unfold update_timer_queue. eapply runs_bind_nil; [by apply runs_read_header|]. rewrite He.
      eapply runs_bind_nil; [|apply runs_ret]. eapply runs_on_executor; [done|].
      by apply (runs_zoom timer_queue set_timer_queue).
    + exists (put_executor r (set_timer_queue (timer_queue x) x) w), (set_timer_queue (timer_queue x) x).
      split_and!; try done; [|by eapply updates_put|by rewrite decide_False by (unfold timers; lia)].
      unfold update_timer_queue. eapply runs_bind_nil; [by apply runs_read_header|]. rewrite He.
      eapply runs_bind_nil; [|apply runs_ret]. eapply runs_on_executor; [done|].
      by apply (runs_zoom timer_queue set_timer_queue).
  - exists w, x. split_and!; try done.
    unfold update_timer_queue. eapply runs_bind_nil; [by apply runs_read_header|]. rewrite He.
    apply runs_ret.
Qed.

(** The timers that a list of polls has set, the last first; each poll is the
    task and the deadline it has left in its header. *)
Definition timers_set (polls : list (TaskRef * option Z)) : list TimerQueue.Item :=
  omap (λ te, e ← te.2; Some (task_item e te.1)) (reverse polls).

Lemma after_update_set t e l l' polls l'' : after_update t e l l' →
  length l + S (length polls) ≤ TimerQueue.N_TIMERS → l'' ≡ₚ timers_set polls ++ l' →
  l'' ≡ₚ timers_set ((t, e) :: polls) ++ l.
Proof.
  intros Hup Hlen ->. unfold timers_set. rewrite reverse_cons, omap_app, <-app_assoc. f_equiv.
  unfold after_update in Hup. destruct e as [e|]; cbn; [|by rewrite Hup].
  by rewrite decide_True in Hup by lia.
Qed.

Lemma after_update_length t e l l' : after_update t e l l' → length l' ≤ S (length l).
Proof.
  unfold after_update. destruct e; [case_decide|]; [intros ->; done|intros ->; lia..].
Qed.

Section Poll.
Variable fut_poll : Fut → Waker → KOp (Poll unit * Fut).

(** Bodies that neither finish nor panic, and whose polls leave the executor
    [r] alone (they wake none of its tasks); they may do anything else. *)
Definition quiet r : Prop :=
  ∀ f t w x, get_executor r w = Some x → live w t →
    ∃ f' w' l, runs (fut_poll f (mk_waker t TASK_VTABLE)) w (Pending, f') w' l ∧
      get_executor r w' = Some x ∧ headers_persist w w'.

Lemma poll_task_quiet r t w x : quiet r → get_executor r w = Some x → live w t →
  ∃ w' l, runs (poll_task fut_poll t) w tt w' l ∧ get_executor r w' = Some x ∧ headers_persist w w'.
Proof.
  intros Hquiet Hx [h Hh]. set (h1 := mk_header (fut_ref h) (executor h) None).
  set (w1 := set_headers (<[t := h1]> (headers w)) w).
  assert (get_executor r w1 = Some x) as Hx1 by (by destruct r).
  assert (headers w1 !! t = Some h1) as Hh1 by (cbn; by rewrite lookup_insert_eq).
  destruct (Hquiet (fut_ref h) t w1 x Hx1) as (f' & w2 & l & Hr & Hx2 & Hp); [by exists h1|].
  destruct (Hp t h1 Hh1) as (h2 & Hh2 & He2).
  exists (set_headers (<[t := mk_header f' (executor h2) (expires_at h2)]> (headers w2)) w2), l.
  split_and!.
  - unfold poll_task. eapply runs_bind_nil; [by apply runs_read_header|].
    eapply runs_bind_nil; [apply runs_write_header|].
    eapply runs_log; [eapply (runs_bind _ _ _ (Pending, f'))|apply app_nil_r].
    + unfold static_future_poll. op_map (exact Hr).
    + eapply runs_bind_nil; [by apply runs_read_header|apply runs_write_header].
  - by destruct r.
  - eapply headers_persist_trans; [by eapply (headers_persist_insert w t h1 h)|].
    eapply headers_persist_trans; [exact Hp|].
    by eapply headers_persist_insert.
Qed.

(** One task: its body is polled once, then its timer is queued. *)
Lemma run_task_quiet r t w x : quiet r → get_executor r w = Some x → live w t →
  ∃ w1 w' x' l h, runs (poll_task fut_poll t) w tt w1 l ∧ headers w1 !! t = Some h ∧
    runs (update_timer_queue r t) w1 tt w' [] ∧ get_executor r w' = Some x' ∧
    run_queue x' = run_queue x ∧ pender x' = pender x ∧ alarm_handle x' = alarm_handle x ∧
    headers_persist w w' ∧ after_update t (expires_at h) (timers x) (timers x').
Proof.
  intros Hq Hx Ht. destruct (poll_task_quiet r t w x Hq Hx Ht) as (w1 & l & Hr & Hx1 & Hp).
  destruct (live_persist _ _ _ Hp Ht) as [h Hh].
  destruct (update_timer_queue_spec r t w1 x h Hx1 Hh) as (w2 & x2 & Hr2 & Hu & Hrq & Hpd & Hah & Hup).
  destruct Hu as [Hg _ _ _ _ Hhd _ _].
  exists w1, w2, x2, l, h. split_and!; try done.
  eapply headers_persist_trans; [exact Hp|by apply headers_persist_eq].
Qed.

(** [ran r ts w w' log]: the executor [r] has popped and run the tasks [ts],
    one after the other. *)
Inductive ran r : list TaskRef → World → World → list KEvent → Prop :=
| ran_nil w : ran r [] w w []
| ran_cons t ts w x q w1 l1 w2 l2 :
    get_executor r w = Some x → dq_pop_front (run_queue x) = (Some t, q) →
    runs (run_task fut_poll r t) (put_executor r (set_run_queue q x) w) tt w1 l1 →
    ran r ts w1 w2 l2 → ran r (t :: ts) w w2 (l1 ++ l2).

(** The loop runs tasks until the queue is empty. *)
Lemma advance_ran r ts w w' log : ran r ts w w' log → ∀ fuel x,
  length ts < fuel → get_executor r w' = Some x → queued x = [] →
  runs (advance_runnable_tasks fut_poll fuel r) w (Some tt) (put_executor r x w') log.
Proof.
  induction 1 as [w|t ts w x q w1 l1 w2 l2 Hx Hpop Hrun Hran IH]; intros fuel y Hfuel Hy Hq;
    (destruct fuel as [|fuel]; [simpl in Hfuel; lia|]); cbn [advance_runnable_tasks].
  - eapply (runs_bind_nil _ _ _ None); [|apply runs_ret]. cbv beta.
    rewrite <-(set_run_queue_id y). apply runs_on_run_queue; [done|].
    by apply dq_pop_front_nil.
  - eapply runs_bind_nil; [by apply runs_on_run_queue|]. cbv beta iota.
    eapply runs_bind; [exact Hrun|]. apply IH; [simpl in Hfuel; lia|done..].
Qed.

(** [polled r polls w w' log]: as [ran], with the deadline that each task has left
    in its header when its poll is over. *)
Inductive polled r : list (TaskRef * option Z) → World → World → list KEvent → Prop :=
| polled_nil w : polled r [] w w []
| polled_cons t h polls w x q w1 l1 w2 w3 l2 :
    get_executor r w = Some x → dq_pop_front (run_queue x) = (Some t, q) →
    runs (poll_task fut_poll t) (put_executor r (set_run_queue q x) w) tt w1 l1 →
    headers w1 !! t = Some h → runs (update_timer_queue r t) w1 tt w2 [] →
    polled r polls w2 w3 l2 → polled r ((t, expires_at h) :: polls) w w3 (l1 ++ l2).

Lemma polled_ran r polls w w' log : polled r polls w w' log → ran r polls.*1 w w' log.
Proof.
  induction 1 as [w|t h polls w x q w1 l1 w2 w3 l2 Hx Hpop Hp Hh Hup Hpolls IH]; [constructor|].
  eapply ran_cons; [done..| |exact IH]. unfold run_task.
  eapply runs_log; [by eapply runs_bind|apply app_nil_r].
Qed.

Lemma polled_quiet r ts : ∀ w x, quiet r → get_executor r w = Some x → queued x = ts →
  Forall (live w) ts → length (timers x) + length ts ≤ TimerQueue.N_TIMERS →
  ∃ polls w' x' log, polls.*1 = ts ∧ polled r polls w w' log ∧ get_executor r w' = Some x' ∧ queued x' = [] ∧
    pender x' = pender x ∧ alarm_handle x' = alarm_handle x ∧ headers_persist w w' ∧
    timers x' ≡ₚ timers_set polls ++ timers x.
Proof.
  induction ts as [|t ts IH]; intros w x Hq Hx Hts Hlive Hlen.
  { exists [], w, x, []. split_and!; try done; [constructor|apply headers_persist_refl]. }
  apply Forall_cons in Hlive as [Ht Hlive]. cbn [length] in Hlen.
  destruct (dq_pop_front_cons (run_queue x) t ts Hts) as (q & Hpop & Hqi).
  set (w0 := put_executor r (set_run_queue q x) w).
  assert (headers w0 = headers w) as Hh0 by apply put_executor_frame.
  assert (headers_persist w w0) as Hp0 by by apply headers_persist_eq.
  destruct (run_task_quiet r t w0 (set_run_queue q x) Hq)
    as (w1 & w2 & x1 & l1 & h & Hr & Hh & Hr2 & Hx1 & Hrq & Hpd & Hah & Hp & Hup).
  { by eapply get_put_executor. }
  { by apply (live_persist w). }
  change (timers (set_run_queue q x)) with (timers x) in Hup.
  pose proof (after_update_length _ _ _ _ Hup) as Hl1.
  destruct (IH w2 x1 Hq Hx1) as (polls & w3 & x2 & l2 & Hfst & Hpolls & Hx2 & Hq2 & Hpd2 & Hah2 & Hp2 & Hadd).
  { unfold queued. by rewrite Hrq. }
  { eapply Forall_impl; [exact Hlive|]. intros t'. apply live_persist.
    by eapply headers_persist_trans. }
  { lia. }
  change (pender x1 = pender x) in Hpd. change (alarm_handle x1 = alarm_handle x) in Hah.
  exists ((t, expires_at h) :: polls), w3, x2, (l1 ++ l2).
  split_and!; try congruence; [cbn; congruence|by eapply polled_cons| |].
  - do 2 (eapply headers_persist_trans; [done|]). done.
  - eapply after_update_set; [done| |done]. rewrite <-Hfst, length_fmap in Hlen. lia.
Qed.
(** ** One run of an executor *)

(** The timers due have been moved to the run queue, and it has run empty. *)
Lemma exec_once_runs r w x l tq : quiet r → get_executor r w = Some x → task_items (timers x) →
  TimerQueue.due (ticks w) (timer_queue x) l tq → is_Some (alarm_handle x) →
  let ts := queued x ++ (item_task <$> l) in
  Forall (live w) ts → length ts ≤ MAX_TASKS →
  length (TimerQueue.items tq) + length ts ≤ TimerQueue.N_TIMERS →
  ∃ polls w1 w2 w' x' log,
    (∀ fuel, length ts < fuel → runs (exec_once fut_poll fuel r) w (Some tt) w' log) ∧
    runs (check_timer_queue r) w tt w1 [] ∧ polls.*1 = ts ∧ polled r polls w1 w2 log ∧ get_executor r w2 = Some x' ∧
    renewed (TimerQueue.next_expiration (timer_queue x')) (put_executor r x' w2) x' w' ∧ queued x' = [] ∧
    alarm_handle x' = alarm_handle x ∧ headers_persist w w' ∧
    timers x' ≡ₚ timers_set polls ++ TimerQueue.items tq.
Proof.
  intros Hq Hx Hitems Hdue [h Hh] ts Hlive Hlen Htlen.
  pose proof (check_timer_queue_spec r w x l tq Hx Hitems Hdue) as Hc.
  unfold ts in Hlen. rewrite length_app, length_fmap in Hlen. rewrite decide_True in Hc by done.
  destruct Hc as (w1 & x1 & Hr1 & Hu1 & Hq1 & Htq1 & Hp1 & Ha1).
  assert (headers_persist w w1) as Hhp1 by (apply headers_persist_eq, Hu1).
  destruct (polled_quiet r ts w1 x1 Hq (upd_get _ _ _ _ Hu1) Hq1)
    as (polls & w2 & x2 & log & Hfst & Hpolls & Hx2 & Hq2 & Hp2 & Ha2 & Hhp2 & Hadd).
  { eapply Forall_impl; [exact Hlive|]. intros t. by apply live_persist. }
  { unfold timers. by rewrite Htq1. }
  assert (get_executor r (put_executor r x2 w2) = Some x2) as Hx3 by by eapply get_put_executor.
  destruct (renew_alarm_spec r (put_executor r x2 w2) x2 Hx3) as (w3 & Hr3 & Hren).
  { rewrite Ha2, Ha1, Hh. done. }
  exists polls, w1, w2, w3, x2, log. split_and!; try done; [|congruence| |].
  - intros fuel Hfuel. unfold exec_once. eapply runs_bind_nil; [exact Hr1|].
    eapply runs_log; [eapply runs_bind; [eapply advance_ran; [by apply polled_ran| |done..]; by rewrite Hfst|]|apply app_nil_r].
    cbv beta iota. eapply runs_bind_nil; [exact Hr3|apply runs_ret].
  - eapply headers_persist_trans; [exact Hhp1|]. eapply headers_persist_trans; [exact Hhp2|].
    apply headers_persist_eq. destruct Hren as [(_ & -> & _) _]. apply put_executor_frame.
  - unfold timers in Hadd. by rewrite Htq1 in Hadd.
Qed.
End Poll.
End Executor.
