(* ===== verification/ExecutorProps.v ===== *)
(** * Properties of the executor

    One run of an executor, waking, spawning and timers, each with a concrete
    instance on a small platform (bounded lists, interrupt nodes that are
    their priority). *)

From S2P Require Import Prelude Heapless WaitQueue Bump Timers Kernel Executor.
From Stdlib Require Import Sorting.Sorted.

Section Properties.
Context `{HP : Profile} `{PL : PlatformLaws}.
Implicit Types (w : World) (x : BaseExecutor) (r : ExecRef) (t : TaskRef).
Abbreviation KOp := (Op KEvent World).

(** ** Waking *)

(** Waking a live task puts it at the back of the run queue of its own
    executor and pends that executor; nothing else changes.  When the run
    queue is full the wake-up is dropped without a trace, although the
    executor is pended. *)
Theorem wake_enqueues_and_pends t h w x :
  headers w !! t = Some h → get_executor (executor h) w = Some x →
  ∃ w' x' log, runs (vtable_wake_by_ref t) w tt w' log ∧
    get_executor (executor h) w' = Some x' ∧ pended x w' log ∧
    queued x' = queued x ++ (if decide (length (queued x) < MAX_TASKS) then [t] else []) ∧
    timer_queue x' = timer_queue x ∧
    (∀ r, r ≠ executor h → get_executor r w' = get_executor r w) ∧
    headers w' = headers w ∧ alarms w' = alarms w ∧ ticks w' = ticks w ∧
    (event w = true → event w' = true).
Proof.
  intros Hh Hx. destruct (woken_frame (executor h) t x w) as (Ht & Ha & Hhd & _ & _ & He).
  exists (woken (executor h) t x w), (pushed t x), (pend_log x). split_and!; try done.
  - by apply runs_wake_by_ref.
  - by apply woken_get.
  - apply woken_pended.
  - apply queued_pushed.
  - intros r Hr. by apply woken_get_other.
Qed.

(** ** Timers *)

(** [check_timer_queue] makes exactly the expired timers' tasks runnable,
    earliest first and behind the tasks already queued, and keeps exactly the
    timers still to come; it panics exactly when the run queue has no room. *)
Theorem check_timer_queue_exact r w x : get_executor r w = Some x → task_items (timers x) →
  ∃ l, StronglySorted (λ i j, TimerQueue.expires_at i ≤ TimerQueue.expires_at j)%Z l ∧
    (∀ i, i ∈ l ↔ i ∈ timers x ∧ TimerQueue.expires_at i ≤ ticks w)%Z ∧
    if decide (length (queued x) + length l ≤ MAX_TASKS)
    then ∃ w' x', runs (check_timer_queue r) w tt w' [] ∧ updates r x' w w' ∧
      queued x' = queued x ++ (item_task <$> l) ∧ timers x ≡ₚ l ++ timers x' ∧
      Forall (λ i, ticks w < TimerQueue.expires_at i)%Z (timers x')
    else check_timer_queue r w = Panic.
Proof.
  intros Hx Hitems. destruct (TimerQueue.due_exists (ticks w) (timer_queue x)) as (l & tq & Hdue).
  destruct (TimerQueue.due_spec _ _ _ _ Hdue) as (Hp & Hl & Hlate & Hso).
  exists l. split; [done|]. split.
  - intros i. rewrite Forall_forall in Hl, Hlate. unfold timers. split.
    + intros Hi. split; [rewrite Hp; apply elem_of_app; by left|by apply Hl].
    + rewrite Hp, elem_of_app. intros [[?|Hi] He]; [done|]. specialize (Hlate i Hi). lia.
  - pose proof (check_timer_queue_spec r w x l tq Hx Hitems Hdue) as Hc. case_decide; [|done].
    destruct Hc as (w' & x' & Hr & Hu & Hq & Htq & _). exists w', x'.
    unfold timers. rewrite Htq. by split_and!.
Qed.

(** C39: each poll that leaves a timer pending adds an entry to the timer queue,
    although the task may have one there already; and when the queue is full
    the entry is dropped silently, so that the task is never woken for it. *)
Theorem timer_duplicates_and_drops r t w x h e :
  get_executor r w = Some x → headers w !! t = Some h → expires_at h = Some e →
  ∃ w' x', runs (update_timer_queue r t) w tt w' [] ∧ updates r x' w w' ∧
    (length (timers x) < TimerQueue.N_TIMERS → timers x' ≡ₚ task_item e t :: timers x) ∧
    (length (timers x) = TimerQueue.N_TIMERS → timers x' = timers x).
Proof.
  intros Hx Hh He. destruct (update_timer_queue_spec r t w x h Hx Hh)
    as (w' & x' & Hr & Hu & _ & _ & _ & Hup). rewrite He in Hup.
  exists w', x'. split_and!; [done..| |]; intros Hl; simpl in Hup.
  - by rewrite decide_True in Hup by done.
  - by rewrite decide_False in Hup by lia.
Qed.

Lemma runs_now w : runs now w (ticks w) w [].
Proof. done. Qed.

Lemma task_from_task_waker t : task_from_waker (mk_waker t TASK_VTABLE) = Val t.
Proof. done. Qed.

Lemma runs_timer_poll_pending e t h w : (ticks w < e)%Z → headers w !! t = Some h →
  runs (timer_poll e (mk_waker t TASK_VTABLE)) w Pending
    (set_headers (<[t := mk_header (fut_ref h) (executor h) (Some e)]> (headers w)) w) [].
Proof.
  intros He Hh. unfold timer_poll. eapply runs_bind_nil; [apply runs_now|].
  rewrite (proj2 (Z.leb_gt _ _)) by lia. eapply runs_bind_nil; [by apply runs_lift|].
  eapply runs_bind_nil; [by apply runs_read_header|].
  eapply runs_bind_nil; [apply runs_write_header|apply runs_ret].
Qed.

Lemma runs_timer_poll_ready e cx w : (e ≤ ticks w)%Z → runs (timer_poll e cx) w (Ready tt) w [].
Proof.
  intros He. unfold timer_poll. eapply runs_bind_nil; [apply runs_now|].
  rewrite (proj2 (Z.leb_le _ _)) by lia. apply runs_ret.
Qed.

(** A timer never fires early, and fires as soon as its tick has come:
    the future of [after_ticks n] is ready exactly when [n] ticks have passed,
    counting from its creation, and otherwise records its deadline in the
    header of the task that polls it. *)
Theorem timer_ready_iff_elapsed n e t h w0 w : (0 ≤ ticks w0 < modulus W32)%Z →
  (0 ≤ n < modulus W64 - modulus W32)%Z → timer_after_ticks n w0 = Val (e, w0, []) →
  headers w !! t = Some h →
  if decide (ticks w0 + n ≤ ticks w)%Z
  then timer_poll e (mk_waker t TASK_VTABLE) w = Val (Ready tt, w, [])
  else timer_poll e (mk_waker t TASK_VTABLE) w =
    Val (Pending, set_headers (<[t := mk_header (fut_ref h) (executor h) (Some e)]> (headers w)) w, []).
Proof.
  intros Ht Hn He Hh. unfold timer_after_ticks, now in He. revert He. run_op.
  rewrite uadd_in by width. intros [= <-].
  case_decide; [by apply runs_timer_poll_ready|apply runs_timer_poll_pending; [lia|done]].
Qed.

(** The tick counter has 32 bits while deadlines have 64: a deadline from
    2^32 on is never reached, whatever the tick counter shows. *)
Theorem timer_beyond_u32_never_fires e t h w : (0 ≤ ticks w < modulus W32)%Z →
  (modulus W32 ≤ e)%Z → headers w !! t = Some h →
  ∃ w', timer_poll e (mk_waker t TASK_VTABLE) w = Val (Pending, w', []) ∧ ticks w' = ticks w.
Proof.
  intros Ht He Hh. eexists. split; [apply runs_timer_poll_pending; [lia|done]|done].
Qed.

(** The timer interrupt advances the tick counter and pends the executor of
    every alarm that is due, no more and no less; alarms still to come stay. *)
Theorem timer_interrupt_pends_due w : alarms_ok w →
  ∃ w' log, runs on_timer_interrupt w tt w' log ∧ same_tasks w w' ∧
    ticks w' = ((ticks w + 1) mod modulus W32)%Z ∧
    (event w = true → event w' = true) ∧
    (∀ i, i ∈ alarms_of w' ↔ i ∈ alarms_of w ∧ ticks w < AlarmQueue.expires_at i)%Z ∧
    (∀ i r x, i ∈ alarms_of w → (AlarmQueue.expires_at i ≤ ticks w)%Z →
      alarm_target w i r → get_executor r w = Some x → pended x w' log).
Proof.
  intros Hok. destruct (runs_on_timer_interrupt w Hok)
    as (w' & log & l & Hr & Hs & Ht & Hp & _ & Hl & Hlate & He & Hall).
  rewrite Forall_forall in Hl, Hlate.
  exists w', log. split_and!; try done.
  - intros i. rewrite Hp, elem_of_app. split; [intros Hi; split; [by right|by apply Hlate]|].
    intros [[Hi|?] Hlt]; [|done]. specialize (Hl i Hi). lia.
  - intros i r x Hi Hle. apply Hall. rewrite Hp, elem_of_app in Hi. destruct Hi as [?|Hi]; [done|].
    specialize (Hlate i Hi). lia.
Qed.

(** ** Spawning *)

(** The headers lie in the memory the allocator has handed out. *)
Definition headers_allocated w : Prop :=
  Bump.wf (allocator w) ∧
  ∀ t, live w t → (t < Bump.start (allocator w) + Bump.pos (allocator w))%Z.

Lemma runs_spawn r fut l w x p1 a1 p2 a2 q : get_executor r w = Some x →
  Bump.alloc l (allocator w) = Val (p1, a1, [] : list KEvent) →
  Bump.alloc header_layout a1 = Val (p2, a2, [] : list KEvent) →
  dq_push_front p2 (run_queue x) = (Ok tt, q) →
  runs (spawn r fut l) w tt (put_executor r (set_run_queue q x)
    (set_headers (<[p2 := mk_header fut r None]> (headers w)) (set_allocator a2 w))) [].
Proof.
  intros Hx Ha1 Ha2 Hq.
  set (w3 := set_headers (<[p2 := mk_header fut r None]> (headers w)) (set_allocator a2 w)).
  assert (get_executor r w3 = Some x) as Hx3 by (by rewrite <-Hx; destruct r).
  unfold spawn. eapply (runs_bind_nil _ _ _ p2 w3).
  - unfold task_header_new, use_alloc, Bump.alloc_init.
    eapply runs_bind_nil; [by apply (runs_zoom allocator set_allocator)|].
    eapply runs_bind_nil; [by apply (runs_zoom allocator set_allocator)|]. cbv beta.
    eapply runs_bind_nil; [apply runs_write_header|apply runs_ret].
  - eapply runs_bind_nil; [by apply runs_on_run_queue|]. by apply runs_lift.
Qed.

(** Spawning puts a new task, with a header of its own that no other task
    has, at the front of the run queue.  The executor is not pended: unless
    something else pends it, the new task is not run. *)
Theorem spawn_adds_unpended r fut l w x p1 a1 p2 a2 :
  headers_allocated w → layout_ok l → layout_ok header_layout →
  (0 < size_of header_layout)%Z →
  get_executor r w = Some x → length (queued x) < MAX_TASKS →
  Bump.alloc l (allocator w) = Val (p1, a1, [] : list KEvent) →
  Bump.alloc header_layout a1 = Val (p2, a2, [] : list KEvent) →
  ∃ w' x', runs (spawn r fut l) w tt w' [] ∧ event w' = event w ∧
    ¬ live w p2 ∧ headers w' = <[p2 := mk_header fut r None]> (headers w) ∧
    get_executor r w' = Some x' ∧ queued x' = p2 :: queued x ∧ timer_queue x' = timer_queue x ∧
    headers_allocated w'.
Proof.
  intros [Hwf Hbelow] Hl Hhl Hpos Hx Hlen Ha1 Ha2.
  destruct (Bump.alloc_bounds _ _ _ _ _ Hwf Hl Ha1) as (Hwf1 & Hs1 & _ & Hb1).
  destruct (Bump.alloc_bounds _ _ _ _ _ Hwf1 Hhl Ha2) as (Hwf2 & Hs2 & _ & Hb2).
  destruct (dq_push_front_ok p2 (run_queue x) Hlen) as (q & Hq & Hqi).
  assert (¬ live w p2) as Hfresh by (intros Ht%Hbelow; destruct Hl; lia).
  set (w3 := set_headers (<[p2 := mk_header fut r None]> (headers w)) (set_allocator a2 w)).
  assert (get_executor r w3 = Some x) as Hx3 by (by rewrite <-Hx; destruct r).
  destruct (put_executor_frame r (set_run_queue q x) w3) as (Hev & _ & _ & Hhd & _ & Hal).
  exists (put_executor r (set_run_queue q x) w3), (set_run_queue q x). split_and!; try done.
  - by eapply runs_spawn.
  - by eapply get_put_executor.
  - split; rewrite Hal; [done|]. intros t. unfold live. rewrite Hhd. cbn.
    destruct (decide (p2 = t)) as [<-|Hne]; [intros _; lia|].
    rewrite lookup_insert_ne by done. intros Ht%Hbelow. lia.
Qed.

Section Poll.
Variable fut_poll : Fut → Waker → KOp (Poll unit * Fut).

(** ** One run *)

(** C3: one run of an executor serves everybody.  If the bodies of its tasks do
    not wake its own tasks, and there are at most 32 tasks and timers, the run
    terminates, having polled each task that was queued and then, earliest first,
    the task of each timer that had expired, in order and once each.  The timers
    that had expired are exactly the ones it takes out; the others are still there
    afterwards, together with exactly those that the polls have set, and the run
    queue is empty.  If there is a timer and the alarm queue has room, an alarm is
    set for the earliest. *)
Theorem exec_once_round r w x : quiet fut_poll r → get_executor r w = Some x →
  task_items (timers x) → is_Some (alarm_handle x) →
  Forall (live w) (queued x ++ (item_task <$> timers x)) →
  length (queued x) + length (timers x) ≤ MAX_TASKS →
  ∃ due late polls w1 w2 w' x' log,
    timers x ≡ₚ due ++ late ∧
    StronglySorted (λ i j, TimerQueue.expires_at i ≤ TimerQueue.expires_at j)%Z due ∧
    Forall (λ i, TimerQueue.expires_at i ≤ ticks w)%Z due ∧ Forall (λ i, ticks w < TimerQueue.expires_at i)%Z late ∧
    (∀ fuel, MAX_TASKS < fuel → runs (exec_once fut_poll fuel r) w (Some tt) w' log) ∧
    runs (check_timer_queue r) w tt w1 [] ∧
    polls.*1 = queued x ++ (item_task <$> due) ∧ polled fut_poll r polls w1 w2 log ∧
    get_executor r w' = Some x' ∧ queued x' = [] ∧ timers x' ≡ₚ timers_set polls ++ late ∧
    (timers x' ≠ [] → length (alarms_of w2) < N_ALARM_ITEMS →
      ∃ e h, alarm_handle x = Some h ∧ AlarmQueue.item e h ∈ alarms_of w' ∧
        Forall (λ i, e ≤ TimerQueue.expires_at i)%Z (timers x')).
Proof.
  intros Hq Hx Hitems Hh Hlive Hlen.
  destruct (TimerQueue.due_exists (ticks w) (timer_queue x)) as (l & tq & Hdue).
  destruct (TimerQueue.due_spec _ _ _ _ Hdue) as (Hp & Hl & Hlate & Hso). fold (timers x) in Hp.
  assert (length (timers x) = length l + length (TimerQueue.items tq)) as Hlen2
    by (by rewrite Hp, length_app).
  destruct (exec_once_runs fut_poll r w x l tq Hq Hx Hitems Hdue Hh)
    as (polls & w1 & w2 & w' & x' & log & Hr & Hc & Hfst & Hpolls & Hx' & Hren & Hq' & Hah & _ & Hadd).
  { rewrite Hp, fmap_app in Hlive. apply Forall_app in Hlive as [Hl1 Hl2].
    apply Forall_app in Hl2 as [Hl2 _]. by apply Forall_app. }
  { rewrite length_app, length_fmap. lia. }
  { rewrite length_app, length_fmap. unfold MAX_TASKS, TimerQueue.N_TIMERS in *. lia. }
  destruct Hren as (Hs & _ & _ & _ & Hal). destruct Hs as (Hg & _).
  exists l, (TimerQueue.items tq), polls, w1, w2, w', x', log. split_and!; try done.
  - intros fuel Hfuel. apply Hr. rewrite length_app, length_fmap. lia.
  - rewrite Hg. by eapply get_put_executor.
  - intros Hne Hroom. rewrite Hah in Hal. destruct Hh as [h Hh]. rewrite Hh in Hal |- *.
    pose proof (TimerQueue.next_expiration_spec (timer_queue x')) as Hnext.
    destruct (TimerQueue.next_expiration (timer_queue x')) as [e|]; [|done].
    destruct Hnext as (i & Hi & He & HF). exists e, h. split; [done|]. split; [|done].
    assert (alarms_of (put_executor r x' w2) = alarms_of w2) as Heq.
    { unfold alarms_of. by destruct (put_executor_frame r x' w2) as (_ & _ & -> & _). }
    rewrite Heq in Hal. rewrite decide_True in Hal by done. rewrite Hal. by left.
Qed.

(** Bodies that wake their own task every time they are polled, as a loop around
    [Kernel::yields] does, and otherwise only change what the bodies share. *)
Definition self_waking (P : TaskRef → Fut → Prop) : Prop :=
  ∀ t f, P t f → ∃ f' g, P t f' ∧ ∀ w, fut_poll f (mk_waker t TASK_VTABLE) w =
    (op_modify (λ w, set_user (g (user w)) w);; vtable_wake_by_ref t;; mret (Pending, f')) w.

(** Running such a task once puts it back at the end of the run queue. *)
Lemma run_task_self_waking r t w x h f' g : get_executor r w = Some x → headers w !! t = Some h →
  executor h = r →
  (∀ w, fut_poll (fut_ref h) (mk_waker t TASK_VTABLE) w =
    (op_modify (λ w, set_user (g (user w)) w);; vtable_wake_by_ref t;; mret (Pending, f')) w) →
  ∃ w', runs (run_task fut_poll r t) w tt w' (pend_log x) ∧
    get_executor r w' = Some (pushed t x) ∧ headers w' = <[t := mk_header f' r None]> (headers w) ∧
    alarms w' = alarms w ∧ ∀ r', r' ≠ r → get_executor r' w' = get_executor r' w.
Proof.
  intros Hx Hh He Hpoll. set (h1 := mk_header (fut_ref h) r None).
  set (w1 := set_headers (<[t := h1]> (headers w)) w). set (w2 := set_user (g (user w1)) w1).
  assert (headers w2 !! t = Some h1) as Hh1 by (cbn; by rewrite lookup_insert_eq).
  assert (get_executor r w2 = Some x) as Hx1 by (by rewrite <-Hx; destruct r).
  pose proof (runs_wake_by_ref t h1 w2 x Hh1 Hx1) as Hwake. cbn [executor h1] in Hwake.
  destruct (woken_frame r t x w2) as (_ & Hal2 & Hhd2 & _).
  set (w3 := woken r t x w2) in *. set (h3 := mk_header f' r None).
  set (w4 := set_headers (<[t := h3]> (headers w3)) w3).
  assert (headers w4 = <[t := h3]> (headers w)) as Hhd4
    by (cbn; rewrite Hhd2; cbn; by rewrite insert_insert_eq).
  assert (headers w4 !! t = Some h3) as Hh3 by (by rewrite Hhd4, lookup_insert_eq).
  exists w4. split_and!; [|by rewrite <-(woken_get r t x w2 Hx1); destruct r|exact Hhd4|exact Hal2|].
  2: { intros r' Hr'. etrans; [|etrans; [by apply (woken_get_other r r' t x w2)|]]; by destruct r'. }
  unfold run_task. eapply runs_log; [eapply (runs_bind _ _ _ tt w4)|apply app_nil_r].
  - unfold poll_task. eapply runs_bind_nil; [by apply runs_read_header|]. rewrite He.
    eapply runs_bind_nil; [apply runs_write_header|]. fold h1 w1.
    eapply runs_log; [eapply (runs_bind _ _ _ (Pending, f') w3)|apply app_nil_r].
    + unfold static_future_poll.
      eapply runs_log; [eapply (runs_bind _ _ _ (Pending, f') w3); [|apply runs_ret]|apply app_nil_r].
      unfold runs. rewrite Hpoll. eapply runs_bind_nil; [apply runs_modify|]. op_map (exact Hwake).
    + eapply runs_bind_nil; [apply (runs_read_header t h1); by rewrite Hhd2|apply runs_write_header].
  - unfold update_timer_queue. eapply runs_bind_nil; [by apply (runs_read_header t h3)|]. apply runs_ret.
Qed.

(** The queue after [n] polls of tasks that go to its end. *)
Fixpoint round_robin {A} (n : nat) (l : list A) : list A :=
  match n, l with
  | S n, x :: l => round_robin n (l ++ [x])
  | _, _ => l
  end.

(** Tasks that wake themselves keep the loop going; they run in turn. *)
Lemma self_wakers_never_end r P : self_waking P →
  ∀ fuel w x, get_executor r w = Some x → queued x ≠ [] →
    Forall (λ t, ∃ h, headers w !! t = Some h ∧ executor h = r ∧ P t (fut_ref h)) (queued x) →
    ∃ w' x' log, runs (advance_runnable_tasks fut_poll fuel r) w None w' log ∧
      get_executor r w' = Some x' ∧ queued x' = round_robin fuel (queued x) ∧
      timer_queue x' = timer_queue x ∧ alarms w' = alarms w ∧
      ∀ r', r' ≠ r → get_executor r' w' = get_executor r' w.
Proof.
  intros HP0 fuel. induction fuel as [|fuel IH]; intros w x Hx Hne HF.
  { exists w, x, []. by split_and!. }
  destruct (queued x) as [|t ts] eqn:Hq; [done|]. clear Hne.
  apply Forall_cons in HF as [(h & Hh & He & Hf) HF].
  destruct (dq_pop_front_cons (run_queue x) t ts Hq) as (q & Hpop & Hqi).
  set (x0 := set_run_queue q x). pose proof (get_put_executor r x0 x w Hx) as Hx0.
  destruct (put_executor_frame r x0 w) as (_ & _ & Hal0 & Hhd0 & _).
  destruct (HP0 t _ Hf) as (f' & g & Hf' & Hpoll).
  destruct (run_task_self_waking r t _ x0 h f' g Hx0) as (w3 & Hr3 & Hx3 & Hh3 & Hal3 & Ho3);
    [by rewrite Hhd0|done|done|].
  assert (queued (pushed t x0) = ts ++ [t]) as Hq3.
  { pose proof (queued_bound x) as Hb. rewrite Hq in Hb. cbn [length] in Hb.
    rewrite queued_pushed. change (queued x0) with (dq_iter q). rewrite Hqi, decide_True; [done|lia]. }
  destruct (IH w3 (pushed t x0) Hx3) as (w' & x' & log & Hr & Hx' & Hq' & Htq & Hal & Ho).
  - rewrite Hq3. by destruct ts.
  - assert (Forall (λ t', ∃ h', headers w3 !! t' = Some h' ∧ executor h' = r ∧ P t' (fut_ref h')) (t :: ts)) as HF3.
    { rewrite Hh3, Hhd0. constructor.
      - eexists. split; [apply lookup_insert_eq|done].
      - eapply Forall_impl; [exact HF|]. intros t' (h' & Hh' & He' & Hf2).
        destruct (decide (t = t')) as [<-|Hne]; [eexists; split; [apply lookup_insert_eq|done]|].
        exists h'. by rewrite lookup_insert_ne. }
    rewrite Hq3. apply Forall_app. apply Forall_cons in HF3 as [Ht Hts]. split; [done|by constructor].
  - exists w', x', (pend_log x0 ++ log).
    split_and!; [|done|by rewrite Hq', Hq3|by rewrite Htq|by rewrite Hal, Hal3|].
    2: { intros r' Hr'. rewrite Ho, Ho3 by done. by eapply get_put_other. }
    cbn [advance_runnable_tasks]. eapply runs_bind_nil; [by apply runs_on_run_queue|]. cbv beta iota.
    by eapply runs_bind.
Qed.

(** C38: tasks that keep yielding starve the rest of their executor: however long
    a run of the executor is, once no timer is due it polls them in turn and does
    not end; the timers and the alarm of the executor are not looked at again, and
    the other executors are not touched. *)
Theorem yielding_task_starves_timers r P : self_waking P →
  ∀ fuel w x, get_executor r w = Some x → queued x ≠ [] → task_items (timers x) →
    Forall (λ i, ticks w < TimerQueue.expires_at i)%Z (timers x) →
    Forall (λ t, ∃ h, headers w !! t = Some h ∧ executor h = r ∧ P t (fut_ref h)) (queued x) →
    ∃ w' x' log, runs (exec_once fut_poll fuel r) w None w' log ∧
      get_executor r w' = Some x' ∧ queued x' = round_robin fuel (queued x) ∧
      timers x' = timers x ∧ alarms w' = alarms w ∧
      ∀ r', r' ≠ r → get_executor r' w' = get_executor r' w.
Proof.
  intros HP0 fuel w x Hx Hne Hitems Hlate HF.
  pose proof (check_timer_queue_spec r w x [] (timer_queue x) Hx Hitems (TimerQueue.nothing_due _ _ Hlate)) as Hc.
  rewrite decide_True in Hc by (cbn [length]; pose proof (queued_bound x); lia).
  destruct Hc as (w1 & x1 & Hr1 & [Hg Ho1 _ _ Hal1 Hhd1 _ _] & Hq1 & Htq1 & _ & _). rewrite app_nil_r in Hq1.
  destruct (self_wakers_never_end r P HP0 fuel w1 x1 Hg) as (w' & x' & log & Hr & Hx' & Hq' & Htq & Hal & Ho);
    [by rewrite Hq1|by rewrite Hq1, Hhd1|].
  exists w', x', log. split_and!; [|done|by rewrite Hq', Hq1|by unfold timers; rewrite Htq, Htq1|by rewrite Hal|].
  - unfold exec_once. eapply runs_bind_nil; [exact Hr1|].
    eapply runs_log; [eapply runs_bind; [exact Hr|apply runs_ret]|apply app_nil_r].
  - intros r' Hr'. by rewrite Ho, Ho1.
Qed.
End Poll.
End Properties.

(** ** Instances *)

(** A platform whose task bodies are values of [F] and share no state. *)
Definition demo_platform (F : Type) : Platform := {|
  Deque := blist;
  Vec := blist_vec;
  LinearMap := bmap;
  BinaryHeap := blist_bh;
  Node := Z;
  get_prio n := n;
  Fut := F;
  User := unit;
  header_layout := mk_layout 24 8;
  memory_start := 1879048192;
  heap_start := 2415919104
|}.

Lemma demo_platform_laws F : PlatformLaws (H := demo_platform F).
Proof. split; apply _. Qed.

#[local] Instance demo_profile : Profile := true.

(** Two sleeping tasks at 100 and 200 on the thread executor, the first with
    a timer at tick 5, the second with one at tick 9, and a third task that is
    runnable; bodies sleep until a deadline, or for ever. *)
Abbreviation Sleep := (option Z).

Module SleepDemo.
#[export] Instance sleep_platform : Platform := demo_platform Sleep.
#[export] Instance sleep_laws : PlatformLaws := demo_platform_laws Sleep.

Definition sleep_poll (f : Sleep) (cx : Waker) :
    Op KEvent (World) (Poll unit * Sleep) :=
  match f with
  | None => mret (Pending, None)
  | Some e =>
      p ← timer_poll e cx;
      match p with Ready _ => mret (Pending, None) | Pending => mret (Pending, Some e) end
  end.

Definition demo_queue : blist TaskRef MAX_TASKS := (dq_push_back 300%Z dq_new).2.
Definition demo_timers : TimerQueue.t blist_bh :=
  TimerQueue.mk (bh_push (task_item 9 200%Z) (bh_push (task_item 5 100%Z) bh_new).2).2.
Definition demo_executor : BaseExecutor :=
  mk_executor demo_queue demo_timers None (Some 0%Z) ThreadExecutorPender.
Definition demo_alarms : AlarmQueue.t blist_vec blist_bh ExecRef N_ALARM_HANDLES N_ALARM_ITEMS :=
  AlarmQueue.mk (vec_push (Some ThreadRef) vec_new).2 (bh_push (AlarmQueue.item 5 0) bh_new).2.
Definition sleeping (d : Z) (e : option Z) : TaskHeader := mk_header (Some d) ThreadRef e.

Definition demo_world : World :=
  mk_world false 6 demo_alarms demo_executor true (lm_new : bmap _ _)
    (<[100%Z := sleeping 5 None]>
      (<[200%Z := sleeping 9 None]>
        (<[300%Z := mk_header None ThreadRef None]> ∅)))
    (Bump.mk 10240 1000 0) tt.

Lemma sleep_quiet : quiet sleep_poll ThreadRef.
Proof.
  intros f t w x Hx [h Hh]. destruct f as [e|].
  - destruct (decide (e ≤ ticks w)%Z) as [He|He].
    + exists None, w, []. split_and!; [|done|apply headers_persist_refl].
      eapply runs_bind_nil; [by apply runs_timer_poll_ready|apply runs_ret].
    + eexists (Some e), _, []. split_and!.
      * eapply runs_bind_nil; [apply runs_timer_poll_pending; [lia|done]|apply runs_ret].
      * done.
      * by eapply headers_persist_insert.
  - exists None, w, []. split_and!; [apply runs_ret|done|apply headers_persist_refl].
Qed.

Lemma demo_live : Forall (live demo_world) (queued demo_executor ++ (item_task <$> timers demo_executor)).
Proof.
  assert (queued demo_executor ++ (item_task <$> timers demo_executor) = [300; 200; 100]%Z) as Hl
    by (vm_compute; reflexivity).
  rewrite Hl. unfold live. cbn [headers demo_world].
  repeat (apply Forall_cons; split; [rewrite !lookup_insert_is_Some'; by auto|]). by apply Forall_nil.
Qed.

Lemma exec_once_round_witness : ∃ w' x' log,
  runs (exec_once sleep_poll 33 ThreadRef) demo_world (Some tt) w' log ∧
  get_executor ThreadRef w' = Some x' ∧ queued x' = [] ∧ task_item 9 200%Z ∈ timers x'.
Proof.
  destruct (exec_once_round (PL := sleep_laws) sleep_poll ThreadRef demo_world demo_executor sleep_quiet)
    as (due & late & polls & w1 & w2 & w' & x' & log & Hp & _ & Hdue & _ & Hr & _ & _ & _ & Hx & Hq & Hadd & _).
  - done.
  - vm_compute. by repeat constructor.
  - by eexists.
  - apply demo_live.
  - vm_compute. lia.
  - exists w', x', log. split; [apply Hr; unfold MAX_TASKS; lia|]. split; [done|]. split; [done|].
    assert (task_item 9 200%Z ∈ timers demo_executor) as Hin by (vm_compute; by repeat constructor).
    rewrite Hp, elem_of_app in Hin. rewrite Hadd, elem_of_app. destruct Hin as [Hin|]; [exfalso|by right].
    rewrite Forall_forall in Hdue. by specialize (Hdue _ Hin).
Defined.

Lemma wake_enqueues_and_pends_witness : ∃ w' x' log,
  runs (vtable_wake_by_ref 200%Z) demo_world tt w' log ∧ get_executor ThreadRef w' = Some x' ∧
  queued x' = [300; 200]%Z ∧ event w' = true.
Proof.
  destruct (wake_enqueues_and_pends (PL := sleep_laws) 200%Z (sleeping 9 None) demo_world demo_executor)
    as (w' & x' & log & Hr & Hx & Hp & Hq & _); [done|done|].
  by exists w', x', log.
Defined.

Lemma check_timer_queue_exact_witness : ∃ l,
  (∀ i, i ∈ l ↔ i ∈ timers demo_executor ∧ TimerQueue.expires_at i ≤ ticks demo_world)%Z ∧
  if decide (length (queued demo_executor) + length l ≤ MAX_TASKS)
  then ∃ w' x', runs (check_timer_queue ThreadRef) demo_world tt w' [] ∧
    queued x' = queued demo_executor ++ (item_task <$> l)
  else check_timer_queue ThreadRef demo_world = Panic.
Proof.
  destruct (check_timer_queue_exact (PL := sleep_laws) ThreadRef demo_world demo_executor)
    as (l & _ & Hl & Hc); [reflexivity|vm_compute; by repeat constructor|].
  exists l. split; [exact Hl|]. destruct (decide _); [|exact Hc].
  destruct Hc as (w' & x' & Hr & _ & Hq & _). by exists w', x'.
Defined.

Lemma timer_duplicates_and_drops_witness : ∃ w' x',
  runs (update_timer_queue ThreadRef 100%Z)
    (set_headers (<[100%Z := sleeping 9 (Some 9%Z)]> ∅) demo_world) tt w' [] ∧
  timers x' ≡ₚ task_item 9 100%Z :: timers demo_executor.
Proof.
  destruct (timer_duplicates_and_drops (PL := sleep_laws) ThreadRef 100%Z
    (set_headers (<[100%Z := sleeping 9 (Some 9%Z)]> ∅) demo_world)
    demo_executor (sleeping 9 (Some 9%Z)) 9) as (w' & x' & Hr & _ & Hi & _);
    [done|done|done|].
  exists w', x'. split; [done|]. apply Hi. vm_compute. lia.
Defined.

Lemma timer_ready_iff_elapsed_witness :
  timer_poll 9%Z (mk_waker 200%Z TASK_VTABLE) (set_ticks 9 demo_world) =
    Val (Ready tt, set_ticks 9 demo_world, []).
Proof.
  exact (timer_ready_iff_elapsed (H := sleep_platform) 3 9 200%Z (sleeping 9 None) demo_world
    (set_ticks 9 demo_world) ltac:(done) ltac:(done) eq_refl eq_refl).
Defined.

Lemma timer_beyond_u32_never_fires_witness : ∃ w',
  timer_poll 4294967296%Z (mk_waker 200%Z TASK_VTABLE) (set_ticks 4294967295 demo_world) =
    Val (Pending, w', []) ∧ ticks w' = 4294967295%Z.
Proof.
  by apply (timer_beyond_u32_never_fires (H := sleep_platform) 4294967296 200%Z (sleeping 9 None)
    (set_ticks 4294967295 demo_world)).
Defined.

Lemma timer_interrupt_pends_due_witness : ∃ w' log,
  runs on_timer_interrupt demo_world tt w' log ∧ event w' = true.
Proof.
  destruct (timer_interrupt_pends_due (PL := sleep_laws) demo_world) as (w' & log & Hr & _ & _ & _ & _ & Hp).
  - constructor; [|constructor]. exists ThreadRef. by split_and!; [..|eexists].
  - exists w', log. split; [done|].
    apply (Hp (AlarmQueue.item 5 0) ThreadRef demo_executor); [by left|done|by split_and!; [..|eexists]|done].
Defined.

Lemma spawn_adds_unpended_witness : ∃ w' x' p,
  runs (spawn ThreadRef (None : Sleep) (mk_layout 40 8)) demo_world tt w' [] ∧ event w' = false ∧
  get_executor ThreadRef w' = Some x' ∧ queued x' = p :: queued demo_executor.
Proof.
  destruct (spawn_adds_unpended (PL := sleep_laws) ThreadRef (None : Sleep) (mk_layout 40 8) demo_world demo_executor
    1000 (Bump.mk 10240 1040 0) 1040 (Bump.mk 10240 1064 0))
    as (w' & x' & Hr & He & _ & _ & Hx & Hq & _); try done.
  - split; [done|]. intros t [h Hh]. cbn in *.
    repeat (apply lookup_insert_Some in Hh as [[<- _]|[_ Hh]]; [done|]). done.
  - vm_compute. lia.
  - by exists w', x', 1040%Z.
Defined.

End SleepDemo.

(** A task that yields in a loop: [loop { Kernel::yields().await }]. *)
Module YieldDemo.
#[export] Instance yield_platform : Platform := demo_platform bool.
#[export] Instance yield_laws : PlatformLaws := demo_platform_laws bool.

Definition yield_loop (yielded : bool) (cx : Waker) :
    Op KEvent (World) (Poll unit * bool) :=
  r ← yielder_poll yielded cx;
  match r.1 with
  | Ready _ => yielder_poll false cx
  | Pending => mret r
  end.

Lemma yield_loop_self_waking : self_waking yield_loop (λ _ _, True).
Proof.
  intros t f _. exists true, (λ u, u). split; [done|]. intros w.
  assert (set_user (user w) w = w) as Hw by (by destruct w).
  unfold yield_loop, yielder_poll.
  destruct f; cbv [mbind op_bind mret op_ret op_lift op_modify]; rewrite ?Hw, task_from_task_waker; cbn [fst snd];
    destruct (vtable_wake_by_ref t w) as [[[[] w'] l]|]; cbn [fst snd app]; by rewrite ?app_nil_r.
Qed.

Definition yield_header : TaskHeader := mk_header false ThreadRef None.

(** Two such tasks, with timers of others behind them. *)
Definition yield_executor : BaseExecutor :=
  mk_executor (dq_push_back 200%Z (dq_push_back 100%Z dq_new).2).2 SleepDemo.demo_timers None (Some 0%Z)
    ThreadExecutorPender.
Definition yield_world : World :=
  mk_world true 4 (AlarmQueue.mk vec_new bh_new) yield_executor true (lm_new : bmap _ _)
    (<[100%Z := yield_header]> (<[200%Z := yield_header]> ∅)) (Bump.mk 10240 1000 0) tt.

Lemma yielding_task_starves_timers_witness : ∃ w' x' log,
  runs (exec_once yield_loop 1001 ThreadRef) yield_world None w' log ∧
  get_executor ThreadRef w' = Some x' ∧ queued x' = [200; 100]%Z ∧ timers x' = timers yield_executor.
Proof.
  destruct (yielding_task_starves_timers (PL := yield_laws) yield_loop ThreadRef (λ _ _, True)
    yield_loop_self_waking 1001 yield_world yield_executor) as (w' & x' & log & Hr & Hx & Hq & Htq & _).
  - reflexivity.
  - by vm_compute.
  - vm_compute. by repeat constructor.
  - vm_compute. by repeat constructor.
  - assert (queued yield_executor = [100; 200]%Z) as -> by (vm_compute; reflexivity).
    apply Forall_cons. split; [|apply Forall_cons; split; [|by apply Forall_nil]];
      exists yield_header; (split; [cbn [headers yield_world]|done]); [apply lookup_insert_eq|].
    by rewrite lookup_insert_ne, lookup_insert_eq.
  - exists w', x', log. split; [exact Hr|]. split; [exact Hx|]. split; [|exact Htq].
    rewrite Hq. vm_compute. reflexivity.
Defined.
End YieldDemo.
