(* ===== verification/Scheduling.v ===== *)
(** * Interleavings: the thread executor and the interrupts

    The loop of [ThreadExecutor::start] as a step relation whose steps are the
    critical sections of [exec_once] and the polls in between, interleaved
    with the timer interrupt, with wake-ups and spawns from interrupt handlers and
    with whatever else handlers do.  Setting the alarm is one step too, although
    the code pushes onto the alarm queue outside a critical section, trusting
    that interrupts are disabled.  The loop asks for the event flag, clears it
    and only then looks at its queues; the properties say that this loses
    neither wake-ups nor timers. *)

From S2P Require Import Prelude Heapless WaitQueue Bump Timers Kernel Executor ExecutorProps.

Section Scheduling.
Context `{HP : Profile} `{PL : PlatformLaws}.
Implicit Types (w : World) (x : BaseExecutor) (t : TaskRef).
Abbreviation KOp := (Op KEvent World).
Variable fut_poll : Fut → Waker → KOp (Poll unit * Fut).

(** Where the loop is. *)
Inductive Pc :=
| AtEvent                                  (* at [event_fetch_and_clear_local] *)
| Collect                                  (* at [now] in [check_timer_queue] *)
| Dequeue (now : Z)                        (* at the first section of [check_timer_queue] *)
| Enqueue (ready : Vec TaskRef MAX_TASKS)  (* at the second one *)
| Pop                                      (* at [pop_front] *)
| Polling (t : TaskRef)                    (* polling a task *)
| Update (t : TaskRef)                     (* at [update_timer_queue] *)
| Renew                                    (* at [renew_alarm] *)
| SetAlarm (next : option Z).              (* at [set_alarm] in it *)

(** What interrupt handlers other than the timer's may do besides waking
    and spawning tasks: anything that leaves the thread executor alone, does not clear the
    event flag and removes neither alarms nor callbacks. *)
Definition handler_step w w' : Prop :=
  thread_executor w' = thread_executor w ∧ (event w = true → event w' = true) ∧
  (∀ i, i ∈ alarms_of w → i ∈ alarms_of w') ∧
  (∀ n r, slots w !! n = Some (Some r) → slots w' !! n = Some (Some r)) ∧
  (alarms_ok w → alarms_ok w').

(** The steps of the loop, of the timer interrupt and of wake-ups. *)
Inductive loop_step : Pc * World → Pc * World → Prop :=
| step_no_event w w' l :
    runs event_fetch_and_clear_local w false w' l → loop_step (AtEvent, w) (AtEvent, w')
| step_event w w' l :
    runs event_fetch_and_clear_local w true w' l → loop_step (AtEvent, w) (Collect, w')
| step_now w n w' l : runs now w n w' l → loop_step (Collect, w) (Dequeue n, w')
| step_dequeue n w v w' l :
    runs (dequeue_ready n ThreadRef) w v w' l → loop_step (Dequeue n, w) (Enqueue v, w')
| step_enqueue v w w' l :
    runs (enqueue_ready ThreadRef v) w tt w' l → loop_step (Enqueue v, w) (Pop, w')
| step_pop t w w' l :
    runs (on_run_queue ThreadRef dq_pop_front) w (Some t) w' l → loop_step (Pop, w) (Polling t, w')
| step_pop_none w w' l :
    runs (on_run_queue ThreadRef dq_pop_front) w None w' l → loop_step (Pop, w) (Renew, w')
| step_update t w w' l :
    runs (update_timer_queue ThreadRef t) w tt w' l → loop_step (Update t, w) (Pop, w')
| step_renew w n w' l :
    runs (next_timer ThreadRef) w n w' l → loop_step (Renew, w) (SetAlarm n, w')
| step_set_alarm n w w' l :
    runs (set_next_alarm ThreadRef n) w tt w' l → loop_step (SetAlarm n, w) (AtEvent, w')
| step_tick pc w w' l : runs on_timer_interrupt w tt w' l → loop_step (pc, w) (pc, w')
| step_wake pc t w w' l : runs (vtable_wake_by_ref t) w tt w' l → loop_step (pc, w) (pc, w').

(** The steps of everybody.  [Kernel::spawn] may be called at any point by anybody;
    the loop runs on a kernel that is initialised. *)
Inductive kstep : Pc * World → Pc * World → Prop :=
| step_loop s s' : loop_step s s' → kstep s s'
| step_poll t w w' l :
    runs (poll_task fut_poll t) w tt w' l → kstep (Polling t, w) (Update t, w')
| step_spawn pc f lay w w' l : initialised w = true →
    runs (kernel_spawn f lay) w tt w' l → kstep (pc, w) (pc, w')
| step_handler pc w w' : handler_step w w' → kstep (pc, w) (pc, w').

(** A step in which the alarm queue is not full when an alarm is set. *)
Definition alarm_room (s : Pc * World) : Prop :=
  ∀ n, s.1 = SetAlarm n → length (alarms_of s.2) < N_ALARM_ITEMS.
Definition kstep_room s s' : Prop := kstep s s' ∧ alarm_room s.

(** ** What holds throughout *)

(** The thread executor is pended through the event flag, and its alarm calls
    it back. *)
Definition armed w : Prop :=
  alarms_ok w ∧ pender (thread_executor w) = ThreadExecutorPender ∧
  ∃ h, alarm_handle (thread_executor w) = Some h ∧ (0 ≤ h)%Z ∧
    slots w !! Z.to_nat h = Some (Some ThreadRef).

(** An alarm that will pend the thread executor no later than tick [e]. *)
Definition alarm_by w (e : Z) : Prop :=
  ∃ i, i ∈ alarms_of w ∧ alarm_target w i ThreadRef ∧ (AlarmQueue.expires_at i ≤ e)%Z.

(** The loop waits for an event, or is about to. *)
Definition waiting (pc : Pc) : Prop :=
  match pc with AtEvent | Renew | SetAlarm _ => True | _ => False end.

(** The task [t] is in the run queue and will be noticed there. *)
Definition flagged t (s : Pc * World) : Prop :=
  t ∈ queued (thread_executor s.2) ∧ (waiting s.1 → event s.2 = true).

(** No timer is forgotten: while the loop waits, every timer has an alarm that
    will come in time, or the event flag is set already; and the alarm about to
    be set is in time for all of them. *)
Definition timers_kept (s : Pc * World) : Prop :=
  match s.1 with
  | AtEvent => ∀ i, i ∈ timers (thread_executor s.2) →
      event s.2 = true ∨ alarm_by s.2 (TimerQueue.expires_at i)
  | SetAlarm n => ∀ i, i ∈ timers (thread_executor s.2) →
      ∃ e, n = Some e ∧ (e ≤ TimerQueue.expires_at i)%Z
  | _ => True
  end.

(** ** The effect of each step *)

Lemma on_thread_inv {A} (m : Op KEvent BaseExecutor A) w a w' l :
  runs (on_executor ThreadRef m) w a w' l →
  ∃ x', runs m (thread_executor w) a x' l ∧ w' = set_thread x' w.
Proof. apply (runs_zoom_inv (λ _, thread_executor w) (put_executor ThreadRef)). Qed.

Lemma thread_queue_inv {A} f w (a : A) w' l : runs (on_run_queue ThreadRef f) w a w' l →
  ∃ q, f (run_queue (thread_executor w)) = (a, q) ∧
    w' = set_thread (set_run_queue q (thread_executor w)) w.
Proof.
  intros (x' & (q & Hf & ->)%runs_zoom_inv & ->)%on_thread_inv. exists q. split; [|done].
  unfold runs, op_pure in Hf. destruct (f _) as [a0 q0]. by injection Hf as -> ->.
Qed.

(** Only the run queue, or only the timer queue, of the thread executor has
    changed. *)
Definition only_run_queue w w' : Prop :=
  ∃ q, w' = set_thread (set_run_queue q (thread_executor w)) w.
Definition only_timer_queue w w' : Prop :=
  ∃ q, w' = set_thread (set_timer_queue q (thread_executor w)) w.

Lemma dequeue_inv n w v w' l : runs (dequeue_ready n ThreadRef) w v w' l → only_timer_queue w w'.
Proof.
  intros (x' & (y & _ & ->)%runs_zoom_inv & ->)%on_thread_inv. by eexists.
Qed.

Lemma enqueue_inv ts : ∀ w w' l, runs (op_for_each (push_task ThreadRef) ts) w tt w' l →
  only_run_queue w w'.
Proof.
  induction ts as [|t ts IH]; intros w w' l Hr.
  { apply runs_ret_inv in Hr as (_ & -> & _). exists (run_queue (thread_executor w)).
    by destruct w as [??? []]. }
  apply runs_bind_inv in Hr as ([] & w1 & l1 & l2 & Hp & Hr & _).
  destruct (IH _ _ _ Hr) as [q2 ->].
  apply runs_bind_inv in Hp as (a & w2 & l3 & l4 & (q & _ & ->)%thread_queue_inv & Hu & _).
  apply runs_lift_inv in Hu as (_ & -> & _). by exists q2.
Qed.

Lemma update_inv t w w' l : runs (update_timer_queue ThreadRef t) w tt w' l → only_timer_queue w w'.
Proof.
  intros (h & w0 & l1 & l2 & Hh & Hr & _)%runs_bind_inv.
  apply runs_bind_inv in Hh as (w1 & w2 & l3 & l4 & Hg & Hl & _). injection Hg as <- <- _.
  apply runs_lift_inv in Hl as (_ & -> & _). destruct (expires_at h) as [e|].
  - apply runs_bind_inv in Hr as (o & w1 & l5 & l6 & Ho & Hret & _).
    apply runs_ret_inv in Hret as (_ & -> & _).
    apply on_thread_inv in Ho as (x' & (q & _ & ->)%runs_zoom_inv & ->). by eexists.
  - apply runs_ret_inv in Hr as (_ & -> & _). exists (timer_queue (thread_executor w)).
    by destruct w as [??? []].
Qed.

Lemma wake_header_inv t w w' l : runs (vtable_wake_by_ref t) w tt w' l →
  ∃ h x, headers w !! t = Some h ∧ get_executor (executor h) w = Some x ∧
    w' = woken (executor h) t x w ∧ l = pend_log x.
Proof.
  intros Hr. destruct (headers w !! t) as [h|] eqn:Hh;
    [|unfold runs, vtable_wake_by_ref, read_header in Hr; revert Hr; run_op; by rewrite Hh].
  destruct (get_executor (executor h) w) as [x|] eqn:Hx.
  - exists h, x. split_and!; try done;
      by destruct (runs_det _ _ _ _ _ _ _ _ (runs_wake_by_ref t h w x Hh Hx) Hr) as (_ & -> & ->).
  - apply runs_bind_inv in Hr as (h' & w1 & l1 & l2 & Hrd & Hr & _).
    destruct (runs_det _ _ _ _ _ _ _ _ (runs_read_header t h w Hh) Hrd) as (-> & -> & _).
    apply runs_bind_inv in Hr as (a & w2 & l3 & l4 & Hr & _).
    apply runs_bind_inv in Hr as (b & w3 & l5 & l6 & Hr & _).
    unfold runs, on_run_queue, on_executor in Hr. by rewrite Hx in Hr.
Qed.

Lemma wake_inv t w w' l : runs (vtable_wake_by_ref t) w tt w' l →
  ∃ r x, get_executor r w = Some x ∧ w' = woken r t x w.
Proof. intros (h & x & _ & Hx & -> & _)%wake_header_inv. eauto. Qed.

(** A task that is spawned goes to the front of the run queue; nobody is told. *)
Lemma kernel_spawn_inv f lay w w' l : initialised w = true → runs (kernel_spawn f lay) w tt w' l →
  ∃ t q hs a, queued (thread_executor w') = t :: queued (thread_executor w) ∧
    hs = <[t := mk_header f ThreadRef None]> (headers w) ∧
    w' = set_thread (set_run_queue q (thread_executor w)) (set_headers hs (set_allocator a w)).
Proof.
  intros Hi (r & w0 & l1 & l2 & Hr & Hs & _)%runs_bind_inv.
  assert (r = ThreadRef ∧ w0 = w) as [-> ->].
  { unfold runs, list_thread_executor in Hr. revert Hr. run_op. rewrite Hi. run_op. by intros [= <- <- _]. }
  apply runs_bind_inv in Hs as (t & w1 & l3 & l4 & Hn & Hs & _).
  apply runs_bind_inv in Hs as (x & w2 & l5 & l6 & (q & Hf & ->)%thread_queue_inv & Hu & _).
  apply runs_lift_inv in Hu as (Hx & -> & _).
  assert (∃ a, w1 = set_headers (<[t := mk_header f ThreadRef None]> (headers w)) (set_allocator a w)) as [a ->].
  { apply runs_bind_inv in Hn as (p0 & w3 & l7 & l8 & (a1 & _ & ->)%runs_zoom_inv & Hn & _).
    apply runs_bind_inv in Hn as (p1 & w4 & l9 & l10 & (a2 & _ & ->)%runs_zoom_inv & Hn & _).
    apply runs_bind_inv in Hn as ([] & w5 & l11 & l12 & [= <- _] & Hret & _).
    apply runs_ret_inv in Hret as (-> & -> & _). by exists a2. }
  eexists t, q, _, a. split; [|split; reflexivity]. unfold queued. cbn.
  pose proof (queued_bound (thread_executor w)) as Hb. cbn in Hf.
  destruct (decide (length (queued (thread_executor w)) = MAX_TASKS)) as [Hl|Hl].
  - rewrite dq_push_front_full in Hf by done. by injection Hf as <- <-.
  - destruct (dq_push_front_ok t (run_queue (thread_executor w))) as (d & Hd & Hi');
      [unfold queued in *; lia|]. rewrite Hd in Hf. by injection Hf as _ <-.
Qed.

(** ** Preservation *)

Lemma alarm_target_mono w w' i r :
  (∀ n r', slots w !! n = Some (Some r') → slots w' !! n = Some (Some r')) →
  (is_Some (get_executor r w) → is_Some (get_executor r w')) →
  alarm_target w i r → alarm_target w' i r.
Proof. intros Hs Hg (Hh & Hsl & Hx). split_and!; auto. Qed.

Lemma alarms_ok_same w w' : alarms w' = alarms w →
  (∀ r, is_Some (get_executor r w) → is_Some (get_executor r w')) →
  alarms_ok w → alarms_ok w'.
Proof.
  unfold alarms_ok, alarms_of. intros Ha Hg Hok. rewrite Ha. eapply Forall_impl; [exact Hok|].
  intros i (r & Ht). exists r. eapply alarm_target_mono; [|by apply Hg|exact Ht].
  unfold slots. by rewrite Ha.
Qed.

Lemma armed_set_thread x w : pender x = pender (thread_executor w) →
  alarm_handle x = alarm_handle (thread_executor w) → armed w → armed (set_thread x w).
Proof.
  intros Hp Ha (Hok & Hpd & h & Hh & Hpos & Hs). split_and!.
  - eapply (alarms_ok_same w); [done| |done]. intros [|p]; [by eexists|done].
  - cbn. congruence.
  - exists h. cbn. by rewrite Ha.
Qed.

Lemma armed_only_run_queue w w' : only_run_queue w w' → armed w → armed w'.
Proof. intros [q ->]. by apply armed_set_thread. Qed.
Lemma armed_only_timer_queue w w' : only_timer_queue w w' → armed w → armed w'.
Proof. intros [q ->]. by apply armed_set_thread. Qed.

Lemma armed_set_event b w : armed w → armed (set_event b w).
Proof.
  intros (Hok & Hpd & Hh). split_and!; [|done|done].
  eapply (alarms_ok_same w); [done| |done]. by intros [].
Qed.

Lemma woken_thread r t x w : get_executor r w = Some x →
  pender (thread_executor (woken r t x w)) = pender (thread_executor w) ∧
  alarm_handle (thread_executor (woken r t x w)) = alarm_handle (thread_executor w) ∧
  timer_queue (thread_executor (woken r t x w)) = timer_queue (thread_executor w) ∧
  (queued (thread_executor (woken r t x w)) ≠ queued (thread_executor w) → r = ThreadRef).
Proof.
  intros Hx. destruct r as [|p].
  - injection Hx as <-. pose proof (woken_get ThreadRef t (thread_executor w) w eq_refl) as Hw.
    injection Hw as ->. done.
  - pose proof (woken_get_other (InterruptRef p) ThreadRef t x w Hx ltac:(done)) as Hw.
    injection Hw as ->. done.
Qed.

Lemma armed_woken r t x w : get_executor r w = Some x → armed w → armed (woken r t x w).
Proof.
  intros Hx (Hok & Hpd & h & Hh & Hpos & Hs).
  destruct (woken_thread r t x w Hx) as (Hp & Ha & _ & _).
  destruct (woken_frame r t x w) as (_ & Hal & _). split_and!.
  - eapply (alarms_ok_same w); [done| |done]. intros r' Hr'.
    destruct (decide (r = r')) as [<-|Hne]; [by rewrite (woken_get r t x w Hx)|].
    by rewrite (woken_get_other r r' t x w Hx Hne).
  - congruence.
  - exists h. rewrite Ha. unfold slots. rewrite Hal. done.
Qed.

Lemma same_tasks_thread w w' : same_tasks w w' → thread_executor w' = thread_executor w.
Proof. intros [Hg _]. specialize (Hg ThreadRef). by injection Hg. Qed.

Lemma armed_renewed n w w' : armed w → renewed n w (thread_executor w) w' → armed w'.
Proof.
  intros (Hok & Hpd & h & Hh & Hpos & Hs) (Hst & _ & _ & Hsl & Hal).
  pose proof (same_tasks_thread w w' Hst) as Hth. rewrite Hh in Hal.
  assert (∀ i r, alarm_target w i r → alarm_target w' i r) as Hmono.
  { intros i r. apply alarm_target_mono; [by rewrite Hsl|]. by rewrite (proj1 Hst). }
  assert (Forall (λ i, ∃ r, alarm_target w' i r) (alarms_of w)) as Hold.
  { eapply Forall_impl; [exact Hok|]. intros i (r & Hr). eauto. }
  split_and!; [|congruence|exists h; by rewrite Hth, Hsl].
  unfold alarms_ok. destruct n as [e|]; [case_decide|]; rewrite Hal; [|done..].
  constructor; [|done]. exists ThreadRef. split_and!; [done|by rewrite Hsl|by eexists].
Qed.

(** The alarm that is set comes in time. *)
Lemma renewed_alarm_by e e' w w' : armed w → renewed (Some e) w (thread_executor w) w' →
  length (alarms_of w) < N_ALARM_ITEMS → (e ≤ e')%Z → alarm_by w' e'.
Proof.
  intros (_ & _ & h & Hh & Hpos & Hs) (Hst & _ & _ & Hsl & Hal) Hroom He. rewrite Hh in Hal.
  rewrite decide_True in Hal by done. exists (AlarmQueue.item e h). split; [rewrite Hal; by left|].
  split; [|done]. split_and!; [done|by rewrite Hsl|by eexists].
Qed.

Lemma next_timer_inv w n w' l : runs (next_timer ThreadRef) w n w' l →
  w' = w ∧ n = TimerQueue.next_expiration (timer_queue (thread_executor w)).
Proof.
  intros Hr. by destruct (runs_det _ _ _ _ _ _ _ _ (runs_next_timer ThreadRef w _ eq_refl) Hr)
    as (<- & <- & _).
Qed.

Lemma set_next_alarm_inv n w w' l : armed w → runs (set_next_alarm ThreadRef n) w tt w' l →
  renewed n w (thread_executor w) w'.
Proof.
  intros (_ & _ & h & Hh & _) Hr.
  destruct (set_next_alarm_spec n ThreadRef w (thread_executor w) eq_refl) as (w2 & Hr2 & Hren);
    [by eexists|].
  by destruct (runs_det _ _ _ _ _ _ _ _ Hr2 Hr) as (_ & -> & _).
Qed.

Lemma alarm_by_mono w w' e :
  (∀ n r, slots w !! n = Some (Some r) → slots w' !! n = Some (Some r)) →
  (∀ i, i ∈ alarms_of w → i ∈ alarms_of w') → alarm_by w e → alarm_by w' e.
Proof.
  intros Hs Ha (i & Hi & Ht & He). exists i. split_and!; [auto| |done].
  eapply alarm_target_mono; [exact Hs| |exact Ht]. by eexists.
Qed.

(** What the timer interrupt does to the thread executor's alarms. *)
Lemma tick_effect w w' l : armed w → runs on_timer_interrupt w tt w' l →
  armed w' ∧ thread_executor w' = thread_executor w ∧ (event w = true → event w' = true) ∧
  ∀ e, alarm_by w e → event w' = true ∨ alarm_by w' e.
Proof.
  intros (Hok & Hpd & h & Hh & Hpos & Hs) Hr.
  destruct (runs_on_timer_interrupt w Hok) as (w2 & l2 & due & Hr2 & Hst & _ & Hp & Hsl & Hdue & _ & He & Hall).
  destruct (runs_det _ _ _ _ _ _ _ _ Hr2 Hr) as (_ & -> & ->).
  pose proof (same_tasks_thread w w2 Hst) as Hth.
  assert (∀ i r, alarm_target w i r → alarm_target w2 i r) as Hmono.
  { intros i r. apply alarm_target_mono; [by rewrite Hsl|]. by rewrite (proj1 Hst). }
  split_and!; [split_and!|done|done|].
  - unfold alarms_ok in *. rewrite Hp in Hok. apply Forall_app in Hok as [_ Hok].
    eapply Forall_impl; [exact Hok|]. intros i (r & Ht). eauto.
  - congruence.
  - exists h. by rewrite Hth, Hsl.
  - intros e (i & Hi & Ht & Hie). rewrite Hp, elem_of_app in Hi. destruct Hi as [Hi|Hi].
    + left. specialize (Hall i ThreadRef (thread_executor w) Hi Ht eq_refl).
      unfold pended in Hall. by rewrite Hpd in Hall.
    + right. exists i. eauto.
Qed.

Lemma handler_armed w w' : handler_step w w' → armed w → armed w'.
Proof.
  intros (Hth & _ & Ha & Hs & Hok') (Hok & Hpd & h & Hh & Hpos & Hsl).
  split_and!; [auto|congruence|exists h; rewrite Hth; auto].
Qed.

(** Task bodies keep the alarm of the thread executor in order. *)
Hypothesis poll_armed : ∀ f t w a w' l, armed w →
  runs (fut_poll f (mk_waker t TASK_VTABLE)) w a w' l → armed w'.

Lemma armed_set_headers hs w : armed w → armed (set_headers hs w).
Proof.
  intros (Hok & Hpd & Hh). split_and!; [|done|done].
  eapply (alarms_ok_same w); [done| |done]. by intros [].
Qed.

Lemma read_header_inv t w h w' l : runs (read_header t) w h w' l → w' = w.
Proof.
  intros (w1 & w2 & l1 & l2 & Hg & Hl & _)%runs_bind_inv. injection Hg as <- <- _.
  by apply runs_lift_inv in Hl as (_ & -> & _).
Qed.

(** A poll: the body runs, and headers are written before and after. *)
Lemma poll_task_inv t w w' l : runs (poll_task fut_poll t) w tt w' l →
  ∃ h a w1 l1 hs, runs (fut_poll (fut_ref h) (mk_waker t TASK_VTABLE))
      (set_headers (<[t := mk_header (fut_ref h) (executor h) None]> (headers w)) w) a w1 l1 ∧
    w' = set_headers hs w1.
Proof.
  intros (h & w1 & l1 & l2 & ->%read_header_inv & Hr & _)%runs_bind_inv.
  apply runs_bind_inv in Hr as ([] & w2 & l3 & l4 & [= <- _] & Hr & _).
  apply runs_bind_inv in Hr as (r & w3 & l5 & l6 & Hp & Hr & _).
  apply runs_bind_inv in Hr as (h' & w4 & l7 & l8 & ->%read_header_inv & [= <- _] & _).
  apply runs_bind_inv in Hp as (a & w5 & l9 & l10 & Hf & Hret & _).
  assert (w3 = w5) as ->.
  { destruct a as [[[]|] f']; [done|]. by apply runs_ret_inv in Hret as (_ & -> & _). }
  eexists h, a, _, _, _. split; [exact Hf|done].
Qed.

Lemma poll_task_armed t w w' l : armed w → runs (poll_task fut_poll t) w tt w' l → armed w'.
Proof using PL poll_armed.
  intros Hw (h & a & w1 & l1 & hs & Hf & ->)%poll_task_inv.
  apply armed_set_headers. eapply poll_armed; [|exact Hf]. by apply armed_set_headers.
Qed.

(** ** Wake-ups *)

Lemma prefix_elem (l l' : list TaskRef) p : l `prefix_of` l' → p ∈ l → p ∈ l'.
Proof. intros [k ->] Hp. apply elem_of_app. by left. Qed.

Lemma thread_woken r t x w : get_executor r w = Some x →
  thread_executor (woken r t x w) = thread_executor w ∧ r ≠ ThreadRef ∨
  r = ThreadRef ∧ x = thread_executor w ∧ thread_executor (woken r t x w) = pushed t x.
Proof.
  intros Hx. destruct r as [|n].
  - right. pose proof (woken_get ThreadRef t x w Hx) as Hw. injection Hw as Hw. by injection Hx as <-.
  - left. pose proof (woken_get_other (InterruptRef n) ThreadRef t x w Hx ltac:(done)) as Hw.
    injection Hw as Hw. done.
Qed.

(** A step of the loop leaves the headers and what the bodies share alone; tasks join the
    run queue at its end and leave it at its front, to be polled. *)
Definition queue_step (s s' : Pc * World) : Prop :=
  let l := queued (thread_executor s.2) in let l' := queued (thread_executor s'.2) in
  (l `prefix_of` l' ∧ ∀ p, s.1 = Polling p → s'.1 = Polling p ∨ s'.1 = Update p) ∨
  s.1 = Pop ∧ ∃ t, s'.1 = Polling t ∧ l = t :: l'.

Lemma push_tasks_effect ts : ∀ w w' l, runs (op_for_each (push_task ThreadRef) ts) w tt w' l →
  queued (thread_executor w) `prefix_of` queued (thread_executor w').
Proof.
  induction ts as [|t ts IH]; intros w w' l Hr.
  { by apply runs_ret_inv in Hr as (_ & -> & _). }
  apply runs_bind_inv in Hr as ([] & w1 & l1 & l2 & Hpush & Hr & _). etrans; [|by eapply IH].
  apply runs_bind_inv in Hpush as (a & w2 & l3 & l4 & (q & Hf & ->)%thread_queue_inv & Hu & _).
  apply runs_lift_inv in Hu as (_ & -> & _). unfold queued. cbn.
  destruct (dq_push_back_cases t (run_queue (thread_executor w))) as [(_ & d & Hd & Hi)|[_ Hd]];
    rewrite Hd in Hf; injection Hf as _ <-; [|done]. rewrite Hi. by eexists.
Qed.

Lemma only_timers_effect w w' : only_timer_queue w w' →
  user w' = user w ∧ headers w' = headers w ∧ queued (thread_executor w') = queued (thread_executor w).
Proof. by intros [q ->]. Qed.

Lemma pop_effect w o w' l : runs (on_run_queue ThreadRef dq_pop_front) w o w' l →
  user w' = user w ∧ headers w' = headers w ∧
  match o with
  | Some t => queued (thread_executor w) = t :: queued (thread_executor w')
  | None => w' = w ∧ queued (thread_executor w) = []
  end.
Proof.
  intros (q & Hpop & ->)%thread_queue_inv. split_and!; [done..|]. unfold queued. cbn.
  destruct (dq_pop_front_cases (run_queue (thread_executor w))) as [[Hi Hd]|(y & d & Hd & Hi)];
    rewrite Hd in Hpop; injection Hpop as <- <-; [|done]. split; [|done]. by destruct w as [??? []].
Qed.

Lemma loop_step_effect s s' : loop_step s s' → armed s.2 →
  user s'.2 = user s.2 ∧ headers s'.2 = headers s.2 ∧ queue_step s s' ∧
  ∀ p, s.1 = Polling p → s'.1 = Polling p.
Proof.
  intros Hst Harm. unfold queue_step.
  destruct Hst as [w w' l Hr|w w' l Hr|w n w' l Hr|n w u w' l Hr|u w w' l Hr|t w w' l Hr|w w' l Hr|
    t w w' l Hr|w n w' l Hr|n w w' l Hr|pc w w' l Hr|pc t w w' l Hr]; cbn [fst snd] in *.
  - injection Hr as _ <- _. by split_and!; [..|left|].
  - injection Hr as _ <- _. by split_and!; [..|left|].
  - injection Hr as _ <- _. by split_and!; [..|left|].
  - destruct (only_timers_effect w w') as (-> & -> & ->); [by eapply dequeue_inv|]. by split_and!; [..|left|].
  - destruct (enqueue_inv _ _ _ _ Hr) as [q Hq]. split_and!; [by rewrite Hq..| |done]. left.
    split; [by eapply push_tasks_effect|done].
  - apply pop_effect in Hr as (-> & -> & Hq). split_and!; [done..| |done]. right. split; [done|]. by exists t.
  - apply pop_effect in Hr as (_ & _ & -> & _). by split_and!; [..|left|].
  - destruct (only_timers_effect w w') as (-> & -> & ->); [by eapply update_inv|]. by split_and!; [..|left|].
  - apply next_timer_inv in Hr as [-> _]. by split_and!; [..|left|].
  - destruct (set_next_alarm_inv n w w' l Harm Hr) as (Hst & _). pose proof (same_tasks_thread _ _ Hst) as ->.
    destruct Hst as (_ & -> & -> & _). by split_and!; [..|left|].
  - destruct (runs_on_timer_interrupt w (proj1 Harm)) as (w2 & l2 & due & Hr2 & Hst & _).
    destruct (runs_det _ _ _ _ _ _ _ _ Hr2 Hr) as (_ & -> & _).
    pose proof (same_tasks_thread _ _ Hst) as ->. destruct Hst as (_ & -> & -> & _).
    split_and!; [done..| |done]. left. split; [done|]. by left.
  - pose proof Hr as (h & x & _ & Hx & -> & _)%wake_header_inv.
    destruct (woken_frame (executor h) t x w) as (_ & _ & -> & -> & _). split_and!; [done..| |done].
    left. split; [|by left].
    destruct (thread_woken (executor h) t x w Hx) as [[-> _]|(_ & -> & ->)]; [done|].
    rewrite queued_pushed. by eexists.
Qed.

Lemma queue_step_elem s s' p : queue_step s s' → p ∈ queued (thread_executor s.2) →
  p ∈ queued (thread_executor s'.2) ∨ s'.1 = Polling p.
Proof.
  intros [[Hpre _]|(_ & t & Ht & Hl)] Hp; [left; by eapply prefix_elem|].
  rewrite Hl in Hp. apply elem_of_cons in Hp as [->|]; [by right|by left].
Qed.

(** What it takes for the loop to wait with tasks in the queue: it waited before. *)
Lemma loop_step_waiting s s' : loop_step s s' → armed s.2 → waiting s'.1 →
  queued (thread_executor s'.2) ≠ [] → waiting s.1 ∧ (event s.2 = true → event s'.2 = true).
Proof.
  intros Hst Harm Hw Hne.
  destruct Hst as [w w' l Hr|w w' l Hr|w n w' l Hr|n w u w' l Hr|u w w' l Hr|t w w' l Hr|w w' l Hr|
    t w w' l Hr|w n w' l Hr|n w w' l Hr|pc w w' l Hr|pc t w w' l Hr]; cbn [fst snd] in *; try done.
  - split; [done|]. revert Hr. unfold runs, event_fetch_and_clear_local. run_op. by intros [= -> _ _].
  - by apply pop_effect in Hr as (_ & _ & -> & Hq).
  - by apply next_timer_inv in Hr as [-> _].
  - destruct (set_next_alarm_inv n w w' l Harm Hr) as (_ & -> & _). done.
  - by destruct (tick_effect w w' l Harm Hr) as (_ & _ & He & _).
  - apply wake_inv in Hr as (r & x & _ & ->). by destruct (woken_frame r t x w) as (_ & _ & _ & _ & _ & He).
Qed.

Lemma armed_loop_step s s' : loop_step s s' → armed s.2 → armed s'.2.
Proof.
  intros Hst Ha.
  destruct Hst as [w w' l Hr|w w' l Hr|w n w' l Hr|n w u w' l Hr|u w w' l Hr|t w w' l Hr|w w' l Hr|
    t w w' l Hr|w n w' l Hr|n w w' l Hr|pc w w' l Hr|pc t w w' l Hr]; cbn [fst snd] in *.
  - injection Hr as _ <- _. by apply armed_set_event.
  - injection Hr as _ <- _. by apply armed_set_event.
  - by injection Hr as _ <- _.
  - eapply armed_only_timer_queue; [by eapply dequeue_inv|done].
  - eapply armed_only_run_queue; [by eapply enqueue_inv|done].
  - apply thread_queue_inv in Hr as (q & _ & ->). by apply armed_set_thread.
  - apply thread_queue_inv in Hr as (q & _ & ->). by apply armed_set_thread.
  - eapply armed_only_timer_queue; [by eapply update_inv|done].
  - by apply next_timer_inv in Hr as [-> _].
  - eapply armed_renewed; [done|by eapply set_next_alarm_inv].
  - by destruct (tick_effect w w' l Ha Hr).
  - apply wake_inv in Hr as (r & x & Hx & ->). by apply armed_woken.
Qed.

Lemma elem_not_nil t (l : list TaskRef) : t ∈ l → l ≠ [].
Proof. by intros Ht ->; apply elem_of_nil in Ht. Qed.

(** A task stays in the queue, and noticed, until it is popped. *)
Lemma flagged_loop t s s' : loop_step s s' → armed s.2 → ¬ (s.1 = Pop ∧ s'.1 = Polling t) →
  flagged t s → flagged t s'.
Proof.
  intros Hst Ha Hno [Hq He]. destruct (loop_step_effect s s' Hst Ha) as (_ & _ & Hqs & _).
  assert (t ∈ queued (thread_executor s'.2)) as Hq'.
  { destruct Hqs as [[Hp _]|(Hpop & t' & Ht' & Hl)]; [by eapply prefix_elem|].
    rewrite Hl in Hq. apply elem_of_cons in Hq as [->|]; [|done]. by destruct Hno. }
  split; [done|]. intros Hw.
  destruct (loop_step_waiting s s' Hst Ha Hw) as [Hw0 Hev]; [by eapply elem_not_nil|auto].
Qed.

Lemma kernel_spawn_effect f lay w w' l : initialised w = true → runs (kernel_spawn f lay) w tt w' l →
  (armed w → armed w') ∧ event w' = event w ∧ user w' = user w ∧ alarms w' = alarms w ∧
  timers (thread_executor w') = timers (thread_executor w) ∧
  ∃ t, queued (thread_executor w') = t :: queued (thread_executor w) ∧
    headers w' = <[t := mk_header f ThreadRef None]> (headers w).
Proof.
  intros Hi Hr. destruct (kernel_spawn_inv f lay w w' l Hi Hr) as (t & q & hs & a & Hq & -> & ->).
  split_and!; [|done..|by exists t]. intros Ha. apply armed_set_thread; [done|done|].
  destruct Ha as (Hok & Hp & Hh). split_and!; [|done|done].
  eapply (alarms_ok_same w); [done| |done]. by intros [].
Qed.

(** Waking a task whose executor has room puts it into the queue, noticed. *)
Lemma wake_flags t h pc w : armed w → headers w !! t = Some h → executor h = ThreadRef →
  length (queued (thread_executor w)) < MAX_TASKS →
  ∃ w' l, runs (vtable_wake_by_ref t) w tt w' l ∧ armed w' ∧ event w' = true ∧ flagged t (pc, w').
Proof.
  intros Ha Hh He Hl. pose proof (runs_wake_by_ref t h w (thread_executor w) Hh ltac:(by rewrite He)) as Hr.
  rewrite He in Hr. eexists _, _. split; [exact Hr|].
  assert (event (woken ThreadRef t (thread_executor w) w) = true) as Hev.
  { destruct Ha as (_ & Hp & _). unfold woken, after_pend. by rewrite Hp. }
  split; [by apply armed_woken|]. split; [done|]. split; [|done]. cbn [snd].
  destruct (thread_woken ThreadRef t (thread_executor w) w eq_refl) as [[_ Hne]|(_ & _ & ->)]; [done|].
  rewrite queued_pushed, decide_True by done. apply elem_of_app. right. by left.
Qed.

(** Task bodies take nothing out of the run queue. *)
Hypothesis poll_queue : ∀ f t w a w' l t', armed w →
  runs (fut_poll f (mk_waker t TASK_VTABLE)) w a w' l →
  t' ∈ queued (thread_executor w) → t' ∈ queued (thread_executor w').

Lemma poll_task_queue t w w' l t' : armed w → runs (poll_task fut_poll t) w tt w' l →
  t' ∈ queued (thread_executor w) → t' ∈ queued (thread_executor w').
Proof using PL poll_queue.
  intros Ha Hr Hq. destruct (poll_task_inv t w w' l Hr) as (h & a & w1 & l1 & hs & Hf & ->).
  eapply (poll_queue _ _ _ _ _ _ t' _ Hf). done.
  Unshelve. by apply armed_set_headers.
Qed.

(** The loop has not popped [t]. *)
Definition unpopped t (s s' : Pc * World) : Prop := kstep s s' ∧ ¬ (s.1 = Pop ∧ s'.1 = Polling t).

Lemma flagged_step t s s' : unpopped t s s' → armed s.2 → flagged t s → armed s'.2 ∧ flagged t s'.
Proof using PL poll_armed poll_queue.
  intros [Hst Hno] Ha Hf. destruct Hst as [s s' Hst|t' w w' l Hr|pc f lay w w' l Hi Hr|pc w w' Hst]; cbn [fst snd] in *.
  - split; [by eapply armed_loop_step|by eapply flagged_loop].
  - split; [by eapply poll_task_armed|]. split; [|done]. eapply poll_task_queue; [done..|apply Hf].
  - destruct (kernel_spawn_effect f lay w w' l Hi Hr) as (Ha' & He & _ & _ & _ & t0 & Hq & _).
    split; [by apply Ha'|]. destruct Hf as [Hin Hev]. split; cbn [fst snd] in *; [rewrite Hq; by right|by rewrite He].
  - split; [by eapply handler_armed|]. destruct Hst as (Hth & He & _), Hf as [Hin Hev].
    split; cbn [fst snd] in *; [by rewrite Hth|auto].
Qed.

Lemma flagged_steps t s s' : rtc (unpopped t) s s' → armed s.2 → flagged t s → armed s'.2 ∧ flagged t s'.
Proof using PL poll_armed poll_queue.
  induction 1 as [s|s s1 s' Hst Hrest IH]; [done|]. intros Ha Hf.
  destruct (flagged_step t s s1 Hst Ha Hf). by apply IH.
Qed.

(** A flag that is set is found, and another run begins. *)
Lemma event_starts_run w : event w = true → ∃ w', runs event_fetch_and_clear_local w true w' [] ∧
  loop_step (AtEvent, w) (Collect, w') ∧ queued (thread_executor w') = queued (thread_executor w).
Proof.
  intros He. exists (set_event false w).
  assert (runs event_fetch_and_clear_local w true (set_event false w) []) as Hr.
  { unfold runs, event_fetch_and_clear_local. run_op. by rewrite He. }
  split_and!; [done|by eapply step_event|done].
Qed.

(** C1: no wake-up of the thread executor is lost.  Waking one of its tasks, when
    the run queue has room, puts the task into the queue and sets the event flag.
    From then on (as from start-up, when the flag is set), however the loop, the
    polls of other tasks, interrupts, wake-ups and spawns interleave (also between
    testing and clearing the flag and looking at the queues), as long as the loop
    has not popped the task it is in the queue, and whenever the loop is back at
    its event the flag is set: the loop does not go idle but starts another
    run.  (A task that is spawned while the loop waits is not woken, and nothing
    is claimed of it.) *)
Theorem no_lost_wakeup t :
  (∀ h w, armed w → headers w !! t = Some h → executor h = ThreadRef →
    length (queued (thread_executor w)) < MAX_TASKS →
    ∃ w' l, runs (vtable_wake_by_ref t) w tt w' l ∧ armed w' ∧ t ∈ queued (thread_executor w') ∧ event w' = true) ∧
  (∀ pc w0 w, armed w0 → t ∈ queued (thread_executor w0) → event w0 = true →
    rtc (unpopped t) (pc, w0) (AtEvent, w) →
    t ∈ queued (thread_executor w) ∧ event w = true ∧
    ∃ w', runs event_fetch_and_clear_local w true w' [] ∧ kstep (AtEvent, w) (Collect, w') ∧
      queued (thread_executor w') = queued (thread_executor w)).
Proof using PL poll_armed poll_queue.
  split.
  - intros h w Ha Hh He Hl. destruct (wake_flags t h AtEvent w Ha Hh He Hl) as (w' & l & Hr & Ha' & Hev & Hq & _).
    by exists w', l.
  - intros pc w0 w Ha Hq He Hst.
    destruct (flagged_steps t _ _ Hst Ha (conj Hq (λ _, He))) as (_ & Hq' & He').
    specialize (He' I). split_and!; [done..|].
    destruct (event_starts_run w He') as (w' & Hr & Hs & Hq2). exists w'. split_and!; [done|by apply step_loop|done].
Qed.

(** ** Timers *)

Definition kept (s : Pc * World) : Prop := armed s.2 ∧ timers_kept s.

Lemma kept_no_event w w' l : runs event_fetch_and_clear_local w false w' l →
  kept (AtEvent, w) → kept (AtEvent, w').
Proof.
  intros Hr (Ha & Ht). unfold runs, event_fetch_and_clear_local in Hr. revert Hr. run_op.
  intros [= Hev <- _]. unfold kept, timers_kept in *. cbn in *.
  split; [by apply armed_set_event|].
  intros i Hi. destruct (Ht i Hi) as [|Hby]; [congruence|]. right.
  eapply alarm_by_mono; [| |exact Hby]; done.
Qed.

(** What an interrupt must not do to keep the invariants. *)
Lemma kept_interrupt pc w w' : armed w' →
  timers (thread_executor w') = timers (thread_executor w) →
  (event w = true → event w' = true) →
  (∀ e, alarm_by w e → event w' = true ∨ alarm_by w' e) → kept (pc, w) → kept (pc, w').
Proof.
  intros Ha Htq He Hby (_ & Ht). unfold kept, timers_kept in *. cbn in *.
  rewrite Htq. split; [done|]. destruct pc; try done.
  intros i Hi. destruct (Ht i Hi); [left|]; auto.
Qed.

Lemma kept_wake pc t w w' l : runs (vtable_wake_by_ref t) w tt w' l →
  kept (pc, w) → kept (pc, w').
Proof.
  intros (r & x & Hx & ->)%wake_inv Hk.
  destruct (woken_thread r t x w Hx) as (_ & _ & Htq & _).
  destruct (woken_frame r t x w) as (_ & Hal & _ & _ & _ & Hev).
  eapply (kept_interrupt pc w); [|by unfold timers; rewrite Htq|done| |done].
  - apply armed_woken; [done|by destruct Hk].
  - intros e Hby. right.
    eapply alarm_by_mono; [| |exact Hby]; [unfold slots; by rewrite Hal|unfold alarms_of; by rewrite Hal].
Qed.

Lemma kept_tick pc w w' l : runs on_timer_interrupt w tt w' l → kept (pc, w) → kept (pc, w').
Proof.
  intros Hr Hk. destruct (tick_effect w w' l (proj1 Hk) Hr) as (Ha' & Hth & He & Hby).
  eapply (kept_interrupt pc w); rewrite ?Hth; auto.
Qed.

Lemma kept_handler pc w w' : handler_step w w' → kept (pc, w) → kept (pc, w').
Proof.
  intros Hs Hk. pose proof (handler_armed _ _ Hs (proj1 Hk)) as Ha'.
  destruct Hs as (Hth & He & Hal & Hsl & _).
  eapply (kept_interrupt pc w); rewrite ?Hth; eauto using alarm_by_mono.
Qed.

Lemma kept_spawn pc f lay w w' l : initialised w = true → runs (kernel_spawn f lay) w tt w' l →
  kept (pc, w) → kept (pc, w').
Proof.
  intros Hi Hr Hk. destruct (kernel_spawn_effect f lay w w' l Hi Hr) as (Ha & He & _ & Hal & Htq & _).
  eapply (kept_interrupt pc w); [apply Ha, Hk|done|by rewrite He| |done].
  intros e Hby. right. eapply alarm_by_mono; [| |exact Hby]; [unfold slots; by rewrite Hal|unfold alarms_of; by rewrite Hal].
Qed.

Lemma kept_next_timer w n w' l : runs (next_timer ThreadRef) w n w' l →
  kept (Renew, w) → kept (SetAlarm n, w').
Proof.
  intros [-> ->]%next_timer_inv (Ha & _). split; [done|]. cbn. intros i Hi.
  pose proof (TimerQueue.next_expiration_spec (timer_queue (thread_executor w))) as Hnext.
  destruct (TimerQueue.next_expiration _) as [e|].
  - destruct Hnext as (j & _ & _ & HF). rewrite Forall_forall in HF. eauto.
  - unfold timers in Hi. rewrite Hnext in Hi. by apply elem_of_nil in Hi.
Qed.

Lemma kept_set_alarm n w w' l : runs (set_next_alarm ThreadRef n) w tt w' l →
  length (alarms_of w) < N_ALARM_ITEMS → kept (SetAlarm n, w) → kept (AtEvent, w').
Proof.
  intros Hr Hroom (Ha & Ht). pose proof (set_next_alarm_inv n w w' l Ha Hr) as Hren.
  pose proof (armed_renewed n w w' Ha Hren) as Ha'.
  assert (thread_executor w' = thread_executor w) as Hth by (apply same_tasks_thread; by destruct Hren).
  unfold kept, timers_kept in *. cbn in *. rewrite Hth.
  split; [done|]. intros i Hi. right. destruct (Ht i Hi) as (e & -> & He).
  by apply (renewed_alarm_by e _ w).
Qed.

Lemma kept_loop_step s s' : loop_step s s' → alarm_room s → kept s → kept s'.
Proof.
  intros Hst Hroom Hk. pose proof (armed_loop_step s s' Hst (proj1 Hk)) as Ha'.
  destruct Hst; try by split.
  - by eapply kept_no_event.
  - by eapply kept_next_timer.
  - eapply kept_set_alarm; [done| |done]. by apply (Hroom n).
  - by eapply kept_tick.
  - by eapply kept_wake.
Qed.

Lemma kept_step s s' : kstep_room s s' → kept s → kept s'.
Proof using PL poll_armed.
  intros [Hst Hroom] Hk. destruct Hst as [s s' Hst|t w w' l Hr|pc f lay w w' l Hi Hr|].
  - by eapply kept_loop_step.
  - destruct Hk as (Ha & _). split; [by eapply poll_task_armed|done].
  - by eapply kept_spawn.
  - by eapply kept_handler.
Qed.

Lemma kept_steps s s' : rtc kstep_room s s' → kept s → kept s'.
Proof using PL poll_armed. induction 1; eauto using kept_step. Qed.

(** The loop starts with the event flag set. *)
Lemma kept_start w : armed w → event w = true → kept (AtEvent, w).
Proof. intros Ha He. split; [done|]. intros i Hi. by left. Qed.

Lemma due_alarm_pends w e : armed w → alarm_by w e → (e ≤ ticks w)%Z →
  ∃ w' l, runs on_timer_interrupt w tt w' l ∧ event w' = true.
Proof.
  intros (Hok & Hpd & _) (i & Hi & Ht & Hie) He.
  destruct (runs_on_timer_interrupt w Hok)
    as (w' & l & due & Hr & _ & _ & Hp & _ & _ & Hlate & _ & Hall).
  exists w', l. split; [done|]. rewrite Hp, elem_of_app in Hi. destruct Hi as [Hi|Hi].
  - specialize (Hall i ThreadRef (thread_executor w) Hi Ht eq_refl).
    unfold pended in Hall. by rewrite Hpd in Hall.
  - rewrite Forall_forall in Hlate. specialize (Hlate i Hi). lia.
Qed.

(** C4: no timer in the timer queue is forgotten as long as the alarm queue has
    room whenever the loop sets an alarm.  However the loop, polls, interrupts,
    wake-ups and spawns interleave, whenever the loop is at its event and a timer
    has expired, the event flag is set already or the next timer interrupt sets
    it.  When the alarm queue is full the alarm is dropped, and the timer is
    forgotten: [full_alarm_queue_forgets]. *)
Theorem no_forgotten_timer s w i : rtc kstep_room s (AtEvent, w) → kept s →
  i ∈ timers (thread_executor w) → (TimerQueue.expires_at i ≤ ticks w)%Z →
  event w = true ∨ ∃ w' l, runs on_timer_interrupt w tt w' l ∧ event w' = true.
Proof using PL poll_armed.
  intros Hst Hk Hi He. destruct (kept_steps _ _ Hst Hk) as (Ha & Ht).
  destruct (Ht i Hi) as [|Hby]; [by left|right]. by eapply due_alarm_pends.
Qed.

(** Every run pushes another alarm, and the alarms of earlier runs stay until
    their ticks come.  With the queue full of later alarms, the alarm for a timer
    is dropped, and the interrupt at which it should have come tells nobody. *)
Theorem full_alarm_queue_forgets e w w1 l : armed w → event w = false →
  length (alarms_of w) = N_ALARM_ITEMS → Forall (λ i, ticks w < AlarmQueue.expires_at i)%Z (alarms_of w) →
  runs (set_next_alarm ThreadRef (Some e)) w tt w1 l →
  ∃ w2, runs on_timer_interrupt w1 tt w2 [] ∧ event w2 = false ∧ thread_executor w2 = thread_executor w.
Proof.
  intros Ha Hev Hlen Hlate Hr. pose proof (set_next_alarm_inv _ _ _ _ Ha Hr) as Hren.
  pose proof (armed_renewed _ _ _ Ha Hren) as [Hok _].
  destruct Hren as (Hst & He & Ht & _ & Hal), Ha as (_ & _ & h & Hh & _). rewrite Hh, decide_False in Hal by lia.
  eexists. split; [apply runs_tick_nothing_due|].
  - eapply Forall_impl; [exact Hok|]. by intros i (r & Hpos & _).
  - by rewrite Ht, Hal.
  - split; [by rewrite <-Hev|]. exact (same_tasks_thread _ _ Hst).
Qed.

(** ** One turn of the loop

    A turn that [thread_turn] describes as one operation is steps of the loop and
    polls. *)
Lemma advance_steps fuel : ∀ w w' l, runs (advance_runnable_tasks fut_poll fuel ThreadRef) w (Some tt) w' l →
  rtc kstep (Pop, w) (Renew, w').
Proof.
  induction fuel as [|fuel IH]; intros w w' l Hr; [done|].
  apply runs_bind_inv in Hr as (o & w1 & l1 & l2 & Hp & Hr & _). destruct o as [t|].
  - apply runs_bind_inv in Hr as ([] & w2 & l3 & l4 & Hrun & Hr & _).
    apply runs_bind_inv in Hrun as ([] & w3 & l5 & l6 & Hpoll & Hup & _).
    eapply rtc_l; [eapply step_loop, step_pop, Hp|]. eapply rtc_l; [eapply step_poll, Hpoll|].
    eapply rtc_l; [eapply step_loop, step_update, Hup|]. by eapply IH.
  - apply runs_ret_inv in Hr as (_ & -> & _). by eapply rtc_once, step_loop, step_pop_none.
Qed.

Lemma turn_steps fuel w w' l : runs (thread_turn fut_poll fuel) w (Some tt) w' l →
  rtc kstep (AtEvent, w) (AtEvent, w').
Proof.
  intros (b & w1 & l1 & l2 & Hev & Hr & _)%runs_bind_inv. destruct b; cbn [negb] in Hr.
  2: { apply runs_ret_inv in Hr as (_ & -> & _). by eapply rtc_once, step_loop, step_no_event. }
  apply runs_bind_inv in Hr as ([] & w2 & l3 & l4 & Hc & Hr & _).
  apply runs_bind_inv in Hc as (v & w3 & l5 & l6 & Hc & He & _).
  apply runs_bind_inv in Hc as (n & w4 & l7 & l8 & Hn & Hd & _).
  apply runs_bind_inv in Hr as (o & w5 & l9 & l10 & Hadv & Hr & _).
  destruct o as [[]|]; [|by apply runs_ret_inv in Hr as (? & _ & _)].
  apply runs_bind_inv in Hr as ([] & w6 & l11 & l12 & Hren & Hret & _). apply runs_ret_inv in Hret as (_ & -> & _).
  apply runs_bind_inv in Hren as (e & w7 & l13 & l14 & Hnext & Hset & _).
  eapply rtc_l; [eapply step_loop, step_event, Hev|]. eapply rtc_l; [eapply step_loop, step_now, Hn|].
  eapply rtc_l; [eapply step_loop, step_dequeue, Hd|]. eapply rtc_l; [eapply step_loop, step_enqueue, He|].
  etrans; [by eapply advance_steps|].
  eapply rtc_l; [eapply step_loop, step_renew, Hnext|]. by eapply rtc_once, step_loop, step_set_alarm.
Qed.
End Scheduling.

(** ** Starting up *)
Section Boot.
Context `{HP : Profile} `{PL : PlatformLaws}.

Lemma runs_zoom_alarms {A} (m : Op KEvent _ A) (w : World) a q :
  runs m (alarms w) a q [] → runs (modify_alarm_queue m) w a (set_alarms q w) [].
Proof. apply (runs_zoom alarms set_alarms). Qed.

(** A new interrupt executor gets the next alarm; its node is initialised and
    enabled. *)
Lemma runs_allocate_executor (node : Node) (w : World) : get_prio node ≠ 0%Z → length (slots w) < N_ALARM_HANDLES →
  size (lm_map (executors w)) < N_EXECUTORS →
  ∃ a m, let h := Z.of_nat (length (slots w)) in let w' := set_executors m (set_alarms a w) in
    runs (allocate_interrupt_executor node) w (get_prio node) w' [NodeInit node; NodeEnable node] ∧
    slots w' = slots w ++ [None] ∧ alarms_of w' = alarms_of w ∧
    get_executor (InterruptRef (get_prio node)) w' = Some (interrupt_executor_new node (Some h)).
Proof.
  intros Hp Hs Hm.
  destruct (AlarmQueue.try_allocate_handle_spec (E := KEvent) (alarms w)) as [(_ & a & Ha & Hsla & Hal)|[Hl _]];
    [unfold N_ALARM_HANDLES; lia| |change (length (slots w) = N_ALARM_HANDLES) in Hl; lia].
  change (AlarmQueue.slots (alarms w)) with (slots w) in Ha, Hsla.
  set (y := interrupt_executor_new node (Some (Z.of_nat (length (slots w))))).
  destruct (lm_insert_ok (get_prio node) y (executors w)) as (m & Hi & Hmap); [by right|].
  exists a, m. split_and!; [|exact Hsla|exact Hal|cbn; by rewrite lm_get_spec, Hmap, lookup_insert_eq].
  unfold allocate_interrupt_executor.
  eapply runs_log; [eapply (runs_bind _ _ _ (Some (get_prio node))); [|by apply runs_lift]|apply app_nil_r].
  unfold list_allocate. rewrite (proj2 (Z.eqb_neq _ _)) by exact Hp.
  eapply runs_bind_nil; [by apply runs_zoom_alarms|]. eapply runs_bind_nil; [op_prim|].
  change (executors (set_alarms a w)) with (executors w). fold y. rewrite Hi.
  eapply runs_bind_nil; [op_prim|].
  eapply (runs_bind _ _ _ tt _ [NodeInit node]); [op_prim|].
  eapply (runs_bind _ _ _ tt _ [NodeEnable node] _ _ []); [op_prim|apply runs_ret].
Qed.

(** Starting it registers the callback of its alarm and asks its node for an
    interrupt. *)
Lemma runs_start_interrupt_executor (p h : Z) (node : Node) (x : BaseExecutor) (w : World) :
  get_executor (InterruptRef p) w = Some x → alarm_handle x = Some h →
  pender x = InterruptExecutorPender node → (0 ≤ h)%Z → Z.to_nat h < length (slots w) →
  ∃ a, let w' := set_alarms a w in
    runs (start_interrupt_executor p) w tt w' [NodeSetRequest node] ∧
    slots w' = <[Z.to_nat h := Some (InterruptRef p)]> (slots w) ∧ alarms_of w' = alarms_of w.
Proof.
  intros Hx Hh Hn Hpos Hlt.
  pose proof (AlarmQueue.register_callback_spec (E := KEvent) h (InterruptRef p) (alarms w) Hpos) as Hreg.
  rewrite decide_True in Hreg by exact Hlt. set (a := AlarmQueue.mk _ _) in Hreg.
  exists a. split_and!; [|by apply vec_write_iter|done].
  unfold start_interrupt_executor, list_start_interrupt_executor, list_get.
  eapply (runs_bind_nil _ _ _ (InterruptRef p) w).
  { eapply runs_bind_nil; [op_prim|]. eapply (runs_bind_nil _ _ _ x); [|apply runs_ret].
    apply runs_lift. cbn in Hx. by rewrite Hx. }
  unfold start_interrupt. eapply (runs_bind_nil _ _ _ tt (set_alarms a w)).
  - unfold register_alarm_callback. eapply runs_bind_nil; [op_prim|].
    eapply (runs_bind_nil _ _ _ x); [apply runs_lift; by rewrite Hx|]. rewrite Hh.
    by apply runs_zoom_alarms.
  - pose proof (runs_pend_executor (InterruptRef p) x (set_alarms a w) Hx) as Hp.
    unfold after_pend, pend_log in Hp. by rewrite Hn in Hp.
Qed.

(** C33: the start-up sequence (initialise the kernel, fetch the thread executor
    and register its alarm callback) succeeds and leaves the thread executor
    with an alarm that calls it back; the loop starts with the event flag
    set, so that tasks spawned before are run. *)
Theorem boot_arms_thread_executor u :
  ∃ w, runs (init;; r ← list_thread_executor; start_thread;; mret r) (initial_world u) ThreadRef w
    [TimerInit 6; InterruptsEnable; HeapInit heap_start HEAP_SIZE] ∧
    kept (AtEvent, w) ∧ event w = true ∧ initialised w = true.
Proof.
  set (w1 := set_allocator (Bump.new MEMORY_SIZE memory_start)
    (set_alarms AlarmQueue.new (initial_world u))).
  destruct (AlarmQueue.try_allocate_handle_spec (E := KEvent) (alarms w1)) as [(_ & a & Ha & Hsl & Hal)|[Hl _]];
    [unfold N_ALARM_HANDLES; lia| |unfold AlarmQueue.slots in Hl; cbn in Hl; by rewrite vec_new_iter in Hl].
  assert (AlarmQueue.slots (alarms w1) = []) as Hnil by apply vec_new_iter.
  rewrite Hnil in Ha, Hsl. simpl in Ha, Hsl.
  set (x := set_alarm_handle (Some 0%Z) (thread_executor w1)).
  set (w2 := set_initialised true (set_thread x (set_alarms a w1))).
  pose proof (AlarmQueue.register_callback_spec (E := KEvent) 0 ThreadRef a ltac:(done)) as Hreg.
  rewrite Hsl, decide_True in Hreg by (simpl; lia).
  set (a' := AlarmQueue.mk (vec_write 0 (Some ThreadRef) (AlarmQueue.callbacks a)) (AlarmQueue.queue a)).
  exists (set_alarms a' w2). split; [|split; [|by split]].
  - eapply runs_log; [eapply (runs_bind _ _ _ tt w1); [done|]|apply app_nil_r]. eapply (runs_bind_nil _ _ _ ThreadRef w2).
    + unfold list_thread_executor. eapply runs_bind_nil; [op_prim|].
      eapply runs_bind_nil; [|apply runs_ret]. cbn [negb initialised w1].
      eapply runs_bind_nil; [by apply runs_zoom_alarms|].
      eapply runs_bind_nil; [by apply runs_lift|].
      eapply (runs_bind_nil _ _ _ tt (set_thread x (set_alarms a w1))); [done|op_prim].
    + eapply runs_bind_nil; [|apply runs_ret]. unfold start_thread, register_alarm_callback.
      eapply runs_bind_nil; [op_prim|]. eapply runs_bind_nil; [by apply runs_lift|].
      by apply runs_zoom_alarms.
  - apply kept_start; [|done]. split; [|split; [done|]].
    + unfold alarms_ok, alarms_of. cbn. change (AlarmQueue.alarms a') with (AlarmQueue.alarms a).
      rewrite Hal. unfold AlarmQueue.alarms. cbn. by rewrite bh_new_elems.
    + exists 0%Z. split_and!; [done|done|]. unfold slots, AlarmQueue.slots in *. cbn.
      rewrite vec_write_iter by done. by rewrite Hsl.
Qed.

(** [main] as it is spawns nothing: once it has set the kernel up, the timer
    interrupts count ticks (modulo 2^32), and nothing else happens. *)
Lemma many_idle_ticks n : ∀ w : World, alarms_of w = [] → (0 ≤ ticks w < modulus W32)%Z →
  runs (op_for_each (λ _ : nat, on_timer_interrupt) (seq 0 n)) w tt
    (set_ticks ((ticks w + Z.of_nat n) mod modulus W32)%Z w) [].
Proof.
  intros w Ha Ht. generalize 0 as i. revert w Ha Ht. induction n as [|n IH]; intros w Ha Ht i.
  { rewrite Z.add_0_r, Z.mod_small by done. by destruct w. }
  cbn [seq op_for_each].
  eapply runs_bind_nil; [apply runs_tick_nothing_due; rewrite Ha; by constructor|].
  replace (set_ticks ((ticks w + Z.of_nat (S n)) mod modulus W32)%Z w)
    with (set_ticks (((ticks w + 1) mod modulus W32 + Z.of_nat n) mod modulus W32)%Z
      (set_ticks ((ticks w + 1) mod modulus W32)%Z w)).
  - apply (IH (set_ticks _ w)); [done|]. cbn. by apply Z.mod_pos_bound.
  - unfold set_ticks. cbn. f_equal. rewrite Zplus_mod_idemp_l. f_equal. lia.
Qed.

Theorem main_only_ticks u (init_uart_io : Op KEvent World unit) :
  (∀ w, runs init_uart_io w tt w []) →
  ∃ w, runs (main init_uart_io) (initial_world u) tt w [TimerInit 6; InterruptsEnable; HeapInit heap_start HEAP_SIZE] ∧
    ticks w = 0%Z ∧ queued (thread_executor w) = [] ∧
    ∀ n, runs (op_for_each (λ _ : nat, on_timer_interrupt) (seq 0 n)) w tt
      (set_ticks (Z.of_nat n mod modulus W32)%Z w) [].
Proof.
  intros Huart. set (w1 := set_allocator (Bump.new MEMORY_SIZE memory_start)
    (set_alarms AlarmQueue.new (initial_world u))).
  exists w1. split_and!; [|done|apply dq_new_iter|].
  - unfold main. eapply runs_bind_nil; [apply Huart|done].
  - intros n. apply (many_idle_ticks n w1); [|done]. apply bh_new_elems.
Qed.
End Boot.

(** ** An instance

    The loop waits with two sleeping tasks, whose earlier timer has an alarm;
    an interrupt wakes the second task. *)
Module LoopDemo.
Import SleepDemo.
#[local] Instance loop_profile : Profile := true.

Lemma sleep_headers f t (w : World) a w' l : runs (sleep_poll f (mk_waker t TASK_VTABLE)) w a w' l →
  w' = w ∨ ∃ hs, w' = set_headers hs w.
Proof.
  intros Hr. destruct f as [e|]; [|apply runs_ret_inv in Hr as (_ & -> & _); by left].
  apply runs_bind_inv in Hr as (p & w1 & l1 & l2 & Hp & Hr & _).
  assert (w' = w1) as -> by (destruct p; by apply runs_ret_inv in Hr as (_ & -> & _)).
  apply runs_bind_inv in Hp as (n & w2 & l3 & l4 & Hn & Hp & _). injection Hn as <- <- _.
  destruct (Z.leb e (ticks w)); [apply runs_ret_inv in Hp as (_ & -> & _); by left|].
  apply runs_bind_inv in Hp as (t' & w3 & l5 & l6 & Ht & Hp & _).
  apply runs_lift_inv in Ht as (_ & -> & _).
  apply runs_bind_inv in Hp as (h & w4 & l7 & l8 & ->%read_header_inv & Hp & _).
  apply runs_bind_inv in Hp as ([] & w5 & l9 & l10 & Hwr & Hp & _). injection Hwr as <- _.
  apply runs_ret_inv in Hp as (_ & -> & _). right. by eexists.
Qed.

Lemma sleep_armed f t (w : World) a w' l : armed w →
  runs (sleep_poll f (mk_waker t TASK_VTABLE)) w a w' l → armed w'.
Proof. by intros Hw [->|[hs ->]]%sleep_headers; [|apply armed_set_headers]. Qed.

Lemma sleep_queue f t (w : World) a w' l t' : armed w →
  runs (sleep_poll f (mk_waker t TASK_VTABLE)) w a w' l →
  t' ∈ queued (thread_executor w) → t' ∈ queued (thread_executor w').
Proof. by intros _ [->|[hs ->]]%sleep_headers. Qed.

Definition idle_world : World :=
  set_thread (mk_executor dq_new demo_timers None (Some 0%Z) ThreadExecutorPender) demo_world.

Lemma idle_armed : armed idle_world.
Proof.
  split; [|split].
  - constructor; [|constructor]. exists ThreadRef. split; [reflexivity|split; [reflexivity|by eexists]].
  - reflexivity.
  - exists 0%Z. split; [reflexivity|split; [reflexivity|reflexivity]].
Qed.

Lemma idle_kept : kept (AtEvent, idle_world).
Proof.
  split; [exact idle_armed|]. intros i Hi. right. exists (AlarmQueue.item 5 0). split; [by left|split].
  - split; [reflexivity|split; [reflexivity|by eexists]].
  - assert (Forall (λ i, 5 ≤ TimerQueue.expires_at i)%Z (timers (thread_executor idle_world))) as HF
      by (vm_compute; by repeat constructor).
    rewrite Forall_forall in HF. by apply HF.
Qed.

(** The world after the wake-up of the second task. *)
Definition woken_world : World :=
  woken ThreadRef 200%Z (thread_executor idle_world) idle_world.

Lemma wake_step : rtc (kstep_room sleep_poll) (AtEvent, idle_world) (AtEvent, woken_world).
Proof.
  apply rtc_once. split; [|by intros].
  eapply step_loop, step_wake. apply (runs_wake_by_ref 200%Z (sleeping 9 None)); reflexivity.
Qed.

(** The second task is woken; a timer interrupt comes, and a handler spawns
    another task. *)
Definition ticked_world : World := match on_timer_interrupt woken_world with Val (_, w, _) => w | Panic => woken_world end.
Definition spawned : Op KEvent World unit := kernel_spawn (P := sleep_platform) None (mk_layout 8 4).
Definition spawned_world : World := match spawned ticked_world with Val (_, w, _) => w | Panic => ticked_world end.

Lemma spawned_steps : rtc (unpopped sleep_poll 200%Z) (AtEvent, woken_world) (AtEvent, spawned_world).
Proof.
  eapply (rtc_l _ _ (AtEvent, ticked_world)); [split; [|by intros []]|].
  { eapply step_loop, (step_tick _ _ _ []). reflexivity. }
  apply rtc_once. split; [|by intros []].
  eapply (step_spawn _ _ (None : @Fut sleep_platform) (mk_layout 8 4) _ _ []); reflexivity.
Qed.

Lemma no_lost_wakeup_witness : ∃ w1 w' l, runs (vtable_wake_by_ref 200%Z) idle_world tt w1 l ∧
  200%Z ∈ queued (thread_executor w1) ∧
  runs event_fetch_and_clear_local spawned_world true w' [] ∧
  200%Z ∈ queued (thread_executor spawned_world).
Proof.
  destruct (no_lost_wakeup (PL := sleep_laws) sleep_poll sleep_armed sleep_queue 200%Z) as [Hwake Hkeep].
  destruct (Hwake (sleeping 9 None) idle_world idle_armed eq_refl eq_refl) as (w1 & l & Hr & _ & Hq & _);
    [vm_compute; lia|].
  destruct (Hkeep AtEvent woken_world spawned_world) as (Hq' & _ & w' & Hr' & _).
  - apply armed_woken; [reflexivity|exact idle_armed].
  - vm_compute. by left.
  - reflexivity.
  - exact spawned_steps.
  - by exists w1, w', l.
Defined.

Lemma no_forgotten_timer_witness : event woken_world = true ∨
  ∃ w' l, runs on_timer_interrupt woken_world tt w' l ∧ event w' = true.
Proof.
  apply (no_forgotten_timer (PL := sleep_laws) sleep_poll sleep_armed (AtEvent, idle_world) woken_world
    (task_item 5 100%Z) wake_step idle_kept).
  - vm_compute. by repeat constructor.
  - by apply Z.leb_le.
Defined.

Lemma boot_arms_thread_executor_witness : ∃ w : World, kept (AtEvent, w) ∧ event w = true.
Proof.
  destruct (boot_arms_thread_executor (PL := sleep_laws) tt) as (w & _ & Hk & He & _).
  by exists w.
Defined.

Lemma main_only_ticks_witness : ∃ w : World,
  runs (op_for_each (λ _ : nat, on_timer_interrupt) (seq 0 3)) w tt (set_ticks 3 w) [].
Proof.
  destruct (main_only_ticks (PL := sleep_laws) tt (mret tt)) as (w & _ & _ & _ & Hr); [intros w; apply runs_ret|].
  exists w. exact (Hr 3).
Defined.
End LoopDemo.
