(* ===== verification/KernelTyped.v ===== *)
(** * The kernel stays well-typed

    Every reference the kernel holds is good: tasks in queues and timers have
    headers that name the executor they are queued on, headers name executors
    that exist, alarms carry handles that were handed out, callbacks name
    executors that exist.  All operations of the kernel, interrupts and task
    bodies made of such operations keep it so, whatever their order. *)

From S2P Require Import Prelude Heapless WaitQueue Bump Timers Kernel Executor ExecutorProps Scheduling.

Section Typed.
Context `{HP : Profile} `{PL : PlatformLaws}.
Implicit Types (w : World) (x : BaseExecutor) (r : ExecRef) (t : TaskRef).
Abbreviation KOp := (Op KEvent World).

(** Task [t] belongs to executor [r]. *)
Definition task_of r t w : Prop := ∃ h, headers w !! t = Some h ∧ executor h = r.

Definition timer_of r (i : TimerQueue.Item) w : Prop :=
  w_vtable (TimerQueue.waker i) = TASK_VTABLE ∧ task_of r (item_task i) w.

(** A handle that was handed out. *)
Definition handle_ok w (h : Z) : Prop := (0 ≤ h)%Z ∧ Z.to_nat h < length (slots w).

Record typed w : Prop := {
  typed_queue r x t : get_executor r w = Some x → t ∈ queued x → task_of r t w;
  typed_timer r x i : get_executor r w = Some x → i ∈ timers x → timer_of r i w;
  typed_header t h : headers w !! t = Some h → is_Some (get_executor (executor h) w);
  typed_handle r x h : get_executor r w = Some x → alarm_handle x = Some h → handle_ok w h;
  typed_alarms : Forall (λ i, handle_ok w (AlarmQueue.handle i)) (alarms_of w);
  typed_slots n r : slots w !! n = Some (Some r) → is_Some (get_executor r w);
  typed_ticks : (0 ≤ ticks w < modulus W32)%Z;
  typed_memory : headers_allocated w
}.

(** What may change without harm to the references. *)
Record extends w w' : Prop := {
  ext_headers : headers_persist w w';
  ext_executors r : is_Some (get_executor r w) → is_Some (get_executor r w');
  ext_slots : length (slots w) ≤ length (slots w')
}.

Lemma extends_refl w : extends w w.
Proof. constructor; [apply headers_persist_refl|done|done]. Qed.
Lemma extends_trans w1 w2 w3 : extends w1 w2 → extends w2 w3 → extends w1 w3.
Proof. intros [] []. constructor; [by eapply headers_persist_trans|auto|lia]. Qed.

Lemma task_of_persist r t w w' : headers_persist w w' → task_of r t w → task_of r t w'.
Proof. intros Hp (h & Hh & <-). destruct (Hp t h Hh) as (h' & Hh' & He). by exists h'. Qed.
Lemma timer_of_persist r i w w' : headers_persist w w' → timer_of r i w → timer_of r i w'.
Proof. intros Hp [Hv Ht]. split; [done|by eapply task_of_persist]. Qed.

(** What an operation does: typed worlds stay typed and are extended. *)
Definition keeps_typed w w' : Prop := typed w → typed w' ∧ extends w w'.

Lemma typed_keeps_refl w : keeps_typed w w.
Proof. intros Hw. split; [done|apply extends_refl]. Qed.
Lemma typed_keeps_trans w1 w2 w3 : keeps_typed w1 w2 → keeps_typed w2 w3 → keeps_typed w1 w3.
Proof.
  intros H12 H23 H1. destruct (H12 H1) as [H2 He]. destruct (H23 H2) as [H3 He'].
  split; [done|by eapply extends_trans].
Qed.

(** Executors, headers and callbacks as they were. *)
Lemma keeps_same w w' : same_tasks w w' → slots w' = slots w →
  (typed w → ∀ i, i ∈ alarms_of w' → i ∈ alarms_of w ∨ handle_ok w (AlarmQueue.handle i)) →
  (0 ≤ ticks w < modulus W32 → 0 ≤ ticks w' < modulus W32)%Z → keeps_typed w w'.
Proof.
  intros (Hg & Hh & _ & Hm) Hs Ha Ht Hw. specialize (Ha Hw).
  destruct Hw as [Hq Hti Hhd Hhn Hal Hsl Htk [Hwf Hb]].
  assert (headers_persist w w') as Hp by (by apply headers_persist_eq).
  split; [constructor|constructor; [done| |]].
  - intros r x t. rewrite Hg. intros Hx Hin. eapply task_of_persist; eauto.
  - intros r x i. rewrite Hg. intros Hx Hin. eapply timer_of_persist; eauto.
  - intros t h. rewrite Hh, Hg. apply Hhd.
  - intros r x h. rewrite Hg. unfold handle_ok. rewrite Hs. apply Hhn.
  - apply Forall_forall. intros i Hi. unfold handle_ok. rewrite Hs.
    destruct (Ha i Hi) as [Hi'|]; [|done]. rewrite Forall_forall in Hal. by apply Hal.
  - intros n r. rewrite Hs, Hg. apply Hsl.
  - apply Ht, Htk.
  - split; rewrite Hm; [done|]. unfold live. rewrite Hh. apply Hb.
  - intros r. by rewrite Hg.
  - by rewrite Hs.
Qed.

(** One executor changed, by queueing tasks of its own or dropping some. *)
Lemma keeps_updates r x x' w w' : get_executor r w = Some x → updates r x' w w' →
  (typed w → ∀ t, t ∈ queued x' → task_of r t w) →
  (typed w → ∀ i, i ∈ timers x' → timer_of r i w) →
  (typed w → ∀ h, alarm_handle x' = Some h → handle_ok w h) → keeps_typed w w'.
Proof.
  intros Hx [Hg Ho _ Ht Ha Hh _ Hm] Hq' Hti' Hah' Hw. pose proof Hw as [Hq Hti Hhd Hhn Hal Hsl Htk [Hwf Hb]].
  assert (headers_persist w w') as Hp by (by apply headers_persist_eq).
  assert (slots w' = slots w) as Hs by (unfold slots; by rewrite Ha).
  assert (∀ r0, is_Some (get_executor r0 w) → is_Some (get_executor r0 w')) as He.
  { intros r0 H0. destruct (decide (r0 = r)) as [->|Hne]; [by exists x'|]. by rewrite Ho. }
  assert (∀ h, handle_ok w h → handle_ok w' h) as Hok by (intros h; unfold handle_ok; by rewrite Hs).
  split; [constructor|constructor; [done|done|by rewrite Hs]].
  - intros r0 x0 t H0 Hin. destruct (decide (r0 = r)) as [->|Hne].
    + rewrite Hg in H0. injection H0 as <-. eapply task_of_persist; [done|]. by apply Hq'.
    + rewrite Ho in H0 by done. eapply task_of_persist; eauto.
  - intros r0 x0 i H0 Hin. destruct (decide (r0 = r)) as [->|Hne].
    + rewrite Hg in H0. injection H0 as <-. eapply timer_of_persist; [done|]. by apply Hti'.
    + rewrite Ho in H0 by done. eapply timer_of_persist; eauto.
  - intros t h. rewrite Hh. intros H0. by eapply He, Hhd.
  - intros r0 x0 h H0 Hah. apply Hok. destruct (decide (r0 = r)) as [->|Hne].
    + rewrite Hg in H0. injection H0 as <-. by apply Hah'.
    + rewrite Ho in H0 by done. by eapply Hhn.
  - unfold alarms_of. rewrite Ha. eapply Forall_impl; [exact Hal|]. intros i. apply Hok.
  - intros n r0. rewrite Hs. intros H0. by eapply He, Hsl.
  - by rewrite Ht.
  - split; rewrite Hm; [done|]. unfold live. rewrite Hh. apply Hb.
Qed.

(** A header rewritten without changing its executor. *)
Lemma keeps_header t h h0 w : headers w !! t = Some h0 → executor h = executor h0 →
  keeps_typed w (set_headers (<[t := h]> (headers w)) w).
Proof.
  intros H0 He Hw. pose proof Hw as [Hq Hti Hhd Hhn Hal Hsl Htk [Hwf Hb]].
  pose proof (headers_persist_insert w t h h0 H0 He) as Hp.
  set (w' := set_headers _ w) in *.
  assert (∀ r, get_executor r w' = get_executor r w) as Hg by (by intros []).
  split; [constructor|constructor; [done| |done]]; try done.
  - intros r x t'. rewrite Hg. intros Hx Hin. eapply task_of_persist; eauto.
  - intros r x i. rewrite Hg. intros Hx Hin. eapply timer_of_persist; eauto.
  - intros t' h'. rewrite Hg. cbn. intros [[-> <-]|[Hne Hh']]%lookup_insert_Some; [rewrite He|]; eauto.
  - split; [done|]. intros t' [h' Hl']. apply Hb. cbn in Hl'.
    apply lookup_insert_Some in Hl' as [[-> _]|[_ Hl']]; by eexists.
Qed.

(** ** Inversion of the executor operations *)
Lemma on_executor_inv {A} r (m : Op KEvent BaseExecutor A) w a w' l :
  runs (on_executor r m) w a w' l →
  ∃ x x', get_executor r w = Some x ∧ runs m x a x' l ∧ w' = put_executor r x' w.
Proof.
  unfold runs at 1, on_executor. destruct (get_executor r w) as [x|]; [|done].
  intros (x' & Hm & ->)%(runs_zoom_inv (λ _, x) (put_executor r)). by exists x, x'.
Qed.

Lemma on_run_queue_inv {A} r f w (a : A) w' l : runs (on_run_queue r f) w a w' l →
  ∃ x q, get_executor r w = Some x ∧ f (run_queue x) = (a, q) ∧
    w' = put_executor r (set_run_queue q x) w ∧ l = [].
Proof.
  intros (x & x' & Hx & (q & Hf & ->)%runs_zoom_inv & ->)%on_executor_inv. exists x, q.
  unfold runs, op_pure in Hf. destruct (f _) as [a0 q0]. by injection Hf as -> -> <-.
Qed.

(** ** Waking and pending *)
Lemma keeps_pend x w : keeps_typed w (after_pend x w).
Proof.
  apply keeps_same; [apply same_tasks_pend|..]; unfold after_pend, slots, alarms_of;
    destruct (pender x); cbn; auto.
Qed.

Lemma pend_executor_inv r w w' l : runs (pend_executor r) w tt w' l →
  ∃ x, get_executor r w = Some x ∧ w' = after_pend x w.
Proof.
  intros (w0 & w1 & l1 & l2 & Hg & Hr & _)%runs_bind_inv. injection Hg as <- <- _.
  apply runs_bind_inv in Hr as (x & w2 & l3 & l4 & Hx & Hr & _).
  apply runs_lift_inv in Hx as (Hx & -> & _). unfold unwrap in Hx.
  destruct (get_executor r w) as [y|] eqn:Hy; [|done]. injection Hx as <-. exists y. split; [done|].
  by destruct (runs_det _ _ _ _ _ _ _ _ (runs_pend y w) Hr) as (_ & -> & _).
Qed.

Lemma pend_executor_keeps r w w' l : runs (pend_executor r) w tt w' l → keeps_typed w w'.
Proof. intros (x & _ & ->)%pend_executor_inv. apply keeps_pend. Qed.

Lemma keeps_pushed r t x w : get_executor r w = Some x → task_of r t w →
  keeps_typed w (put_executor r (pushed t x) w).
Proof.
  intros Hx Ht. apply (keeps_updates r x (pushed t x)); [done|by eapply updates_put| | |].
  - intros Hw t'. rewrite queued_pushed, elem_of_app. intros [Hin|Hin]; [by apply (typed_queue w Hw r x)|].
    case_decide; [|by apply elem_of_nil in Hin]. apply list_elem_of_singleton in Hin as ->. done.
  - intros Hw i. by apply (typed_timer w Hw r x).
  - intros Hw h. by apply (typed_handle w Hw r x).
Qed.

Lemma wake_keeps t w w' l : runs (vtable_wake_by_ref t) w tt w' l → keeps_typed w w'.
Proof.
  intros (h & x & Hh & Hx & -> & _)%wake_header_inv. unfold woken.
  eapply typed_keeps_trans; [|apply keeps_pend]. apply keeps_pushed; [done|]. by exists h.
Qed.

(** A live task can always be woken. *)
Lemma wake_runs t w : typed w → live w t → ∃ w' l, runs (vtable_wake_by_ref t) w tt w' l.
Proof.
  intros Hw [h Hh]. destruct (typed_header w Hw t h Hh) as [x Hx].
  eexists _, _. by apply runs_wake_by_ref.
Qed.

(** ** The timer interrupt *)
Lemma fire_typed w l : typed w → Forall (λ i, handle_ok w (AlarmQueue.handle i)) l →
  ∀ w0, same_tasks w w0 → ∃ w' log,
    runs (op_for_each (AlarmQueue.fire alarm_callback (slots w)) l) w0 tt w' log ∧
    same_tasks w w' ∧ ticks w' = ticks w0.
Proof.
  intros Hw. induction 1 as [|i l [Hpos Hlt] HF IH]; intros w0 Hs; [by exists w0, []|].
  destruct (lookup_lt_is_Some_2 _ _ Hlt) as [o Ho]. destruct o as [r|].
  - destruct (typed_slots w Hw _ _ Ho) as [x Hx].
    destruct (IH (after_pend x w0)) as (w' & log & Hr & Hs' & Ht); [by eapply same_tasks_trans, same_tasks_pend|].
    exists w', (pend_log x ++ log). split_and!; [|done|rewrite Ht; unfold after_pend; by destruct (pender x)].
    cbn [op_for_each]. eapply runs_bind; [|exact Hr]. unfold AlarmQueue.fire. rewrite Ho.
    apply runs_pend_executor. by rewrite (proj1 Hs).
  - destruct (IH w0 Hs) as (w' & log & Hr & Hs' & Ht). exists w', log. split_and!; [|done|done].
    cbn [op_for_each]. eapply runs_bind_nil; [|exact Hr]. unfold AlarmQueue.fire. rewrite Ho. apply runs_ret.
Qed.

(** It runs, whatever the alarms and their callbacks. *)
Lemma tick_runs w : typed w → ∃ w' l, runs on_timer_interrupt w tt w' l ∧ typed w' ∧ extends w w'.
Proof.
  intros Hw. destruct (AlarmQueue.alarms_due_exists (ticks w) (alarms w)) as (l & a & Hdue).
  destruct (AlarmQueue.alarms_due_spec _ _ _ _ Hdue) as (Hp & _ & _ & _ & Hslots).
  pose proof (typed_alarms w Hw) as Hal. unfold alarms_of in Hal. rewrite Hp in Hal.
  apply Forall_app in Hal as [Hl Ha].
  set (w1 := set_ticks ((ticks w + 1) mod modulus W32)%Z w).
  destruct (fire_typed w l Hw Hl w1 (same_tasks_set_ticks _ w)) as (w2 & log & Hr & Hs & Ht).
  exists (set_alarms a w2), log. split.
  - unfold on_timer_interrupt. eapply runs_bind_nil; [op_prim|]. eapply runs_bind_nil; [op_prim|].
    op_map idtac.
    unfold call_all_expired. apply (runs_zoom _ (λ aw _, set_alarms aw.1 aw.2) _ _ _ (a, w2)).
    unfold runs. change (Kernel.alarms (set_ticks _ w)) with (Kernel.alarms w).
    rewrite (AlarmQueue.call_all_expired_eq _ _ (Kernel.alarms w) l a); [|done| |done].
    + change (AlarmQueue.slots (Kernel.alarms w)) with (slots w). fold w1. by rewrite Hr.
    + eapply Forall_impl; [exact (typed_alarms w Hw)|]. by intros i [Hh _].
  - apply keeps_same; [|done| | |done].
    + eapply same_tasks_trans; [exact Hs|apply same_tasks_set_alarms].
    + intros _ i Hi. left. unfold alarms_of. rewrite Hp, elem_of_app. by right.
    + intros _. cbn. rewrite Ht. cbn. by apply Z.mod_pos_bound.
Qed.

Lemma tick_keeps w w' l : runs on_timer_interrupt w tt w' l → keeps_typed w w'.
Proof.
  intros Hr Hw. destruct (tick_runs w Hw) as (w2 & l2 & Hr2 & Hk).
  by destruct (runs_det _ _ _ _ _ _ _ _ Hr2 Hr) as (_ & -> & _).
Qed.

(** ** Timers *)
Lemma check_keeps r w w' l : runs (check_timer_queue r) w tt w' l → keeps_typed w w'.
Proof.
  intros Hr Hw. destruct (get_executor r w) as [x|] eqn:Hx.
  2: { apply runs_bind_inv in Hr as (v & w1 & l1 & l2 & Hr & _).
       apply runs_bind_inv in Hr as (n & w2 & l3 & l4 & Hn & Hr & _).
       apply runs_bind_inv in Hn as (w0 & w3 & l5 & l6 & [= <- <- _] & [= _ <- _] & _).
       apply on_executor_inv in Hr as (x & _ & Hx' & _). congruence. }
  destruct (TimerQueue.due_exists (ticks w) (timer_queue x)) as (due & tq & Hdue).
  destruct (TimerQueue.due_spec _ _ _ _ Hdue) as (Hp & _).
  assert (task_items (timers x)) as Hitems.
  { apply Forall_forall. intros i Hi. by apply (typed_timer w Hw r x). }
  pose proof (check_timer_queue_spec r w x due tq Hx Hitems Hdue) as Hc.
  case_decide; [|by unfold runs in Hr; rewrite Hc in Hr].
  destruct Hc as (w2 & x2 & Hr2 & Hu & Hq & Htq & _ & Hah).
  destruct (runs_det _ _ _ _ _ _ _ _ Hr2 Hr) as (_ & -> & _).
  apply (keeps_updates r x x2 w w2); [done|done| | | |done].
  - intros _ t. rewrite Hq, elem_of_app. intros [Hin|Hin]; [by apply (typed_queue w Hw r x)|].
    apply list_elem_of_fmap in Hin as (i & -> & Hi). apply (typed_timer w Hw r x i Hx).
    unfold timers. rewrite Hp, elem_of_app. by left.
  - intros _ i Hi. apply (typed_timer w Hw r x i Hx). unfold timers in *. rewrite Htq in Hi.
    rewrite Hp, elem_of_app. by right.
  - intros _ h. rewrite Hah. by apply (typed_handle w Hw r x).
Qed.

Lemma update_keeps r t w w' l : task_of r t w → runs (update_timer_queue r t) w tt w' l → keeps_typed w w'.
Proof.
  intros (h & Hh & <-) Hr Hw. destruct (typed_header w Hw t h Hh) as [x Hx].
  destruct (update_timer_queue_spec (executor h) t w x h Hx Hh) as (w2 & x2 & Hr2 & Hu & Hq & _ & Hah & Hup).
  destruct (runs_det _ _ _ _ _ _ _ _ Hr2 Hr) as (_ & -> & _).
  apply (keeps_updates (executor h) x x2 w w2); [done|done| | | |done].
  - intros _ t'. unfold queued. rewrite Hq. by apply (typed_queue w Hw (executor h) x).
  - intros _ i Hi. assert (i ∈ timers x ∨ ∃ e, i = task_item e t) as [Hi'|[e ->]].
    { unfold after_update in Hup. destruct (expires_at h) as [e|]; [case_decide|]; rewrite Hup in Hi; auto.
      apply elem_of_cons in Hi as [->|]; [right; by exists e|by left]. }
    + by apply (typed_timer w Hw (executor h) x).
    + split; [done|]. by exists h.
  - intros _ h'. rewrite Hah. by apply (typed_handle w Hw (executor h) x).
Qed.

Lemma renew_keeps r w w' l : runs (renew_alarm r) w tt w' l → keeps_typed w w'.
Proof.
  intros Hr Hw. destruct (get_executor r w) as [x|] eqn:Hx.
  2: { apply runs_bind_inv in Hr as (n & w1 & l1 & l2 & Hr & _).
       apply runs_bind_inv in Hr as (w0 & w2 & l3 & l4 & [= <- <- _] & Hr & _).
       apply runs_bind_inv in Hr as (x & w3 & l5 & l6 & Hx' & _).
       apply runs_lift_inv in Hx' as (Hx' & _). by rewrite Hx in Hx'. }
  destruct (alarm_handle x) as [h|] eqn:Hh.
  - destruct (renew_alarm_spec r w x Hx) as (w2 & Hr2 & (Hst & _ & Htk & Hsl & Hal)); [by exists h|].
    destruct (runs_det _ _ _ _ _ _ _ _ Hr2 Hr) as (_ & -> & _).
    apply keeps_same; [done..| |by rewrite Htk|done]. intros _ i Hi.
    rewrite Hh in Hal. destruct (TimerQueue.next_expiration _) as [e|]; [case_decide|]; rewrite Hal in Hi; auto.
    apply elem_of_cons in Hi as [->|]; [right|by left]. by apply (typed_handle w Hw r x).
  - unfold renew_alarm in Hr. apply runs_bind_inv in Hr as (n & w1 & l1 & l2 & Hn & Hr & _).
    destruct (runs_det _ _ _ _ _ _ _ _ (runs_next_timer r w x Hx) Hn) as (-> & -> & _).
    destruct (TimerQueue.next_expiration _) as [e|]; [|by apply runs_ret_inv in Hr as (_ & -> & _); apply typed_keeps_refl].
    apply runs_bind_inv in Hr as (o & w2 & l3 & l4 & Hr & _).
    unfold runs, set_alarm in Hr. revert Hr. run_op. rewrite Hx. cbn. by rewrite Hh.
Qed.

(** ** Start-up, spawning and the executor list *)
Lemma allocate_alarm_keeps w o w' l : runs allocate_alarm w o w' l → keeps_typed w w' ∧
  (∀ h, o = Some h → handle_ok w' h) ∧ same_tasks w w'.
Proof.
  intros (a & Ha & ->)%(runs_zoom_inv Kernel.alarms set_alarms).
  destruct (AlarmQueue.try_allocate_handle_spec (E := KEvent) (Kernel.alarms w))
    as [(Hl & a' & Ha' & Hsl & Hal)|[_ Ha']]; [unfold N_ALARM_HANDLES; lia| |];
    unfold runs in Ha; rewrite Ha' in Ha; injection Ha as <- <- _.
  - split; [|split; [|by split_and!]].
    + intros Hw. assert (slots (set_alarms a' w) = slots w ++ [None]) as Hs by exact Hsl.
      assert (∀ h, handle_ok w h → handle_ok (set_alarms a' w) h) as Hok.
      { intros h [??]. unfold handle_ok. rewrite Hs, length_app. cbn. lia. }
      assert (∀ r, get_executor r (set_alarms a' w) = get_executor r w) as Hg by (by intros []).
      destruct Hw as [Hq Hti Hhd Hhn Halm Hslt Htk Hm].
      split; [constructor|constructor]; try done.
      * intros r x h. rewrite Hg. eauto.
      * unfold alarms_of. cbn. rewrite Hal. eapply Forall_impl; [exact Halm|]. intros i. apply Hok.
      * intros n r. rewrite Hg, Hs. intros [Hn|[_ Hn]]%lookup_app_Some; [eauto|].
        by apply list_lookup_singleton_Some in Hn as [_ [=]].
      * by apply headers_persist_eq.
      * rewrite Hs, length_app. lia.
    + intros h [= <-]. split; [lia|]. change (slots (set_alarms a' w)) with (AlarmQueue.slots a').
      rewrite Hsl, length_app. cbn. lia.
  - assert (set_alarms (Kernel.alarms w) w = w) as -> by (by destruct w).
    split; [apply typed_keeps_refl|split; [done|apply same_tasks_refl]].
Qed.

Lemma register_callback_keeps h r w w' l : handle_ok w h → is_Some (get_executor r w) →
  runs (set_alarm_callback h r) w tt w' l → keeps_typed w w'.
Proof.
  intros [Hpos Hlt] Hx (a & Ha & ->)%(runs_zoom_inv Kernel.alarms set_alarms) Hw.
  unfold runs in Ha. rewrite AlarmQueue.register_callback_spec in Ha by done.
  rewrite decide_True in Ha by done. injection Ha as <- _. set (w' := set_alarms _ w).
  assert (slots w' = <[Z.to_nat h := Some r]> (slots w)) as Hs by (by apply vec_write_iter).
  assert (∀ h', handle_ok w h' → handle_ok w' h') as Hok.
  { intros h' [??]. unfold handle_ok. by rewrite Hs, length_insert. }
  assert (∀ r', get_executor r' w' = get_executor r' w) as Hg by (by intros []).
  destruct Hw as [Hq Hti Hhd Hhn Halm Hslt Htk Hm].
  split; [constructor|constructor]; try done.
  - intros r0 x h'. rewrite Hg. eauto.
  - eapply Forall_impl; [exact Halm|]. intros i. apply Hok.
  - intros n r0. rewrite Hg, Hs. intros [(_ & [= <-] & _)|[_ Hn]]%list_lookup_insert_Some; eauto.
  - by apply headers_persist_eq.
  - by rewrite Hs, length_insert.
Qed.

Lemma register_alarm_callback_keeps r w w' l : runs (register_alarm_callback r) w tt w' l → keeps_typed w w'.
Proof.
  intros Hr Hw. apply runs_bind_inv in Hr as (w0 & w1 & l1 & l2 & [= <- <- _] & Hr & _).
  apply runs_bind_inv in Hr as (x & w2 & l3 & l4 & Hx & Hr & _).
  apply runs_lift_inv in Hx as (Hx & -> & _). unfold unwrap in Hx.
  destruct (get_executor r w) as [y|] eqn:Hy; [|done]. injection Hx as <-.
  destruct (alarm_handle y) as [h|] eqn:Hh; [|by apply runs_ret_inv in Hr as (_ & -> & _); apply typed_keeps_refl].
  eapply register_callback_keeps; [by apply (typed_handle w Hw r y)|by exists y|exact Hr|done].
Qed.

Lemma start_interrupt_keeps r w w' l : runs (start_interrupt r) w tt w' l → keeps_typed w w'.
Proof.
  intros ([] & w1 & l1 & l2 & H1 & H2 & _)%runs_bind_inv.
  eapply typed_keeps_trans; [by eapply register_alarm_callback_keeps|by eapply pend_executor_keeps].
Qed.

Lemma keeps_initialised b w : keeps_typed w (set_initialised b w).
Proof. apply keeps_same; [by split; [intros []|]|done|auto|done]. Qed.

Lemma list_thread_executor_keeps w r w' l : runs list_thread_executor w r w' l →
  keeps_typed w w' ∧ r = ThreadRef.
Proof.
  intros (w0 & w1 & l1 & l2 & [= <- <- _] & Hr & _)%runs_bind_inv.
  apply runs_bind_inv in Hr as ([] & w2 & l3 & l4 & Hr & Hret & _).
  apply runs_ret_inv in Hret as (-> & -> & _). split; [|done].
  destruct (initialised w); cbn [negb] in Hr; [apply runs_ret_inv in Hr as (_ & -> & _); apply typed_keeps_refl|].
  apply runs_bind_inv in Hr as (o & w3 & l5 & l6 & Ha & Hr & _).
  destruct (allocate_alarm_keeps _ _ _ _ Ha) as (Hk & Hok & _).
  apply runs_bind_inv in Hr as (h & w4 & l7 & l8 & Hu & Hr & _).
  apply runs_lift_inv in Hu as (Hu & -> & _). destruct o as [h'|]; [|done]. injection Hu as ->.
  apply runs_bind_inv in Hr as ([] & w5 & l9 & l10 & Hr & [= <- _] & _).
  apply on_executor_inv in Hr as (x & x' & Hx & [= <- _] & ->).
  eapply typed_keeps_trans; [exact Hk|]. eapply typed_keeps_trans; [|apply keeps_initialised].
  apply (keeps_updates ThreadRef x (set_alarm_handle (Some h) x)); [done|by eapply updates_put| | |].
  - intros Hw t. by apply (typed_queue w3 Hw ThreadRef x).
  - intros Hw i. by apply (typed_timer w3 Hw ThreadRef x).
  - intros _ h0 [= <-]. by apply Hok.
Qed.

(** A new executor in the list, possibly in the place of another one. *)
Lemma add_executor_keeps p y m w : lm_map m = <[p := y]> (lm_map (executors w)) →
  queued y = [] → timers y = [] → (∀ h, alarm_handle y = Some h → handle_ok w h) →
  keeps_typed w (set_executors m w).
Proof.
  intros Hm Hq0 Ht0 Hh0 [Hq Hti Hhd Hhn Halm Hslt Htk Hmem]. set (w' := set_executors m w).
  assert (∀ r x, get_executor r w' = Some x → (r = InterruptRef p ∧ x = y) ∨ get_executor r w = Some x) as Hg.
  { intros [|q] x; [by right|]. cbn. rewrite !lm_get_spec, Hm.
    intros [[-> ->]|[_ Hx]]%lookup_insert_Some; [by left|by right]. }
  assert (∀ r, is_Some (get_executor r w) → is_Some (get_executor r w')) as He.
  { intros [|q]; [done|]. cbn. rewrite !lm_get_spec, Hm. intros Hx. rewrite lookup_insert_is_Some.
    destruct (decide (p = q)); auto. }
  split; [constructor|constructor; [by apply headers_persist_eq|done|done]]; try done.
  - intros r x t [[-> ->]|Hx]%Hg; [rewrite Hq0; by intros ?%elem_of_nil|]. by apply Hq.
  - intros r x i [[-> ->]|Hx]%Hg; [rewrite Ht0; by intros ?%elem_of_nil|]. by apply Hti.
  - intros t h Hh. by eapply He, Hhd.
  - intros r x h [[-> ->]|Hx]%Hg Hah; [by apply Hh0|by eapply Hhn].
  - intros n r Hs. by eapply He, Hslt.
Qed.

Lemma list_allocate_keeps n w h w' l : runs (list_allocate n) w h w' l → keeps_typed w w'.
Proof.
  unfold list_allocate. destruct (Z.eqb (get_prio n) 0); [done|].
  intros (o & w1 & l1 & l2 & Ha & Hr & _)%runs_bind_inv.
  destruct (allocate_alarm_keeps _ _ _ _ Ha) as (Hk & Hok & _). destruct o as [a|]; [|done].
  apply runs_bind_inv in Hr as (w0 & w2 & l3 & l4 & [= <- <- _] & Hr & _).
  eapply typed_keeps_trans; [exact Hk|].
  set (y := interrupt_executor_new n (Some a)) in Hr.
  destruct (decide (is_Some (lm_map (executors w1) !! get_prio n) ∨ size (lm_map (executors w1)) < N_EXECUTORS))
    as [Hroom|Hfull].
  - destruct (lm_insert_ok (get_prio n) y (executors w1) Hroom) as (m & Hi & Hm). rewrite Hi in Hr.
    apply runs_bind_inv in Hr as ([] & w3 & l5 & l6 & [= <- _] & Hr & _).
    apply runs_bind_inv in Hr as ([] & w4 & l7 & l8 & [= <- _] & Hr & _).
    apply runs_bind_inv in Hr as ([] & w5 & l9 & l10 & [= <- _] & Hr & _).
    apply runs_ret_inv in Hr as (_ & -> & _).
    apply (add_executor_keeps (get_prio n) y); [done|apply dq_new_iter|apply bh_new_elems|].
    intros h0 [= <-]. by apply Hok.
  - rewrite lm_insert_full in Hr;
      [|destruct (lm_map (executors w1) !! get_prio n); [destruct Hfull; left; by eexists|done]|
        apply Nat.nlt_ge; tauto].
    by apply runs_bind_inv in Hr as ([] & w3 & l5 & l6 & _ & [=] & _).
Qed.

(** The layouts the allocator is asked for. *)
Definition layouts_ok : Prop := layout_ok header_layout ∧ (0 < size_of header_layout)%Z.

Lemma add_header_keeps p fut r a w : layouts_ok → is_Some (get_executor r w) →
  Bump.wf a → Bump.start a = Bump.start (allocator w) → ¬ live w p →
  (Bump.pos (allocator w) ≤ Bump.pos a)%Z → (p < Bump.start a + Bump.pos a)%Z →
  keeps_typed w (set_headers (<[p := mk_header fut r None]> (headers w)) (set_allocator a w)).
Proof.
  intros _ Hr Hwfa Hst Hfresh Hpos Hlt [Hq Hti Hhd Hhn Halm Hslt Htk [Hwf Hb]]. set (w' := set_headers _ _).
  assert (∀ r0, get_executor r0 w' = get_executor r0 w) as Hg by (by intros []).
  assert (headers_persist w w') as Hp.
  { intros t h Hh. exists h. split; [|done]. cbn. rewrite lookup_insert_ne; [done|].
    intros ->. apply Hfresh. by exists h. }
  split; [constructor|constructor; [done| |done]]; try done.
  - intros r0 x t. rewrite Hg. intros Hx Hin. eapply task_of_persist; eauto.
  - intros r0 x i. rewrite Hg. intros Hx Hin. eapply timer_of_persist; eauto.
  - intros t h. rewrite Hg. cbn. intros [[-> <-]|[_ Hh]]%lookup_insert_Some; [done|by eapply Hhd].
  - split; [done|]. intros t [h Ht]. cbn in Ht |- *. apply lookup_insert_Some in Ht as [[-> _]|[_ Ht]]; [done|].
    specialize (Hb t ltac:(by exists h)). lia.
Qed.

Lemma spawn_keeps r fut lay w w' l : layouts_ok → layout_ok lay → runs (spawn r fut lay) w tt w' l →
  keeps_typed w w'.
Proof.
  intros Hlays Hlay Hr Hw. pose proof (typed_memory w Hw) as [Hwf Hb].
  apply runs_bind_inv in Hr as (p & w3 & l1 & l2 & Hnew & Hr & _).
  apply runs_bind_inv in Hnew as (p1 & w1 & l3 & l4 & (a1 & Ha1 & ->)%runs_zoom_inv & Hnew & _).
  apply runs_bind_inv in Hnew as (p2 & w2 & l5 & l6 & (a2 & Ha2 & ->)%runs_zoom_inv & Hnew & _).
  apply runs_bind_inv in Hnew as ([] & w4 & l7 & l8 & [= <- _] & Hret & _).
  apply runs_ret_inv in Hret as (-> & -> & _).
  apply runs_bind_inv in Hr as (o & w5 & l9 & l10 & Hq & Hu & _).
  apply runs_lift_inv in Hu as (_ & -> & _).
  apply on_run_queue_inv in Hq as (x & q & Hx & Hf & -> & _).
  destruct Hlays as [Hhl Hpos].
  destruct (Bump.alloc_bounds _ _ _ _ _ Hwf Hlay Ha1) as (Hwf1 & Hs1 & _ & Hb1).
  cbn [allocator set_allocator] in Ha2.
  destruct (Bump.alloc_bounds _ _ _ _ _ Hwf1 Hhl Ha2) as (Hwf2 & Hs2 & _ & Hb2).
  assert (¬ live w p2) as Hfresh by (intros Ht%Hb; destruct Hlay; lia).
  set (w3 := set_headers _ _) in *.
  assert (get_executor r w3 = get_executor r w) as Hg by (by destruct r).
  assert (keeps_typed w w3) as Hk.
  { apply (add_header_keeps p2 fut r a2); [by split|by rewrite <-Hg, Hx|done|by rewrite Hs2|done|lia|lia]. }
  assert (task_of r p2 w3) as Hown by (exists (mk_header fut r None); split; [apply lookup_insert_eq|done]).
  eapply typed_keeps_trans; [exact Hk| |done].
  apply (keeps_updates r x (set_run_queue q x)); [done|by eapply updates_put| | |].
  - intros Hw3 t Ht. destruct (decide (length (queued x) < MAX_TASKS)) as [Hl|Hl].
    + destruct (dq_push_front_ok p2 (run_queue x) Hl) as (q' & Hq' & Hqi). rewrite Hf in Hq'.
      injection Hq' as _ ->. unfold queued in Ht. cbn in Ht. rewrite Hqi in Ht.
      apply elem_of_cons in Ht as [->|Ht]; [done|]. by apply (typed_queue w3 Hw3 r x).
    + rewrite dq_push_front_full in Hf by (pose proof (queued_bound x); unfold queued in *; lia).
      injection Hf as _ <-. by apply (typed_queue w3 Hw3 r x).
  - intros Hw3 i. by apply (typed_timer w3 Hw3 r x).
  - intros Hw3 h. by apply (typed_handle w3 Hw3 r x).
Qed.

(** ** What runs on the kernel *)

(** What task bodies and interrupt handlers are made of. *)
Inductive acts : World → World → Prop :=
| act_user u w : acts w (set_user u w)
| act_event w b w' l : runs event_fetch_and_clear_local w b w' l → acts w w'
| act_wake t w w' l : runs (vtable_wake_by_ref t) w tt w' l → acts w w'
| act_pend r w w' l : runs (pend_executor r) w tt w' l → acts w w'
| act_timer e t w p w' l : runs (timer_poll e (mk_waker t TASK_VTABLE)) w p w' l → acts w w'
| act_yield b t w p w' l : runs (yielder_poll b (mk_waker t TASK_VTABLE)) w p w' l → acts w w'
| act_spawn fut lay w w' l : layout_ok lay → runs (kernel_spawn fut lay) w tt w' l → acts w w'
| act_spawn_executor h fut lay w w' l :
    layout_ok lay → runs (spawn_executor h fut lay) w tt w' l → acts w w'
| act_allocate n w h w' l : runs (allocate_interrupt_executor n) w h w' l → acts w w'
| act_start h w w' l : runs (start_interrupt_executor h) w tt w' l → acts w w'
| act_start_thread w w' l : runs start_thread w tt w' l → acts w w'
| act_tick w w' l : runs on_timer_interrupt w tt w' l → acts w w'.

Lemma event_keeps b w : keeps_typed w (set_event b w).
Proof. apply keeps_same; [by split; [intros []|]|done|auto|done]. Qed.
Lemma user_keeps u w : keeps_typed w (set_user u w).
Proof.
  intros [Hq Hti Hhd Hhn Halm Hslt Htk Hm]. assert (∀ r, get_executor r (set_user u w) = get_executor r w) as Hg
    by (by intros []).
  split; [constructor|constructor; [by apply headers_persist_eq| |done]]; done.
Qed.

Lemma task_waker_inv t w p w' l :
  runs (op_lift (task_from_waker (mk_waker t TASK_VTABLE)) : KOp TaskRef) w p w' l → p = t ∧ w' = w.
Proof.
  intros (Hp & -> & _)%runs_lift_inv. unfold task_from_waker in Hp. cbn in Hp.
  rewrite decide_True in Hp by done. by injection Hp as <-.
Qed.

Lemma read_inv t w h w' l : runs (read_header t) w h w' l → headers w !! t = Some h ∧ w' = w.
Proof.
  intros (w0 & w1 & l1 & l2 & [= <- <- _] & Hr & _)%runs_bind_inv.
  apply runs_lift_inv in Hr as (Hr & -> & _). destruct (headers w !! t) as [h'|]; [|done].
  by injection Hr as ->.
Qed.

Lemma timer_keeps e t w p w' l : runs (timer_poll e (mk_waker t TASK_VTABLE)) w p w' l → keeps_typed w w'.
Proof.
  intros (n & w1 & l1 & l2 & Hn & Hr & _)%runs_bind_inv.
  apply runs_bind_inv in Hn as (w0 & w2 & l3 & l4 & [= <- <- _] & [= _ <- _] & _).
  destruct (Z.leb e n); [apply runs_ret_inv in Hr as (_ & -> & _); apply typed_keeps_refl|].
  apply runs_bind_inv in Hr as (t' & w3 & l5 & l6 & [-> ->]%task_waker_inv & Hr & _).
  apply runs_bind_inv in Hr as (h & w4 & l7 & l8 & [Hh ->]%read_inv & Hr & _).
  apply runs_bind_inv in Hr as ([] & w5 & l9 & l10 & [= <- _] & Hr & _).
  apply runs_ret_inv in Hr as (_ & -> & _). by eapply keeps_header.
Qed.

Lemma list_get_inv h w r w' l : runs (list_get h) w r w' l → w' = w ∧ r = InterruptRef h.
Proof.
  intros (w0 & w1 & l1 & l2 & [= <- <- _] & Hr & _)%runs_bind_inv.
  apply runs_bind_inv in Hr as (x & w2 & l3 & l4 & Hx & Hr & _).
  apply runs_lift_inv in Hx as (_ & -> & _). by apply runs_ret_inv in Hr as (-> & -> & _).
Qed.

Lemma acts_keep w w' : layouts_ok → acts w w' → keeps_typed w w'.
Proof.
  intros Hl [ u w0|w0 b w1 l Hr|t w0 w1 l Hr|r w0 w1 l Hr|e t w0 p w1 l Hr|b t w0 p w1 l Hr|fut lay w0 w1 l Hlay Hr
    |h fut lay w0 w1 l Hlay Hr|n w0 h w1 l Hr|h w0 w1 l Hr|w0 w1 l Hr|w0 w1 l Hr].
  - apply user_keeps.
  - unfold runs, event_fetch_and_clear_local in Hr. revert Hr. run_op. intros [= _ <- _]. apply event_keeps.
  - by eapply wake_keeps.
  - by eapply pend_executor_keeps.
  - by eapply timer_keeps.
  - unfold yielder_poll in Hr. destruct b; [apply runs_ret_inv in Hr as (_ & -> & _); apply typed_keeps_refl|].
    apply runs_bind_inv in Hr as (t' & w2 & l5 & l6 & [-> ->]%task_waker_inv & Hr & _).
    apply runs_bind_inv in Hr as ([] & w3 & l7 & l8 & Hr & Hret & _).
    apply runs_ret_inv in Hret as (_ & -> & _). by eapply wake_keeps.
  - apply runs_bind_inv in Hr as (r & w2 & l1 & l2 & Hr1 & Hr & _).
    destruct (list_thread_executor_keeps _ _ _ _ Hr1) as [Hk ->].
    eapply typed_keeps_trans; [exact Hk|by eapply spawn_keeps].
  - apply runs_bind_inv in Hr as (r & w2 & l1 & l2 & [-> ->]%list_get_inv & Hr & _). by eapply spawn_keeps.
  - apply runs_bind_inv in Hr as (o & w2 & l1 & l2 & Hr1 & Hr & _).
    apply runs_lift_inv in Hr as (_ & -> & _). by eapply list_allocate_keeps.
  - apply runs_bind_inv in Hr as (r & w2 & l1 & l2 & [-> ->]%list_get_inv & Hr & _).
    by eapply start_interrupt_keeps.
  - by eapply register_alarm_callback_keeps.
  - by eapply tick_keeps.
Qed.

Lemma rtc_acts_keep w w' : layouts_ok → rtc acts w w' → keeps_typed w w'.
Proof.
  intros Hl. induction 1 as [w|w1 w2 w3 H12 _ IH]; [apply typed_keeps_refl|].
  eapply typed_keeps_trans; [by apply acts_keep|exact IH].
Qed.

Section Poll.
Variable fut_poll : Fut → Waker → KOp (Poll unit * Fut).

(** Task bodies act on the kernel through its interface only. *)
Hypothesis bodies_act : ∀ f t w a w' l,
  runs (fut_poll f (mk_waker t TASK_VTABLE)) w a w' l → rtc acts w w'.
Hypothesis Hlayouts : layouts_ok.
#[local] Set Default Proof Using "All".

Lemma poll_task_keeps t w w' l : runs (poll_task fut_poll t) w tt w' l → keeps_typed w w'.
Proof.
  intros (h & w1 & l1 & l2 & [Hh ->]%read_inv & Hr & _)%runs_bind_inv.
  apply runs_bind_inv in Hr as ([] & w2 & l3 & l4 & [= <- _] & Hr & _).
  apply runs_bind_inv in Hr as (r & w3 & l5 & l6 & Hp & Hr & _).
  apply runs_bind_inv in Hr as (h' & w4 & l7 & l8 & [Hh' ->]%read_inv & [= <- _] & _).
  apply runs_bind_inv in Hp as (a & w5 & l9 & l10 & Hf & Hret & _).
  assert (w3 = w5) as -> by (destruct a as [[[]|] f']; [done|by apply runs_ret_inv in Hret as (_ & -> & _)]).
  eapply typed_keeps_trans; [by apply (keeps_header t (mk_header (fut_ref h) (executor h) None) h)|].
  eapply typed_keeps_trans; [eapply rtc_acts_keep; [done|eapply bodies_act; exact Hf]|].
  by eapply keeps_header.
Qed.

Lemma advance_keeps fuel r : ∀ w o w' l,
  runs (advance_runnable_tasks fut_poll fuel r) w o w' l → keeps_typed w w'.
Proof.
  induction fuel as [|fuel IH]; intros w o w' l Hr; cbn [advance_runnable_tasks] in Hr.
  { apply runs_ret_inv in Hr as (_ & -> & _). apply typed_keeps_refl. }
  apply runs_bind_inv in Hr as (t & w1 & l1 & l2 & Hpop & Hr & _).
  apply on_run_queue_inv in Hpop as (x & q & Hx & Hf & -> & _).
  set (w1 := put_executor r (set_run_queue q x) w) in *.
  assert ((∀ t', t' ∈ dq_iter q → t' ∈ queued x) ∧ (∀ t', t = Some t' → t' ∈ queued x)) as [Hqin Htin].
  { destruct (dq_pop_front_cases (run_queue x)) as [[Hn He]|(t0 & q0 & He & Hi)]; rewrite He in Hf;
      injection Hf as <- <-; [done|]. unfold queued. rewrite Hi. split.
    - intros t' Ht'. by right.
    - intros t' [= <-]. by left. }
  assert (keeps_typed w w1) as Hk1.
  { apply (keeps_updates r x (set_run_queue q x)); [done|by eapply updates_put| | |].
    - intros Hw t' Ht'. apply (typed_queue w Hw r x); [done|]. by apply Hqin.
    - intros Hw i. by apply (typed_timer w Hw r x).
    - intros Hw h. by apply (typed_handle w Hw r x). }
  destruct t as [t|]; [|apply runs_ret_inv in Hr as (_ & -> & _); done].
  apply runs_bind_inv in Hr as ([] & w2 & l3 & l4 & Hrun & Hr & _).
  apply runs_bind_inv in Hrun as ([] & w3 & l5 & l6 & Hp & Hu & _).
  intros Hw. destruct (Hk1 Hw) as [Hw1 He1].
  destruct (poll_task_keeps _ _ _ _ Hp Hw1) as [Hw3 He3].
  assert (task_of r t w3) as Hown.
  { eapply task_of_persist; [apply He3|]. eapply task_of_persist; [apply He1|].
    apply (typed_queue w Hw r x); [done|]. by apply Htin. }
  destruct (update_keeps _ _ _ _ _ Hown Hu Hw3) as [Hw2 He2].
  destruct (IH _ _ _ _ Hr Hw2) as [Hw' He']. split; [done|].
  eauto using extends_trans.
Qed.

Lemma exec_once_keeps fuel r w o w' l : runs (exec_once fut_poll fuel r) w o w' l → keeps_typed w w'.
Proof.
  intros ([] & w1 & l1 & l2 & Hc & Hr & _)%runs_bind_inv.
  apply runs_bind_inv in Hr as (d & w2 & l3 & l4 & Ha & Hr & _).
  eapply typed_keeps_trans; [by eapply check_keeps|]. eapply typed_keeps_trans; [by eapply advance_keeps|].
  destruct d as [[]|]; [|apply runs_ret_inv in Hr as (_ & -> & _); apply typed_keeps_refl].
  apply runs_bind_inv in Hr as ([] & w3 & l5 & l6 & Hn & Hret & _).
  apply runs_ret_inv in Hret as (_ & -> & _). by eapply renew_keeps.
Qed.

(** A step of the system: something acts on the kernel, or an executor runs. *)
Inductive system_step : World → World → Prop :=
| system_acts w w' : acts w w' → system_step w w'
| system_runs fuel r w o w' l : runs (exec_once fut_poll fuel r) w o w' l → system_step w w'.

Lemma initial_typed u w l : (0 ≤ memory_start)%Z → (memory_start + MEMORY_SIZE ≤ modulus W32)%Z →
  runs init (initial_world u) tt w l → typed w.
Proof.
  intros H0 Hm [= <- _]. constructor; try done.
  - intros [|p] x t; cbn; [intros [= <-]|by rewrite lm_get_spec, lm_new_map].
    unfold queued. cbn. rewrite dq_new_iter. by intros ?%elem_of_nil.
  - intros [|p] x i; cbn; [intros [= <-]|by rewrite lm_get_spec, lm_new_map].
    unfold timers, TimerQueue.items. cbn. rewrite bh_new_elems. by intros ?%elem_of_nil.
  - intros [|p] x h; cbn; [by intros [= <-]|by rewrite lm_get_spec, lm_new_map].
  - unfold alarms_of, AlarmQueue.alarms. cbn. by rewrite bh_new_elems.
  - intros n r. unfold slots, AlarmQueue.slots. cbn. by rewrite vec_new_iter.
  - split; [unfold Bump.wf, MEMORY_SIZE in *; cbn in *; lia|]. intros t [h Hh]. cbn in Hh. by rewrite lookup_empty in Hh.
Qed.

(** C5: the kernel stays well-typed: in every world reached from start-up by
    task bodies, wake-ups, interrupts, spawning, executors coming and going and
    runs of executors, in any order, the tasks in run queues and timer queues
    have headers that name the executor they are queued on, headers and alarm
    callbacks name executors that exist, and alarms carry handles that were
    handed out; so waking a task that was spawned and the timer interrupt never
    follow a dangling reference. *)
Theorem kernel_stays_typed u w0 w l : (0 ≤ memory_start)%Z → (memory_start + MEMORY_SIZE ≤ modulus W32)%Z →
  runs init (initial_world u) tt w0 l → rtc system_step w0 w →
  typed w ∧ (∀ t, live w t → ∃ w' l', runs (vtable_wake_by_ref t) w tt w' l') ∧
  ∃ w' l', runs on_timer_interrupt w tt w' l'.
Proof.
  intros H0 Hm Hi Hs. assert (typed w) as Hw.
  { pose proof (initial_typed u w0 l H0 Hm Hi) as Hw0. clear Hi. induction Hs as [w|w1 w2 w3 H12 _ IH]; [done|].
    apply IH. destruct H12 as [w1 w2 Ha|fuel r w1 o w2 l2 Hr]; [by apply (acts_keep _ _ Hlayouts Ha)|].
    by apply (exec_once_keeps _ _ _ _ _ _ Hr). }
  split; [done|]. split; [intros t Ht; by apply wake_runs|].
  destruct (tick_runs w Hw) as (w' & l' & Hr & _). by exists w', l'.
Qed.
End Poll.
End Typed.

(** ** An instance

    Start-up, a sleeping task spawned, one run of the thread executor. *)
Module TypedDemo.
Import SleepDemo.
#[local] Instance typed_profile : Profile := true.

Lemma sleep_acts f t (w : World) a w' l :
  runs (sleep_poll f (mk_waker t TASK_VTABLE)) w a w' l → rtc acts w w'.
Proof.
  destruct f as [e|]; intros Hr; [|by apply runs_ret_inv in Hr as (_ & -> & _)].
  apply runs_bind_inv in Hr as (p & w1 & l1 & l2 & Hp & Hr & _).
  assert (w' = w1) as -> by (destruct p; by apply runs_ret_inv in Hr as (_ & -> & _)).
  apply rtc_once. by eapply act_timer.
Qed.

Definition booted : World := match init (initial_world tt) with Val (_, w, _) => w | Panic => initial_world tt end.

Lemma demo_layouts_ok : layouts_ok.
Proof. by split; [vm_compute; repeat split|]. Qed.

Lemma kernel_stays_typed_witness : ∃ w w' o l l',
  runs (kernel_spawn (P := sleep_platform) (Some 5%Z) (mk_layout 8 4)) booted tt w l ∧
  runs (exec_once (P := sleep_platform) sleep_poll 3 ThreadRef) w o w' l' ∧ typed w' ∧
  ∃ w2 l2, runs on_timer_interrupt w' tt w2 l2.
Proof.
  set (r := (kernel_spawn (P := sleep_platform) (Some 5%Z) (mk_layout 8 4);;
    exec_once (P := sleep_platform) sleep_poll 3 ThreadRef) booted).
  assert (match r with Val _ => true | Panic => false end = true) as Hok by (vm_compute; reflexivity).
  destruct r as [[[o w'] l]|] eqn:Hr; [|done].
  apply runs_bind_inv in Hr as ([] & w & l1 & l2 & Hspawn & Hexec & _).
  exists w, w', o, l1, l2. split; [exact Hspawn|]. split; [exact Hexec|].
  destruct (kernel_stays_typed (PL := sleep_laws) sleep_poll sleep_acts demo_layouts_ok tt booted w'
      [TimerInit (H := sleep_platform) 6; InterruptsEnable; HeapInit heap_start HEAP_SIZE])
    as (Hw & _ & Ht).
  - by vm_compute.
  - by vm_compute.
  - reflexivity.
  - eapply rtc_l; [|apply rtc_once; eapply system_runs; exact Hexec].
    apply system_acts, (act_spawn (H := sleep_platform) (Some 5%Z) (mk_layout 8 4) booted w l1); [|exact Hspawn].
    by vm_compute; repeat split.
  - by split.
Defined.
End TypedDemo.
