(* ===== verification/Delivery.v ===== *)
(** * A channel on the kernel: messages reach the task that waits for them

    The channels of [DynChannel] log the wakers they wake; here the log takes
    effect on the executors.  A task of the thread executor receives from a
    channel that other tasks and interrupt handlers use at any time; the steps
    are the critical sections of everybody, as in [Scheduling].  The theorems
    hold of every implementation of the channel contract. *)

From S2P Require Import Prelude Heapless CriticalSection WaitQueue DynChannel Channel.
From S2P Require Import Bump Timers Kernel Executor ExecutorProps Scheduling.

Section Delivery.
Context `{HP : Profile} `{PL : PlatformLaws} `{IM : Implements C T K}.
Implicit Types (w : World) (p q : TaskRef) (v : Waker).
Abbreviation KOp := (Op KEvent World).

(** The channel is part of what the task bodies share. *)
Variables (chan : User → C) (set_chan : C → User → User).
Hypothesis chan_set : ∀ c u, chan (set_chan c u) = c.

(** ** Wakers at work *)

Definition wake_task v : KOp unit :=
  p ← op_lift (task_from_waker v);
  vtable_wake p.

(** A closure on the channel; the wakers it wakes push their tasks.  They do
    not look at the channel, so that waking them at its end is the same. *)
Definition on_channel {A} (m : Op Waker C A) : KOp A := λ w,
  match m (chan (user w)) with
  | Val (a, c, log) =>
      (op_for_each wake_task log;; mret a) (set_user (set_chan c (user w)) w)
  | Panic => Panic
  end.

(** The body of a task that receives messages and handles them one by one. *)
Fixpoint receive_loop (handle : T → KOp unit) (fuel : nat) (cx : Waker) : KOp (Poll unit) :=
  match fuel with
  | O => op_panic
  | S fuel =>
      r ← on_channel (dyn_poll_receive cx);
      match r with
      | Ready m => handle m;; receive_loop handle fuel cx
      | Pending => mret Pending
      end
  end.

Definition channel_view w : View T := dyn_view (chan (user w)).

(** ** Steps *)

(** What the task [p] expects of bodies and handlers between their calls on the
    channel: they leave the channel and the task alone, and add tasks to the run
    queue only at its end. *)
Definition leaves_alone p w w' : Prop :=
  chan (user w') = chan (user w) ∧
  (∀ h, headers w !! p = Some h → ∃ h', headers w' !! p = Some h' ∧ executor h' = executor h) ∧
  queued (thread_executor w) `prefix_of` queued (thread_executor w').

(** Room for the tasks that a call on the channel may wake. *)
Definition wake_room w : Prop := length (queued (thread_executor w)) + 2 ≤ MAX_TASKS.

(** The steps of a system in which the task [p] receives: the loop, the timer
    interrupt and wake-ups; spawns are added below; calls on the channel by anybody, at any time; what
    handlers and other tasks do between their calls, up to the end of a poll; and
    the poll of [p], whose header is its own. *)
Inductive dstep p : Pc * World → Pc * World → Prop :=
| d_loop s s' : loop_step s s' → dstep p s s'
| d_poll t w w' : t ≠ p → (armed w → armed w') → leaves_alone p w w' →
    dstep p (Polling t, w) (Update t, w')
| d_handler pc w w' : handler_step w w' → leaves_alone p w w' → dstep p (pc, w) (pc, w')
| d_call pc c r w w' l : runs (on_channel (run_call c)) w r w' l → (pc ≠ Polling p → wake_room w) →
    dstep p (pc, w) (pc, w')
| d_header w h f e : headers w !! p = Some h →
    dstep p (Polling p, w) (Polling p, set_headers (<[p := mk_header f (executor h) e]> (headers w)) w)
| d_wait w w' l h f e : runs (on_channel (dyn_poll_receive (vtable_clone p))) w Pending w' l →
    headers w' !! p = Some h →
    dstep p (Polling p, w) (Update p, set_headers (<[p := mk_header f (executor h) e]> (headers w')) w').

(** With spawns: anybody may spawn a task, at any time. *)
Inductive spawn_step : Pc * World → Pc * World → Prop :=
| spawn_task pc f lay w w' l : initialised w = true → runs (kernel_spawn f lay) w tt w' l →
    spawn_step (pc, w) (pc, w').
Definition estep p s s' : Prop := dstep p s s' ∨ spawn_step s s'.

(** ** The invariant

    The receiving task is registered with the empty channel, or in the run
    queue and noticed there, or being polled. *)
Record served p (s : Pc * World) : Prop := {
  served_armed : armed s.2;
  served_ok : dyn_ok (chan (user s.2));
  served_header : ∃ h, headers s.2 !! p = Some h ∧ executor h = ThreadRef;
  served_by : waits_message (vtable_clone p) (channel_view s.2) ∨ flagged p s ∨ s.1 = Polling p
}.

(** ** Waking a list of wakers *)

(** The run queue may have grown by [n] tasks; what else the wakers may change
    keeps the invariants of the loop. *)
Definition grown (n : nat) w w' : Prop :=
  user w' = user w ∧ headers w' = headers w ∧
  queued (thread_executor w) `prefix_of` queued (thread_executor w') ∧
  length (queued (thread_executor w')) ≤ length (queued (thread_executor w)) + n ∧
  (armed w → armed w') ∧ (event w = true → event w' = true).

Lemma grown_trans n1 n2 w1 w2 w3 : grown n1 w1 w2 → grown n2 w2 w3 → grown (n1 + n2) w1 w3.
Proof.
  intros (Hu & Hh & Hq & Hl & Ha & He) (Hu' & Hh' & Hq' & Hl' & Ha' & He').
  split_and!; [congruence..|by etrans|lia|auto|auto].
Qed.

(** The task of a waker of the log is in the queue and noticed. *)
Definition notices w w' p : Prop := p ∈ queued (thread_executor w') ∧ (armed w → event w' = true).

Lemma wake_task_effect v w w' l : runs (wake_task v) w tt w' l →
  grown 1 w w' ∧ ∀ p h, v = vtable_clone p → headers w !! p = Some h → executor h = ThreadRef →
    length (queued (thread_executor w)) < MAX_TASKS → notices w w' p.
Proof.
  intros (p & w0 & l1 & l2 & (Hp & -> & _)%runs_lift_inv & Hr & _)%runs_bind_inv.
  unfold task_from_waker in Hp. case_decide as Hv; [|done]. injection Hp as <-.
  pose proof Hr as (h & x & Hh & Hx & -> & _)%wake_header_inv.
  destruct (woken_frame (executor h) (w_data v) x w) as (_ & _ & Hhd & Hu & _ & He). split.
  - split_and!; [done|done|..|by apply armed_woken|done].
    + destruct (thread_woken (executor h) (w_data v) x w Hx) as [[-> _]|(_ & -> & ->)]; [done|].
      rewrite queued_pushed. by eexists.
    + destruct (thread_woken (executor h) (w_data v) x w Hx) as [[-> _]|(_ & -> & ->)]; [lia|].
      rewrite queued_pushed, length_app. case_decide; cbn; lia.
  - intros p h' -> Hh' Hex Hroom. cbn [w_data vtable_clone] in *. assert (h' = h) as -> by congruence.
    rewrite Hex in Hx |- *. injection Hx as <-.
    destruct (thread_woken ThreadRef p (thread_executor w) w eq_refl) as [[_ Hne]|(_ & _ & Hth)]; [done|].
    split.
    + rewrite Hth, queued_pushed, decide_True by done. apply elem_of_app. right. by left.
    + intros (_ & Hpd & _). unfold woken, after_pend. by rewrite Hpd.
Qed.

Lemma wakes_effect log : ∀ w w' l, runs (op_for_each wake_task log) w tt w' l →
  grown (length log) w w' ∧ ∀ p h, vtable_clone p ∈ log → headers w !! p = Some h → executor h = ThreadRef →
    length (queued (thread_executor w)) + length log ≤ MAX_TASKS → notices w w' p.
Proof.
  induction log as [|v log IH]; intros w w' l Hr.
  - apply runs_ret_inv in Hr as (_ & -> & _). split; [by split_and!; [..|lia| |]|].
    intros p h Hin. by apply elem_of_nil in Hin.
  - apply runs_bind_inv in Hr as ([] & w1 & l1 & l2 & Hv & Hr & _).
    destruct (wake_task_effect v w w1 l1 Hv) as [Hg Hin]. destruct (IH _ _ _ Hr) as [Hg' Hin'].
    split; [exact (grown_trans 1 (length log) _ _ _ Hg Hg')|].
    destruct Hg as (_ & Hh & _ & Hl & Ha & _). intros p h [<-|Hp]%elem_of_cons Hhp He Hroom; cbn [length] in *.
    + destruct Hg' as (_ & _ & Hq & _ & _ & He'). destruct (Hin p h) as [Hpq Hev]; [done..|lia|].
      split; [by eapply prefix_elem|auto].
    + destruct (Hin' p h Hp) as [Hpq Hev]; [by rewrite Hh|done|lia|]. split; auto.
Qed.

Lemma on_channel_inv {A} (m : Op Waker C A) w a w' l : runs (on_channel m) w a w' l →
  ∃ c log l', runs m (chan (user w)) a c log ∧
    runs (op_for_each wake_task log) (set_user (set_chan c (user w)) w) tt w' l'.
Proof.
  unfold runs at 1, on_channel. destruct (m (chan (user w))) as [[[a0 c] log]|] eqn:Hm; [|done].
  intros ([] & w1 & l1 & l2 & Hw & Hret & _)%runs_bind_inv.
  apply runs_ret_inv in Hret as (-> & -> & _). by exists c, log, l1.
Qed.

Lemma on_channel_reply {A} (f : A → ChannelReply T) (m : Op Waker C A) w a w' l :
  runs (on_channel m) w a w' l → ∃ l', runs (on_channel (reply f m)) w (f a) w' l'.
Proof.
  intros (c & log & l' & Hm & Hw)%on_channel_inv. exists l'. unfold runs, on_channel.
  assert (runs (reply f m) (chan (user w)) (f a) c log) as -> by (by apply runs_reply).
  op_map (exact Hw).
Qed.

Lemma on_channel_reply_inv {A} (f : A → ChannelReply T) (m : Op Waker C A) w r w' l :
  runs (on_channel (reply f m)) w r w' l → ∃ a l', r = f a ∧ runs (on_channel m) w a w' l'.
Proof.
  intros (c & log & l' & (a & c1 & l1 & l2 & Hm & (-> & -> & ->)%runs_ret_inv & ->)%runs_bind_inv & Hw)%on_channel_inv.
  rewrite app_nil_r in Hw. exists a, l'. split; [done|]. unfold runs, on_channel. rewrite Hm.
  op_map (exact Hw).
Qed.

Lemma armed_set_user u w : armed w → armed (set_user u w).
Proof.
  intros (Hok & Hp & Hh). split_and!; [|done|done].
  eapply (alarms_ok_same w); [done| |done]. by intros [].
Qed.

(** Bodies that use the channel keep the alarm of the executor in order. *)
Lemma on_channel_armed {A} (m : Op Waker C A) w a w' l : runs (on_channel m) w a w' l → armed w → armed w'.
Proof.
  intros (c & log & l' & _ & Hw)%on_channel_inv Ha.
  destruct (wakes_effect log _ _ _ Hw) as [(_ & _ & _ & _ & Hk & _) _]. by apply Hk, armed_set_user.
Qed.

Lemma receive_loop_armed handle cx : (∀ m w w' l, runs (handle m) w tt w' l → armed w → armed w') →
  ∀ fuel w a w' l, runs (receive_loop handle fuel cx) w a w' l → armed w → armed w'.
Proof.
  intros Hh. induction fuel as [|fuel IH]; intros w a w' l Hr Ha; [done|].
  apply runs_bind_inv in Hr as (r & w1 & l1 & l2 & Hc & Hr & _).
  pose proof (on_channel_armed _ _ _ _ _ Hc Ha) as Ha1. destruct r as [m|].
  - apply runs_bind_inv in Hr as ([] & w2 & l3 & l4 & Hm & Hr & _). eauto.
  - by apply runs_ret_inv in Hr as (_ & -> & _).
Qed.

(** ** Calls on the channel *)

Lemma displaced_length cx rx : length (WakerRegistration.displaced cx rx) ≤ 1.
Proof. unfold WakerRegistration.displaced. destruct cx, (WakerRegistration.waker rx); try case_match; cbn; lia. Qed.
Lemma woken_length b rx : length (WakerRegistration.woken b rx) ≤ 1.
Proof. unfold WakerRegistration.woken. by destruct b, (WakerRegistration.waker rx); cbn; lia. Qed.

(** A call wakes at most two tasks. *)
Lemma step_log_length x c r x' log : step K x c r x' log → length log ≤ 2.
Proof.
  intros Hs. destruct Hs; rewrite ?length_app;
    repeat match goal with
    | |- context [WakerRegistration.displaced ?a ?b] =>
        pose proof (displaced_length a b); generalize dependent (WakerRegistration.displaced a b); intros
    | |- context [WakerRegistration.woken ?a ?b] =>
        pose proof (woken_length a b); generalize dependent (WakerRegistration.woken a b); intros
    end; try lia.
  destruct (WakerRegistration.waker rx); cbn; lia.
Qed.

(** What a call does: a step of the contract, then wake-ups. *)
Lemma call_effect c r w w' l : dyn_ok (chan (user w)) → runs (on_channel (run_call c)) w r w' l →
  ∃ log w1, step K (channel_view w) c r (channel_view w') log ∧ dyn_ok (chan (user w')) ∧
    grown (length log) w1 w' ∧ (armed w → armed w1) ∧ headers w1 = headers w ∧ event w1 = event w ∧
    thread_executor w1 = thread_executor w ∧ length log ≤ 2 ∧
    ∀ p h, vtable_clone p ∈ log → headers w !! p = Some h → executor h = ThreadRef → wake_room w →
      notices w1 w' p.
Proof using PL chan_set.
  intros Hok (c' & log & l' & Hm & Hw)%on_channel_inv.
  destruct (dyn_step _ c Hok) as (r2 & s2 & log2 & Hr2 & Hok2 & Hst).
  destruct (runs_det _ _ _ _ _ _ _ _ Hm Hr2) as (-> & -> & ->).
  destruct (wakes_effect log _ _ _ Hw) as [Hg Hin]. pose proof (step_log_length _ _ _ _ _ Hst) as Hlen.
  assert (chan (user w') = c') as Hc by (destruct Hg as (-> & _); apply chan_set).
  eexists log, _. split_and!; [|by rewrite Hc|exact Hg|apply armed_set_user|done..|].
  - unfold channel_view. by rewrite Hc.
  - intros p h Hp Hh He Hroom. apply (Hin p h Hp Hh He). unfold wake_room in Hroom. cbn. lia.
Qed.

(** ** The invariant is kept *)

#[local] Instance polling_dec (pc : Pc) p : Decision (pc = Polling p).
Proof.
  destruct pc as [| | | | |t| | |]; try by right.
  destruct (decide (t = p)) as [->|]; [by left|right; congruence].
Defined.

Lemma served_call p pc c r w w' l : runs (on_channel (run_call c)) w r w' l →
  (pc ≠ Polling p → wake_room w) → served p (pc, w) → served p (pc, w').
Proof using PL chan_set.
  intros Hr Hroom [Ha Hok (h & Hh & He) Hby]. cbn [fst snd] in *.
  destruct (call_effect c r w w' l Hok Hr) as (log & w1 & Hst & Hok' & Hg & Ha1 & Hh1 & Hev1 & Ht1 & _ & Hin).
  destruct Hg as (_ & Hhd & Hq & _ & Harm & Hev). split; cbn [fst snd].
  - auto.
  - done.
  - exists h. by rewrite Hhd, Hh1.
  - destruct Hby as [Hw|[[Hpq Hf]|Hpc]]; [|right; left|by right; right].
    2: { split; cbn [fst snd] in *; [eapply prefix_elem; [exact Hq|by rewrite Ht1]|].
         intros Hwt. apply Hev. rewrite Hev1. auto. }
    destruct (step_waits_message K _ _ _ _ _ _ Hst Hw) as [|Hlog]; [by left|right].
    destruct (decide (pc = Polling p)); [by right|left].
    destruct (Hin p h Hlog Hh He) as [Hpq Hf]; [auto|]. split; cbn [fst snd]; [done|auto].
Qed.

Lemma served_loop p s s' : loop_step s s' → served p s → served p s'.
Proof using PL.
  intros Hst [Ha Hok Hh Hby]. destruct (loop_step_effect s s' Hst Ha) as (Hu & Hhd & _ & Hpc).
  split.
  - by eapply armed_loop_step.
  - by rewrite Hu.
  - by rewrite Hhd.
  - unfold channel_view. rewrite Hu. destruct Hby as [|[Hp|Hp]]; [by left|right|right].
    + destruct (decide (s'.1 = Polling p)) as [|Hne]; [by right|left].
      eapply flagged_loop; [done..| |done]. intros [_ Hp']. done.
    + right. by apply Hpc.
Qed.

(** Other bodies and handlers; an event is not lost by the latter. *)
Lemma served_others p pc pc' w w' : leaves_alone p w w' → armed w' → (pc = Polling p → pc' = Polling p) →
  (waiting pc' → waiting pc ∧ (event w = true → event w' = true)) →
  served p (pc, w) → served p (pc', w').
Proof.
  intros (Hc & Hh & Hq) Ha Hpc Hwt [_ Hok (h & Hhp & He) Hby]. split; cbn [fst snd] in *.
  - done.
  - by rewrite Hc.
  - destruct (Hh h Hhp) as (h' & Hh' & He'). exists h'. by rewrite He'.
  - unfold channel_view. rewrite Hc. destruct Hby as [|[[Hin Hf]|]]; [by left|right; left|right; right; auto].
    split; cbn [fst snd] in *; [by eapply prefix_elem|]. intros [Hw Hev]%Hwt. auto.
Qed.

Lemma served_wait p w w' l h f e : runs (on_channel (dyn_poll_receive (vtable_clone p))) w Pending w' l →
  headers w' !! p = Some h → served p (Polling p, w) →
  served p (Update p, set_headers (<[p := mk_header f (executor h) e]> (headers w')) w') ∧
  waits_message (vtable_clone p) (channel_view w').
Proof using PL chan_set.
  intros Hr Hh [Ha Hok (h0 & Hh0 & He) _]. cbn [fst snd] in *.
  destruct (on_channel_reply PolledMessage _ _ _ _ _ Hr) as [l' Hr'].
  destruct (call_effect (PollReceive (vtable_clone p)) (PolledMessage Pending) w w' l' Hok Hr')
    as (log & w1 & Hst & Hok' & Hg & Ha1 & Hh1 & _).
  assert (waits_message (vtable_clone p) (channel_view w')) as Hw by (by inversion Hst).
  destruct Hg as (_ & Hhd & _ & _ & Harm & _). split; [|exact Hw]. split; cbn [fst snd].
  - apply armed_set_headers. auto.
  - done.
  - exists (mk_header f (executor h) e). cbn. rewrite lookup_insert_eq. split; [done|].
    rewrite Hhd, Hh1 in Hh. cbn. congruence.
  - left. exact Hw.
Qed.

Lemma served_step p s s' : dstep p s s' → served p s → served p s'.
Proof using PL chan_set.
  intros Hst Hs. destruct Hst as [s s' Hst|t w w' Hne Ha Hl|pc w w' Hst Hl|pc c r w w' l Hr Hroom|
    w h f e Hh|w w' l h f e Hr Hh].
  - by eapply served_loop.
  - eapply (served_others p (Polling t)); [exact Hl|apply Ha, Hs|by intros [= ->]|done|exact Hs].
  - eapply (served_others p pc); [exact Hl| |done| |exact Hs]; [eapply handler_armed; [exact Hst|apply Hs]|].
    destruct Hst as (_ & He & _). by split.
  - by eapply served_call.
  - destruct Hs as [Ha Hok (h0 & Hh0 & He) Hby]. cbn [fst snd] in *. split; cbn [fst snd].
    + by apply armed_set_headers.
    + done.
    + exists (mk_header f (executor h) e). cbn. rewrite lookup_insert_eq. split; [done|]. congruence.
    + by right; right.
  - by eapply served_wait.
Qed.

Lemma served_steps p s s' : rtc (dstep p) s s' → served p s → served p s'.
Proof using PL chan_set. induction 1; eauto using served_step. Qed.

Lemma served_spawn p s s' : spawn_step s s' → served p s → served p s'.
Proof.
  intros [pc f lay w w' l Hi Hr] [Ha Hok (h & Hh & He) Hby]. cbn [fst snd] in *.
  destruct (kernel_spawn_effect f lay w w' l Hi Hr) as (Ha' & Hev & Hu & _ & _ & t & Hq & Hhd). split; cbn [fst snd].
  - auto.
  - by rewrite Hu.
  - rewrite Hhd. destruct (decide (t = p)) as [->|Hne]; [rewrite lookup_insert_eq|rewrite lookup_insert_ne by done];
      by eexists.
  - unfold channel_view. rewrite Hu. destruct Hby as [|[[Hin Hf]|]]; [by left|right; left|by right; right].
    split; cbn [fst snd] in *; [rewrite Hq; by right|by rewrite Hev].
Qed.

Lemma served_esteps p s s' : rtc (estep p) s s' → served p s → served p s'.
Proof using PL chan_set.
  induction 1 as [s|s s1 s' [Hst|Hst] _ IH]; eauto using served_step, served_spawn.
Qed.
(** ** Bounded waiting *)

(** Steps in which [p] is not polled; [n] is how many tasks are, [m] how many are
    spawned. *)
Inductive unpolled p : nat → nat → Pc * World → Pc * World → Prop :=
| unpolled_refl s : unpolled p 0 0 s s
| unpolled_pop t w w2 s' n m : t ≠ p → dstep p (Pop, w) (Polling t, w2) →
    unpolled p n m (Polling t, w2) s' → unpolled p (S n) m (Pop, w) s'
| unpolled_spawn s s2 s' n m : spawn_step s s2 → unpolled p n m s2 s' → unpolled p n (S m) s s'
| unpolled_other s s2 s' n m : s2.1 ≠ Polling p → (s.1 = Pop → ∀ t, s2.1 ≠ Polling t) → dstep p s s2 →
    unpolled p n m s2 s' → unpolled p n m s s'.

Lemma dstep_queue p s s' : served p s → dstep p s s' → queue_step s s'.
Proof using PL chan_set.
  intros Hs Hst. destruct Hst as [s s' Hst|t w w' Hne _ (_ & _ & Hl)|pc w w' Hst (_ & _ & Hl)|
    pc c r w w' l Hr Hroom|w h f e Hh|w w' l h f e Hr Hh].
  - by apply (loop_step_effect s s' Hst), Hs.
  - left. split; [done|]. intros q [= <-]. by right.
  - left. split; [done|]. by left.
  - destruct (call_effect c r w w' l (served_ok _ _ Hs) Hr) as (log & w1 & _ & _ & (_ & _ & Hq & _) & _ & _ & _ & Ht & _).
    left. split; [|by left]. cbn. by rewrite <-Ht.
  - left. split; [done|]. by left.
  - destruct (on_channel_reply PolledMessage _ _ _ _ _ Hr) as [l' Hr'].
    destruct (call_effect (PollReceive (vtable_clone p)) (PolledMessage Pending) w w' l' (served_ok _ _ Hs) Hr') as (log & w1 & _ & _ & (_ & _ & Hq & _) & _ & _ & _ & Ht & _).
    left. split; [|intros q [= <-]; by right]. cbn. by rewrite <-Ht.
Qed.

Lemma unpolled_bound p n m s s' : unpolled p n m s s' → served p s → ∀ l1 l2,
  queued (thread_executor s.2) = l1 ++ p :: l2 →
  n ≤ length l1 + m ∧ p ∈ queued (thread_executor s'.2).
Proof using PL chan_set.
  induction 1 as [s|t w w2 s' n m Hne Hst Hrest IH|s s2 s' n m Hst Hrest IH|s s2 s' n m Hpc Hnp Hst Hrest IH];
    intros Hs l1 l2 Hq.
  - split; [lia|]. rewrite Hq, elem_of_app. right. by left.
  - pose proof (served_step p _ _ Hst Hs) as Hs2.
    assert (t :: queued (thread_executor w2) = l1 ++ p :: l2) as Hl.
    { destruct (dstep_queue p _ _ Hs Hst) as [[_ Hno]|(_ & t' & [= <-] & Hl)]; cbn [fst snd] in *; [|congruence].
      inversion Hst as [? ? Hloop| | | | |]; subst.
      inversion Hloop as [| | | | |? ? ? ? Hr| | | | | |]; subst.
      apply pop_effect in Hr as (_ & _ & Hl). congruence. }
    destruct l1 as [|t1 l1]; injection Hl as Ht Hl; [done|].
    destruct (IH Hs2 l1 l2 ltac:(done)). cbn. split; [lia|done].
  - pose proof (served_spawn p _ _ Hst Hs) as Hs2. destruct Hst as [pc f lay w w' l Hi Hr]. cbn [snd] in *.
    destruct (kernel_spawn_effect f lay w w' l Hi Hr) as (_ & _ & _ & _ & _ & t & Hq2 & _).
    destruct (IH Hs2 (t :: l1) l2) as [Hle Hin]; [cbn; by rewrite Hq2, Hq|]. cbn [length] in Hle. split; [lia|done].
  - pose proof (served_step p _ _ Hst Hs) as Hs2.
    destruct (dstep_queue p _ _ Hs Hst) as [[[k Hpre] _]|(Hpop & t & Ht & _)]; [|by destruct (Hnp Hpop t)].
    apply (IH Hs2 l1 (l2 ++ k)). rewrite Hpre, Hq. by rewrite <-app_assoc.
Qed.

(** C2: no message is left lying, as long as the run queue has room for the tasks
    that a call on the channel wakes (at most two).  However polls, interrupts,
    wake-ups, spawns and the loop interleave, whenever the loop is at its event and
    the channel holds a message, the receiving task is in the run queue and the
    event flag is set, so that another run begins; and until the task is polled,
    its place in the queue and the number of tasks spawned in the meantime (they
    go to the front) bound how many others can be. *)
Theorem no_message_sleeps p s w : rtc (estep p) s (AtEvent, w) → served p s → msgs (channel_view w) ≠ [] →
  event w = true ∧ (∃ w', loop_step (AtEvent, w) (Collect, w')) ∧
  ∃ l1 l2, queued (thread_executor w) = l1 ++ p :: l2 ∧
    ∀ n m s', unpolled p n m (AtEvent, w) s' → n ≤ length l1 + m ∧ p ∈ queued (thread_executor s'.2).
Proof using PL chan_set.
  intros Hst Hs Hm. pose proof (served_esteps p _ _ Hst Hs) as Hs'. pose proof Hs' as [_ _ _ Hby].
  assert (flagged p (AtEvent, w)) as [Hp Hev] by (by destruct Hby as [[Hnil _]|[|]]).
  specialize (Hev I). split_and!; [done|..].
  - destruct (event_starts_run w Hev) as (w' & _ & Hl & _). by exists w'.
  - destruct (list_elem_of_split _ _ Hp) as (l1 & l2 & Hq). exists l1, l2. split; [done|].
    intros n m s' Hu. by apply (unpolled_bound p n m _ s' Hu Hs' l1 l2).
Qed.

(** ** The receiving task *)

Variable fut_poll : Fut → Waker → KOp (Poll unit * Fut).
(** Task bodies keep the alarm of the thread executor in order. *)
Hypothesis poll_armed : ∀ f t w a w' l, armed w →
  runs (fut_poll f (mk_waker t TASK_VTABLE)) w a w' l → armed w'.

(** A poll of another task that does not use the channel is a step. *)
Lemma other_poll_step p t w w' l : t ≠ p → runs (poll_task fut_poll t) w tt w' l → leaves_alone p w w' →
  dstep p (Polling t, w) (Update t, w').
Proof using PL poll_armed. intros Hne Hr Hl. apply d_poll; [done| |done]. intros Ha. by eapply poll_task_armed. Qed.

(** Writing the header of another task is a step of it. *)
Lemma header_leaves_alone p t h w : t ≠ p → leaves_alone p w (set_headers (<[t := h]> (headers w)) w).
Proof.
  intros Hne. split_and!; [done| |done]. intros h' Hh'. exists h'. cbn. by rewrite lookup_insert_ne.
Qed.
Lemma header_handler_step hs w : handler_step w (set_headers hs w).
Proof. by split_and!. Qed.

(** A poll of another task that calls the channel once is three steps. *)
Lemma calling_poll_steps p t w w' l h c : t ≠ p → headers w !! t = Some h → wake_room w →
  (∀ cx, fut_poll (fut_ref h) cx = (_ ← on_channel (run_call (c cx)); mret (Pending, fut_ref h))) →
  runs (poll_task fut_poll t) w tt w' l → rtc (dstep p) (Polling t, w) (Update t, w').
Proof using PL.
  intros Hne Hhd Hroom Hbody (h' & w1 & l1 & l2 & Hread & Hr & _)%runs_bind_inv.
  pose proof (runs_det _ _ _ _ _ _ _ _ (runs_read_header t h w Hhd) Hread) as (-> & -> & _). clear Hread.
  apply runs_bind_inv in Hr as ([] & w2 & l3 & l4 & [= <- _] & Hr & _).
  apply runs_bind_inv in Hr as (r & w3 & l5 & l6 & Hp & Hr & _).
  apply runs_bind_inv in Hr as (h2 & w4 & l7 & l8 & ->%read_header_inv & [= <- _] & _).
  apply runs_bind_inv in Hp as (a & w5 & l9 & l10 & Hf & Hret & _). rewrite Hbody in Hf.
  apply runs_bind_inv in Hf as (r1 & w6 & l11 & l12 & Hcall & Hf & _). apply runs_ret_inv in Hf as (-> & -> & _).
  apply runs_ret_inv in Hret as (-> & -> & _).
  eapply rtc_l; [apply (d_handler p _ w); [apply header_handler_step|by apply header_leaves_alone]|].
  eapply rtc_l; [eapply d_call; [exact Hcall|done]|].
  apply rtc_once. apply d_poll; [done|apply armed_set_headers|by apply header_leaves_alone].
Qed.

(** A waker of a task that exists. *)
Definition reachable w v : Prop :=
  ∃ q h, v = vtable_clone q ∧ headers w !! q = Some h ∧ is_Some (get_executor (executor h) w).

Definition holds (x : View T) v : Prop :=
  WakerRegistration.waker (receiver x) = Some v ∨ WakerRegistration.waker (senders x) = Some v.
Definition call_context (c : ChannelCall T) : option Waker :=
  match c with
  | TrySend _ cx | TryReceive cx => cx
  | PollReadyToSend v | PollReadyToReceive v | PollReceive v => Some v
  end.

(** The channel holds wakers of tasks that exist. *)
Definition wakers_live w : Prop := ∀ v, holds (channel_view w) v → reachable w v.

(** A call wakes and keeps only wakers the channel held and its own. *)
Lemma in_displaced cx rx v : v ∈ WakerRegistration.displaced cx rx → WakerRegistration.waker rx = Some v.
Proof.
  unfold WakerRegistration.displaced. destruct cx as [u|], (WakerRegistration.waker rx) as [u'|]; cbn;
    try (by intros ?%elem_of_nil). case_match; [by intros ?%elem_of_nil|]. by intros ->%list_elem_of_singleton.
Qed.
Lemma in_woken b rx v : v ∈ WakerRegistration.woken b rx → WakerRegistration.waker rx = Some v.
Proof.
  unfold WakerRegistration.woken. destruct b, (WakerRegistration.waker rx); cbn;
    try (by intros ?%elem_of_nil). by intros ->%list_elem_of_singleton.
Qed.
Lemma in_registered cx rx v : WakerRegistration.waker (WakerRegistration.registered cx rx) = Some v →
  WakerRegistration.waker rx = Some v ∨ cx = Some v.
Proof. destruct cx; cbn; auto. Qed.
Lemma in_after_wake b rx v : WakerRegistration.waker (WakerRegistration.after_wake b rx) = Some v →
  WakerRegistration.waker rx = Some v.
Proof. by destruct b. Qed.

Lemma step_wakers x c r x' log v : step K x c r x' log → v ∈ log ∨ holds x' v →
  holds x v ∨ call_context c = Some v.
Proof.
  unfold holds. intros Hs Hv.
  destruct Hs; cbn [receiver senders call_context] in *; rewrite ?elem_of_app in Hv;
    repeat match goal with H : _ ∨ _ |- _ => destruct H as [H|H] end;
    try match goal with
    | H : _ ∈ option_list ?o |- _ =>
        destruct o eqn:?; cbn in H; [apply list_elem_of_singleton in H as ->|by apply elem_of_nil in H]
    | H : _ ∈ WakerRegistration.displaced _ _ |- _ => apply in_displaced in H
    | H : _ ∈ WakerRegistration.woken _ _ |- _ => apply in_woken in H
    | H : WakerRegistration.waker (WakerRegistration.registered _ _) = _ |- _ => apply in_registered in H as [H|H]
    | H : WakerRegistration.waker (WakerRegistration.after_wake _ _) = _ |- _ => apply in_after_wake in H
    end; eauto; done.
Qed.

Lemma reachable_woken r t x w v : get_executor r w = Some x → reachable w v → reachable (woken r t x w) v.
Proof.
  intros Hx (q & h & -> & Hh & Hex). exists q, h. destruct (woken_frame r t x w) as (_ & _ & -> & _).
  split_and!; [done..|]. destruct (decide (r = executor h)) as [<-|Hne].
  - rewrite (woken_get r t x w Hx). by eexists.
  - by rewrite (woken_get_other r _ t x w Hx Hne).
Qed.

Lemma runs_wakes log : ∀ w, (∀ v, v ∈ log → reachable w v) →
  ∃ w' l, runs (op_for_each wake_task log) w tt w' l ∧ ∀ v, reachable w v → reachable w' v.
Proof.
  induction log as [|v log IH]; intros w Hlog; [by exists w, []|].
  destruct (Hlog v) as (q & h & -> & Hh & [x Hx]); [by left|].
  destruct (IH (woken (executor h) q x w)) as (w' & l & Hr & Hmono).
  { intros v Hv. apply reachable_woken; [done|]. apply Hlog. by right. }
  eexists w', _. split.
  - eapply runs_bind; [|exact Hr]. eapply runs_bind_nil; [by apply runs_lift, task_from_task_waker|].
    by apply runs_wake_by_ref.
  - intros v Hv. by apply Hmono, reachable_woken.
Qed.

(** A call whose wakers belong to tasks that exist does not panic. *)
Lemma runs_channel_call c w : dyn_ok (chan (user w)) → wakers_live w →
  (∀ v, call_context c = Some v → reachable w v) →
  ∃ r w' l, runs (on_channel (run_call c)) w r w' l ∧ wakers_live w' ∧
    ∀ v, reachable w v → reachable w' v.
Proof using PL chan_set.
  intros Hok Hlive Hcx. destruct (dyn_step _ c Hok) as (r & s' & log & Hr & _ & Hst).
  set (w1 := set_user (set_chan s' (user w)) w).
  assert (∀ v, reachable w v → reachable w1 v) as H1.
  { intros v (q & h & -> & Hh & Hex). exists q, h. split_and!; [done..|]. by destruct (executor h). }
  destruct (runs_wakes log w1) as (w' & l & Hw & Hmono).
  { intros v Hv. apply H1. destruct (step_wakers _ _ _ _ _ v Hst) as [Hh|Hc]; [by left|by apply Hlive|by apply Hcx]. }
  assert (runs (on_channel (run_call c)) w r w' l) as Hrun.
  { unfold runs, on_channel. rewrite Hr.
    op_map (exact Hw). }
  exists r, w', l. split_and!; [exact Hrun| |by intros v Hv; apply Hmono, H1].
  intros v Hv. apply Hmono, H1.
  destruct (call_effect c r w w' l Hok Hrun) as (log2 & _ & Hst2 & _).
  destruct (step_wakers _ _ _ _ _ v Hst2) as [Hh|Hc]; [by right|by apply Hlive|by apply Hcx].
Qed.

(** Handling a message succeeds, leaves the channel and the tasks alone, and
    is steps of the system. *)
Definition handles p (handle : T → KOp unit) : Prop := ∀ m w, ∃ w' l,
  runs (handle m) w tt w' l ∧ rtc (dstep p) (Polling p, w) (Polling p, w') ∧
  chan (user w') = chan (user w) ∧ ∀ v, reachable w v → reachable w' v.

(** The loop takes all the messages there are. *)
Lemma runs_receive_loop p handle : handles p handle → ∀ fuel w,
  length (msgs (channel_view w)) < fuel → served p (Polling p, w) → wakers_live w →
  reachable w (vtable_clone p) →
  ∃ w1 w' l l1, runs (receive_loop handle fuel (vtable_clone p)) w Pending w' l ∧
    rtc (dstep p) (Polling p, w) (Polling p, w1) ∧ served p (Polling p, w1) ∧
    runs (on_channel (dyn_poll_receive (vtable_clone p))) w1 Pending w' l1 ∧
    reachable w' (vtable_clone p).
Proof using PL chan_set.
  intros Hh. induction fuel as [|fuel IH]; intros w Hf Hs Hlive Hp; [lia|].
  destruct (runs_channel_call (PollReceive (vtable_clone p)) w (served_ok _ _ Hs) Hlive) as (r & w2 & l2 & Hr & Hlive2 & Hmono).
  { by intros v [= <-]. }
  destruct (call_effect _ _ _ _ _ (served_ok _ _ Hs) Hr) as (log & _ & Hst & _).
  assert (dstep p (Polling p, w) (Polling p, w2)) as Hd by (by eapply d_call).
  destruct (on_channel_reply_inv PolledMessage _ _ _ _ _ Hr) as (a & l3 & -> & Hr3).
  cbn [snd] in Hst. destruct a as [m|].
  - assert (length (msgs (channel_view w2)) < fuel) as Hf2.
    { inversion Hst as [| | | |l0 x l' v rx tx Htake Hv| | |]; subst.
      pose proof (Permutation_length (take_perm K _ _ _ Htake)) as Hlen. rewrite <-Hv in Hf. cbn in *. lia. }
    destruct (Hh m w2) as (w3 & l4 & Hm & Hsteps & Hc3 & Hmono3).
    assert (served p (Polling p, w3)) as Hs3 by (eapply served_steps; [exact Hsteps|by eapply served_step]).
    destruct (IH w3) as (w4 & w' & l5 & l6 & Hloop & Hsteps4 & Hrest); [|done| |by apply Hmono3, Hmono|].
    { unfold channel_view in *. by rewrite Hc3. }
    { intros v Hv. apply Hmono3, Hlive2. unfold channel_view in *. by rewrite <-Hc3. }
    eexists w4, w', _, l6. split; [|split; [|exact Hrest]].
    + eapply runs_bind; [exact Hr3|]. eapply runs_bind; [exact Hm|exact Hloop].
    + eapply rtc_l; [exact Hd|]. by etrans.
  - eexists w, w2, _, l3. split_and!; [|done|done|exact Hr3|by apply Hmono].
    eapply runs_bind; [exact Hr3|apply runs_ret].
Qed.

(** C12: a poll of a task that receives in a loop terminates, is steps of the
    system, and takes every message: when it is over the channel is empty and
    the task is registered with it. *)
Theorem receive_poll_empties p handle fuel w h : handles p handle → served p (Polling p, w) →
  wakers_live w → length (msgs (channel_view w)) < fuel → headers w !! p = Some h →
  (∀ cx, fut_poll (fut_ref h) cx = (a ← receive_loop handle fuel cx; mret (a, fut_ref h))) →
  ∃ w' l, runs (poll_task fut_poll p) w tt w' l ∧ rtc (dstep p) (Polling p, w) (Update p, w') ∧
    waits_message (vtable_clone p) (channel_view w').
Proof using PL chan_set.
  intros Hh Hs Hlive Hf Hhd Hbody.
  assert (executor h = ThreadRef) as He by (destruct Hs as [_ _ (h0 & Hh0 & He) _]; cbn in Hh0; congruence).
  pose proof (d_header p w h (fut_ref h) None Hhd) as Hst.
  set (w1 := set_headers (<[p:=mk_header (fut_ref h) (executor h) None]> (headers w)) w) in *.
  assert (∀ v, reachable w v → reachable w1 v) as Hr1.
  { intros v (q & h1 & -> & Hh1 & Hx). destruct (decide (q = p)) as [->|Hne].
    - exists p, (mk_header (fut_ref h) (executor h) None). cbn. rewrite lookup_insert_eq. split_and!; [done..|].
      rewrite He. by eexists.
    - exists q, h1. cbn. rewrite lookup_insert_ne by done. split_and!; [done..|]. by destruct (executor h1). }
  destruct (runs_receive_loop p handle Hh fuel w1) as (w2 & w3 & l & l1 & Hloop & Hsteps & Hs2 & Hpend & Hp3).
  - done.
  - by eapply served_step.
  - intros v Hv. apply Hr1, Hlive, Hv.
  - apply Hr1. exists p, h. rewrite He. split_and!; [done..|by eexists].
  - destruct Hp3 as (q & h2 & [= <-] & Hh2 & _).
    destruct (served_wait p w2 w3 l1 h2 (fut_ref h) (expires_at h2) Hpend Hh2 Hs2) as [_ Hw].
    set (w4 := set_headers (<[p:=mk_header (fut_ref h) (executor h2) (expires_at h2)]> (headers w3)) w3).
    exists w4. eexists. split; [|split; [|exact Hw]].
    + unfold poll_task. eapply runs_bind_nil; [by apply runs_read_header|].
      eapply runs_bind_nil; [apply runs_modify|]. fold w1.
      eapply (runs_bind _ _ _ (Pending, fut_ref h) w3);
        [|eapply runs_bind_nil; [exact (runs_read_header p h2 w3 Hh2)|apply runs_modify]].
      unfold static_future_poll. rewrite Hbody.
      eapply runs_bind; [eapply runs_bind; [exact Hloop|apply runs_ret]|apply runs_ret].
    + eapply rtc_l; [exact Hst|]. eapply rtc_r; [exact Hsteps|]. by eapply d_wait.
Qed.
End Delivery.

(** ** An instance

    A channel of two numbers; the task at 100 waits for a message, and an
    interrupt handler sends one. *)
Module DeliveryDemo.
Import Channel.Channel.
#[local] Existing Instances cs_with_model cs_with_model_law.
#[local] Instance delivery_profile : Profile := true.
Abbreviation Chan := (Cpu * t CriticalSectionRawMutex blist Z 2)%type.

#[export] Instance delivery_platform : Platform := {|
  Deque := blist;
  Vec := blist_vec;
  LinearMap := bmap;
  BinaryHeap := blist_bh;
  Node := Z;
  get_prio n := n;
  Fut := unit;
  User := Chan;
  header_layout := mk_layout 24 8;
  memory_start := 1879048192;
  heap_start := 2415919104
|}.
#[export] Instance delivery_laws : PlatformLaws := ltac:(split; apply _).

Definition body (f : unit) (cx : Waker) : Op KEvent World (Poll unit * unit) :=
  a ← receive_loop (C:=Chan) id (λ c _, c) (λ _ : Z, mret tt) 4 cx; mret (a, f).

(** The task has polled the empty channel. *)
Definition registered_channel : Chan :=
  match dyn_poll_receive (vtable_clone 100%Z) demo with Val (_, c, _) => c | Panic => demo end.
Definition waiting_world : World :=
  mk_world false 6 (AlarmQueue.mk (vec_push (Some ThreadRef) vec_new).2 bh_new)
    (mk_executor dq_new TimerQueue.new None (Some 0%Z) ThreadExecutorPender) true (lm_new : bmap _ _)
    (<[100%Z := mk_header tt ThreadRef None]> ∅) (Bump.mk 10240 1000 0) registered_channel.

Lemma body_armed f t (w : World) a w' l : armed w → runs (body f (mk_waker t TASK_VTABLE)) w a w' l → armed w'.
Proof.
  intros Ha (p & w1 & l1 & l2 & Hr & Hret & _)%runs_bind_inv. apply runs_ret_inv in Hret as (_ & -> & _).
  eapply (receive_loop_armed (PL := delivery_laws)); [|exact Hr|exact Ha].
  intros m w2 w3 l3 Hm. by apply runs_ret_inv in Hm as (_ & -> & _).
Qed.

Lemma waiting_served : served (C:=Chan) id 100%Z (AtEvent, waiting_world).
Proof.
  split.
  - split; [|split].
    + constructor.
    + reflexivity.
    + exists 0%Z. split; [reflexivity|split; reflexivity].
  - by repeat split.
  - by eexists.
  - left. split; reflexivity.
Qed.

(** The channel is used by an interrupt handler. *)
Definition sent : Op KEvent World (ChannelReply Z) := on_channel (C:=Chan) id (λ c _, c) (run_call (TrySend 5%Z None)).
Definition sent_world : World := match sent waiting_world with Val (_, w, _) => w | Panic => waiting_world end.

Lemma sent_step : rtc (estep (C:=Chan) id (λ c _, c) 100%Z) (AtEvent, waiting_world) (AtEvent, sent_world).
Proof.
  apply rtc_once. left. eapply (d_call _ _ _ _ (TrySend 5%Z None) (Sent (Ok tt)) _ _ []).
  - unfold runs. reflexivity.
  - intros _. vm_compute. lia.
Qed.

Lemma no_message_sleeps_witness : event sent_world = true ∧
  ∃ l1 l2, queued (thread_executor sent_world) = l1 ++ 100%Z :: l2.
Proof.
  destruct (no_message_sleeps (PL := delivery_laws) (C:=Chan) id (λ c _, c) ltac:(done) 100%Z
    (AtEvent, waiting_world) sent_world sent_step waiting_served) as (He & _ & l1 & l2 & Hq & _).
  - vm_compute. done.
  - split; [exact He|]. by exists l1, l2.
Defined.

(** The loop has popped the task. *)
Definition polling_world : World := set_thread (thread_executor waiting_world) sent_world.

Lemma polling_served : served (C:=Chan) id 100%Z (Polling 100%Z, polling_world).
Proof.
  split.
  - split; [|split].
    + constructor.
    + reflexivity.
    + exists 0%Z. split; [reflexivity|split; reflexivity].
  - by repeat split.
  - by eexists.
  - right; by right.
Qed.

Lemma receive_poll_empties_witness : ∃ w' l, runs (poll_task body 100%Z) polling_world tt w' l ∧
  waits_message (vtable_clone 100%Z) (channel_view (C:=Chan) id w').
Proof.
  destruct (receive_poll_empties (PL := delivery_laws) (C:=Chan) id (λ c _, c) ltac:(done) body 100%Z
    (λ _, mret tt) 4 polling_world (mk_header (H:=delivery_platform) tt ThreadRef None)) as (w' & l & Hr & _ & Hw).
  - intros m w. exists w, []. split_and!; [apply runs_ret|done|done|done].
  - exact polling_served.
  - intros v [Hv|Hv]; vm_compute in Hv; done.
  - vm_compute. lia.
  - reflexivity.
  - reflexivity.
  - by exists w', l.
Defined.
End DeliveryDemo.
