(* ===== verification/Programs.v ===== *)
(** * Programs of the kernel's demonstrations ([test_cases.rs])

    What an application of the kernel is made of: [async] blocks that loop over
    awaits, spawned on the thread executor, which is then started.  A block is a
    state machine whose states are its awaits; what it does to the pins and the
    console is recorded in the shared state, next to the [static] pipe. *)

From Stdlib Require Import Strings.Byte Strings.String.
From S2P Require Import Prelude Heapless CriticalSection WaitQueue RingBuffer Pipe.
From S2P Require Import Bump Timers Kernel Executor ExecutorProps Delivery.

Module Programs.

(** The pins of port 0 that the programs drive, and what is seen of them. *)
Inductive Pin := P00_1 | P00_2 | P00_3 | P00_5 | P00_6.
#[export] Instance pin_eq_dec : EqDecision Pin.
Proof. solve_decision. Defined.

Inductive Output := Toggle (p : Pin) | Print (s : string).
#[export] Instance output_eq_dec : EqDecision Output.
Proof. solve_decision. Defined.

Record Shared := mk_shared { outputs : list Output; pipe : Pipe.t }.
Definition output (o : Output) (u : Shared) : Shared := mk_shared (outputs u ++ [o]) (pipe u).
Definition set_pipe (p : Pipe.t) (u : Shared) : Shared := mk_shared (outputs u) p.

(** [static PIPE: Pipe<_, 1>], and the bytes the sender writes. *)
Definition PIPE_SIZE : Z := 1.
Definition message : list byte := [x61].
Definition wait_message : string := ("Waiter Task: wait for signal" ++ String (Ascii.ascii_of_nat 10) EmptyString)%string.

(** ** The blocks

    [YieldLoop], [TickLoop], [SenderLoop], [WaiterLoop] and [BusyLoop] are the heads
    of the loops and [After] a block that sleeps before it goes on; the others are
    the awaits. *)
Inductive Task :=
| YieldLoop (pin : Pin)
| Yielding (pin : Pin) (yielded : bool)
| TickLoop (pin : Pin) (n : Z)
| Sleeping (pin : Pin) (n e : Z)
| SenderLoop (pin : Pin)
| Writing (pin : Pin) (rest : list byte)
| WaiterLoop (pin : Pin) (buf : list byte)
| Reading (pin : Pin) (buf : list byte)
| BusyLoop (pin : Pin)
| After (n : Z) (rest : Task)
| Delaying (e : Z) (rest : Task).

Inductive Step := Goes (f : Task) | Waits (f : Task).

(** The platform of such programs; the containers stay parameters. *)
Section Platform.
Context (Dq Vc Lm : Type → nat → Type) (Bh : ∀ A : Type, (A → A → comparison) → Kind → nat → Type).
Context `{!DequeOps Dq} `{!VecOps Vc} `{!MapOps Lm} `{!HeapOps Bh}.
Context {Nd : Type} (prio : Nd → Z) (layout : Layout) (memory heap : Z).

Definition program_platform : Platform := {|
  Deque := Dq;
  Vec := Vc;
  LinearMap := Lm;
  BinaryHeap := Bh;
  Node := Nd;
  get_prio := prio;
  Fut := Task;
  User := Shared;
  header_layout := layout;
  memory_start := memory;
  heap_start := heap
|}.
End Platform.

Section Programs.
Context `{HP : Profile} {Dq Vc Lm : Type → nat → Type} {Bh : ∀ A : Type, (A → A → comparison) → Kind → nat → Type}.
Context `{HD : DequeLaws Dq} `{HV : VecLaws Vc} `{HM : MapLaws Lm} `{HB : HeapLaws Bh}.
Context {Nd : Type} {prio : Nd → Z} {layout : Layout} {memory heap : Z}.

#[local] Instance platform : Platform := program_platform Dq Vc Lm Bh prio layout memory heap.
#[local] Instance platform_laws : PlatformLaws.
Proof using HD HV HM HB. split; apply _. Qed.
Abbreviation World := (@World platform).
Abbreviation KEvent := (@KEvent platform).
Abbreviation KOp := (Op KEvent World).

Definition emit (o : Output) : KOp unit := op_modify (λ w, set_user (output o (user w)) w).
Definition on_pipe {A} (m : Op Waker Pipe.t A) : KOp A := on_channel pipe set_pipe m.

(** From one await to the next. *)
Definition step (f : Task) (cx : Waker) : KOp Step :=
  match f with
  | YieldLoop pin => emit (Toggle pin);; mret (Goes (Yielding pin yielder_new))
  | Yielding pin yielded =>
      r ← yielder_poll yielded cx;
      mret (match r.1 with Ready _ => Goes (YieldLoop pin) | Pending => Waits (Yielding pin r.2) end)
  | TickLoop pin n =>
      emit (Toggle pin);;
      e ← timer_after_ticks n;
      mret (Goes (Sleeping pin n e))
  | Sleeping pin n e =>
      r ← timer_poll e cx;
      mret (match r with Ready _ => Goes (TickLoop pin n) | Pending => Waits (Sleeping pin n e) end)
  | SenderLoop pin => emit (Toggle pin);; mret (Goes (Writing pin message))
  | Writing pin rest =>
      r ← on_pipe (Pipe.write_all_poll PIPE_SIZE (S (length rest)) rest cx);
      match r with
      | Some (Ready _, _) => mret (Goes (SenderLoop pin))
      | Some (Pending, rest) => mret (Waits (Writing pin rest))
      | None => op_panic
      end
  | WaiterLoop pin buf => emit (Toggle pin);; mret (Goes (Reading pin buf))
  | Reading pin buf =>
      r ← on_pipe (Pipe.read_poll PIPE_SIZE buf cx);
      match r.1 with
      | Ready _ => emit (Print wait_message);; mret (Goes (WaiterLoop pin r.2))
      | Pending => mret (Waits (Reading pin r.2))
      end
  | BusyLoop pin => emit (Toggle pin);; mret (Goes (BusyLoop pin))
  | After n rest => e ← timer_after_ticks n; mret (Goes (Delaying e rest))
  | Delaying e rest =>
      r ← timer_poll e cx;
      mret (match r with Ready _ => Goes rest | Pending => Waits (Delaying e rest) end)
  end.

(** A poll runs the block until an await is pending; [None] is exhausted fuel. *)
Fixpoint drive (fuel : nat) (f : Task) (cx : Waker) : KOp (option Task) :=
  match fuel with
  | O => mret None
  | S fuel =>
      s ← step f cx;
      match s with Goes f => drive fuel f cx | Waits f => mret (Some f) end
  end.

(** Fuel for the blocks that wait: at most five steps lie between awaits.  A
    [BusyLoop] never waits; its polls, which do not end in the code, are outside
    [task_poll], and no theorem is about them. *)
Definition poll_fuel : nat := 8.
Definition task_poll (f : Task) (cx : Waker) : KOp (Poll unit * Task) :=
  r ← drive poll_fuel f cx;
  match r with Some f => mret (Pending, f) | None => op_panic end.

(** ** The programs, up to the loop they end with *)
Section Spawning.
(** The layout of the futures, and the constructor of the nodes of the drivers. *)
Variables (future : Task → Layout) (SoftwareInterruptNode_new : Z → Z → Z → Z → Nd).

Definition spawn_on_thread (f : Task) : KOp unit := kernel_spawn f (future f).
Definition spawn_on (handle : Z) (f : Task) : KOp unit := spawn_executor handle f (future f).

Definition thread_executor_context_switch_test : KOp unit :=
  spawn_on_thread (YieldLoop P00_1);;
  spawn_on_thread (YieldLoop P00_2);;
  start_thread_executor.

Definition starvation_test : KOp unit :=
  spawn_on_thread (YieldLoop P00_1);;
  spawn_on_thread (TickLoop P00_2 1);;
  start_thread_executor.

Definition inter_task_signal_thread : KOp unit :=
  spawn_on_thread (SenderLoop P00_1);;
  spawn_on_thread (WaiterLoop P00_2 [x00]);;
  start_thread_executor.

Definition inter_task_communication_thread : KOp unit :=
  spawn_on_thread (SenderLoop P00_1);;
  spawn_on_thread (WaiterLoop P00_2 [x00]);;
  start_thread_executor.

Definition thread_executor_multiple_timers : KOp unit :=
  spawn_on_thread (TickLoop P00_1 1);;
  spawn_on_thread (TickLoop P00_2 1);;
  spawn_on_thread (TickLoop P00_3 1);;
  spawn_on_thread (TickLoop P00_5 1);;
  start_thread_executor.

Definition interrupt_executor_context_switch_test : KOp unit :=
  prio2_handle ← allocate_interrupt_executor (SoftwareInterruptNode_new 0 0 2 0);
  spawn_on prio2_handle (YieldLoop P00_1);;
  spawn_on prio2_handle (YieldLoop P00_2);;
  start_interrupt_executor prio2_handle.

Definition preemption_interrupt_executors_test : KOp unit :=
  prio2_handle ← allocate_interrupt_executor (SoftwareInterruptNode_new 0 0 2 0);
  prio3_handle ← allocate_interrupt_executor (SoftwareInterruptNode_new 0 1 3 0);
  prio4_handle ← allocate_interrupt_executor (SoftwareInterruptNode_new 0 2 4 0);
  spawn_on prio2_handle (After 100 (BusyLoop P00_1));;
  spawn_on prio3_handle (After 100 (TickLoop P00_2 2));;
  start_interrupt_executor prio2_handle;;
  start_interrupt_executor prio3_handle.

Definition preemption_thread_interrupt_executors_test : KOp unit :=
  prio2_handle ← allocate_interrupt_executor (SoftwareInterruptNode_new 0 0 2 0);
  spawn_on_thread (After 100 (BusyLoop P00_1));;
  spawn_on prio2_handle (After 100 (TickLoop P00_2 1));;
  start_interrupt_executor prio2_handle;;
  start_thread_executor.

Definition inter_task_communication_multi_prio_interrupt : KOp unit :=
  prio2_handle ← allocate_interrupt_executor (SoftwareInterruptNode_new 0 0 2 0);
  prio3_handle ← allocate_interrupt_executor (SoftwareInterruptNode_new 0 1 3 0);
  spawn_on prio2_handle (SenderLoop P00_1);;
  spawn_on_thread (WaiterLoop P00_2 [x00]);;
  start_interrupt_executor prio2_handle;;
  start_thread_executor.
End Spawning.
End Programs.
End Programs.
