(* ===== verification/ProgramsFacts.v ===== *)
(** * Facts shared by the programs of [Programs]

    Spawning tasks on the thread executor from a kernel that has just been
    initialised, and one poll of a task of its run queue. *)

From Stdlib Require Import Strings.Byte.
From S2P Require Import Prelude Heapless CriticalSection WaitQueue RingBuffer Pipe.
From S2P Require Import Bump Timers Kernel Executor ExecutorProps Scheduling Delivery Programs.
Import Programs.

Section Programs.
Context `{HP : Profile} {Dq Vc Lm : Type → nat → Type} {Bh : ∀ A : Type, (A → A → comparison) → Kind → nat → Type}.
Context `{HD : DequeLaws Dq} `{HV : VecLaws Vc} `{HM : MapLaws Lm} `{HB : HeapLaws Bh}.
Context {Nd : Type} {prio : Nd → Z} {layout : Layout} {memory heap : Z}.

Abbreviation P := (platform (Dq:=Dq) (Vc:=Vc) (Lm:=Lm) (Bh:=Bh) (prio:=prio) (layout:=layout) (memory:=memory) (heap:=heap)).
#[local] Hint Extern 0 Platform => exact P : typeclass_instances.
#[local] Hint Extern 0 (PlatformLaws) => exact platform_laws : typeclass_instances.
Abbreviation World := (@World P).
Abbreviation KEvent := (@KEvent P).
Abbreviation KOp := (Op KEvent World).
Implicit Types (w : World) (t : TaskRef) (f : Task).

Definition rq w : list TaskRef := queued (thread_executor w).
Definition tq w : list TimerQueue.Item := timers (thread_executor w).

(** ** Spawning *)
Section Spawning.
Variables (future : Task → Layout) (room : Z).

(** The layouts are those of Rust types, and a block of a future and its
    header take at most [room] bytes with their padding. *)
Record fits : Prop := {
  fits_future f : layout_ok (future f) ∧
    (size_of (future f) + align_of (future f) + size_of layout + align_of layout ≤ room)%Z;
  fits_header : layout_ok layout ∧ (0 < size_of layout)%Z;
  fits_memory : (0 ≤ memory ∧ memory + MEMORY_SIZE ≤ modulus usize)%Z
}.

(** The tasks [ts] have been spawned, the last one first, and there is memory
    for [n] more; nothing has run. *)
Record spawned (ts : list (TaskRef * Task)) (n : nat) w : Prop := {
  sp_queue : rq w = ts.*1;
  sp_headers t f : (t, f) ∈ ts → headers w !! t = Some (mk_header f ThreadRef None);
  sp_nodup : NoDup ts.*1;
  sp_timers : tq w = [];
  sp_pender : pender (thread_executor w) = ThreadExecutorPender;
  sp_event : event w = true;
  sp_ticks : ticks w = 0%Z;
  sp_user : user w = mk_shared [] (Pipe.new PIPE_SIZE);
  sp_alarms : alarms_of w = [];
  sp_slots : if initialised w then slots w = [None] ∧ alarm_handle (thread_executor w) = Some 0%Z
             else slots w = [];
  sp_allocated : headers_allocated w;
  sp_memory : (Bump.pos (allocator w) + Z.of_nat n * room < Bump.len (allocator w))%Z
}.

Definition initial : World := initial_world (mk_shared [] (Pipe.new PIPE_SIZE)).
Definition init_log : list KEvent := [TimerInit 6; InterruptsEnable; HeapInit heap HEAP_SIZE].

Hypothesis Hfits : fits.

Lemma runs_init n : (0 ≤ room)%Z → (Z.of_nat n * room < MEMORY_SIZE)%Z →
  ∃ w, runs init initial tt w init_log ∧ spawned [] n w.
Proof using HD HV HB Hfits.
  intros Hroom Hn. eexists. split; [reflexivity|]. destruct Hfits as [_ _ Hm].
  split; try done.
  - apply dq_new_iter.
  - intros t f Hin. by apply elem_of_nil in Hin.
  - by apply NoDup_nil.
  - apply bh_new_elems.
  - apply bh_new_elems.
  - cbn. unfold slots, AlarmQueue.slots. cbn. apply vec_new_iter.
  - split; [unfold Bump.wf, MEMORY_SIZE, modulus in *; cbn; lia|]. intros t [h Hh]. cbn in Hh.
    by rewrite lookup_empty in Hh.
Qed.

Lemma runs_list_thread ts n w : spawned ts n w →
  ∃ w', runs list_thread_executor w ThreadRef w' [] ∧ spawned ts n w' ∧ initialised w' = true.
Proof using HD HV HM HB.
  intros Hs. destruct (initialised w) eqn:Hi.
  { exists w. split; [|done]. unfold list_thread_executor. eapply runs_bind_nil; [op_prim|].
    rewrite Hi. eapply runs_bind_nil; apply runs_ret. }
  pose proof (sp_slots _ _ _ Hs) as Hsl. rewrite Hi in Hsl.
  destruct (AlarmQueue.try_allocate_handle_spec (E := KEvent) (alarms w)) as [(_ & a & Ha & Hsla & Hal)|[Hl _]];
    [unfold N_ALARM_HANDLES; lia| |change (length (slots w) = N_ALARM_HANDLES) in Hl; by rewrite Hsl in Hl].
  change (AlarmQueue.slots (alarms w)) with (slots w) in Ha, Hsla. rewrite Hsl in Ha, Hsla. simpl in Ha, Hsla.
  set (x := set_alarm_handle (Some 0%Z) (thread_executor w)).
  exists (set_initialised true (set_thread x (set_alarms a w))). split; [|split; [|done]].
  - unfold list_thread_executor. eapply runs_bind_nil; [op_prim|]. rewrite Hi.
    eapply runs_bind_nil; [|apply runs_ret].
    eapply runs_bind_nil; [by apply runs_zoom_alarms|].
    eapply runs_bind_nil; [by apply runs_lift|].
    eapply (runs_bind_nil _ _ _ tt (set_thread x (set_alarms a w))); [done|op_prim].
  - destruct Hs. split; try done. change (AlarmQueue.alarms a = []). by rewrite Hal.
Qed.

(** There is room for [n] more tasks. *)
Definition room_for (n : nat) w : Prop :=
  headers_allocated w ∧ (Bump.pos (allocator w) + Z.of_nat n * room < Bump.len (allocator w))%Z.

(** Spawning on any executor, when there is room for the task. *)
Lemma runs_spawn_room r f n w x : room_for (S n) w → get_executor r w = Some x →
  length (queued x) < MAX_TASKS →
  ∃ t q a, dq_iter q = t :: queued x ∧ ¬ live w t ∧
    let w' := put_executor r (set_run_queue q x) (set_headers (<[t := mk_header f r None]> (headers w))
      (set_allocator a w)) in
    runs (spawn r f (future f)) w tt w' [] ∧ room_for n w'.
Proof using Hfits HD HV HM HB.
  intros [[Hwf Hbelow] Hmem] Hx Hlq. destruct Hfits as [Hfut [Hlay Hpos] _]. destruct (Hfut f) as [Hf Hsz].
  pose proof (Bump.alloc_eq (E := KEvent) (future f) _ Hwf Hf) as Ha1.
  pose proof (Bump.ceil_spec (Bump.pos (allocator w)) (align_of (future f)) ltac:(unfold layout_ok in *; lia)) as [Hc1 _].
  fold (Bump.next (allocator w) (future f)) in Hc1.
  rewrite (proj2 (Z.ltb_lt _ _)) in Ha1 by (unfold layout_ok in *; nia).
  destruct (Bump.alloc_bounds _ _ _ _ _ Hwf Hf Ha1) as (Hwf1 & Hst1 & _ & Hb1).
  set (a1 := Bump.mk _ _ _) in Ha1, Hwf1, Hst1, Hb1.
  pose proof (Bump.alloc_eq (E := KEvent) layout a1 Hwf1 Hlay) as Ha2.
  pose proof (Bump.ceil_spec (Bump.pos a1) (align_of layout) ltac:(unfold layout_ok in *; lia)) as [Hc2 _].
  fold (Bump.next a1 layout) in Hc2.
  assert (Bump.next a1 layout + size_of layout < Bump.len (allocator w) - Z.of_nat n * room)%Z as Hend
    by (cbn [a1 Bump.pos] in Hc2; nia).
  rewrite (proj2 (Z.ltb_lt _ _)) in Ha2 by (unfold layout_ok in *; cbn [a1 Bump.len]; nia).
  destruct (Bump.alloc_bounds _ _ _ _ _ Hwf1 Hlay Ha2) as (Hwf2 & Hst2 & _ & Hb2).
  set (a2 := Bump.mk _ _ _) in Ha2, Hwf2, Hst2, Hb2. set (t := (Bump.start a1 + Bump.next a1 layout)%Z) in *.
  destruct (dq_push_front_ok t (run_queue x) Hlq) as (q & Hq & Hqi).
  exists t, q, a2. split_and!; [exact Hqi|..].
  - intros Ht%Hbelow. unfold layout_ok in *. lia.
  - intros w'. split; [eapply (runs_spawn (H := P)); [exact Hx|exact Ha1|exact Ha2|exact Hq]|].
    unfold w'. set (w1 := set_headers _ _). split; [|destruct (put_executor_frame r (set_run_queue q x) w1) as (_ & _ & _ & _ & _ & ->);
      cbn [w1 allocator set_headers set_allocator a2 Bump.len Bump.pos a1]; lia].
    split; destruct (put_executor_frame r (set_run_queue q x) w1) as (_ & _ & _ & Hhd & _ & Hal); rewrite Hal; [exact Hwf2|].
    intros t2. unfold live. rewrite Hhd. cbn [w1 allocator headers set_headers set_allocator].
    destruct (decide (t = t2)) as [<-|Hne]; [intros _; unfold layout_ok in *; lia|].
    rewrite lookup_insert_ne by done. intros Ht2%Hbelow. unfold layout_ok in *. lia.
Qed.

Lemma runs_spawn_on_thread f ts n w : spawned ts (S n) w → length ts < MAX_TASKS →
  ∃ w' t, runs (spawn_on_thread future f) w tt w' [] ∧ spawned ((t, f) :: ts) n w' ∧ initialised w' = true.
Proof using Hfits HD HV HM HB.
  intros Hs0 Hlen. destruct (runs_list_thread ts (S n) w Hs0) as (w1 & Hr1 & Hs & Hi).
  destruct (runs_spawn_room ThreadRef f n w1 (thread_executor w1)) as (t & q & a & Hqi & Hfresh & Hr & Hroom);
    [split; apply Hs|done|fold (rq w1); by rewrite (sp_queue _ _ _ Hs), length_fmap|].
  eexists _, t. split; [|split].
  - unfold spawn_on_thread, kernel_spawn. eapply runs_bind_nil; [exact Hr1|exact Hr].
  - destruct Hs, Hroom. split; try done.
    + etrans; [exact Hqi|]. cbn. f_equal. exact sp_queue0.
    + intros t2 f2 [[= -> ->]|Hin]%elem_of_cons; cbn; [by rewrite lookup_insert_eq|].
      pose proof (sp_headers0 _ _ Hin) as Hh. rewrite lookup_insert_ne; [done|].
      intros <-. apply Hfresh. by eexists.
    + cbn. apply NoDup_cons. split; [|done]. intros Hin. apply list_elem_of_fmap in Hin as ([t2 f2] & Heq & Hin).
      cbn in Heq. subst t2. pose proof (sp_headers0 _ _ Hin) as Hh. apply Hfresh. by eexists.
  - exact Hi.
Qed.

(** ** Starting the executor

    The loop is about to start with the tasks [ts] in its run queue. *)
Record started (ts : list (TaskRef * Task)) w : Prop := {
  st_queue : rq w = ts.*1;
  st_headers t f : (t, f) ∈ ts → headers w !! t = Some (mk_header f ThreadRef None);
  st_nodup : NoDup ts.*1;
  st_timers : tq w = [];
  st_pender : pender (thread_executor w) = ThreadExecutorPender;
  st_handle : alarm_handle (thread_executor w) = Some 0%Z;
  st_event : event w = true;
  st_ticks : ticks w = 0%Z;
  st_user : user w = mk_shared [] (Pipe.new PIPE_SIZE);
  st_alarms : alarms_of w = [];
  st_slots : slots w = [Some ThreadRef]
}.

Lemma runs_start ts n w : spawned ts n w → ∃ w', runs start_thread_executor w tt w' [] ∧ started ts w'.
Proof using HD HV HM HB.
  intros Hs0. destruct (runs_list_thread ts n w Hs0) as (w1 & Hr1 & Hs & Hi).
  pose proof (sp_slots _ _ _ Hs) as Hsl. rewrite Hi in Hsl. destruct Hsl as [Hsl Hh].
  pose proof (AlarmQueue.register_callback_spec (E := KEvent) 0 ThreadRef (alarms w1) ltac:(done)) as Hreg.
  change (AlarmQueue.slots (alarms w1)) with (slots w1) in Hreg.
  rewrite Hsl, decide_True in Hreg by (simpl; lia).
  set (a := AlarmQueue.mk _ _) in Hreg.
  exists (set_alarms a w1). split.
  - unfold start_thread_executor. eapply runs_bind_nil; [exact Hr1|].
    unfold start_thread, register_alarm_callback. eapply runs_bind_nil; [op_prim|].
    eapply (runs_bind_nil _ _ _ (thread_executor w1)); [by apply runs_lift|]. rewrite Hh.
    by apply runs_zoom_alarms.
  - destruct Hs. split; try done. etrans; [by apply vec_write_iter|].
    exact (f_equal (<[0 := Some ThreadRef]>) Hsl).
Qed.

(** The tasks [fs] are spawned one after the other, then the executor is started. *)
Fixpoint spawn_then_start (fs : list Task) : KOp unit :=
  match fs with
  | [] => start_thread_executor
  | f :: fs => spawn_on_thread future f;; spawn_then_start fs
  end.

Lemma runs_spawn_then_start fs : ∀ ts n w, spawned ts (length fs + n) w →
  length ts + length fs ≤ MAX_TASKS →
  ∃ w' ts', runs (spawn_then_start fs) w tt w' [] ∧ started ts' w' ∧ ts'.*2 = reverse fs ++ ts.*2.
Proof using Hfits HD HV HM HB.
  induction fs as [|f fs IH]; intros ts n w Hs Hlen; cbn [length] in *.
  { destruct (runs_start ts n w Hs) as (w' & Hr & Hs'). by exists w', ts. }
  destruct (runs_spawn_on_thread f ts (length fs + n) w Hs ltac:(lia)) as (w1 & t & Hr1 & Hs1 & _).
  destruct (IH _ n w1 Hs1) as (w2 & ts' & Hr2 & Hs2 & Hts); [cbn [length]; lia|].
  exists w2, ts'. split_and!; [by eapply runs_bind_nil|done|].
  by rewrite Hts, reverse_cons, <-app_assoc.
Qed.

(** Booting into a program: the task spawned last is first in the run queue. *)
Lemma runs_boot fs : length fs ≤ MAX_TASKS → (Z.of_nat (length fs) * room < MEMORY_SIZE)%Z →
  ∃ w ts, runs (init;; spawn_then_start fs) initial tt w init_log ∧ started ts w ∧ ts.*2 = reverse fs.
Proof using Hfits HD HV HM HB.
  intros Hlen Hmem. assert (0 ≤ room)%Z as Hroom.
  { destruct (fits_future Hfits (BusyLoop P00_1)), (fits_header Hfits). unfold layout_ok in *. lia. }
  destruct (runs_init (length fs + 0) Hroom) as (w1 & Hr1 & Hs1); [by rewrite Nat.add_0_r|].
  destruct (runs_spawn_then_start fs [] 0 w1 Hs1) as (w2 & ts & Hr2 & Hs2 & Hts); [done|].
  exists w2, ts. rewrite app_nil_r in Hts. split_and!; [|done|done].
  eapply runs_log; [by eapply runs_bind|apply app_nil_r].
Qed.
End Spawning.

(** ** Running

    What a program sees of the world while its executor runs: the run queue [q],
    the headers [hs] and the shared state [u]; [e] is the event flag.  The rest
    is as in [w0]. *)
Record looks w0 (e : bool) (q : list TaskRef) (hs : gmap TaskRef TaskHeader) (u : Shared) w : Prop := {
  lk_event : event w = e;
  lk_queue : rq w = q;
  lk_headers : headers w = hs;
  lk_user : user w = u;
  lk_pender : pender (thread_executor w) = ThreadExecutorPender;
  lk_handle : alarm_handle (thread_executor w) = alarm_handle (thread_executor w0);
  lk_timers : timer_queue (thread_executor w) = timer_queue (thread_executor w0);
  lk_alarms : alarms w = alarms w0;
  lk_ticks : ticks w = ticks w0
}.

Lemma looks_pop w0 e t q hs u w : looks w0 e (t :: q) hs u w →
  ∃ d, dq_pop_front (run_queue (thread_executor w)) = (Some t, d) ∧
    looks w0 e q hs u (put_executor ThreadRef (set_run_queue d (thread_executor w)) w).
Proof using HD.
  intros []. destruct (dq_pop_front_cons (run_queue (thread_executor w)) t q lk_queue0) as (d & Hd & Hi).
  exists d. by split.
Qed.

Lemma looks_header w0 e q hs u w t h : looks w0 e q hs u w →
  looks w0 e q (<[t := h]> hs) u (set_headers (<[t := h]> (headers w)) w).
Proof. intros []. split; try done. cbn. by f_equal. Qed.

Lemma looks_user w0 e q hs u w u' : looks w0 e q hs u w → looks w0 e q hs u' (set_user u' w).
Proof. by intros []. Qed.

Lemma runs_emit_output w0 e q hs u w o : looks w0 e q hs u w →
  runs (emit o) w tt (set_user (output o (user w)) w) [] ∧
  looks w0 e q hs (output o u) (set_user (output o (user w)) w).
Proof. intros Hl. split; [done|]. rewrite (lk_user _ _ _ _ _ _ Hl). by eapply looks_user. Qed.

(** Waking a task of the executor. *)
Lemma runs_wake_thread w0 e q hs u w t h : looks w0 e q hs u w → hs !! t = Some h → executor h = ThreadRef →
  length q < MAX_TASKS →
  ∃ w', runs (vtable_wake_by_ref t) w tt w' [] ∧ looks w0 true (q ++ [t]) hs u w'.
Proof using HD HV HM HB.
  intros [] Hh He Hlen. subst q hs u.
  pose proof (runs_wake_by_ref t h w (thread_executor w) Hh) as Hr. rewrite He in Hr.
  specialize (Hr eq_refl). unfold pend_log in Hr. rewrite lk_pender0 in Hr.
  exists (woken ThreadRef t (thread_executor w) w). split; [done|].
  unfold woken, after_pend. rewrite lk_pender0. split; try done.
  etrans; [apply queued_pushed|]. by rewrite decide_True.
Qed.

(** *** Steps in terms of what is seen

    From every world that looks so before, [m] runs, returns [a] and leaves one that
    looks so after; the headers stay. *)
Definition moves {A} w0 hs (m : KOp A) e q u (a : A) e' q' u' : Prop :=
  ∀ w, looks w0 e q hs u w → ∃ w', runs m w a w' [] ∧ looks w0 e' q' hs u' w'.

Lemma moves_bind {A B} w0 hs (m : KOp A) (k : A → KOp B) e q u a e1 q1 u1 b e2 q2 u2 :
  moves w0 hs m e q u a e1 q1 u1 → moves w0 hs (k a) e1 q1 u1 b e2 q2 u2 →
  moves w0 hs (m ≫= k) e q u b e2 q2 u2.
Proof.
  intros Hm Hk w Hl. destruct (Hm w Hl) as (w1 & Hr1 & Hl1). destruct (Hk w1 Hl1) as (w2 & Hr2 & Hl2).
  exists w2. split; [by eapply runs_bind_nil|done].
Qed.
Lemma moves_ret {A} w0 hs (a : A) e q u : moves w0 hs (mret a) e q u a e q u.
Proof. intros w Hl. exists w. split; [apply runs_ret|done]. Qed.
Lemma moves_emit w0 hs o e q u : moves w0 hs (emit o) e q u tt e q (output o u).
Proof. intros w Hl. eexists. by apply (runs_emit_output w0 e q hs u w o). Qed.
Lemma moves_wake w0 hs t h e q u : hs !! t = Some h → executor h = ThreadRef → length q < MAX_TASKS →
  moves w0 hs (vtable_wake_by_ref t) e q u tt true (q ++ [t]) u.
Proof using HD HV HM HB. intros Hh He Hq w Hl. by eapply runs_wake_thread. Qed.
Lemma moves_lift {A} w0 hs (r : Outcome A) a e q u : r = Val a → moves w0 hs (op_lift r) e q u a e q u.
Proof. intros Hr w Hl. exists w. split; [by apply runs_lift|done]. Qed.

(** A call on the pipe that wakes nobody, and one that wakes [t]. *)
Lemma moves_pipe {A} w0 hs (m : Op Waker Pipe.t A) a p e q u : runs m (pipe u) a p [] →
  moves w0 hs (on_pipe m) e q u a e q (set_pipe p u).
Proof.
  intros Hm w Hl. eexists. split; [|by eapply looks_user].
  unfold runs, on_pipe, on_channel. by rewrite (lk_user _ _ _ _ _ _ Hl), Hm.
Qed.
Lemma moves_pipe_wake {A} w0 hs (m : Op Waker Pipe.t A) a p t h e q u : runs m (pipe u) a p [vtable_clone t] →
  hs !! t = Some h → executor h = ThreadRef → length q < MAX_TASKS →
  moves w0 hs (on_pipe m) e q u a true (q ++ [t]) (set_pipe p u).
Proof using HD HV HM HB.
  intros Hm Hh He Hq w Hl. pose proof (looks_user _ _ _ _ _ _ (set_pipe p u) Hl) as Hl1.
  destruct (runs_wake_thread _ _ _ _ _ _ t h Hl1 Hh He Hq) as (w2 & Hr & Hl2).
  exists w2. split; [|done]. unfold runs, on_pipe, on_channel. rewrite (lk_user _ _ _ _ _ _ Hl), Hm.
  eapply (runs_bind_nil _ _ _ tt w2); [|apply runs_ret].
  eapply (runs_bind_nil _ _ _ tt w2); [|apply runs_ret].
  eapply (runs_bind_nil _ _ _ t); [by apply runs_lift|exact Hr].
Qed.

Lemma moves_goes w0 hs n f cx e q u f' e1 q1 u1 r e2 q2 u2 :
  moves w0 hs (step f cx) e q u (Goes f') e1 q1 u1 →
  moves w0 hs (drive n f' cx) e1 q1 u1 r e2 q2 u2 →
  moves w0 hs (drive (S n) f cx) e q u r e2 q2 u2.
Proof. intros Hs Hd. cbn [drive]. by eapply moves_bind. Qed.
Lemma moves_waits w0 hs n f cx e q u f' e1 q1 u1 :
  moves w0 hs (step f cx) e q u (Waits f') e1 q1 u1 →
  moves w0 hs (drive (S n) f cx) e q u (Some f') e1 q1 u1.
Proof. intros Hs. cbn [drive]. eapply moves_bind; [exact Hs|apply moves_ret]. Qed.

(** *** Polling a block *)

Lemma drive_goes n f cx w f' w1 l1 r w2 l2 :
  runs (step f cx) w (Goes f') w1 l1 → runs (drive n f' cx) w1 r w2 l2 →
  runs (drive (S n) f cx) w r w2 (l1 ++ l2).
Proof. intros Hs Hd. cbn [drive]. by eapply runs_bind. Qed.
Lemma drive_waits n f cx w f' w1 l :
  runs (step f cx) w (Waits f') w1 l → runs (drive (S n) f cx) w (Some f') w1 l.
Proof. intros Hs. cbn [drive]. op_map (exact Hs). Qed.

(** The task [t], whose block is [f], is polled until it waits as [f']; it sets
    the deadline [d]. *)
Definition polls w0 e q hs u t f f' d e' q' u' : Prop :=
  ∀ w, looks w0 e q (<[t := mk_header f ThreadRef None]> hs) u w →
    ∃ w', runs (drive poll_fuel f (vtable_clone t)) w (Some f') w' [] ∧
      looks w0 e' q' (<[t := mk_header f ThreadRef d]> hs) u' w'.

(** One turn of the loop of [advance_runnable_tasks] up to [update_timer_queue]. *)
Lemma run_polls w0 e t q hs u w f d0 f' d e' q' u' : looks w0 e (t :: q) hs u w →
  hs !! t = Some (mk_header f ThreadRef d0) → polls w0 e q hs u t f f' d e' q' u' →
  ∃ w1 x dq, get_executor ThreadRef w = Some x ∧ dq_pop_front (run_queue x) = (Some t, dq) ∧
    runs (poll_task task_poll t) (put_executor ThreadRef (set_run_queue dq x) w) tt w1 [] ∧
    looks w0 e' q' (<[t := mk_header f' ThreadRef d]> hs) u' w1.
Proof using HD.
  intros Hl Hh Hp. destruct (looks_pop _ _ _ _ _ _ _ Hl) as (dq & Hd & Hl1).
  set (w1 := put_executor _ _ _) in Hl1.
  assert (headers w1 !! t = Some (mk_header f ThreadRef d0)) as Hh1
    by (by rewrite (lk_headers _ _ _ _ _ _ Hl1)).
  pose proof (looks_header _ _ _ _ _ _ t (mk_header f ThreadRef None) Hl1) as Hl2.
  destruct (Hp _ Hl2) as (w3 & Hr & Hl3).
  assert (headers w3 !! t = Some (mk_header f ThreadRef d)) as Hh3
    by (by rewrite (lk_headers _ _ _ _ _ _ Hl3), lookup_insert_eq).
  pose proof (looks_header _ _ _ _ _ _ t (mk_header f' ThreadRef d) Hl3) as Hl4.
  rewrite insert_insert_eq in Hl4.
  eexists _, (thread_executor w), dq. split_and!; [done|done| |exact Hl4].
  unfold poll_task. eapply runs_bind_nil; [by apply runs_read_header|].
  eapply runs_bind_nil; [apply runs_write_header|]. cbn [fut_ref executor].
  eapply (runs_bind_nil _ _ _ (Pending, f')).
  - unfold static_future_poll, task_poll.
    eapply (runs_bind_nil _ _ _ (Pending, f')); [|apply runs_ret].
    eapply (runs_bind_nil _ _ _ (Some f')); [exact Hr|apply runs_ret].
  - eapply runs_bind_nil; [by apply runs_read_header|apply runs_write_header].
Qed.

(** A task that sets no deadline. *)
Lemma ran_one w0 e t q hs u w f d0 f' e' q' u' : looks w0 e (t :: q) hs u w →
  hs !! t = Some (mk_header f ThreadRef d0) → polls w0 e q hs u t f f' None e' q' u' →
  ∃ w', ran task_poll ThreadRef [t] w w' [] ∧
    looks w0 e' q' (<[t := mk_header f' ThreadRef None]> hs) u' w'.
Proof using HD.
  intros Hl Hh Hp. destruct (run_polls _ _ _ _ _ _ _ _ _ _ _ _ _ _ Hl Hh Hp)
    as (w1 & x & dq & Hx & Hd & Hr & Hl1).
  exists w1. split; [|done].
  eapply (ran_cons _ _ _ _ _ _ _ _ [] _ []); [exact Hx|exact Hd| |apply ran_nil].
  assert (headers w1 !! t = Some (mk_header f' ThreadRef None)) as Hh1
    by (by rewrite (lk_headers _ _ _ _ _ _ Hl1), lookup_insert_eq).
  unfold run_task. eapply runs_bind_nil; [exact Hr|]. unfold update_timer_queue.
  eapply runs_bind_nil; [by apply runs_read_header|apply runs_ret].
Qed.

(** *** Polls without end *)

Abbreviation turns := (ran task_poll ThreadRef).

Lemma turns_app ts1 ts2 w w1 w2 l1 l2 : turns ts1 w w1 l1 → turns ts2 w1 w2 l2 →
  turns (ts1 ++ ts2) w w2 (l1 ++ l2).
Proof. induction 1; [done|]. intros Ht2. rewrite <-app_assoc. econstructor; eauto. Qed.

Lemma turns_cons t ts w w1 w2 : turns [t] w w1 [] → turns ts w1 w2 [] → turns (t :: ts) w w2 [].
Proof. intros Ht Hts. exact (turns_app [t] ts _ _ _ _ _ Ht Hts). Qed.

Lemma advance_out_of_fuel ts w w' l : turns ts w w' l →
  runs (advance_runnable_tasks task_poll (length ts) ThreadRef) w None w' l.
Proof.
  induction 1 as [w|t ts w x q w1 l1 w2 l2 Hx Hd Hr _ IH]; [done|]. cbn [length advance_runnable_tasks].
  eapply runs_bind_nil; [by apply runs_on_run_queue|]. cbv beta iota. by eapply runs_bind.
Qed.

(** What two phases that follow each other emit in [n] polls. *)
Fixpoint alternate (a b : list Output) (n : nat) : list Output :=
  match n with O => [] | S n => a ++ alternate b a n end.

(** Two phases that lead to each other, and what each puts out: the run queue is
    never empty. *)
Lemma phases (A B : list Output → World → Prop) (Q : World → Prop) :
  ∀ a b,
  (∀ o w, A o w → outputs (user w) = o ∧ Q w) → (∀ o w, B o w → outputs (user w) = o ∧ Q w) →
  (∀ o w, A o w → ∃ t w', turns [t] w w' [] ∧ B (o ++ a) w') →
  (∀ o w, B o w → ∃ t w', turns [t] w w' [] ∧ A (o ++ b) w') →
  ∀ n o w, A o w → ∃ ts w', length ts = n ∧ turns ts w w' [] ∧
    outputs (user w') = o ++ alternate a b n ∧ Q w'.
Proof.
  intros a b HA HB' HAB HBA n. revert A B a b HA HB' HAB HBA.
  induction n as [|n IH]; intros A B a b HA HB' HAB HBA o w Hw.
  { exists [], w. destruct (HA o w Hw). split_and!; [done|constructor|by rewrite app_nil_r|done]. }
  destruct (HAB o w Hw) as (t & w1 & Ht & Hw1).
  destruct (IH B A b a HB' HA HBA HAB _ w1 Hw1) as (ts & w2 & Hlen & Hts & Ho & HQ).
  exists (t :: ts), w2. split_and!; [cbn; by f_equal|by eapply turns_cons| |done].
  cbn [alternate]. by rewrite Ho, app_assoc.
Qed.

(** *** A turn of the loop *)

(** [check_timer_queue] when no timer is due. *)
Lemma runs_check_nothing w0 e q hs u w : looks w0 e q hs u w → task_items (tq w0) →
  Forall (λ i, ticks w0 < TimerQueue.expires_at i)%Z (tq w0) →
  ∃ w', runs (check_timer_queue ThreadRef) w tt w' [] ∧ looks w0 e q hs u w'.
Proof using HD HV HM HB.
  intros [] Hi HF.
  assert (tq w = tq w0) as Htq by (unfold tq, timers; by rewrite lk_timers0).
  pose proof (check_timer_queue_spec ThreadRef w (thread_executor w) [] (timer_queue (thread_executor w)) eq_refl) as Hc.
  fold (tq w) in Hc. rewrite Htq in Hc. specialize (Hc Hi).
  rewrite decide_True in Hc by (cbn [length]; pose proof (queued_bound (thread_executor w)); lia).
  destruct Hc as (w' & x' & Hr & Hu & Hq & Ht & Hp & Ha).
  { apply TimerQueue.nothing_due. rewrite lk_ticks0. fold (timers (thread_executor w)). fold (tq w). by rewrite Htq. }
  exists w'. split; [exact Hr|]. destruct Hu. injection upd_get as Hx. rewrite app_nil_r in Hq.
  split; rewrite ?Hx; try congruence. unfold rq. rewrite Hx. by rewrite Hq.
Qed.

(** A turn that polls without end, however long it may take: the loop has found
    the event flag set and no timer due. *)
Lemma turn_without_end w0 q hs u w : looks w0 true q hs u w → task_items (tq w0) →
  Forall (λ i, ticks w0 < TimerQueue.expires_at i)%Z (tq w0) →
  ∃ w1, looks w0 false q hs u w1 ∧ ∀ ts w2, turns ts w1 w2 [] →
    runs (thread_turn task_poll (length ts)) w None w2 [].
Proof using HD HV HM HB.
  intros Hl Hi HF.
  assert (looks w0 false q hs u (set_event false w)) as Hl1 by (by destruct Hl).
  destruct (runs_check_nothing _ _ _ _ _ _ Hl1 Hi HF) as (w1 & Hc & Hl2).
  exists w1. split; [done|]. intros ts w2 Hts. unfold thread_turn.
  eapply (runs_bind_nil _ _ _ true (set_event false w)).
  { unfold event_fetch_and_clear_local. eapply runs_bind_nil; [op_prim|].
    eapply runs_bind_nil; [op_prim|]. rewrite (lk_event _ _ _ _ _ _ Hl). apply runs_ret. }
  cbn [negb]. unfold exec_once. eapply runs_bind_nil; [exact Hc|].
  eapply (runs_bind_nil _ _ _ None); [by apply advance_out_of_fuel|apply runs_ret].
Qed.
End Programs.

(** ** An instance *)
Module ProgramDemo.
#[export] Instance demo_profile : Profile := true.
Definition demo_layout : Layout := mk_layout 24 8.
Definition demo_prio (n : Z) : Z := n.
Definition demo_memory : Z := 1879048192.
Definition demo_heap : Z := 2415919104.
Abbreviation demo := (platform (Dq := blist) (Vc := blist_vec) (Lm := bmap) (Bh := blist_bh)
  (prio := demo_prio) (layout := demo_layout) (memory := demo_memory) (heap := demo_heap)).
Definition demo_future (f : Task) : Layout := mk_layout 32 8.

Lemma demo_fits : fits (layout := demo_layout) (memory := demo_memory) demo_future 72.
Proof. split; [intros f|..]; repeat split; done. Qed.
End ProgramDemo.
