(* ===== verification/ProgramsProps.v ===== *)
(** * What the demonstrations do

    Two tasks that yield, a task that yields beside one that sleeps, two tasks
    that pass bytes through a pipe, and four tasks that sleep, each from the
    start-up of the kernel on. *)

From Stdlib Require Import Strings.Byte.
From S2P Require Import Prelude Heapless CriticalSection WaitQueue RingBuffer Pipe.
From S2P Require Import Bump Timers Kernel Executor ExecutorProps Scheduling Delivery.
From S2P Require Import Programs ProgramsFacts.
Import Programs.

Section Properties.
Context `{HP : Profile} {Dq Vc Lm : Type → nat → Type} {Bh : ∀ A : Type, (A → A → comparison) → Kind → nat → Type}.
Context `{HD : DequeLaws Dq} `{HV : VecLaws Vc} `{HM : MapLaws Lm} `{HB : HeapLaws Bh}.
Context {Nd : Type} {prio : Nd → Z} {layout : Layout} {memory heap : Z}.

Abbreviation P := (platform (Dq:=Dq) (Vc:=Vc) (Lm:=Lm) (Bh:=Bh) (prio:=prio) (layout:=layout) (memory:=memory) (heap:=heap)).
#[local] Hint Extern 0 Platform => exact P : typeclass_instances.
#[local] Hint Extern 0 (PlatformLaws) => exact platform_laws : typeclass_instances.
Abbreviation World := (@World P).
Abbreviation KEvent := (@KEvent P).
Abbreviation KOp := (Op KEvent World).
Implicit Types (w : World) (t : TaskRef) (f : Task).

Lemma task_from_clone t : task_from_waker (vtable_clone t) = Val t.
Proof. done. Qed.

(** ** Yielding *)

(** A task that is about to toggle its pin and yield. *)
Definition at_toggle (pin : Pin) f : Prop := f = YieldLoop pin ∨ f = Yielding pin true.

Lemma polls_yield w0 e q hs u t pin f : at_toggle pin f → length q < MAX_TASKS →
  polls w0 e q hs u t f (Yielding pin true) None true (q ++ [t]) (output (Toggle pin) u).
Proof using HD HV HM HB.
  intros Hf Hlen.
  assert (∀ n hs1 h, hs1 !! t = Some h → executor h = ThreadRef → moves w0 hs1 (drive (S (S n)) (YieldLoop pin) (vtable_clone t)) e q u (Some (Yielding pin true))
    true (q ++ [t]) (output (Toggle pin) u)) as Hloop.
  { intros n hs1 h Hh He. eapply moves_goes; [eapply moves_bind; [apply moves_emit|apply moves_ret]|].
    eapply moves_waits, (moves_bind _ _ _ _ _ _ _ (Pending, true)); [|apply moves_ret].
    eapply moves_bind; [by apply moves_lift|].
    eapply moves_bind; [|apply moves_ret]. by eapply moves_wake. }
  destruct Hf as [->| ->]; [by eapply Hloop; [apply lookup_insert_eq|]|].
  eapply moves_goes; [|by eapply (Hloop 5); [apply lookup_insert_eq|]].
  eapply (moves_bind _ _ _ _ _ _ _ (Ready tt, true)); apply moves_ret.
Qed.

Definition yields_at (hs : gmap TaskRef TaskHeader) t (pin : Pin) : Prop :=
  ∃ f, hs !! t = Some (mk_header f ThreadRef None) ∧ at_toggle pin f.

Lemma yields_at_next hs t pin t' h : t' ≠ t → yields_at hs t pin → yields_at (<[t' := h]> hs) t pin.
Proof. intros Hne (f & Hf & Ha). exists f. by rewrite lookup_insert_ne. Qed.
Lemma yields_at_again hs t pin :
  yields_at (<[t := mk_header (Yielding pin true) ThreadRef None]> hs) t pin.
Proof. exists (Yielding pin true). rewrite lookup_insert_eq. by split; [|right]. Qed.

Lemma ran_yield w0 e t q hs o p pin w : looks w0 e (t :: q) hs (mk_shared o p) w →
  length q < MAX_TASKS → yields_at hs t pin →
  ∃ w', ran task_poll ThreadRef [t] w w' [] ∧
    looks w0 true (q ++ [t]) (<[t := mk_header (Yielding pin true) ThreadRef None]> hs)
      (mk_shared (o ++ [Toggle pin]) p) w'.
Proof using HD HV HM HB.
  intros Hl Hlen (f & Hf & Ha).
  exact (ran_one _ _ _ _ _ _ _ _ _ _ _ _ _ Hl Hf (polls_yield _ _ _ _ _ _ _ _ Ha Hlen)).
Qed.

(** Two tasks that yield, of which [t1] runs next; and one alone. *)
Definition two_yield w0 t1 (pin1 : Pin) t2 (pin2 : Pin) (o : list Output) w : Prop :=
  ∃ e hs p, looks w0 e [t1; t2] hs (mk_shared o p) w ∧ yields_at hs t1 pin1 ∧ yields_at hs t2 pin2.
Definition one_yields w0 t (pin : Pin) (o : list Output) w : Prop :=
  ∃ e hs p, looks w0 e [t] hs (mk_shared o p) w ∧ yields_at hs t pin.

Lemma two_yield_step w0 t1 pin1 t2 pin2 o w : t1 ≠ t2 → two_yield w0 t1 pin1 t2 pin2 o w →
  ∃ t w', ran task_poll ThreadRef [t] w w' [] ∧ two_yield w0 t2 pin2 t1 pin1 (o ++ [Toggle pin1]) w'.
Proof using HD HV HM HB.
  intros Hne (e & hs & p & Hl & H1 & H2).
  destruct (ran_yield _ _ _ _ _ _ _ pin1 _ Hl) as (w' & Hr & Hl'); [unfold MAX_TASKS; cbn; lia|done|].
  exists t1, w'. split; [done|]. eexists _, _, p. split_and!; [exact Hl'|by apply yields_at_next|apply yields_at_again].
Qed.

Lemma one_yields_step w0 t pin o w : one_yields w0 t pin o w →
  ∃ t' w', ran task_poll ThreadRef [t'] w w' [] ∧ one_yields w0 t pin (o ++ [Toggle pin]) w'.
Proof using HD HV HM HB.
  intros (e & hs & p & Hl & Ht).
  destruct (ran_yield _ _ _ _ _ _ _ pin _ Hl) as (w' & Hr & Hl'); [unfold MAX_TASKS; cbn; lia|done|].
  exists t, w'. split; [done|]. eexists _, _, p. split; [exact Hl'|apply yields_at_again].
Qed.

Lemma alternate_same o n : alternate [o] [o] n = replicate n o.
Proof. induction n as [|n IH]; [done|]. cbn. by f_equal. Qed.

(** Nothing but the tasks in the run queue has changed. *)
Definition untouched w0 w : Prop :=
  timer_queue (thread_executor w) = timer_queue (thread_executor w0) ∧ alarms w = alarms w0.

Lemma looks_untouched w0 e q hs o p w : looks w0 e q hs (mk_shared o p) w →
  outputs (user w) = o ∧ untouched w0 w.
Proof. intros Hl. split; [by rewrite (lk_user _ _ _ _ _ _ Hl)|by destruct Hl]. Qed.

(** ** Sleeping *)

(** A task that is about to toggle its pin and sleep for [n] ticks. *)
Definition at_tick w0 (pin : Pin) (n : Z) f : Prop :=
  f = TickLoop pin n ∨ ∃ e, f = Sleeping pin n e ∧ (e ≤ ticks w0)%Z.

Lemma polls_sleep w0 e q hs u t pin n f : at_tick w0 pin n f → (0 < n)%Z →
  in_width W64 (ticks w0 + n) →
  polls w0 e q hs u t f (Sleeping pin n (ticks w0 + n)) (Some (ticks w0 + n)%Z) e q (output (Toggle pin) u).
Proof using HD HV HM HB.
  intros Hf Hn Hw w Hl. set (d := (ticks w0 + n)%Z).
  assert (∀ k, ∃ w', runs (drive (S (S k)) (TickLoop pin n) (vtable_clone t)) w (Some (Sleeping pin n d)) w' [] ∧
    looks w0 e q (<[t := mk_header f ThreadRef (Some d)]> hs) (output (Toggle pin) u) w') as Hloop.
  { intros k. destruct (runs_emit_output _ _ _ _ _ _ (Toggle pin) Hl) as [He Hl1].
    set (w1 := set_user _ _) in He, Hl1. pose proof (lk_ticks _ _ _ _ _ _ Hl1) as Hticks.
    assert (headers w1 !! t = Some (mk_header f ThreadRef None)) as Hh
      by (by rewrite (lk_headers _ _ _ _ _ _ Hl1), lookup_insert_eq).
    pose proof (looks_header _ _ _ _ _ _ t (mk_header f ThreadRef (Some d)) Hl1) as Hl2.
    rewrite insert_insert_eq in Hl2. eexists. split; [|exact Hl2].
    eapply (drive_goes _ _ _ _ (Sleeping pin n d) _ []).
    - cbn [step]. eapply runs_bind_nil; [exact He|]. eapply (runs_bind_nil _ _ _ d w1); [|apply runs_ret].
      unfold timer_after_ticks. eapply runs_bind_nil; [apply runs_now|]. apply runs_lift.
      rewrite Hticks. by apply uadd_in.
    - eapply drive_waits. cbn [step]. eapply (runs_bind_nil _ _ _ Pending); [|apply runs_ret].
      refine (runs_timer_poll_pending (H := P) d t _ w1 _ Hh). rewrite Hticks. unfold d. lia. }
  destruct Hf as [->|(e0 & -> & He0)]; [apply Hloop|].
  destruct (Hloop 5) as (w' & Hr & Hl'). exists w'. split; [|done].
  eapply (drive_goes _ _ _ _ _ _ []); [|exact Hr].
  cbn [step]. eapply (runs_bind_nil _ _ _ (Ready tt)); [|apply runs_ret].
  apply (runs_timer_poll_ready (H := P)). by rewrite (lk_ticks _ _ _ _ _ _ Hl).
Qed.

(** Only the timers may have changed, by the timers [l]. *)
Definition timers_set (l : list TimerQueue.Item) w w' : Prop :=
  tq w' ≡ₚ l ++ tq w ∧ ticks w' = ticks w ∧ alarms w' = alarms w ∧
  alarm_handle (thread_executor w') = alarm_handle (thread_executor w).

Lemma ran_sleep w0 e t q hs u w pin n f d0 : looks w0 e (t :: q) hs u w →
  hs !! t = Some (mk_header f ThreadRef d0) → at_tick w0 pin n f → (0 < n)%Z →
  in_width W64 (ticks w0 + n) → length (tq w0) < TimerQueue.N_TIMERS →
  let d := (ticks w0 + n)%Z in
  ∃ w', ran task_poll ThreadRef [t] w w' [] ∧
    looks w' e q (<[t := mk_header (Sleeping pin n d) ThreadRef (Some d)]> hs) (output (Toggle pin) u) w' ∧
    timers_set [task_item d t] w0 w'.
Proof using HD HV HM HB.
  intros Hl Hh Hf Hn Hw Hlen d.
  destruct (run_polls _ _ _ _ _ _ _ _ _ _ _ _ _ _ Hl Hh (polls_sleep _ e q hs u t _ _ _ Hf Hn Hw))
    as (w1 & x & dq & Hx & Hd & Hr & Hl1). fold d in Hl1.
  assert (headers w1 !! t = Some (mk_header (Sleeping pin n d) ThreadRef (Some d))) as Hh1
    by (by rewrite (lk_headers _ _ _ _ _ _ Hl1), lookup_insert_eq).
  destruct (update_timer_queue_spec ThreadRef t w1 (thread_executor w1) _ eq_refl Hh1)
    as (w2 & x2 & Hr2 & Hu & Hq & Hp & Ha & Hup).
  assert (tq w1 = tq w0) as Htq by (unfold tq, timers; by rewrite (lk_timers _ _ _ _ _ _ Hl1)).
  cbn [after_update expires_at] in Hup. rewrite decide_True in Hup by (fold (tq w1); by rewrite Htq).
  destruct Hl1, Hu. injection upd_get as Hx2. exists w2. split_and!.
  - eapply (ran_cons _ _ _ _ _ _ _ _ [] _ []); [exact Hx|exact Hd| |apply ran_nil].
    eapply runs_bind_nil; [exact Hr|exact Hr2].
  - split; rewrite ?Hx2; try congruence. unfold rq, queued. rewrite Hx2, Hq. done.
  - split_and!; rewrite ?Hx2; try congruence. unfold tq. rewrite Hx2, Hup. fold (tq w1). by rewrite Htq.
Qed.

(** ** Passing bytes

    The pipe of one byte with its wakers. *)
Definition pipe_at (full : bool) (b : byte) (reader writer : option Waker) : Pipe.t :=
  Pipe.mk [b] (Pipe.mk_state (RingBuffer.mk 0 0 full) (WakerRegistration.mk reader)
    (WakerRegistration.mk writer)).

Lemma read_nothing b c cx writer :
  runs (Pipe.read_poll PIPE_SIZE [c] cx) (pipe_at false b None writer) (Pending, [c])
    (pipe_at false b (Some cx) writer) [].
Proof. reflexivity. Qed.
Lemma read_byte b c cx reader writer :
  runs (Pipe.read_poll PIPE_SIZE [c] cx) (pipe_at true b reader (Some writer)) (Ready 1%Z, [b])
    (pipe_at false b reader None) [writer].
Proof. reflexivity. Qed.
Lemma write_byte b cx reader writer :
  runs (Pipe.write_all_poll PIPE_SIZE 2 message cx) (pipe_at false b (Some reader) writer)
    (Some (Ready tt, [])) (pipe_at true x61 None writer) [reader].
Proof. reflexivity. Qed.
Lemma write_nothing b cx reader :
  runs (Pipe.write_all_poll PIPE_SIZE 2 message cx) (pipe_at true b reader None)
    (Some (Pending, message)) (pipe_at true b reader (Some cx)) [].
Proof. reflexivity. Qed.

(** The sender [ts] and the waiter [tw] between polls. *)
Definition sends (hs : gmap TaskRef TaskHeader) ts (pin : Pin) : Prop := ∃ d, hs !! ts = Some (mk_header (Writing pin message) ThreadRef d).
Definition waits (hs : gmap TaskRef TaskHeader) tw (pin : Pin) : Prop := ∃ b d, hs !! tw = Some (mk_header (Reading pin [b]) ThreadRef d).

Lemma moves_read_nothing w0 hs n e q o b c cx writer pin :
  moves w0 hs (drive (S (S n)) (WaiterLoop pin [c]) cx) e q (mk_shared o (pipe_at false b None writer))
    (Some (Reading pin [c])) e q (mk_shared (o ++ [Toggle pin]) (pipe_at false b (Some cx) writer)).
Proof.
  eapply moves_goes; [eapply moves_bind; [apply moves_emit|apply moves_ret]|].
  eapply moves_waits, (moves_bind _ _ _ _ _ _ _ (Pending, [c])); [|apply moves_ret].
  by eapply moves_pipe, read_nothing.
Qed.

Lemma moves_write_nothing w0 hs n e q o b cx reader pin :
  moves w0 hs (drive (S (S n)) (SenderLoop pin) cx) e q (mk_shared o (pipe_at true b reader None))
    (Some (Writing pin message)) e q (mk_shared (o ++ [Toggle pin]) (pipe_at true b reader (Some cx))).
Proof.
  eapply moves_goes; [eapply moves_bind; [apply moves_emit|apply moves_ret]|].
  eapply moves_waits, (moves_bind _ _ _ _ _ _ _ (Some (Pending, message))); [|apply moves_ret].
  by eapply moves_pipe, write_nothing.
Qed.

(** The sender writes its byte, wakes the waiter and comes to the next one. *)
Lemma moves_write w0 hs n e q o b ts tw h pin : hs !! tw = Some h → executor h = ThreadRef → length q < MAX_TASKS →
  moves w0 hs (drive (S (S (S n))) (Writing pin message) (vtable_clone ts)) e q
    (mk_shared o (pipe_at false b (Some (vtable_clone tw)) None)) (Some (Writing pin message)) true (q ++ [tw])
    (mk_shared (o ++ [Toggle pin]) (pipe_at true x61 None (Some (vtable_clone ts)))).
Proof using HD HV HM HB.
  intros Hh He Hq. eapply moves_goes; [|apply moves_write_nothing].
  eapply (moves_bind _ _ _ _ _ _ _ (Some (Ready tt, []))); [|apply moves_ret].
  by eapply moves_pipe_wake; [apply write_byte|..].
Qed.

(** The waiter reads it, wakes the sender, prints and comes to wait again. *)
Lemma moves_read w0 hs n e q o b c ts tw h pin : hs !! ts = Some h → executor h = ThreadRef → length q < MAX_TASKS →
  moves w0 hs (drive (S (S (S n))) (Reading pin [c]) (vtable_clone tw)) e q
    (mk_shared o (pipe_at true b None (Some (vtable_clone ts)))) (Some (Reading pin [b])) true (q ++ [ts])
    (mk_shared (o ++ [Print wait_message; Toggle pin]) (pipe_at false b (Some (vtable_clone tw)) None)).
Proof using HD HV HM HB.
  intros Hh He Hq. 
  replace (o ++ [Print wait_message; Toggle pin]) with ((o ++ [Print wait_message]) ++ [Toggle pin])
    by (by rewrite <-app_assoc).
  eapply moves_goes; [|apply moves_read_nothing].
  eapply (moves_bind _ _ _ _ _ _ _ (Ready 1%Z, [b])); [by eapply moves_pipe_wake; [apply read_byte|..]|].
  eapply moves_bind; [apply moves_emit|apply moves_ret].
Qed.

(** The byte is in the pipe and the waiter is next; the byte has been read and the
    sender is next. *)
Definition byte_sent w0 ts (pin1 : Pin) tw (pin2 : Pin) (o : list Output) w : Prop :=
  ∃ e hs b, looks w0 e [tw] hs (mk_shared o (pipe_at true b None (Some (vtable_clone ts)))) w ∧
    sends hs ts pin1 ∧ waits hs tw pin2.
Definition byte_read w0 ts (pin1 : Pin) tw (pin2 : Pin) (o : list Output) w : Prop :=
  ∃ e hs b, looks w0 e [ts] hs (mk_shared o (pipe_at false b (Some (vtable_clone tw)) None)) w ∧
    sends hs ts pin1 ∧ waits hs tw pin2.

Lemma waiter_turn w0 ts pin1 tw pin2 o w : ts ≠ tw → byte_sent w0 ts pin1 tw pin2 o w →
  ∃ t w', ran task_poll ThreadRef [t] w w' [] ∧
    byte_read w0 ts pin1 tw pin2 (o ++ [Print wait_message; Toggle pin2]) w'.
Proof using HD HV HM HB.
  intros Hne (e & hs & b & Hl & (d & Hs) & c & d' & Hw).
  destruct (ran_one _ _ _ _ _ _ _ _ _ (Reading pin2 [b]) true [ts]
    (mk_shared (o ++ [Print wait_message; Toggle pin2]) (pipe_at false b (Some (vtable_clone tw)) None)) Hl Hw)
    as (w' & Hr & Hl').
  - eapply (moves_read _ _ 5 _ []); [by rewrite lookup_insert_ne|done|unfold MAX_TASKS; cbn; lia].
  - exists tw, w'. split; [done|]. eexists _, _, b. split; [exact Hl'|]. split.
    + exists d. by rewrite lookup_insert_ne.
    + exists b, None. by rewrite lookup_insert_eq.
Qed.

Lemma sender_turn w0 ts pin1 tw pin2 o w : ts ≠ tw → byte_read w0 ts pin1 tw pin2 o w →
  ∃ t w', ran task_poll ThreadRef [t] w w' [] ∧ byte_sent w0 ts pin1 tw pin2 (o ++ [Toggle pin1]) w'.
Proof using HD HV HM HB.
  intros Hne (e & hs & b & Hl & (d & Hs) & c & d' & Hw).
  destruct (ran_one _ _ _ _ _ _ _ _ _ (Writing pin1 message) true [tw]
    (mk_shared (o ++ [Toggle pin1]) (pipe_at true x61 None (Some (vtable_clone ts)))) Hl Hs)
    as (w' & Hr & Hl').
  - eapply (moves_write _ _ 5 _ []); [by rewrite lookup_insert_ne|done|unfold MAX_TASKS; cbn; lia].
  - exists ts, w'. split; [done|]. eexists _, _, x61. split; [exact Hl'|]. split.
    + exists None. by rewrite lookup_insert_eq.
    + exists c, d'. by rewrite lookup_insert_ne.
Qed.

(** The first polls of the two. *)
Lemma first_polls w0 e ts pin1 tw pin2 hs c w : ts ≠ tw →
  looks w0 e [tw; ts] hs (mk_shared [] (Pipe.new PIPE_SIZE)) w →
  hs !! ts = Some (mk_header (SenderLoop pin1) ThreadRef None) →
  hs !! tw = Some (mk_header (WaiterLoop pin2 [c]) ThreadRef None) →
  ∃ w', ran task_poll ThreadRef [tw; ts] w w' [] ∧
    byte_sent w0 ts pin1 tw pin2 [Toggle pin2; Toggle pin1; Toggle pin1] w'.
Proof using HD HV HM HB.
  intros Hne Hl Hs Hw.
  destruct (ran_one _ _ _ _ _ _ _ _ _ (Reading pin2 [c]) e [ts]
    (mk_shared [Toggle pin2] (pipe_at false x00 (Some (vtable_clone tw)) None)) Hl Hw)
    as (w1 & Hr1 & Hl1); [exact (moves_read_nothing w0 _ 6 _ _ [] _ _ _ _ _)|].
  pose proof (λ h, eq_trans (lookup_insert_ne hs tw ts h (not_eq_sym Hne)) Hs) as Hs1.
  destruct (ran_one _ _ _ _ _ _ _ _ _ (Writing pin1 message) true [tw]
    (mk_shared [Toggle pin2; Toggle pin1; Toggle pin1] (pipe_at true x61 None (Some (vtable_clone ts)))) Hl1 (Hs1 _))
    as (w2 & Hr2 & Hl2).
  - eapply moves_goes; [eapply moves_bind; [apply moves_emit|apply moves_ret]|].
    eapply (moves_write _ _ 4 _ [] [Toggle pin2; Toggle pin1]);
      [by rewrite lookup_insert_ne, lookup_insert_eq|done|unfold MAX_TASKS; cbn; lia].
  - exists w2. split; [by eapply turns_cons|]. eexists _, _, x61. split; [exact Hl2|]. split.
    + exists None. by rewrite lookup_insert_eq.
    + exists c, None. by rewrite lookup_insert_ne, lookup_insert_eq.
Qed.

Section Boot.
Variables (future : Task → Layout) (room : Z).
Hypothesis Hfits : fits (layout := layout) (memory := memory) future room.

Lemma started_looks ts w : started ts w → looks w true ts.*1 (headers w) (mk_shared [] (Pipe.new PIPE_SIZE)) w.
Proof. by intros []. Qed.

(** The tasks of a program that is about to start. *)
Lemma boot_two f1 f2 : (2 * room < MEMORY_SIZE)%Z →
  ∃ w t1 t2, runs (init;; spawn_then_start future [f1; f2]) initial tt w init_log ∧
    looks w true [t2; t1] (headers w) (mk_shared [] (Pipe.new PIPE_SIZE)) w ∧
    tq w = [] ∧ alarms_of w = [] ∧ ticks w = 0%Z ∧ t1 ≠ t2 ∧
    headers w !! t1 = Some (mk_header f1 ThreadRef None) ∧
    headers w !! t2 = Some (mk_header f2 ThreadRef None).
Proof using Hfits HD HV HM HB.
  intros Hroom. destruct (runs_boot (prio := prio) (heap := heap) future room Hfits [f1; f2]) as (w & ts & Hr & Hs & Hts);
    [unfold MAX_TASKS; cbn; lia|cbn [length]; lia|].
  destruct ts as [|[t2 f2'] [|[t1 f1'] [|]]]; try done. injection Hts as -> ->.
  pose proof (started_looks _ _ Hs) as Hl. destruct Hs. exists w, t1, t2.
  apply NoDup_cons in st_nodup as [Hne _].
  split_and!; [done..| | |]; [|apply st_headers; by right; left|apply st_headers; by left].
  intros ->. apply Hne. by left.
Qed.

(** Two tasks that yield take turns for ever: a run of the executor polls them
    alternately, the task spawned last first, and does not return, however many
    polls it is given. *)
Theorem yielding_tasks_take_turns n : (2 * room < MEMORY_SIZE)%Z →
  ∃ w w', runs (init;; thread_executor_context_switch_test future) initial tt w init_log ∧
    runs (thread_turn task_poll n) w None w' [] ∧
    outputs (user w') = alternate [Toggle P00_2] [Toggle P00_1] n.
Proof using Hfits HD HV HM HB.
  intros Hroom. destruct (boot_two (YieldLoop P00_1) (YieldLoop P00_2) Hroom)
    as (w & t1 & t2 & Hr & Hl & Htq & Hal & Hti & Hne & H1 & H2).
  destruct (turn_without_end _ _ _ _ _ Hl) as (w1 & Hl1 & Hturn); [by rewrite Htq; constructor..|].
  destruct (phases (two_yield w t2 P00_2 t1 P00_1) (two_yield w t1 P00_1 t2 P00_2) (untouched w)
    [Toggle P00_2] [Toggle P00_1]) with (n := n) (o := [] : list Output) (w := w1)
    as (ts & w' & <- & Hts & Ho & _).
  - intros o x (e & hs & p & Hx & _). by eapply looks_untouched.
  - intros o x (e & hs & p & Hx & _). by eapply looks_untouched.
  - intros o x Hx. apply two_yield_step; [by apply not_eq_sym|done].
  - intros o x Hx. by apply two_yield_step.
  - eexists _, _, _. split_and!; [exact Hl1|eexists; split; [done|by left]..].
  - exists w, w'. split_and!; [exact Hr|by apply Hturn|done].
Qed.

(** A task that yields starves one that sleeps: in a run of the executor the
    sleeping task toggles its pin once and the yielding one for ever; its timer
    stays in the queue, and no alarm is set for it. *)
Theorem yielding_task_starves_sleeper n : (2 * room < MEMORY_SIZE)%Z →
  ∃ w w' t, runs (init;; starvation_test future) initial tt w init_log ∧
    runs (thread_turn task_poll (S n)) w None w' [] ∧
    outputs (user w') = Toggle P00_2 :: replicate n (Toggle P00_1) ∧
    tq w' = [task_item 1 t] ∧ alarms_of w' = [].
Proof using Hfits HD HV HM HB.
  intros Hroom. destruct (boot_two (YieldLoop P00_1) (TickLoop P00_2 1) Hroom)
    as (w & t1 & t2 & Hr & Hl & Htq & Hal & Hti & Hne & H1 & H2).
  destruct (turn_without_end _ _ _ _ _ Hl) as (w1 & Hl1 & Hturn); [by rewrite Htq; constructor..|].
  destruct (ran_sleep _ _ _ _ _ _ _ P00_2 1 _ _ Hl1 H2) as (w2 & Hran & Hl2 & Hset & _ & Hal2 & _);
    [by left|done|by rewrite Hti|by rewrite Htq; unfold TimerQueue.N_TIMERS; simpl; lia|].
  rewrite Hti, Htq in *.
  destruct (phases (one_yields w2 t1 P00_1) (one_yields w2 t1 P00_1) (untouched w2)
    [Toggle P00_1] [Toggle P00_1]) with (n := n) (o := [Toggle P00_2]) (w := w2)
    as (ts & w' & <- & Hts & Ho & Htq' & Hal').
  - intros o x (e & hs & p & Hx & _). by eapply looks_untouched.
  - intros o x (e & hs & p & Hx & _). by eapply looks_untouched.
  - apply one_yields_step.
  - apply one_yields_step.
  - eexists _, _, _. split; [exact Hl2|]. apply yields_at_next; [by apply not_eq_sym|].
    eexists. split; [done|by left].
  - exists w, w', t2. split_and!; [exact Hr|by eapply (Hturn (t2 :: ts)), turns_cons| | |].
    + by rewrite Ho, alternate_same.
    + unfold tq, timers. rewrite Htq'. by apply Permutation_singleton_r.
    + unfold alarms_of. by rewrite Hal', Hal2.
Qed.

(** C31: two tasks pass bytes through the pipe for ever, one after the other: each byte
    that is sent wakes the waiter, which reads it and wakes the sender.  The run
    of the executor polls them alternately and does not return, however many
    polls it is given. *)
Theorem bytes_pass_for_ever n : (2 * room < MEMORY_SIZE)%Z →
  ∃ w w', runs (init;; inter_task_communication_thread future) initial tt w init_log ∧
    runs (thread_turn task_poll (S (S n))) w None w' [] ∧
    outputs (user w') = [Toggle P00_2; Toggle P00_1; Toggle P00_1] ++
      alternate [Print wait_message; Toggle P00_2] [Toggle P00_1] n.
Proof using Hfits HD HV HM HB.
  intros Hroom. destruct (boot_two (SenderLoop P00_1) (WaiterLoop P00_2 [x00]) Hroom)
    as (w & ts & tw & Hr & Hl & Htq & Hal & Hti & Hne & H1 & H2).
  destruct (turn_without_end _ _ _ _ _ Hl) as (w1 & Hl1 & Hturn); [by rewrite Htq; constructor..|].
  destruct (first_polls _ _ _ _ _ _ _ _ _ Hne Hl1 H1 H2) as (w2 & Hran & Hw2).
  destruct (phases (byte_sent w ts P00_1 tw P00_2) (byte_read w ts P00_1 tw P00_2) (untouched w)
    [Print wait_message; Toggle P00_2] [Toggle P00_1]) with (n := n) (w := w2)
    (o := [Toggle P00_2; Toggle P00_1; Toggle P00_1]) as (l & w' & <- & Hts & Ho & _).
  - intros o x (e & hs & p & Hx & _). by eapply looks_untouched.
  - intros o x (e & hs & p & Hx & _). by eapply looks_untouched.
  - intros o x. by apply waiter_turn.
  - intros o x. by apply sender_turn.
  - exact Hw2.
  - exists w, w'. split_and!; [exact Hr| |exact Ho].
    apply (Hturn (tw :: ts :: l)). by apply (turns_app [tw; ts] l w1 w2 w' [] []).
Qed.
End Boot.
End Properties.

(** ** Instances *)
Module ProgramWitnesses.
Import ProgramDemo.
#[local] Hint Extern 0 Platform => exact demo : typeclass_instances.

Lemma yielding_tasks_take_turns_witness : ∃ w w' : @World demo,
  runs (thread_turn task_poll 3) w None w' [] ∧
  outputs (user w') = [Toggle P00_2; Toggle P00_1; Toggle P00_2].
Proof.
  destruct (yielding_tasks_take_turns (Dq := blist) (Vc := blist_vec) (Lm := bmap) (Bh := blist_bh)
    (prio := demo_prio) (heap := demo_heap) demo_future 72 demo_fits 3 eq_refl) as (w & w' & _ & Hr & Ho).
  exists w, w'. split; [exact Hr|exact Ho].
Defined.

Lemma yielding_task_starves_sleeper_witness : ∃ w w' : @World demo,
  runs (thread_turn task_poll 4) w None w' [] ∧
  outputs (user w') = [Toggle P00_2; Toggle P00_1; Toggle P00_1; Toggle P00_1] ∧ alarms_of w' = [].
Proof.
  destruct (yielding_task_starves_sleeper (Dq := blist) (Vc := blist_vec) (Lm := bmap) (Bh := blist_bh)
    (prio := demo_prio) (heap := demo_heap) demo_future 72 demo_fits 3 eq_refl) as (w & w' & t & _ & Hr & Ho & _ & Ha).
  exists w, w'. split; [exact Hr|split; [exact Ho|exact Ha]].
Defined.

Lemma bytes_pass_for_ever_witness : ∃ w w' : @World demo,
  runs (thread_turn task_poll 4) w None w' [] ∧
  outputs (user w') = [Toggle P00_2; Toggle P00_1; Toggle P00_1; Print wait_message; Toggle P00_2; Toggle P00_1].
Proof.
  destruct (bytes_pass_for_ever (Dq := blist) (Vc := blist_vec) (Lm := bmap) (Bh := blist_bh)
    (prio := demo_prio) (heap := demo_heap) demo_future 72 demo_fits 2 eq_refl) as (w & w' & _ & Hr & Ho).
  exists w, w'. split; [exact Hr|exact Ho].
Defined.
End ProgramWitnesses.
