(* ===== verification/ProgramsTimers.v ===== *)
(** * The demonstration with four timers

    Four tasks toggle their pins and sleep for one tick each
    ([thread_executor_multiple_timers]).  The timer interrupt compares the
    alarms with the tick counter before it advances it, so that each is served
    one interrupt late and the tasks run every other tick. *)

From S2P Require Import Prelude Heapless CriticalSection WaitQueue RingBuffer Pipe.
From S2P Require Import Bump Timers Kernel Executor ExecutorProps Scheduling Delivery.
From S2P Require Import Programs ProgramsFacts ProgramsProps.
Import Programs.

Section Timers.
Context `{HP : Profile} {Dq Vc Lm : Type → nat → Type} {Bh : ∀ A : Type, (A → A → comparison) → Kind → nat → Type}.
Context `{HD : DequeLaws Dq} `{HV : VecLaws Vc} `{HM : MapLaws Lm} `{HB : HeapLaws Bh}.
Context {Nd : Type} {prio : Nd → Z} {layout : Layout} {memory heap : Z}.

Abbreviation P := (platform (Dq:=Dq) (Vc:=Vc) (Lm:=Lm) (Bh:=Bh) (prio:=prio) (layout:=layout) (memory:=memory) (heap:=heap)).
#[local] Hint Extern 0 Platform => exact P : typeclass_instances.
#[local] Hint Extern 0 (PlatformLaws) => exact platform_laws : typeclass_instances.
Abbreviation World := (@World P).
Abbreviation KEvent := (@KEvent P).
Abbreviation KOp := (Op KEvent World).
Implicit Types (w : World) (t : TaskRef) (f : Task) (l : list (TaskRef * Pin)).

(** ** Sleeping tasks

    The timers of [l] for the tick [d], and their headers. *)
Definition timers_of (d : Z) l : list TimerQueue.Item := (λ tp, task_item d tp.1) <$> l.
Definition asleep (d : Z) l (hs : gmap TaskRef TaskHeader) : Prop :=
  ∀ t pin, (t, pin) ∈ l → hs !! t = Some (mk_header (Sleeping pin 1 d) ThreadRef (Some d)).
(** The tasks [l] are about to toggle their pins. *)
Definition awake w l (hs : gmap TaskRef TaskHeader) : Prop :=
  ∀ t pin, (t, pin) ∈ l → ∃ f d, hs !! t = Some (mk_header f ThreadRef d) ∧ at_tick w pin 1 f.

(** Each of the tasks of the run queue toggles its pin and sets its timer. *)
Lemma all_sleep e p l : ∀ w0 w hs o, looks w0 e l.*1 hs (mk_shared o p) w → NoDup l.*1 →
  awake w0 l hs → in_width W64 (ticks w0 + 1) → length (tq w0) + length l ≤ TimerQueue.N_TIMERS →
  let d := (ticks w0 + 1)%Z in
  ∃ w1 w' hs', ran task_poll ThreadRef l.*1 w w' [] ∧
    looks w1 e [] hs' (mk_shared (o ++ (Toggle <$> l.*2)) p) w' ∧ timers_set (timers_of d l) w0 w1 ∧
    asleep d l hs' ∧ ∀ t, t ∉ l.*1 → hs' !! t = hs !! t.
Proof using HD HV HM HB.
  induction l as [|[t pin] l IH]; intros w0 w hs o Hl Hnd Haw Hw Hlen d; cbn [fmap list_fmap fst snd] in *.
  { exists w0, w, hs. rewrite app_nil_r. split_and!; [constructor|done|by split_and!| |done].
    intros t pin Hin. by apply elem_of_nil in Hin. }
  apply NoDup_cons in Hnd as [Hnin Hnd]. cbn [length] in Hlen.
  destruct (Haw t pin) as (f & d0 & Hf & Hat); [by left|].
  destruct (ran_sleep _ _ _ _ _ _ _ pin 1 f d0 Hl Hf Hat) as (w1 & Hr1 & Hl1 & Htq1 & Hti1 & Hal1 & Hah1);
    [lia|done|lia|]. fold d in Hl1, Htq1.
  destruct (IH w1 w1 _ _ Hl1 Hnd) as (w2 & w' & hs' & Hr & Hl2 & (Htq2 & Hti2 & Hal2 & Hah2) & Has & Hother).
  - intros t' pin' Hin. destruct (Haw t' pin') as (f' & d' & Hf' & Hat'); [by right|].
    exists f', d'. unfold at_tick. rewrite Hti1. split; [|done]. rewrite lookup_insert_ne; [done|].
    intros ->. apply Hnin, list_elem_of_fmap. by exists (t', pin').
  - by rewrite Hti1.
  - rewrite Htq1, length_app. cbn. lia.
  - exists w2, w', hs'. rewrite Hti1 in *. split_and!.
    + by eapply turns_cons.
    + by rewrite cons_middle, app_assoc.
    + split_and!; [|congruence..]. rewrite Htq2, Htq1. unfold timers_of. cbn. by rewrite Permutation_middle.
    + intros t' pin' [[= -> ->]|Hin]%elem_of_cons; [|by apply Has].
      by rewrite Hother, lookup_insert_eq.
    + intros t' Ht'. apply not_elem_of_cons in Ht' as [Hne Ht']. rewrite Hother by done.
      by rewrite lookup_insert_ne.
Qed.

(** ** A run of the executor *)

(** The loop waits; every task of [l] sleeps until [d], and the alarm is set. *)
Record idle (d : Z) l (o : list Output) w : Prop := {
  id_event : event w = false;
  id_queue : rq w = [];
  id_pender : pender (thread_executor w) = ThreadExecutorPender;
  id_handle : alarm_handle (thread_executor w) = Some 0%Z;
  id_timers : tq w ≡ₚ timers_of d l;
  id_headers : asleep d l (headers w);
  id_alarms : alarms_of w = [AlarmQueue.item d 0];
  id_slots : slots w = [Some ThreadRef];
  id_user : outputs (user w) = o
}.

Lemma task_items_of d l : task_items (timers_of d l).
Proof. unfold task_items, timers_of. rewrite Forall_fmap. by apply Forall_true. Qed.

Lemma set_thread_id w : set_thread (thread_executor w) w = w.
Proof. by destruct w. Qed.

(** The rest of a run of the executor, after [check_timer_queue]. *)
Lemma runs_sleepers l o p w : looks w false l.*1 (headers w) (mk_shared o p) w → tq w = [] →
  alarms_of w = [] → slots w = [Some ThreadRef] → alarm_handle (thread_executor w) = Some 0%Z →
  l ≠ [] → NoDup l.*1 → awake w l (headers w) → in_width W64 (ticks w + 1) → length l ≤ MAX_TASKS →
  ∃ w1 w', (∀ fuel, length l < fuel →
      runs (advance_runnable_tasks task_poll fuel ThreadRef) w (Some tt) w1 []) ∧
    runs (renew_alarm ThreadRef) w1 tt w' [] ∧ ticks w' = ticks w ∧
    idle (ticks w + 1) l (o ++ (Toggle <$> l.*2)) w'.
Proof using HD HV HM HB.
  intros Hl Htq Hal Hsl Hah Hne Hnd Haw Hw Hlen. set (d := (ticks w + 1)%Z).
  destruct (all_sleep _ p l w w _ o Hl Hnd Haw Hw) as (w1 & w2 & hs & Hr & Hl2 & (Ht1 & Hti1 & Hal1 & Hah1) & Has & _).
  { rewrite Htq. unfold TimerQueue.N_TIMERS, MAX_TASKS in *. simpl. lia. }
  fold d in Ht1, Has. rewrite Htq, app_nil_r in Ht1. destruct Hl2.
  assert (tq w2 ≡ₚ timers_of d l) as Htq2 by (unfold tq, timers; by rewrite lk_timers).
  destruct (renew_alarm_spec ThreadRef w2 (thread_executor w2) eq_refl) as (w' & Hr' & Hren).
  { rewrite lk_handle, Hah1, Hah. by eexists. }
  exists w2, w'. split_and!; [|exact Hr'|destruct Hren as (_ & _ & -> & _); by rewrite lk_ticks|].
  - intros fuel Hfuel. pose proof (advance_ran (H := P) _ _ _ _ _ _ Hr fuel (thread_executor w2)) as Hadv.
    rewrite length_fmap in Hadv. specialize (Hadv Hfuel eq_refl lk_queue).
    change (put_executor _ _ w2) with (set_thread (thread_executor w2) w2) in Hadv.
    by rewrite set_thread_id in Hadv.
  - pose proof (TimerQueue.next_expiration_spec (timer_queue (thread_executor w2))) as Hn.
    assert (TimerQueue.next_expiration (timer_queue (thread_executor w2)) = Some d) as Hnext.
    { destruct (TimerQueue.next_expiration _) as [e|].
      - destruct Hn as (i & Hi & <- & _). fold (timers (thread_executor w2)) in Hi. fold (tq w2) in Hi.
        rewrite Htq2 in Hi. unfold timers_of in Hi. by apply list_elem_of_fmap in Hi as ([t pin] & -> & _).
      - change (tq w2 = []) in Hn. rewrite Hn in Htq2. apply Permutation_nil_l in Htq2.
        by destruct l. }
    destruct (eq_ind _ (λ n, renewed n w2 (thread_executor w2) w') Hren _ Hnext)
      as ((Hg & Hhd & Hu & _) & Hev & Hti & Hsl' & Hal').
    specialize (Hg ThreadRef). injection Hg as Hth. rewrite lk_handle, Hah1, Hah in Hal'.
    assert (alarms_of w2 = []) as Hal2 by (unfold alarms_of; by rewrite lk_alarms, Hal1).
    rewrite Hal2, decide_True in Hal' by (unfold N_ALARM_ITEMS; simpl; lia).
    split; rewrite ?Hth; try congruence.
    + unfold rq. by rewrite Hth.
    + unfold tq. by rewrite Hth.
    + by rewrite Hhd, lk_headers.
    + by apply Permutation_singleton_r.
    + rewrite Hsl'. unfold slots. by rewrite lk_alarms, Hal1.
    + by rewrite Hu, lk_user.
Qed.

(** A turn of the loop that finds the event flag set, given what
    [check_timer_queue] leaves. *)
Lemma turn_serves l o p w w1 : event w = true →
  runs (check_timer_queue ThreadRef) (set_event false w) tt w1 [] →
  looks w1 false l.*1 (headers w1) (mk_shared o p) w1 → tq w1 = [] →
  alarms_of w1 = [] → slots w1 = [Some ThreadRef] → alarm_handle (thread_executor w1) = Some 0%Z →
  l ≠ [] → NoDup l.*1 → awake w1 l (headers w1) → in_width W64 (ticks w1 + 1) → length l ≤ MAX_TASKS →
  ∃ w', (∀ fuel, length l < fuel → runs (thread_turn task_poll fuel) w (Some tt) w' []) ∧
    ticks w' = ticks w1 ∧ idle (ticks w1 + 1) l (o ++ (Toggle <$> l.*2)) w'.
Proof using HD HV HM HB.
  intros Hev Hc Hl Htq Hal Hsl Hah Hne Hnd Haw Hw Hlen.
  destruct (runs_sleepers l o p w1) as (w2 & w' & Hr & Hr' & Ht & Hid); [done..|].
  exists w'. split_and!; [|done..]. intros fuel Hfuel. unfold thread_turn.
  eapply (runs_bind_nil _ _ _ true (set_event false w)).
  { unfold event_fetch_and_clear_local. eapply runs_bind_nil; [op_prim|].
    eapply runs_bind_nil; [op_prim|]. rewrite Hev. apply runs_ret. }
  cbn [negb]. unfold exec_once. eapply runs_bind_nil; [exact Hc|].
  eapply (runs_bind_nil _ _ _ (Some tt)); [by apply Hr|].
  eapply runs_bind_nil; [exact Hr'|apply runs_ret].
Qed.

(** A turn that finds it clear. *)
Lemma turn_idles d l o w : idle d l o w → ∃ w', (∀ fuel, runs (thread_turn task_poll fuel) w (Some tt) w' []) ∧
  idle d l o w' ∧ ticks w' = ticks w.
Proof.
  intros []. exists (set_event false w). split_and!; [|by split|done]. intros fuel. unfold thread_turn.
  eapply (runs_bind_nil _ _ _ false (set_event false w)); [|apply runs_ret].
  unfold event_fetch_and_clear_local. eapply runs_bind_nil; [op_prim|].
  eapply runs_bind_nil; [op_prim|]. rewrite id_event0. apply runs_ret.
Qed.

(** ** The timer interrupt *)

Lemma tick_early d l o w : idle d l o w → (ticks w < d)%Z →
  ∃ w', runs on_timer_interrupt w tt w' [] ∧ idle d l o w' ∧
    ticks w' = ((ticks w + 1) mod modulus W32)%Z.
Proof using HD HV HM HB.
  intros Hid Hd. eexists. split; [apply runs_tick_nothing_due|by destruct Hid];
    rewrite (id_alarms _ _ _ _ Hid); by constructor.
Qed.

Lemma tick_due d l o w : idle d l o w → (d ≤ ticks w)%Z →
  ∃ w' log, runs on_timer_interrupt w tt w' log ∧ same_tasks w w' ∧ event w' = true ∧
    ticks w' = ((ticks w + 1) mod modulus W32)%Z ∧ alarms_of w' = [] ∧ slots w' = slots w.
Proof using HD HV HM HB.
  intros [] Hd.
  assert (alarm_target w (AlarmQueue.item d 0) ThreadRef) as Htgt.
  { split_and!; [done|by rewrite id_slots0|by eexists]. }
  destruct (runs_on_timer_interrupt w) as (w' & log & due & Hr & Hst & Ht & Hp & Hsl & _ & Hlate & _ & Hall).
  { unfold alarms_ok. rewrite id_alarms0. constructor; [by exists ThreadRef|done]. }
  rewrite id_alarms0 in Hp. exists w', log.
  assert (AlarmQueue.item d 0 ∈ due ∧ alarms_of w' = []) as [Hin Hnil].
  { destruct (alarms_of w') as [|i li] eqn:Hi.
    - rewrite app_nil_r in Hp. split; [rewrite <-Hp; by left|done].
    - exfalso. assert (i ∈ [AlarmQueue.item d 0]) as ->%list_elem_of_singleton
        by (rewrite Hp; apply elem_of_app; right; by left).
      apply Forall_cons in Hlate as [Hlate _]. cbn in Hlate. lia. }
  split_and!; try done. specialize (Hall _ _ _ Hin Htgt eq_refl). unfold pended in Hall.
  by rewrite id_pender0 in Hall.
Qed.

(** ** Two ticks

    The turn after the interrupt that serves the alarm. *)
Lemma turn_wakes d l o w : event w = true → rq w = [] → pender (thread_executor w) = ThreadExecutorPender →
  alarm_handle (thread_executor w) = Some 0%Z → tq w ≡ₚ timers_of d l → asleep d l (headers w) →
  alarms_of w = [] → slots w = [Some ThreadRef] → outputs (user w) = o → (d ≤ ticks w)%Z →
  l ≠ [] → NoDup l.*1 → in_width W64 (ticks w + 1) → length l ≤ MAX_TASKS →
  ∃ w' l', l' ≡ₚ l ∧ (∀ fuel, length l < fuel → runs (thread_turn task_poll fuel) w (Some tt) w' []) ∧
    ticks w' = ticks w ∧ idle (ticks w + 1) l' (o ++ (Toggle <$> l'.*2)) w'.
Proof using HD HV HM HB.
  intros Hev Hq Hpd Hah Htq Has Hal Hsl Ho Hd Hne Hnd Hw Hlen. set (x := thread_executor w).
  destruct (TimerQueue.due_exists (H := Bh) (ticks w) (timer_queue x)) as (due & q & Hdue).
  destruct (TimerQueue.due_spec _ _ _ _ Hdue) as (Hp & _ & Hlate & _).
  change (TimerQueue.items (timer_queue x)) with (tq w) in Hp. rewrite Htq in Hp.
  assert (TimerQueue.items q = []) as Hnil.
  { destruct (TimerQueue.items q) as [|i li] eqn:Hi; [done|]. exfalso.
    assert (i ∈ timers_of d l) as Hin by (rewrite Hp; apply elem_of_app; right; by left).
    unfold timers_of in Hin. apply list_elem_of_fmap in Hin as ([t pin] & -> & _).
    apply Forall_cons in Hlate as [Hlate _]. cbn in Hlate. lia. }
  rewrite Hnil, app_nil_r in Hp. symmetry in Hp.
  destruct (Permutation_map_inv _ _ Hp) as (l' & -> & Hl'). change (map _ l') with (timers_of d l') in *.
  assert (length l' = length l) as Hlen' by by rewrite Hl'.
  pose proof (check_timer_queue_spec ThreadRef (set_event false w) x (timers_of d l') q eq_refl) as Hc.
  change (timers x) with (tq w) in Hc. change (queued x) with (rq w) in Hc. rewrite Hq in Hc.
  rewrite decide_True in Hc by (unfold timers_of; rewrite length_fmap, Hlen'; exact Hlen).
  destruct Hc as (w1 & x1 & Hr & Hu & Hq1 & Htq1 & Hp1 & Ha1); [unfold task_items; rewrite Htq; apply task_items_of|exact Hdue|].
  destruct Hu. injection upd_get as Hx1. cbn [app] in Hq1. destruct (user w) as [os p] eqn:Hus. cbn in Ho. subst os.
  assert (item_task <$> timers_of d l' = l'.*1) as Htasks by (unfold timers_of; by rewrite <-list_fmap_compose).
  assert (alarms_of w1 = []) as Hal1 by (unfold alarms_of; by rewrite upd_alarms).
  assert (slots w1 = [Some ThreadRef]) as Hsl1 by (unfold slots; by rewrite upd_alarms).
  assert (tq w1 = []) as Htqn by (unfold tq, timers; by rewrite Hx1, Htq1).
  assert (awake w1 l' (headers w1)) as Haw.
  { intros t pin Hin. exists (Sleeping pin 1 d), (Some d). rewrite upd_headers. split.
    - apply Has. by rewrite Hl'.
    - right. exists d. rewrite upd_ticks. done. }
  destruct (turn_serves l' o p w w1) as (w' & Hr' & Ht' & Hid); try done.
  - split; rewrite ?Hx1; try done; [|by rewrite upd_user|by rewrite Hp1]. unfold rq. by rewrite Hx1, Hq1.
  - by rewrite Hx1, Ha1.
  - intros ->. by apply Permutation_nil_r in Hl'.
  - by rewrite <-Hl'.
  - by rewrite upd_ticks.
  - by rewrite Hlen'.
  - exists w', l'. rewrite Hlen' in Hr'. rewrite upd_ticks in *. by split_and!.
Qed.

(** [n] timer interrupts, each followed by a turn of the loop. *)
Fixpoint run_ticks (fuel n : nat) : KOp unit :=
  match n with
  | O => mret tt
  | S n =>
      on_timer_interrupt;;
      r ← thread_turn task_poll fuel;
      match r with Some _ => run_ticks fuel n | None => op_panic end
  end.

Lemma runs_tick fuel n w w1 log1 w2 log2 w3 log3 : runs on_timer_interrupt w tt w1 log1 →
  runs (thread_turn task_poll fuel) w1 (Some tt) w2 log2 → runs (run_ticks fuel n) w2 tt w3 log3 →
  runs (run_ticks fuel (S n)) w tt w3 (log1 ++ log2 ++ log3).
Proof. intros H1 H2 H3. cbn [run_ticks]. eapply runs_bind; [exact H1|]. by eapply runs_bind. Qed.

(** How often a pin has been toggled. *)
Definition toggles (pin : Pin) (o : list Output) : nat := length (filter (λ x, x = Toggle pin) o).

Lemma toggles_app pin o1 o2 : toggles pin (o1 ++ o2) = toggles pin o1 + toggles pin o2.
Proof. unfold toggles. by rewrite filter_app, length_app. Qed.
Lemma toggles_perm pin o1 o2 : o1 ≡ₚ o2 → toggles pin o1 = toggles pin o2.
Proof. unfold toggles. by intros ->. Qed.

(** From one sleep to the next: nothing happens at the first interrupt. *)
Lemma two_ticks d l o w : idle d l o w → (0 ≤ ticks w)%Z → d = (ticks w + 1)%Z → (d + 1 < modulus W32)%Z →
  l ≠ [] → NoDup l.*1 → length l ≤ MAX_TASKS →
  ∃ w' l' log, l' ≡ₚ l ∧ idle (d + 2) l' (o ++ (Toggle <$> l'.*2)) w' ∧ ticks w' = (d + 1)%Z ∧
    ∀ fuel n w3 log3, length l < fuel → runs (run_ticks fuel n) w' tt w3 log3 →
      runs (run_ticks fuel (S (S n))) w tt w3 (log ++ log3).
Proof using HD HV HM HB.
  intros Hid H0 Hd Hmax Hne Hnd Hlen.
  destruct (tick_early d l o w Hid ltac:(lia)) as (w1 & Hr1 & Hid1 & Ht1).
  rewrite Z.mod_small in Ht1 by lia. rewrite <-Hd in Ht1.
  destruct (turn_idles d l o w1 Hid1) as (w2 & Hr2 & Hid2 & Ht2). rewrite Ht1 in Ht2.
  destruct (tick_due d l o w2 Hid2) as (w3 & log & Hr3 & (Hg & Hh & Hu & _) & Hev & Ht3 & Hal & Hsl); [lia|].
  rewrite Ht2, Z.mod_small in Ht3 by lia.
  pose proof (Hg ThreadRef) as Hth. injection Hth as Hth. destruct Hid2.
  destruct (turn_wakes d l o w3) as (w4 & l' & Hl' & Hr4 & Ht4 & Hid4);
    rewrite ?Ht3; unfold rq, tq; rewrite ?Hth, ?Hh, ?Hsl, ?Hu; try done; [lia|unfold in_width, modulus in *; lia|].
  rewrite Ht3 in *. exists w4, l', ([] ++ [] ++ log ++ []). split_and!; [done| |done|].
  - by replace (d + 2)%Z with (d + 1 + 1)%Z by lia.
  - intros fuel n w5 log3 Hfuel Hr. eapply runs_log.
    + eapply runs_tick; [exact Hr1|apply Hr2|]. eapply runs_tick; [exact Hr3|by apply Hr4|exact Hr].
    + by rewrite !app_nil_r.
Qed.

Lemma many_ticks k : ∀ d l o w, idle d l o w → (0 ≤ ticks w)%Z → d = (ticks w + 1)%Z →
  (d + 2 * Z.of_nat k < modulus W32)%Z → l ≠ [] → NoDup l.*1 → length l ≤ MAX_TASKS →
  ∃ w' log, (∀ fuel, length l < fuel → runs (run_ticks fuel (2 * k)) w tt w' log) ∧
    ticks w' = (ticks w + 2 * Z.of_nat k)%Z ∧
    ∀ pin, toggles pin (outputs (user w')) = toggles pin o + k * toggles pin (Toggle <$> l.*2).
Proof using HD HV HM HB.
  induction k as [|k IH]; intros d l o w Hid H0 Hd Hmax Hne Hnd Hlen.
  { exists w, []. split_and!; [intros; apply runs_ret|lia|]. intros pin. destruct Hid. subst o. lia. }
  destruct (two_ticks d l o w) as (w1 & l' & log & Hl' & Hid1 & Ht1 & Hr1); try done; [lia|].
  destruct (IH (d + 2)%Z l' _ w1 Hid1) as (w2 & log2 & Hr2 & Ht2 & Htog); [lia..| | | |].
  - intros ->. by apply Permutation_nil_l in Hl'.
  - by rewrite Hl'.
  - by rewrite Hl'.
  - exists w2, (log ++ log2). split_and!; [|lia|].
    + intros fuel Hfuel. replace (2 * S k) with (S (S (2 * k))) by lia.
      apply Hr1; [done|]. apply Hr2. by rewrite Hl'.
    + intros pin. rewrite Htog, toggles_app.
      rewrite (toggles_perm pin (Toggle <$> l'.*2) (Toggle <$> l.*2)) by (by rewrite Hl'). lia.
Qed.

(** ** The program *)
Section Boot.
Variables (future : Task → Layout) (room : Z).
Hypothesis Hfits : fits (layout := layout) (memory := memory) future room.

(** The first turn, in which every task starts to sleep. *)
Lemma first_turn l w : started ((λ tp, (tp.1, TickLoop tp.2 1)) <$> l) w → l ≠ [] → length l ≤ MAX_TASKS →
  ∃ w', (∀ fuel, length l < fuel → runs (thread_turn task_poll fuel) w (Some tt) w' []) ∧
    ticks w' = 0%Z ∧ idle 1 l (Toggle <$> l.*2) w' ∧ NoDup l.*1.
Proof using HD HV HM HB.
  intros Hs Hne Hlen. pose proof (started_looks _ _ Hs) as Hl. destruct Hs.
  assert (((λ tp : TaskRef * Pin, (tp.1, TickLoop tp.2 1)) <$> l).*1 = l.*1) as Hfst
    by (by rewrite <-list_fmap_compose).
  rewrite Hfst in *.
  assert (looks w false l.*1 (headers w) (mk_shared [] (Pipe.new PIPE_SIZE)) (set_event false w)) as Hl1
    by (by destruct Hl).
  destruct (runs_check_nothing _ _ _ _ _ _ Hl1) as (w1 & Hc & Hl2); [by rewrite st_timers; constructor..|].
  assert (ticks w1 = 0%Z) as Ht by (by rewrite (lk_ticks _ _ _ _ _ _ Hl2)).
  destruct (turn_serves l [] (Pipe.new PIPE_SIZE) w w1) as (w' & Hr & Ht' & Hid); try done.
  - by destruct Hl2; split.
  - unfold tq, timers. by rewrite (lk_timers _ _ _ _ _ _ Hl2).
  - unfold alarms_of. by rewrite (lk_alarms _ _ _ _ _ _ Hl2).
  - unfold slots. by rewrite (lk_alarms _ _ _ _ _ _ Hl2).
  - by rewrite (lk_handle _ _ _ _ _ _ Hl2).
  - intros t pin Hin. exists (TickLoop pin 1), None. split; [|by left].
    rewrite (lk_headers _ _ _ _ _ _ Hl2). apply st_headers, list_elem_of_fmap. by exists (t, pin).
  - by rewrite Ht.
  - exists w'. rewrite Ht in *. by split_and!.
Qed.

(** C32: a task that sleeps for one tick sleeps for two when the executor is idle
    otherwise.  Each of the four pins is toggled before the first tick and then at
    every other tick: the alarms are compared with the tick counter before it
    advances, so that the alarm of tick [d] is served at tick [d + 1]. *)
Theorem one_tick_takes_two k fuel : (4 * room < MEMORY_SIZE)%Z → (2 * Z.of_nat k + 1 < modulus W32)%Z →
  4 < fuel →
  ∃ w w1 w' log, runs (init;; thread_executor_multiple_timers future) initial tt w init_log ∧
    runs (thread_turn task_poll fuel) w (Some tt) w1 [] ∧ runs (run_ticks fuel (2 * k)) w1 tt w' log ∧
    ticks w' = (2 * Z.of_nat k)%Z ∧
    ∀ pin, pin ∈ [P00_1; P00_2; P00_3; P00_5] → toggles pin (outputs (user w')) = S k.
Proof using Hfits HD HV HM HB.
  intros Hroom Hk Hfuel.
  destruct (runs_boot (prio := prio) (heap := heap) future room Hfits
    [TickLoop P00_1 1; TickLoop P00_2 1; TickLoop P00_3 1; TickLoop P00_5 1]) as (w & ts & Hr & Hs & Hts);
    [unfold MAX_TASKS; cbn; lia|cbn [length]; lia|].
  destruct ts as [|[t1 f1] [|[t2 f2] [|[t3 f3] [|[t4 f4] [|]]]]]; try done. injection Hts as -> -> -> ->.
  destruct (first_turn [(t1, P00_5); (t2, P00_3); (t3, P00_2); (t4, P00_1)] w Hs)
    as (w1 & Hr1 & Ht1 & Hid & Hnd); [done|unfold MAX_TASKS; cbn; lia|].
  destruct (many_ticks k _ _ _ w1 Hid) as (w' & log & Hr' & Ht' & Htog);
    [by rewrite Ht1..|lia|done|done|unfold MAX_TASKS; cbn; lia|].
  exists w, w1, w', log. split_and!; [exact Hr|by apply Hr1|by apply Hr'|lia|].
  intros pin Hpin. rewrite Htog. set (n := toggles pin (Toggle <$> _)).
  assert (n = 1) as ->; [|lia].
  repeat (apply elem_of_cons in Hpin as [->|Hpin]; [done|]). by apply elem_of_nil in Hpin.
Qed.
End Boot.
End Timers.

(** ** An instance *)
Module TimersDemo.
Import ProgramDemo.
#[local] Hint Extern 0 Platform => exact demo : typeclass_instances.

Lemma one_tick_takes_two_witness : ∃ (w w' : @World demo) log,
  runs (run_ticks 5 (2 * 3)) w tt w' log ∧ ticks w' = 6%Z ∧
  ∀ pin, pin ∈ [P00_1; P00_2; P00_3; P00_5] → toggles pin (outputs (user w')) = 4.
Proof.
  destruct (one_tick_takes_two (Dq := blist) (Vc := blist_vec) (Lm := bmap) (Bh := blist_bh) (prio := demo_prio) (heap := demo_heap)
    demo_future 72 demo_fits 3 5 eq_refl eq_refl ltac:(lia)) as (w & w1 & w' & log & _ & _ & Hr & Ht & Ho).
  exists w1, w', log. split; [exact Hr|split; [exact Ht|exact Ho]].
Defined.
End TimersDemo.
