(* ===== verification/ProgramsInterrupts.v ===== *)
(** * The demonstration on an interrupt executor

    Two tasks that yield on the executor of an interrupt
    ([interrupt_executor_context_switch_test]): the handler of the interrupt
    never returns. *)

From S2P Require Import Prelude Heapless CriticalSection WaitQueue RingBuffer Pipe.
From S2P Require Import Bump Timers Kernel Executor ExecutorProps Scheduling Delivery.
From S2P Require Import Programs ProgramsFacts ProgramsProps.
Import Programs.

Section Interrupts.
Context `{HP : Profile} {Dq Vc Lm : Type → nat → Type} {Bh : ∀ A : Type, (A → A → comparison) → Kind → nat → Type}.
Context `{HD : DequeLaws Dq} `{HV : VecLaws Vc} `{HM : MapLaws Lm} `{HB : HeapLaws Bh}.
Context {Nd : Type} {prio : Nd → Z} {layout : Layout} {memory heap : Z}.

Abbreviation P := (platform (Dq:=Dq) (Vc:=Vc) (Lm:=Lm) (Bh:=Bh) (prio:=prio) (layout:=layout) (memory:=memory) (heap:=heap)).
#[local] Hint Extern 0 Platform => exact P : typeclass_instances.
#[local] Hint Extern 0 (PlatformLaws) => exact platform_laws : typeclass_instances.
Abbreviation World := (@World P).
Abbreviation KEvent := (@KEvent P).
Abbreviation KOp := (Op KEvent World).
Implicit Types (w : World) (t : TaskRef) (f : Task) (x : BaseExecutor).

(** ** Blocks that yield, on any executor *)

Lemma drive_yielding n t pin w :
  drive (S n) (Yielding pin false) (mk_waker t TASK_VTABLE) w =
    (vtable_wake_by_ref t;; mret (Some (Yielding pin true))) w.
Proof.
  cbn [drive step]. unfold yielder_poll. run_op. cbn [task_from_waker].
  change (task_from_waker (mk_waker t TASK_VTABLE)) with (Val t). cbv beta iota.
  by destruct (vtable_wake_by_ref t w) as [[[[] w'] l]|]; cbn [fst snd]; rewrite ?app_nil_r.
Qed.

Lemma drive_yield_loop n t pin w :
  drive (S (S n)) (YieldLoop pin) (mk_waker t TASK_VTABLE) w =
    (op_modify (λ w, set_user (output (Toggle pin) (user w)) w);;
      vtable_wake_by_ref t;; mret (Some (Yielding pin true))) w.
Proof.
  pose proof (drive_yielding n t pin (set_user (output (Toggle pin) (user w)) w)) as Hd.
  remember (S n) as k. cbn [drive step]. unfold emit, yielder_new. run_op. rewrite Hd.
  by destruct (vtable_wake_by_ref t _) as [[[[] w'] l]|].
Qed.

Lemma yield_blocks_self_waking : self_waking task_poll (λ _ f, ∃ pin, at_toggle pin f).
Proof.
  intros t f (pin & Hf). exists (Yielding pin true), (output (Toggle pin)).
  split; [exists pin; by right|]. intros w.
  assert (drive poll_fuel f (mk_waker t TASK_VTABLE) w =
    (op_modify (λ w, set_user (output (Toggle pin) (user w)) w);;
      vtable_wake_by_ref t;; mret (Some (Yielding pin true))) w) as Hd.
  { destruct Hf as [->| ->]; [apply drive_yield_loop|].
    pose proof (drive_yield_loop 5 t pin w) as Hd. unfold poll_fuel. remember 7 as k.
    cbn [drive step]. unfold yielder_poll. revert Hd. run_op. intros ->.
    by destruct (vtable_wake_by_ref t _) as [[[[] w'] l]|]. }
  unfold task_poll. revert Hd. run_op. intros ->.
  by destruct (vtable_wake_by_ref t _) as [[[[] w'] l]|]; rewrite ?app_nil_r.
Qed.

(** ** The program *)
Section Boot.
Variables (future : Task → Layout) (room : Z).
Hypothesis Hfits : fits (layout := layout) (memory := memory) future room.
Variable node_new : Z → Z → Z → Z → @Node P.

(** Spawning a task on an executor of the list. *)
Lemma runs_spawn_on p f n w x : room_for room (S n) w → get_executor (InterruptRef p) w = Some x →
  length (queued x) < MAX_TASKS →
  ∃ t x' w', runs (spawn_on future p f) w tt w' [] ∧ room_for room n w' ∧
    get_executor (InterruptRef p) w' = Some x' ∧ queued x' = t :: queued x ∧ ¬ live w t ∧
    timers x' = timers x ∧ alarm_handle x' = alarm_handle x ∧ pender x' = pender x ∧
    headers w' = <[t := mk_header f (InterruptRef p) None]> (headers w) ∧
    alarms w' = alarms w ∧ ticks w' = ticks w ∧ thread_executor w' = thread_executor w.
Proof using Hfits HD HV HM HB.
  intros Hroom Hx Hlen.
  destruct (runs_spawn_room future room Hfits (InterruptRef p) f n w x Hroom Hx Hlen)
    as (t & q & a & Hq & Hfresh & Hr & Hroom').
  eexists t, (set_run_queue q x), _. split_and!; [|exact Hroom'|by eapply get_put_executor|exact Hq|exact Hfresh|done..].
  unfold spawn_on, spawn_executor, list_spawn, list_get.
  eapply (runs_bind_nil _ _ _ (InterruptRef p) w); [|exact Hr].
  eapply runs_bind_nil; [op_prim|]. eapply (runs_bind_nil _ _ _ x); [|apply runs_ret].
  apply runs_lift. exact (f_equal unwrap Hx).
Qed.

(** From start-up to the interrupt that is asked for. *)
Lemma boot_interrupt f1 f2 (nd : @Node P) : (2 * room < MEMORY_SIZE)%Z → get_prio nd ≠ 0%Z →
  ∃ w x t1 t2, runs (init;; p ← allocate_interrupt_executor nd;
      spawn_on future p f1;; spawn_on future p f2;; start_interrupt_executor p) initial tt w
      (init_log ++ [NodeInit nd; NodeEnable nd; NodeSetRequest nd]) ∧
    get_executor (InterruptRef (get_prio nd)) w = Some x ∧ queued x = [t2; t1] ∧ timers x = [] ∧ t1 ≠ t2 ∧
    headers w !! t1 = Some (mk_header f1 (InterruptRef (get_prio nd)) None) ∧
    headers w !! t2 = Some (mk_header f2 (InterruptRef (get_prio nd)) None).
Proof using Hfits HD HV HM HB.
  intros Hmem Hp. set (p := get_prio nd) in *.
  assert (0 ≤ room)%Z as Hroom.
  { destruct (fits_future _ _ Hfits (BusyLoop P00_1)), (fits_header _ _ Hfits). unfold layout_ok in *. lia. }
  destruct (runs_init (prio := prio) (heap := heap) future room Hfits 2 Hroom ltac:(lia)) as (w0 & Hr0 & Hs0).
  assert (executors w0 = lm_new) as Hlm0 by (by injection Hr0 as <-).
  assert (slots w0 = []) as Hsl0.
  { pose proof (sp_slots _ _ _ _ Hs0) as Hsl. by assert (initialised w0 = false) as Hi by (by injection Hr0 as <-);
      rewrite Hi in Hsl. }
  destruct (runs_allocate_executor (PL := platform_laws) nd w0) as (a & m & Hr1 & Hsl1 & Hal1 & Hy1);
    [done|rewrite Hsl0; unfold N_ALARM_HANDLES; simpl; lia|rewrite Hlm0, lm_new_map, map_size_empty; unfold N_EXECUTORS; lia|].
  set (y := interrupt_executor_new nd _) in Hy1. set (w1 := set_executors m (set_alarms a w0)) in *.
  assert (queued y = []) as Hqy by apply dq_new_iter.
  destruct (runs_spawn_on p f1 1 w1 y) as (t1 & x1 & w2 & Hr2 & Hroom2 & Hx1 & Hq1 & Hfr1 & Htq1 & Hah1 & Hpd1 & Hhd1 & Hal2 & _);
    [split; apply Hs0|exact Hy1|rewrite Hqy; unfold MAX_TASKS; simpl; lia|].
  destruct (runs_spawn_on p f2 0 w2 x1) as (t2 & x2 & w3 & Hr3 & Hroom3 & Hx2 & Hq2 & Hfr2 & Htq2 & Hah2 & Hpd2 & Hhd2 & Hal3 & _);
    [done|done|rewrite Hq1, Hqy; unfold MAX_TASKS; simpl; lia|].
  assert (slots w3 = [None]) as Hsl3 by (unfold slots; rewrite Hal3, Hal2; by rewrite Hsl0 in Hsl1).
  destruct (runs_start_interrupt_executor p 0 nd x2 w3 Hx2) as (a2 & Hr4 & Hsl4 & _).
  { etrans; [exact Hah2|]. etrans; [exact Hah1|]. unfold y. by rewrite Hsl0. }
  { etrans; [exact Hpd2|exact Hpd1]. }
  { done. }
  { rewrite Hsl3. simpl. lia. }
  assert (t1 ≠ t2) as Hne.
  { intros ->. apply Hfr2. eexists. etrans; [exact (f_equal (lookup t2) Hhd1)|apply lookup_insert_eq]. }
  pose proof (λ h, eq_trans (lookup_insert_ne (headers w2) t2 t1 h (not_eq_sym Hne))
    (eq_trans (f_equal (lookup t1) Hhd1) (lookup_insert_eq _ t1 _))) as Hl1.
  exists (set_alarms a2 w3), x2, t1, t2. split_and!; [|exact Hx2| | |exact Hne| |].
  - eapply runs_bind; [exact Hr0|]. eapply runs_log.
    + eapply runs_bind; [exact Hr1|].
      eapply runs_bind_nil; [exact Hr2|]. eapply runs_bind_nil; [exact Hr3|]. exact Hr4.
    + done.
  - etrans; [exact Hq2|]. by rewrite Hq1, Hqy.
  - etrans; [exact Htq2|]. etrans; [exact Htq1|]. apply bh_new_elems.
  - etrans; [exact (f_equal (lookup t1) Hhd2)|]. apply Hl1.
  - etrans; [exact (f_equal (lookup t2) Hhd2)|]. apply lookup_insert_eq.
Qed.

(** The handler of the interrupt never returns: it polls the two tasks in turn,
    however many polls it is given, and the tasks of every other executor and the
    alarms wait for it. *)
Theorem interrupt_yielders_never_return fuel : (2 * room < MEMORY_SIZE)%Z →
  let nd := node_new 0%Z 0%Z 2%Z 0%Z in get_prio nd ≠ 0%Z →
  ∃ w x t1 t2, runs (init;; interrupt_executor_context_switch_test future node_new) initial tt w
      (init_log ++ [NodeInit nd; NodeEnable nd; NodeSetRequest nd]) ∧
    t1 ≠ t2 ∧ get_executor (InterruptRef (get_prio nd)) w = Some x ∧ queued x = [t2; t1] ∧
    ∃ w' x' log, runs (on_interrupt task_poll fuel (InterruptRef (get_prio nd))) w None w' log ∧
      get_executor (InterruptRef (get_prio nd)) w' = Some x' ∧ queued x' = round_robin fuel [t2; t1] ∧
      alarms w' = alarms w ∧ ∀ r, r ≠ InterruptRef (get_prio nd) → get_executor r w' = get_executor r w.
Proof using Hfits HD HV HM HB.
  intros Hmem nd Hp. set (r := InterruptRef (get_prio nd)).
  destruct (boot_interrupt (YieldLoop P00_1) (YieldLoop P00_2) nd Hmem Hp)
    as (w & x & t1 & t2 & Hr & Hx & Hq & Htq & Hne & Hh1 & Hh2).
  exists w, x, t1, t2. split; [exact Hr|]. split; [done|]. split; [done|]. split; [done|].
  pose proof (check_timer_queue_spec r w x [] (timer_queue x) Hx) as Hc.
  rewrite decide_True in Hc by (cbn [length]; pose proof (queued_bound x); lia).
  destruct Hc as (w1 & x1 & Hr1 & [Hg Ho1 _ _ Hal1 Hhd1 _ _] & Hq1 & _); [by rewrite Htq; constructor| |].
  { apply TimerQueue.nothing_due. unfold timers in Htq. setoid_rewrite Htq. by constructor. }
  rewrite app_nil_r, Hq in Hq1.
  destruct (self_wakers_never_end (H := P) task_poll r _ yield_blocks_self_waking fuel w1 x1 Hg)
    as (w' & x' & log & Hr' & Hx' & Hq' & _ & Hal & Ho); [by rewrite Hq1| |].
  { rewrite Hq1, Hhd1. constructor; [|constructor; [|constructor]]; (eexists; split; [eassumption|]);
      (split; [done|eexists; by left]). }
  exists w', x', log. split_and!; [|exact Hx'|by rewrite Hq', Hq1|by rewrite Hal|].
  - unfold on_interrupt, exec_once. eapply runs_bind_nil; [exact Hr1|].
    eapply runs_log; [eapply runs_bind; [exact Hr'|apply runs_ret]|apply app_nil_r].
  - intros r' Hr0. by rewrite Ho, Ho1.
Qed.
End Boot.
End Interrupts.

(** ** An instance *)
Module InterruptsDemo.
Import ProgramDemo.
#[local] Hint Extern 0 Platform => exact demo : typeclass_instances.

(** A node is its priority. *)
Definition demo_node (_ _ prio _ : Z) : @Node demo := prio.

Lemma interrupt_yielders_never_return_witness : ∃ (w w' : @World demo) x t1 t2 log,
  runs (on_interrupt task_poll 1001 (InterruptRef 2)) w None w' log ∧ t1 ≠ t2 ∧
  get_executor (InterruptRef 2) w' = Some x ∧ queued x = [t1; t2].
Proof.
  destruct (interrupt_yielders_never_return (Dq := blist) (Vc := blist_vec) (Lm := bmap) (Bh := blist_bh)
    (prio := demo_prio) (heap := demo_heap) demo_future 72 demo_fits demo_node 1001 eq_refl ltac:(done))
    as (w & x & t1 & t2 & _ & Hne & _ & _ & w' & x' & log & Hr & Hx & Hq & _).
  exists w, w', x', t1, t2, log. split; [exact Hr|]. split; [done|]. split; [exact Hx|].
  rewrite Hq. vm_compute. reflexivity.
Defined.
End InterruptsDemo.
