(* ===== verification/Signal.v ===== *)
(** * The single-slot signal ([sync/signal.rs])

    A cell holding nothing, a waiting task or a value, behind a mutex.  The
    methods are proved equivalent to a register that keeps the latest value;
    a waiting task is woken by the next signal, unless the signal is reset in
    between. *)

From S2P Require Import Prelude Heapless CriticalSection WaitQueue.

Module Signal.
Inductive State (T : Type) := StateNone | Waiting (w : Waker) | Signaled (v : T).
Arguments StateNone {T}.
Arguments Waiting {T} w.
Arguments Signaled {T} v.

(** [Cell::replace] and [Cell::set]. *)
Definition cell_replace {T} (x : State T) : Op Waker (State T) (State T) :=
  s ← op_get;
  op_put x;;
  mret s.
Definition cell_set {T} (x : State T) : Op Waker (State T) unit := op_put x.

(** ** The closures the methods run on the cell *)
Section Cell.
Context {T : Type}.

Definition signal_cell (val : T) : Op Waker (State T) unit :=
  state ← cell_replace (Signaled val);
  match state with
  | Waiting waker => wake_waker waker
  | _ => mret tt
  end.

Definition reset_cell : Op Waker (State T) unit := cell_set StateNone.

Definition poll_wait_cell (cx : Waker) : Op Waker (State T) (Poll T) :=
  state ← cell_replace StateNone;
  match state with
  | StateNone => cell_set (Waiting cx);; mret Pending
  | Waiting w =>
      if will_wake w cx then cell_set (Waiting w);; mret Pending
      else cell_set (Waiting cx);; wake_waker w;; mret Pending
  | Signaled res => mret (Ready res)
  end.

Definition try_take_cell : Op Waker (State T) (option T) :=
  state ← cell_replace StateNone;
  match state with
  | Signaled res => mret (Some res)
  | state => cell_set state;; mret None
  end.

Definition signaled_cell : Op Waker (State T) bool :=
  state ← cell_replace StateNone;
  let res := match state with Signaled _ => true | _ => false end in
  cell_set state;;
  mret res.
End Cell.

(** ** The methods *)
Section Ops.
Context `{RawMutex R} {T : Type}.

Definition t : Type := Mutex.t R (State T).

Definition new : t := Mutex.new StateNone.

Definition signal (val : T) : Op Waker (Cpu * t) unit := Mutex.lock (signal_cell val).
Definition reset : Op Waker (Cpu * t) unit := Mutex.lock reset_cell.
Definition poll_wait (cx : Waker) : Op Waker (Cpu * t) (Poll T) := Mutex.lock (poll_wait_cell cx).
Definition try_take : Op Waker (Cpu * t) (option T) := Mutex.lock try_take_cell.
Definition signaled : Op Waker (Cpu * t) bool := Mutex.lock signaled_cell.

(** [wait] is a future without state of its own; this is its poll. *)
Definition wait_poll (cx : Waker) : Op Waker (Cpu * t) (Poll T) := poll_wait cx.
End Ops.
Arguments t R T : clear implicits.

(** ** Calls and their reference *)

Inductive Call (T : Type) := Signal (v : T) | Reset | PollWait (cx : Waker) | TryTake | IsSignaled.
Arguments Signal {T} v.
Arguments Reset {T}.
Arguments PollWait {T} cx.
Arguments TryTake {T}.
Arguments IsSignaled {T}.

Inductive Reply (T : Type) := Done | Polled (p : Poll T) | Took (o : option T) | Is (b : bool).
Arguments Done {T}.
Arguments Polled {T} p.
Arguments Took {T} o.
Arguments Is {T} b.

Section Run.
Context {E S T : Type}.
Definition reply {A} (f : A → Reply T) (m : Op E S A) : Op E S (Reply T) := a ← m; mret (f a).
End Run.

Definition run_call `{RawMutex R} {T} (c : Call T) : Op Waker (Cpu * t R T) (Reply T) :=
  match c with
  | Signal v => reply (λ _, Done) (signal v)
  | Reset => reply (λ _, Done) reset
  | PollWait cx => reply Polled (poll_wait cx)
  | TryTake => reply Took try_take
  | IsSignaled => reply Is signaled
  end.

(** A register with the latest value: what each call replies and leaves. *)
Definition answer {T} (c : Call T) (o : option T) : Reply T :=
  match c with
  | Signal _ | Reset => Done
  | PollWait _ => Polled (match o with Some v => Ready v | None => Pending end)
  | TryTake => Took o
  | IsSignaled => Is (bool_decide (is_Some o))
  end.

Definition latest {T} (c : Call T) (o : option T) : option T :=
  match c with
  | Signal v => Some v
  | Reset | PollWait _ | TryTake => None
  | IsSignaled => o
  end.

Fixpoint answers {T} (cs : list (Call T)) (o : option T) : list (Reply T) :=
  match cs with
  | [] => []
  | c :: cs => answer c o :: answers cs (latest c o)
  end.

Section Facts.
Context `{RawMutexLaws R} {T : Type}.
Implicit Types s : Cpu * t R T.

Definition cell s : State T := Mutex.data s.2.

(** The value in the slot, and the task waiting for one. *)
Definition content s : option T := match cell s with Signaled v => Some v | _ => None end.
Definition waiting s : option Waker := match cell s with Waiting w => Some w | _ => None end.

(** The wakers a call wakes, and the task it leaves waiting. *)
Definition wakes (c : Call T) (wt : option Waker) : list Waker :=
  match c, wt with
  | Signal _, Some w => [w]
  | PollWait cx, Some w => if will_wake w cx then [] else [w]
  | _, _ => []
  end.
Definition leaves (c : Call T) (o : option T) (wt : option Waker) : option Waker :=
  match c with
  | Signal _ | Reset => None
  | PollWait cx => match o with Some _ => None | None => Some cx end
  | TryTake | IsSignaled => wt
  end.

Lemma runs_reply_mutex {A} (f : A → Reply T) (m : Op Waker (State T) A) cpu (x : t R T) a r v l :
  cpu_wf cpu → m (Mutex.data x) = Val (a, v, l) → f a = r →
  runs (reply f (Mutex.lock m)) (cpu, x) r (cpu, Mutex.mk (Mutex.raw x) v) l.
Proof.
  intros Hc Hm <-. eapply runs_log; [eapply runs_bind; [by apply Mutex.runs_lock|apply runs_ret]|].
  apply app_nil_r.
Qed.

Lemma signal_call_runs c s : cpu_wf s.1 →
  ∃ s', runs (run_call c) s (answer c (content s)) s' (wakes c (waiting s)) ∧
    cpu_wf s'.1 ∧ content s' = latest c (content s) ∧
    waiting s' = leaves c (content s) (waiting s).
Proof.
  destruct s as [cpu x]. intros Hs. cbn in Hs.
  unfold content, waiting, cell. cbn [snd]. destruct (Mutex.data x) as [|w|v0] eqn:Hx; destruct c; cbn;
    try (destruct (will_wake w cx) eqn:Hw; [pose proof (proj1 (will_wake_true _ _) Hw); subst w|]);
    eexists (cpu, Mutex.mk (Mutex.raw x) _);
    (split; [eapply (runs_reply_mutex _ _ cpu x);
      [done|rewrite Hx; cbv -[will_wake]; rewrite ?Hw; reflexivity|reflexivity]|]); by split_and!.
Qed.

(** C18: a signal is a register with the latest value: any sequence of calls
    runs, and the reply of each is what the register would reply, the value
    handed out being the last one signalled and not yet taken or reset. *)
Theorem signal_latest cs s : cpu_wf s.1 →
  ∃ s' log, runs (op_calls run_call cs) s (zip cs (answers cs (content s))) s' log ∧
    content s' = fold_left (λ o c, latest c o) cs (content s).
Proof.
  revert s. induction cs as [|c cs IH]; intros s Hs; [by exists s, []|].
  destruct (signal_call_runs c s Hs) as (s1 & Hr & Hs1 & Hc & _).
  destruct (IH s1 Hs1) as (s2 & log & Hrs & Hc2). rewrite Hc in Hrs, Hc2.
  eexists s2, _. split; [|done]. by eapply runs_calls_cons.
Qed.

Lemma waits_or_woken cs w s io s' log : cpu_wf s.1 → Reset ∉ cs → waiting s = Some w →
  runs (op_calls run_call cs) s io s' log → waiting s' = Some w ∨ w ∈ log.
Proof.
  revert s io log. induction cs as [|c cs IH]; intros s io log Hs Hc Hw Hr.
  { injection Hr as _ <- _. by left. }
  apply not_elem_of_cons in Hc as [Hne Hc].
  apply op_bind_val in Hr as (r & s1 & l1 & l2 & Hr1 & Hr & ->).
  apply op_bind_val in Hr as (io2 & s2 & l3 & l4 & Hr2 & [= _ <- <-] & ->).
  destruct (signal_call_runs c s Hs) as (s1' & Hr1' & Hs1 & _ & Hw1).
  destruct (runs_det _ _ _ _ _ _ _ _ Hr1' Hr1) as (-> & -> & ->).
  assert (content s = None) as Hcontent
    by (unfold waiting, content in *; by destruct (cell s)).
  rewrite Hw, Hcontent in Hw1. rewrite Hw, app_nil_r, elem_of_app.
  assert (waiting s1' = Some w ∨ w ∈ wakes c (Some w)) as [Hw1'|]; [|by eapply IH in Hr2; [|done..]; tauto|tauto].
  destruct c; cbn in Hw1 |- *; try tauto; [right; by left|].
  destruct (will_wake w cx) eqn:E; [left; apply will_wake_true in E; by subst|right; by left].
Qed.

(** C19: no wake-up of a signal is lost: a poll that returns pending leaves its
    task waiting, a task that waits keeps waiting through any calls other
    than a reset until it is woken, and the next signal wakes it. *)
Theorem signal_no_lost_wakeup w s : cpu_wf s.1 →
  (content s = None → ∃ s' log, runs (poll_wait w) s Pending s' log ∧ waiting s' = Some w) ∧
  (waiting s = Some w →
    (∀ cs io s' log, Reset ∉ cs → runs (op_calls run_call cs) s io s' log →
      waiting s' = Some w ∨ w ∈ log) ∧
    ∀ v, ∃ s', runs (signal v) s tt s' [w]).
Proof.
  intros Hs. split.
  - intros Hc. destruct (signal_call_runs (PollWait w) s Hs) as (s' & Hr & _ & _ & Hw).
    rewrite Hc in Hr, Hw. exists s'. apply op_bind_val in Hr as (p & s1 & l1 & l2 & Hr & [= -> <- _] & _).
    by exists l1.
  - intros Hw. split; [intros; by eapply waits_or_woken|]. intros v.
    destruct (signal_call_runs (Signal v) s Hs) as (s' & Hr & _). rewrite Hw in Hr.
    apply op_bind_val in Hr as ([] & s1 & l1 & l2 & Hr & [= <- <-] & Hl).
    exists s1. by rewrite app_nil_r in Hl; subst.
Qed.

(** A reset forgets the task that waits: it is not woken by the reset, nor
    by the signals after it. *)
Theorem signal_reset_forgets_waiter w v s : cpu_wf s.1 → waiting s = Some w →
  ∃ s1 s2, runs reset s tt s1 [] ∧ waiting s1 = None ∧ runs (signal v) s1 tt s2 [] ∧
    content s2 = Some v.
Proof.
  intros Hs Hw. destruct (signal_call_runs Reset s Hs) as (s1 & Hr1 & Hs1 & _ & Hw1).
  destruct (signal_call_runs (Signal v) s1 Hs1) as (s2 & Hr2 & _ & Hc2 & _).
  apply op_bind_val in Hr1 as ([] & s1' & l1 & l2 & Hr1 & [= <- <-] & Hl1).
  apply op_bind_val in Hr2 as ([] & s2' & l3 & l4 & Hr2 & [= <- <-] & Hl2).
  rewrite app_nil_r in Hl1, Hl2. cbn in Hl1, Hl2, Hw1, Hc2. rewrite Hw1 in Hl2. subst.
  by exists s1', s2'.
Qed.
End Facts.

(** ** Instances *)
#[local] Existing Instances cs_with_model cs_with_model_law.

Definition demo : Cpu * t CriticalSectionRawMutex Z := (mk_cpu true 0 0, new).
Definition demo_waker : Waker := mk_waker 7 TASK_VTABLE.
Definition demo_waiting : Cpu * t CriticalSectionRawMutex Z :=
  (mk_cpu true 0 0, Mutex.new (Waiting demo_waker)).

Example signal_demo :
  answers [PollWait demo_waker; Signal 1%Z; Signal 2%Z; IsSignaled; TryTake; TryTake] None =
  [Polled Pending; Done; Done; Is true; Took (Some 2%Z); Took None].
Proof. reflexivity. Qed.

Lemma signal_latest_witness : ∃ s' log,
  runs (op_calls run_call [Signal 1%Z; Signal 2%Z; TryTake]) demo
    [(Signal 1%Z, Done); (Signal 2%Z, Done); (TryTake, Took (Some 2%Z))] s' log.
Proof.
  destruct (signal_latest [Signal 1%Z; Signal 2%Z; TryTake] demo) as (s' & log & Hr & _);
    [by split|]. by exists s', log.
Defined.

Lemma signal_no_lost_wakeup_witness : ∃ s', runs (signal 5%Z) demo_waiting tt s' [demo_waker].
Proof.
  destruct (signal_no_lost_wakeup demo_waker demo_waiting) as [_ Hw]; [by split|].
  destruct (Hw eq_refl) as [_ Hv]. apply Hv.
Defined.

Lemma signal_reset_forgets_waiter_witness : ∃ s1 s2,
  runs reset demo_waiting tt s1 [] ∧ runs (signal 5%Z) s1 tt s2 [].
Proof.
  destruct (signal_reset_forgets_waiter demo_waker 5%Z demo_waiting) as (s1 & s2 & H1 & _ & H2 & _);
    [by split|done|]. by exists s1, s2.
Defined.
End Signal.
