(* ===== verification/AsyncMutex.v ===== *)
(** * The asynchronous mutex ([sync/mutex.rs])

    A flag and the registration of one waiting task, behind a blocking mutex,
    next to the protected value.  A guard gives access to the value or, once
    mapped, to a portion of it; dropping it unlocks the mutex. *)

From S2P Require Import Prelude Heapless CriticalSection WaitQueue.

Module AsyncMutex.
Record State := mk_state { locked : bool; waker : WakerRegistration.t }.

Inductive TryLockError := TryLockError_new.

Record t (R T : Type) := mk { state : Shared R State; inner : T }.
Arguments mk {R T} _ _.
Arguments state {R T} _.
Arguments inner {R T} _.

(** A guard refers to the mutex of the state an operation runs on. *)
Inductive MutexGuard := mk_guard.

(** A pointer into the value: how to read it and how to write through it. *)
Record Place (T U : Type) := mk_place { get : T → U; set : U → T → T }.
Arguments mk_place {T U} _ _.
Arguments get {T U} _ _.
Arguments set {T U} _ _ _.

(** [fun(&mut *p)]: a portion of a portion. *)
Definition place_in {T U V} (p : Place T U) (f : Place U V) : Place T V :=
  mk_place (λ x, get f (get p x)) (λ v x, set p (set f v (get p x)) x).

Record MappedMutexGuard (T U : Type) := mk_mapped { value : Place T U }.
Arguments mk_mapped {T U} _.
Arguments value {T U} _.

(** ** The closures run on the state *)
Definition set_locked {E} (b : bool) : Op E State unit := op_modify (λ s, mk_state b (waker s)).
Definition on_waker {A} (m : Op Waker WakerRegistration.t A) : Op Waker State A :=
  zoom waker (λ w s, mk_state (locked s) w) m.

Definition lock_state (cx : Waker) : Op Waker State bool :=
  s ← op_get;
  if locked s then on_waker (WakerRegistration.register cx);; mret false
  else set_locked true;; mret true.

Definition try_lock_state : Op Waker State (Result unit TryLockError) :=
  s ← op_get;
  if locked s then mret (Err TryLockError_new)
  else set_locked true;; mret (Ok tt).

Definition unlock_state : Op Waker State unit :=
  set_locked false;;
  on_waker WakerRegistration.wake.

Section Ops.
Context `{RawMutex R} {T : Type}.

Definition new (value : T) : t R T :=
  mk (shared_new (mk_state false WakerRegistration.new)) value.

Definition on_state {A} (f : Op Waker State A) : Op Waker (Cpu * t R T) A :=
  zoom (λ s, (s.1, state s.2)) (λ x s, (x.1, mk x.2 (inner s.2))) (shared_lock f).

(** The poll of the future of [lock]. *)
Definition lock_poll (cx : Waker) : Op Waker (Cpu * t R T) (Poll MutexGuard) :=
  ready ← on_state (lock_state cx);
  mret (if ready : bool then Ready mk_guard else Pending).

Definition try_lock : Op Waker (Cpu * t R T) (Result MutexGuard TryLockError) :=
  r ← on_state try_lock_state;
  match r with
  | Ok _ => mret (Ok mk_guard)
  | Err e => mret (Err e)
  end.

Definition into_inner (m : t R T) : T := inner m.
Definition get_mut (m : t R T) : T := inner m.

(** [MutexGuard]: dropping it, reading and writing through it, mapping it. *)
Definition guard_drop (g : MutexGuard) : Op Waker (Cpu * t R T) unit := on_state unlock_state.
Definition guard_deref {E} (g : MutexGuard) : Op E (Cpu * t R T) T := s ← op_get; mret (inner s.2).
Definition guard_deref_mut {E} (g : MutexGuard) (x : T) : Op E (Cpu * t R T) unit :=
  op_modify (λ s, (s.1, mk (state s.2) x)).
Definition guard_map {U} (this : MutexGuard) (f : Place T U) : MappedMutexGuard T U := mk_mapped f.

(** [MappedMutexGuard]. *)
Definition mapped_map {U V} (this : MappedMutexGuard T U) (f : Place U V) : MappedMutexGuard T V :=
  mk_mapped (place_in (value this) f).
Definition mapped_deref {E U} (g : MappedMutexGuard T U) : Op E (Cpu * t R T) U :=
  s ← op_get; mret (get (value g) (inner s.2)).
Definition mapped_deref_mut {E U} (g : MappedMutexGuard T U) (x : U) : Op E (Cpu * t R T) unit :=
  op_modify (λ s, (s.1, mk (state s.2) (set (value g) x (inner s.2)))).
Definition mapped_drop {U} (g : MappedMutexGuard T U) : Op Waker (Cpu * t R T) unit :=
  on_state unlock_state.
End Ops.

(** ** Clients

    [guards] counts the guards alive; a client that holds none can neither
    unlock nor write. *)
Inductive Call (T : Type) := Lock (cx : Waker) | TryLock | Unlock | Write (x : T).
Arguments Lock {T} cx.
Arguments TryLock {T}.
Arguments Unlock {T}.
Arguments Write {T} x.

Inductive Reply := Granted | Refused | Done | NoGuard.

Definition Clients R T : Type := (Cpu * t R T) * nat.

Section Run.
Context `{RawMutex R} {T : Type}.

Definition on_mutex {A} (m : Op Waker (Cpu * t R T) A) : Op Waker (Clients R T) A :=
  zoom fst (λ x s, (x, s.2)) m.
Definition grant (b : bool) : Op Waker (Clients R T) Reply :=
  if b then op_modify (λ s, (s.1, S s.2));; mret Granted else mret Refused.

Definition run_call (c : Call T) : Op Waker (Clients R T) Reply :=
  s ← op_get;
  match c with
  | Lock cx =>
      p ← on_mutex (lock_poll cx);
      grant (match p with Ready _ => true | Pending => false end)
  | TryLock =>
      r ← on_mutex try_lock;
      grant (match r with Ok _ => true | Err _ => false end)
  | Unlock =>
      if decide (s.2 = 0) then mret NoGuard
      else on_mutex (guard_drop mk_guard);; op_modify (λ s, (s.1, Nat.pred s.2));; mret Done
  | Write x =>
      if decide (s.2 = 0) then mret NoGuard
      else on_mutex (guard_deref_mut mk_guard x);; mret Done
  end.
End Run.

Section Facts.
Context `{RawMutexLaws R} {T : Type}.
Implicit Types (m : t R T).

Definition flag (s : Clients R T) : bool := locked (shared_value (state s.1.2)).
Definition registration (s : Clients R T) : WakerRegistration.t := waker (shared_value (state s.1.2)).
Definition protected (s : Clients R T) : T := inner s.1.2.

Definition ok (s : Clients R T) : Prop := cpu_wf s.1.1 ∧ shared_free (state s.1.2).

(** The mutex is locked exactly while somebody holds its guard. *)
Definition exclusive (s : Clients R T) : Prop := s.2 = if flag s then 1 else 0.

(** What a call replies, leaves and wakes, in terms of the flag. *)
Definition answer (c : Call T) (b : bool) : Reply :=
  match c with
  | Lock _ | TryLock => if b then Refused else Granted
  | Unlock | Write _ => if b then Done else NoGuard
  end.
Definition flag_after (c : Call T) (b : bool) : bool :=
  match c with Lock _ | TryLock => true | Unlock => false | Write _ => b end.
Definition registration_after (c : Call T) (b : bool) (r : WakerRegistration.t) :=
  match c with
  | Lock cx => if b then WakerRegistration.registered (Some cx) r else r
  | Unlock => if b then WakerRegistration.new else r
  | TryLock | Write _ => r
  end.
Definition protected_after (c : Call T) (b : bool) (v : T) : T :=
  match c with Write x => if b then x else v | _ => v end.
Definition wakes (c : Call T) (b : bool) (r : WakerRegistration.t) : list Waker :=
  match c with
  | Lock cx => if b then WakerRegistration.displaced (Some cx) r else []
  | Unlock => if b then option_list (WakerRegistration.waker r) else []
  | TryLock | Write _ => []
  end.

Lemma runs_on_mutex_state {A} (f : Op Waker State A) c m a v l : cpu_wf c → shared_free (state m) →
  runs f (shared_value (state m)) a v l →
  runs (on_state f) (c, m) a (c, mk (shared_set v (state m)) (inner m)) l.
Proof.
  intros Hc Hm Hf.
  apply (runs_zoom (λ z : Cpu * t R T, (z.1, state z.2)) (λ x z, (x.1, mk x.2 (inner z.2))) _
    (c, m) a (c, shared_set v (state m))).
  by apply runs_shared_lock.
Qed.

Lemma runs_lock_state cx v : runs (lock_state cx) v (negb (locked v))
  (mk_state true (registration_after (Lock cx) (locked v) (waker v))) (wakes (Lock cx) (locked v) (waker v)).
Proof.
  unfold lock_state. eapply runs_bind_nil; [op_prim|]. destruct v as [[] r]; cbn [locked].
  - op_map idtac.
    apply (runs_zoom waker (λ w s, mk_state (locked s) w) _ (mk_state true r)), WakerRegistration.runs_register.
  - eapply runs_bind_nil; [op_prim|apply runs_ret].
Qed.

Lemma runs_unlock_state v : runs unlock_state v tt (mk_state false WakerRegistration.new)
  (option_list (WakerRegistration.waker (waker v))).
Proof.
  unfold unlock_state. eapply runs_bind_nil; [op_prim|].
  apply (runs_zoom waker (λ w s, mk_state (locked s) w)). apply WakerRegistration.runs_wake.
Qed.

Lemma runs_try_lock_state v : runs try_lock_state v
  (if locked v then Err TryLockError_new else Ok tt) (mk_state true (waker v)) [].
Proof. by destruct v as [[] r]. Qed.

Lemma runs_on_mutex {A} (f : Op Waker (Cpu * t R T) A) x n a x' l :
  runs f x a x' l → runs (on_mutex f) (x, n) a (x', n) l.
Proof. apply (runs_zoom fst (λ x (z : Clients R T), (x, z.2)) f (x, n)). Qed.

Lemma runs_grant b x n : runs (grant b) ((x, n) : Clients R T) (if b then Granted else Refused)
  (x, if b then S n else n) [].
Proof. by destruct b. Qed.

(** The mutex with another state. *)
Definition with_state m b r : t R T := mk (shared_set (mk_state b r) (state m)) (inner m).

Lemma runs_lock_poll cx c m b r : cpu_wf c → shared_free (state m) →
  shared_value (state m) = mk_state b r →
  runs (lock_poll cx) (c, m) (if b then Pending else Ready mk_guard)
    (c, with_state m true (registration_after (Lock cx) b r)) (wakes (Lock cx) b r).
Proof.
  intros Hc Hm Hv. eapply runs_log; [eapply runs_bind|apply app_nil_r].
  - apply runs_on_mutex_state; [done..|rewrite Hv; apply runs_lock_state].
  - destruct b; apply runs_ret.
Qed.

Lemma runs_try_lock c m b r : cpu_wf c → shared_free (state m) →
  shared_value (state m) = mk_state b r →
  runs try_lock (c, m) (if b then Err TryLockError_new else Ok mk_guard) (c, with_state m true r) [].
Proof.
  intros Hc Hm Hv. eapply runs_bind_nil.
  - apply runs_on_mutex_state; [done..|rewrite Hv; apply runs_try_lock_state].
  - destruct b; apply runs_ret.
Qed.

Lemma runs_guard_drop g c m b r : cpu_wf c → shared_free (state m) →
  shared_value (state m) = mk_state b r →
  runs (guard_drop g) (c, m) tt (c, with_state m false WakerRegistration.new)
    (option_list (WakerRegistration.waker r)).
Proof. intros Hc Hm Hv. apply runs_on_mutex_state; [done..|rewrite Hv; apply runs_unlock_state]. Qed.

Lemma mutex_call_runs c s : ok s → exclusive s →
  ∃ s', runs (run_call c) s (answer c (flag s)) s' (wakes c (flag s) (registration s)) ∧
    ok s' ∧ exclusive s' ∧ flag s' = flag_after c (flag s) ∧
    registration s' = registration_after c (flag s) (registration s) ∧
    protected s' = protected_after c (flag s) (protected s).
Proof.
  destruct s as [[cpu m] n]. unfold ok, exclusive, flag, registration, protected. cbn [fst snd].
  intros [Hc Hm] Hn. destruct (shared_value (state m)) as [b r] eqn:Hv. cbn [locked waker] in *.
  destruct c as [cx| | |x]; cbn [answer wakes flag_after registration_after protected_after].
  - destruct b; subst n; eexists;
      (split; [eapply runs_bind_nil; [op_prim|]; eapply runs_log; [eapply runs_bind|apply app_nil_r];
        [exact (runs_on_mutex _ _ _ _ _ _ (runs_lock_poll cx cpu m _ r Hc Hm Hv))|apply runs_grant]|by split_and!]).
  - destruct b; subst n; eexists;
      (split; [eapply runs_bind_nil; [op_prim|]; eapply runs_bind_nil;
        [exact (runs_on_mutex _ _ _ _ _ _ (runs_try_lock cpu m _ r Hc Hm Hv))|apply runs_grant]|by split_and!]).
  - destruct b; subst n; cbn.
    + eexists. split.
      { eapply runs_bind_nil; [op_prim|]. cbn. eapply runs_log; [eapply runs_bind|apply app_nil_r].
        * exact (runs_on_mutex _ _ _ _ _ _ (runs_guard_drop _ cpu m _ r Hc Hm Hv)).
        * eapply runs_bind_nil; [op_prim|apply runs_ret]. }
      by split_and!.
    + eexists. split; [eapply runs_bind_nil; [op_prim|apply runs_ret]|].
      unfold flag, registration. cbn. rewrite Hv. by split_and!.
  - destruct b; subst n; cbn.
    + eexists. split.
      { eapply runs_bind_nil; [op_prim|]. cbn. eapply runs_bind_nil; [|apply runs_ret].
        by eapply runs_on_mutex, runs_modify. }
      cbn. rewrite Hv. by split_and!.
    + eexists. split; [eapply runs_bind_nil; [op_prim|apply runs_ret]|].
      cbn. rewrite Hv. by split_and!.
Qed.

(** What is observed of the mutex, and its abstract machine. *)
Record View := view { v_flag : bool; v_registration : WakerRegistration.t; v_value : T }.

Definition view_of (s : Clients R T) : View := view (flag s) (registration s) (protected s).

Definition step (v : View) (c : Call T) (r : Reply) (v' : View) (l : list Waker) : Prop :=
  r = answer c (v_flag v) ∧ l = wakes c (v_flag v) (v_registration v) ∧
  v' = view (flag_after c (v_flag v)) (registration_after c (v_flag v) (v_registration v))
    (protected_after c (v_flag v) (v_value v)).

Lemma runs_calls cs s : ok s → exclusive s →
  ∃ io s' log, runs (op_calls run_call cs) s io s' log ∧ io.*1 = cs ∧ (ok s' ∧ exclusive s') ∧
    trace step (view_of s) io (view_of s') log.
Proof.
  intros Hok Hex. apply (calls_trace run_call (λ s, ok s ∧ exclusive s) view_of step); [|done].
  intros s0 c [H1 H2]. destruct (mutex_call_runs c s0 H1 H2) as (s' & Hr & Hok' & Hex' & Hf & Hreg & Hp).
  exists (answer c (flag s0)), s', (wakes c (flag s0) (registration s0)).
  split_and!; try done. unfold view_of. by rewrite Hf, Hreg, Hp.
Qed.

(** The guards a run hands out and gives back, and the values written. *)
Definition granted (io : Call T * Reply) : nat :=
  match io with (_, Granted) => 1 | _ => 0 end.
Definition released (io : Call T * Reply) : nat :=
  match io with (Unlock, Done) => 1 | _ => 0 end.
Definition written (io : Call T * Reply) : list T :=
  match io with (Write x, Done) => [x] | _ => [] end.

Definition holders (v : View) : nat := if v_flag v then 1 else 0.

Lemma trace_guards v io v' log : trace step v io v' log →
  holders v + sum_list_with granted io = holders v' + sum_list_with released io ∧
  v_value v' = default (v_value v) (last (io ≫= written)).
Proof.
  induction 1 as [v|v c r v1 l1 io v2 l2 (-> & -> & ->) Ht [IH1 IH2]]; [done|].
  destruct v as [b rg x]; split.
  - revert IH1. destruct c, b; cbn; lia.
  - rewrite IH2. destruct c, b; cbn; try done.
    rewrite last_cons. by destruct (last _).
Qed.

(** C16: the asynchronous mutex excludes: any calls by any number of tasks run
    without a panic, guards handed out and guards dropped balance so that no
    two guards are ever alive, the mutex being locked exactly while one is;
    and the value is the last one written through a guard. *)
Theorem mutex_excludes cs s : ok s → exclusive s →
  ∃ io s' log, runs (op_calls run_call cs) s io s' log ∧ io.*1 = cs ∧ ok s' ∧
    s.2 + sum_list_with granted io = s'.2 + sum_list_with released io ∧ s'.2 ≤ 1 ∧
    flag s' = bool_decide (s'.2 = 1) ∧
    protected s' = default (protected s) (last (io ≫= written)).
Proof.
  intros Hok Hex. destruct (runs_calls cs s Hok Hex) as (io & s' & log & Hr & Hio & [Hok' Hex'] & Ht).
  destruct (trace_guards _ _ _ _ Ht) as [Hg Hv]. unfold holders, view_of in *. cbn in *.
  unfold exclusive in *. exists io, s', log. rewrite Hex, Hex'.
  by destruct (flag s'); split_and!; try done; lia.
Qed.

(** A task that waits for the mutex. *)
Definition waits (w : Waker) (v : View) : Prop :=
  v_flag v = true ∧ WakerRegistration.waker (v_registration v) = Some w.

Lemma step_waits w v c r v' l : step v c r v' l → waits w v → waits w v' ∨ w ∈ l.
Proof.
  intros (-> & -> & ->) [Hf Hw]. unfold waits. destruct v as [b rg x]. cbn in *. subst b.
  destruct c as [cx| | |y]; cbn; [|by left| |by left].
  - destruct (WakerRegistration.kept_registered (Some cx) rg _ ltac:(reflexivity) w Hw) as [H1|H1];
      [by left|by right].
  - right. rewrite Hw. by apply list_elem_of_singleton.
Qed.

(** C17: no wake-up of the asynchronous mutex is lost: a task whose poll of the
    lock is pending is waiting; it keeps waiting on a locked mutex through
    any calls until it is woken; and the drop of the guard wakes it. *)
Theorem mutex_no_lost_wakeup w cs s io s' log : ok s → exclusive s →
  runs (op_calls run_call cs) s io s' log →
  (last io = Some (Lock w, Refused) → waits w (view_of s')) ∧
  (waits w (view_of s) → waits w (view_of s') ∨ w ∈ log) ∧
  (waits w (view_of s) → ∃ s1, runs (run_call Unlock) s Done s1 [w] ∧ flag s1 = false).
Proof.
  intros Hok Hex Hr. destruct (runs_calls cs s Hok Hex) as (io2 & s2 & log2 & Hr2 & Hio & _ & Ht).
  destruct (runs_det _ _ _ _ _ _ _ _ Hr2 Hr) as (-> & -> & ->). split_and!.
  - intros Hl. destruct (trace_last _ _ _ _ _ _ Ht Hl) as (v0 & l0 & Ha & _ & Hv). cbn in *.
    destruct v0 as [[] rg x]; [|done]. cbn in *. by rewrite Hv.
  - eapply (trace_kept _ (waits w) (λ _, True)); [|done|by apply Forall_true].
    intros * Hst _. by eapply step_waits.
  - intros [Hf Hw]. cbn in Hf, Hw. destruct (mutex_call_runs Unlock s Hok Hex) as (s1 & Hr1 & _ & _ & Hf1 & _).
    rewrite Hf in Hr1. cbn in Hr1. rewrite Hw in Hr1. by exists s1.
Qed.

(** A mapped guard reads and writes its portion, whatever it is mapped through;
    the rest of the value stays, and mapping does not touch the mutex. *)
Definition place_ok {A B} (p : Place A B) : Prop :=
  (∀ u x, get p (set p u x) = u) ∧ (∀ x, set p (get p x) x = x) ∧
  (∀ u v x, set p u (set p v x) = set p u x).

Lemma place_in_ok {A B C} (p : Place A B) (f : Place B C) :
  place_ok p → place_ok f → place_ok (place_in p f).
Proof.
  intros (P1 & P2 & P3) (F1 & F2 & F3). split_and!; intros; cbn.
  - by rewrite P1, F1.
  - by rewrite F2, P2.
  - by rewrite P1, F3, P3.
Qed.
End Facts.

(** ** Instances *)
#[local] Existing Instances cs_with_model cs_with_model_law.

Definition demo : Clients CriticalSectionRawMutex Z := ((mk_cpu true 0 0, new 10%Z), 0).
Definition demo_waker : Waker := mk_waker 7 TASK_VTABLE.
Definition demo_calls : list (Call Z) := [TryLock; Lock demo_waker; Write 11%Z; Unlock; Lock demo_waker].

Example mutex_demo :
  (match op_calls run_call demo_calls demo with Val (io, _, log) => Some (io.*2, log) | Panic => None end) =
  Some ([Granted; Refused; Done; Done; Granted], [demo_waker]).
Proof. reflexivity. Qed.

Lemma mutex_excludes_witness : ∃ io s' log,
  runs (op_calls run_call demo_calls) demo io s' log ∧ s'.2 ≤ 1.
Proof.
  destruct (mutex_excludes demo_calls demo) as (io & s' & log & Hr & _ & _ & _ & Hl & _);
    [by repeat split|done|]. exists io, s', log. split; [exact Hr|exact Hl].
Defined.

Lemma mutex_no_lost_wakeup_witness : ∃ io s' log,
  runs (op_calls run_call (take 2 demo_calls)) demo io s' log ∧ waits demo_waker (view_of s').
Proof.
  eexists _, _, _. split; [vm_compute; reflexivity|].
  eapply (mutex_no_lost_wakeup demo_waker (take 2 demo_calls) demo);
    [by repeat split|done|vm_compute; reflexivity|reflexivity].
Defined.
End AsyncMutex.
