(* ===== verification/OnceLock.v ===== *)
(** * The once lock ([sync/once_lock.rs])

    A flag and a cell that is initialised exactly when the flag is set; reading
    an uninitialised cell is undefined behaviour, here a panic. *)

From S2P Require Import Prelude Heapless CriticalSection WaitQueue.

Module OnceLock.
(** [MaybeUninit<T>] is an option. *)
Record t (T : Type) := mk { flag : bool; data : option T }.
Arguments mk {T} _ _.
Arguments flag {T} _.
Arguments data {T} _.

Section Ops.
Context `{CsWith} {T : Type}.

Definition new : t T := mk false None.

Definition get_ref_unchecked {E} : Op E (Cpu * t T) T :=
  s ← op_get;
  op_lift (unwrap (data s.2)).

Definition is_set {E} : Op E (Cpu * t T) bool := s ← op_get; mret (flag s.2).

Definition try_get {E} : Op E (Cpu * t T) (option T) :=
  s ← op_get;
  if flag s.2 then x ← get_ref_unchecked; mret (Some x) else mret None.

(** The poll of [get]: a task that has to wait wakes itself. *)
Definition get_poll (cx : Waker) : Op Waker (Cpu * t T) (Poll T) :=
  o ← try_get;
  match o with
  | Some data => mret (Ready data)
  | None => wake_waker cx;; mret Pending
  end.

Definition init {E} (value : T) : Op E (Cpu * t T) (Result unit T) :=
  cs_with (on_data (
    s ← op_get;
    if negb (flag s) then
      op_put (mk (flag s) (Some value));;
      op_modify (λ s, mk true (data s));;
      mret (Ok tt)
    else mret (Err value))).

(** [f] may panic. *)
Definition get_or_init {E} (f : unit → Outcome T) : Op E (Cpu * t T) T :=
  cs_with (on_data (
    s ← op_get;
    if negb (flag s) then
      x ← op_lift (f tt);
      op_put (mk (flag s) (Some x));;
      op_modify (λ s, mk true (data s))
    else mret tt));;
  get_ref_unchecked.

Definition into_inner (s : t T) : Outcome (option T) :=
  if flag s then x ← unwrap (data s); Val (Some x) else Val None.

Definition take {E} : Op E (Cpu * t T) (option T) :=
  cs_with (on_data (
    s ← op_get;
    if flag s then
      val ← op_lift (unwrap (data s));
      op_put (mk (flag s) None);;
      op_modify (λ s, mk false (data s));;
      mret (Some val)
    else mret None)).
End Ops.

(** ** Calls and their reference: an optional value, set once *)
Inductive Call (T : Type) :=
| IsSet | TryGet | GetPoll (cx : Waker) | Init (v : T) | GetOrInit (v : T) | Take.
Arguments IsSet {T}.
Arguments TryGet {T}.
Arguments GetPoll {T} cx.
Arguments Init {T} v.
Arguments GetOrInit {T} v.
Arguments Take {T}.

Inductive Reply (T : Type) :=
| Is (b : bool) | Got (o : option T) | Polled (p : Poll T) | Initialised (r : Result unit T) | Ref (x : T).
Arguments Is {T} b.
Arguments Got {T} o.
Arguments Polled {T} p.
Arguments Initialised {T} r.
Arguments Ref {T} x.

Definition reply {E S A T} (f : A → Reply T) (m : Op E S A) : Op E S (Reply T) := a ← m; mret (f a).

Definition run_call `{CsWith} {T} (c : Call T) : Op Waker (Cpu * t T) (Reply T) :=
  match c with
  | IsSet => reply Is is_set
  | TryGet => reply Got try_get
  | GetPoll cx => reply Polled (get_poll cx)
  | Init v => reply Initialised (init v)
  | GetOrInit v => reply Ref (get_or_init (λ _, Val v))
  | Take => reply Got take
  end.

Definition answer {T} (c : Call T) (o : option T) : Reply T :=
  match c with
  | IsSet => Is (bool_decide (is_Some o))
  | TryGet | Take => Got o
  | GetPoll _ => Polled (match o with Some x => Ready x | None => Pending end)
  | Init v => Initialised (match o with Some _ => Err v | None => Ok tt end)
  | GetOrInit v => Ref (default v o)
  end.

Definition next {T} (c : Call T) (o : option T) : option T :=
  match c with
  | IsSet | TryGet | GetPoll _ => o
  | Init v | GetOrInit v => Some (default v o)
  | Take => None
  end.

Fixpoint answers {T} (cs : list (Call T)) (o : option T) : list (Reply T) :=
  match cs with
  | [] => []
  | c :: cs => answer c o :: answers cs (next c o)
  end.

(** The tasks woken: those whose poll found nothing. *)
Fixpoint wakes {T} (cs : list (Call T)) (o : option T) : list Waker :=
  match cs with
  | [] => []
  | c :: cs =>
      match c, o with GetPoll cx, None => [cx] | _, _ => [] end ++ wakes cs (next c o)
  end.

Section Facts.
Context `{CsWithLaw} {T : Type}.
Implicit Types s : t T.

(** The cell is initialised exactly when the flag is set. *)
Definition wf s : Prop := flag s = bool_decide (is_Some (data s)).

Definition held (o : option T) : t T := mk (bool_decide (is_Some o)) o.

Lemma wf_held s : wf s → s = held (data s).
Proof. destruct s as [f d]. unfold wf, held. cbn. by intros ->. Qed.

Lemma once_call_runs c cpu o : cpu_wf cpu →
  runs (run_call c) (cpu, held o) (answer c o) (cpu, held (next c o))
    (match c, o with GetPoll cx, None => [cx] | _, _ => [] end).
Proof.
  intros Hc. unfold runs, run_call, reply. destruct c, o as [x|];
    unfold init, get_or_init, take, get_poll, try_get, is_set, get_ref_unchecked;
    cbv [mbind op_bind mret op_ret];
    rewrite ?cs_with_on_data by apply Hc; rewrite ?left_by_section_wf by done; reflexivity.
Qed.

(** C27: a once lock is an option that is set at most once between two takes: for
    any sequence of calls, every reply is the reference's, the tasks woken
    are those whose poll found no value, and the lock stays well formed, so
    that no call ever reads an uninitialised value. *)
Theorem once_lock_sets_once cs cpu s : cpu_wf cpu → wf s →
  ∃ s', runs (op_calls run_call cs) (cpu, s) (zip cs (answers cs (data s))) (cpu, s')
      (wakes cs (data s)) ∧
    wf s' ∧ data s' = fold_left (λ o c, next c o) cs (data s).
Proof.
  intros Hc Hs. rewrite (wf_held s Hs). clear Hs. generalize (data s) as o. clear s.
  induction cs as [|c cs IH]; intros o; [by exists (held o)|].
  destruct (IH (next c o)) as (s2 & Hr & Hw & Hd). exists s2. split; [|done].
  eapply runs_calls_cons; [by apply once_call_runs|exact Hr].
Qed.

Lemma into_inner_eq s : wf s → into_inner s = Val (data s).
Proof. destruct s as [f [x|]]; unfold wf; cbn; by intros ->. Qed.
End Facts.

#[local] Existing Instances cs_with_model cs_with_model_law.

Lemma once_lock_sets_once_witness : ∃ s',
  runs (op_calls run_call [TryGet; Init 1%Z; Init 2%Z; GetOrInit 3%Z; Take; IsSet]) (mk_cpu true 0 0, new)
    [(TryGet, Got None); (Init 1%Z, Initialised (Ok tt)); (Init 2%Z, Initialised (Err 2%Z));
     (GetOrInit 3%Z, Ref 1%Z); (Take, Got (Some 1%Z)); (IsSet, Is false)] (mk_cpu true 0 0, s') [].
Proof.
  destruct (once_lock_sets_once [TryGet; Init 1%Z; Init 2%Z; GetOrInit 3%Z; Take; IsSet]
    (mk_cpu true 0 0) new) as (s' & Hr & _); [by split|done|]. by exists s'.
Defined.
End OnceLock.
