(* ===== verification/ZeroCopy.v ===== *)
(** * The zero-copy channel ([sync/zerocopy_channel.rs])

    A ring of indices over a buffer the sender fills and the receiver reads in
    place: [try_send] lends the slot at the back, [send_done] commits it,
    [try_receive] lends the slot at the front, [receive_done] frees it.  Lent
    slots are indices; accesses through them are checked. *)

From S2P Require Import Prelude Heapless CriticalSection WaitQueue.

Module ZeroCopy.
Record State := mk_state {
  len : Z;
  front : Z;
  back : Z;
  full : bool;
  send_waker : WakerRegistration.t;
  receive_waker : WakerRegistration.t
}.

Definition set_back x (s : State) : State :=
  mk_state (len s) (front s) x (full s) (send_waker s) (receive_waker s).
Definition set_front x (s : State) : State :=
  mk_state (len s) x (back s) (full s) (send_waker s) (receive_waker s).
Definition set_full b (s : State) : State :=
  mk_state (len s) (front s) (back s) b (send_waker s) (receive_waker s).
Definition set_send_waker w (s : State) : State :=
  mk_state (len s) (front s) (back s) (full s) w (receive_waker s).
Definition set_receive_waker w (s : State) : State :=
  mk_state (len s) (front s) (back s) (full s) (send_waker s) w.

Section StateOps.
Context `{Profile}.

Definition increment (s : State) (i : Z) : Outcome Z :=
  j ← uadd usize i 1;
  if Z.eqb j (len s) then Val 0%Z else uadd usize i 1.

Definition is_full (s : State) : bool := full s.
Definition is_empty (s : State) : bool := Z.eqb (front s) (back s) && negb (full s).

Definition on_send {A} (m : Op Waker WakerRegistration.t A) : Op Waker State A :=
  zoom send_waker set_send_waker m.
Definition on_receive {A} (m : Op Waker WakerRegistration.t A) : Op Waker State A :=
  zoom receive_waker set_receive_waker m.

Definition push_index : Op Waker State (option Z) :=
  s ← op_get;
  mret (if is_full s then None else Some (back s)).

Definition push_done : Op Waker State unit :=
  s ← op_get;
  op_lift (assert_that (negb (is_full s)));;
  b ← op_lift (increment s (back s));
  op_modify (set_back b);;
  s ← op_get;
  op_when (Z.eqb (back s) (front s)) (op_modify (set_full true));;
  on_send WakerRegistration.wake.

Definition pop_index : Op Waker State (option Z) :=
  s ← op_get;
  mret (if is_empty s then None else Some (front s)).

Definition pop_done : Op Waker State unit :=
  s ← op_get;
  op_lift (assert_that (negb (is_empty s)));;
  f ← op_lift (increment s (front s));
  op_modify (set_front f);;
  op_modify (set_full false);;
  on_receive WakerRegistration.wake.

(** The closures of the polls: a sender without a slot waits in
    [receive_waker], a receiver without one in [send_waker]. *)
Definition poll_push (cx : Waker) : Op Waker State (Poll Z) :=
  o ← push_index;
  match o with
  | Some i => mret (Ready i)
  | None => on_receive (WakerRegistration.register cx);; mret Pending
  end.

Definition poll_pop (cx : Waker) : Op Waker State (Poll Z) :=
  o ← pop_index;
  match o with
  | Some i => mret (Ready i)
  | None => on_send (WakerRegistration.register cx);; mret Pending
  end.
End StateOps.

(** ** The channel *)
Record t (R T : Type) := mk { buf : list T; state : Shared R State }.
Arguments mk {R T} _ _.
Arguments buf {R T} _.
Arguments state {R T} _.

Section Ops.
Context `{HP : Profile} `{RawMutex R} {T : Type}.

Definition new (buf : list T) : Outcome (t R T) :=
  let len := Z.of_nat (length buf) in
  assert_that (negb (Z.eqb len 0));;
  Val (mk buf (shared_new (mk_state len 0 0 false WakerRegistration.new WakerRegistration.new))).

Definition on_state {A} (f : Op Waker State A) : Op Waker (Cpu * t R T) A :=
  zoom (λ s, (s.1, state s.2)) (λ x s, (x.1, mk (buf s.2) x.2)) (shared_lock f).

(** [Sender]. *)
Definition try_send : Op Waker (Cpu * t R T) (option Z) := on_state push_index.
Definition poll_send (cx : Waker) : Op Waker (Cpu * t R T) (Poll Z) := on_state (poll_push cx).
Definition send_poll (cx : Waker) : Op Waker (Cpu * t R T) (Poll Z) := on_state (poll_push cx).
Definition send_done : Op Waker (Cpu * t R T) unit := on_state push_done.

(** [Receiver]. *)
Definition try_receive : Op Waker (Cpu * t R T) (option Z) := on_state pop_index.
Definition poll_receive (cx : Waker) : Op Waker (Cpu * t R T) (Poll Z) := on_state (poll_pop cx).
Definition receive_poll (cx : Waker) : Op Waker (Cpu * t R T) (Poll Z) := on_state (poll_pop cx).
Definition receive_done : Op Waker (Cpu * t R T) unit := on_state pop_done.

(** Accesses through the references [&mut *self.channel.buf.add(i)]. *)
Definition slot_read {E} (i : Z) : Op E (Cpu * t R T) T :=
  s ← op_get;
  op_lift (unwrap (buf s.2 !! Z.to_nat i)).
Definition slot_write {E} (i : Z) (x : T) : Op E (Cpu * t R T) unit :=
  s ← op_get;
  op_lift (unwrap (buf s.2 !! Z.to_nat i));;
  op_modify (λ s, (s.1, mk (<[Z.to_nat i := x]> (buf s.2)) (state s.2))).
End Ops.

(** ** Clients

    The sender reserves a slot, then commits a value written into it; the
    receiver takes the value of a slot, then releases it.  A client without a
    lent slot has nothing to commit or release; what [send_done] and
    [receive_done] do when they are called all the same is [done_out_of_turn]. *)
Inductive Call (T : Type) := Reserve (cx : option Waker) | Commit (x : T) | Take (cx : option Waker) | Release.
Arguments Reserve {T} cx.
Arguments Commit {T} x.
Arguments Take {T} cx.
Arguments Release {T}.

Inductive Reply (T : Type) := Slot | NoSlot | Done | NotLent | Value (x : T).
Arguments Slot {T}.
Arguments NoSlot {T}.
Arguments Done {T}.
Arguments NotLent {T}.
Arguments Value {T} x.

Record Clients R T := mk_clients {
  channel : Cpu * t R T;
  reserved : option Z;
  taken : option Z
}.
Arguments mk_clients {R T} _ _ _.
Arguments channel {R T} _.
Arguments reserved {R T} _.
Arguments taken {R T} _.

Definition poll_option (p : Poll Z) : option Z :=
  match p with Ready i => Some i | Pending => None end.

Section Run.
Context `{HP : Profile} `{RawMutex R} {T : Type}.

Definition on_channel {A} (m : Op Waker (Cpu * t R T) A) : Op Waker (Clients R T) A :=
  zoom channel (λ c s, mk_clients c (reserved s) (taken s)) m.
Definition set_reserved o : Op Waker (Clients R T) unit :=
  op_modify (λ s, mk_clients (channel s) o (taken s)).
Definition set_taken o : Op Waker (Clients R T) unit :=
  op_modify (λ s, mk_clients (channel s) (reserved s) o).

Definition lend_back (cx : option Waker) : Op Waker (Cpu * t R T) (option Z) :=
  match cx with
  | Some w => p ← poll_send w; mret (poll_option p)
  | None => try_send
  end.
Definition lend_front (cx : option Waker) : Op Waker (Cpu * t R T) (option Z) :=
  match cx with
  | Some w => p ← poll_receive w; mret (poll_option p)
  | None => try_receive
  end.

Definition run_call (c : Call T) : Op Waker (Clients R T) (Reply T) :=
  s ← op_get;
  match c with
  | Reserve cx =>
      o ← on_channel (lend_back cx);
      set_reserved o;;
      mret (match o with Some _ => Slot | None => NoSlot end)
  | Commit x =>
      match reserved s with
      | Some i =>
          on_channel (slot_write i x);;
          on_channel send_done;;
          set_reserved None;;
          mret Done
      | None => mret NotLent
      end
  | Take cx =>
      o ← on_channel (lend_front cx);
      set_taken o;;
      match o with
      | Some i => x ← on_channel (slot_read i); mret (Value x)
      | None => mret NoSlot
      end
  | Release =>
      match taken s with
      | Some i => on_channel receive_done;; set_taken None;; mret Done
      | None => mret NotLent
      end
  end.
End Run.

(** ** The ring of indices *)
Section Ring.
Context `{HP : Profile}.
Implicit Types (st : State) (k : nat).

Definition wrap st (i : Z) : Z := if Z.ltb i (len st) then i else (i - len st)%Z.

(** [k] slots from [front] on are committed. *)
Definition ring st k : Prop :=
  (0 < len st < modulus W32 ∧ 0 ≤ front st < len st ∧ Z.of_nat k ≤ len st)%Z ∧
  back st = wrap st (front st + Z.of_nat k) ∧
  full st = bool_decide (Z.of_nat k = len st).

Lemma ring_full st k : ring st k → is_full st = bool_decide (Z.of_nat k = len st).
Proof. by intros (_ & _ & ?). Qed.

Lemma ring_empty st k : ring st k → is_empty st = bool_decide (k = 0).
Proof.
  intros (Hb & Hback & Hfull). unfold is_empty. rewrite Hback, Hfull. unfold wrap.
  destruct (Z.ltb_spec (front st + Z.of_nat k) (len st)); repeat case_bool_decide; cbn; lia.
Qed.

Lemma ring_back st k : ring st k → (0 ≤ back st < len st)%Z.
Proof. intros (Hb & -> & _). unfold wrap. destruct (Z.ltb_spec (front st + Z.of_nat k) (len st)); lia. Qed.

Lemma increment_eq st i : (0 < len st < modulus W32)%Z → (0 ≤ i < len st)%Z →
  increment st i = Val (wrap st (i + 1)).
Proof.
  intros Hl Hi. unfold increment, wrap. rewrite uadd_in by width. cbv [mbind outcome_bind].
  destruct (Z.eqb_spec (i + 1) (len st)), (Z.ltb_spec (i + 1) (len st)); try lia; f_equal; lia.
Qed.

Lemma runs_push_index st k : ring st k →
  runs push_index st (if bool_decide (Z.of_nat k = len st) then None else Some (back st)) st [].
Proof.
  intros Hr. unfold push_index. eapply runs_bind_nil; [op_prim|].
  rewrite (ring_full st k) by done. apply runs_ret.
Qed.

Lemma runs_pop_index st k : ring st k →
  runs pop_index st (if bool_decide (k = 0) then None else Some (front st)) st [].
Proof.
  intros Hr. unfold pop_index. eapply runs_bind_nil; [op_prim|].
  rewrite (ring_empty st k) by done. apply runs_ret.
Qed.

(** Committing the slot at the back. *)
Definition pushed st : State :=
  let st1 := set_back (wrap st (back st + 1)) st in
  set_send_waker WakerRegistration.new (if Z.eqb (back st1) (front st1) then set_full true st1 else st1).

Lemma runs_push_done st k : ring st k → (Z.of_nat k < len st)%Z →
  runs push_done st tt (pushed st) (option_list (WakerRegistration.waker (send_waker st))).
Proof.
  intros Hr Hk. pose proof (ring_back st k Hr). pose proof Hr as (Hb & _ & _). unfold push_done.
  eapply runs_bind_nil; [op_prim|].
  eapply runs_bind_nil; [apply runs_lift; rewrite (ring_full st k), bool_decide_false by (done || lia); done|].
  eapply runs_bind_nil; [apply runs_lift, increment_eq; lia|].
  eapply runs_bind_nil; [op_prim|]. eapply runs_bind_nil; [op_prim|]. cbv beta.
  set (st1 := set_back _ st).
  eapply (runs_bind_nil _ _ _ tt (if Z.eqb (back st1) (front st1) then set_full true st1 else st1)).
  { destruct (Z.eqb (back st1) (front st1)); [op_prim|apply runs_ret]. }
  assert (send_waker (if Z.eqb (back st1) (front st1) then set_full true st1 else st1) = send_waker st) as <-
    by (by destruct (Z.eqb (back st1) (front st1))).
  apply (runs_zoom send_waker set_send_waker), WakerRegistration.runs_wake.
Qed.

Lemma pushed_fields st : len (pushed st) = len st ∧ front (pushed st) = front st ∧
  back (pushed st) = wrap st (back st + 1) ∧ receive_waker (pushed st) = receive_waker st ∧
  send_waker (pushed st) = WakerRegistration.new ∧
  full (pushed st) = Z.eqb (wrap st (back st + 1)) (front st) || full st.
Proof. unfold pushed. cbn. by destruct (Z.eqb _ _). Qed.

Lemma ring_pushed st k : ring st k → (Z.of_nat k < len st)%Z → ring (pushed st) (S k).
Proof.
  intros (Hb & Hback & Hfull) Hk. destruct (pushed_fields st) as (El & Ef & Eb & _ & _ & Efull).
  unfold ring. rewrite El, Ef, Eb, Efull, Hfull, Hback. split; [lia|]. unfold wrap. rewrite ?El.
  rewrite bool_decide_false by lia. rewrite orb_false_r.
  destruct (Z.ltb_spec (front st + Z.of_nat k) (len st)) as [H1|H1];
  [destruct (Z.ltb_spec (front st + Z.of_nat k + 1) (len st)) as [H2|H2]|
   destruct (Z.ltb_spec (front st + Z.of_nat k - len st + 1) (len st)) as [H2|H2]];
  (destruct (Z.ltb_spec (front st + Z.of_nat (S k)) (len st)) as [H3|H3]); try lia;
  (split; [lia|]); (apply eq_true_iff_eq; rewrite Z.eqb_eq, bool_decide_eq_true; lia).
Qed.

(** Freeing the slot at the front. *)
Definition popped st : State :=
  set_receive_waker WakerRegistration.new (set_full false (set_front (wrap st (front st + 1)) st)).

Lemma runs_pop_done st k : ring st k → 0 < k →
  runs pop_done st tt (popped st) (option_list (WakerRegistration.waker (receive_waker st))).
Proof.
  intros Hr Hk. pose proof Hr as (Hb & _ & _). unfold pop_done.
  eapply runs_bind_nil; [op_prim|].
  eapply runs_bind_nil; [apply runs_lift; rewrite (ring_empty st k), bool_decide_false by (done || lia); done|].
  eapply runs_bind_nil; [apply runs_lift, increment_eq; lia|].
  eapply runs_bind_nil; [op_prim|]. eapply runs_bind_nil; [op_prim|].
  apply (runs_zoom receive_waker set_receive_waker), WakerRegistration.runs_wake.
Qed.

(** Out of turn: committing a slot of a full channel, or freeing one of an empty
    channel, is a panic. *)
Lemma done_out_of_turn st k : ring st k →
  (Z.of_nat k = len st → push_done st = Panic) ∧ (k = 0 → pop_done st = Panic).
Proof.
  intros Hr. split; intros Hk.
  - unfold push_done. run_op. by rewrite (ring_full st k), bool_decide_true by done.
  - unfold pop_done. run_op. by rewrite (ring_empty st k), bool_decide_true by done.
Qed.

Lemma ring_popped st k : ring st (S k) → ring (popped st) k.
Proof.
  intros (Hb & Hback & Hfull). unfold ring, popped, wrap, modulus in *. cbn. rewrite Hback.
  split.
  - destruct (Z.ltb_spec (front st + 1) (len st)); lia.
  - rewrite bool_decide_false by lia. split; [|done].
    destruct (Z.ltb_spec (front st + 1) (len st)), (Z.ltb_spec (front st + Z.of_nat (S k)) (len st));
    match goal with |- context [Z.ltb ?a ?b] => destruct (Z.ltb_spec a b) end; lia.
Qed.

(** The buffer holds the queue [q] in the committed slots. *)
Definition holds {T} st (b : list T) (q : list T) : Prop :=
  Z.of_nat (length b) = len st ∧ ring st (length q) ∧
  ∀ i x, q !! i = Some x → b !! Z.to_nat (wrap st (front st + Z.of_nat i)) = Some x.

Lemma wrap_lt st i : (0 ≤ i < 2 * len st)%Z → (0 ≤ wrap st i < len st)%Z.
Proof. intros Hi. unfold wrap. destruct (Z.ltb_spec i (len st)); lia. Qed.

Lemma holds_push {T} st (b q : list T) x : holds st b q → (Z.of_nat (length q) < len st)%Z →
  holds (pushed st) (<[Z.to_nat (back st) := x]> b) (q ++ [x]).
Proof.
  intros (Hl & Hr & Hq) Hk. destruct (pushed_fields st) as (El & Ef & _).
  pose proof (ring_back _ _ Hr) as Hbk. pose proof (ring_pushed _ _ Hr Hk) as Hr'.
  destruct Hr as (Hb & Hback & _). split_and!.
  - by rewrite length_insert, El.
  - rewrite length_app. cbn [length]. by rewrite Nat.add_1_r.
  - intros i y Hy. unfold wrap. rewrite El, Ef. fold (wrap st (front st + Z.of_nat i)).
    destruct (decide (i < length q)) as [Hi|Hi].
    + rewrite lookup_app_l in Hy by done. rewrite list_lookup_insert_ne; [by apply Hq|].
      rewrite Hback. unfold wrap.
      destruct (Z.ltb_spec (front st + Z.of_nat (length q)) (len st)),
        (Z.ltb_spec (front st + Z.of_nat i) (len st)); lia.
    + assert (i = length q) as ->.
      { apply lookup_lt_Some in Hy. rewrite length_app in Hy. cbn in Hy. lia. }
      rewrite lookup_app_r, Nat.sub_diag in Hy by lia. injection Hy as <-.
      rewrite <-Hback. apply list_lookup_insert_eq. lia.
Qed.

Lemma holds_pop {T} st (b q : list T) x : holds st b (x :: q) → holds (popped st) b q.
Proof.
  intros (Hl & Hr & Hq). pose proof (ring_popped _ _ Hr) as Hr'. destruct Hr as (Hb & _ & _).
  cbn [length] in Hb. split_and!; [done|done|].
  intros i y Hy. rewrite <-(Hq (S i) y Hy). pose proof (lookup_lt_Some _ _ _ Hy).
  f_equal. f_equal. unfold popped, wrap. cbn.
  destruct (Z.ltb_spec (front st + 1) (len st));
  repeat match goal with |- context [Z.ltb ?a ?b] => destruct (Z.ltb_spec a b) end; lia.
Qed.

Lemma holds_front {T} st (b q : list T) x : holds st b (x :: q) → b !! Z.to_nat (front st) = Some x.
Proof.
  intros (_ & ((_ & Hf & _) & _) & Hq). specialize (Hq 0 x eq_refl). unfold wrap in Hq.
  rewrite Z.add_0_r in Hq. by rewrite (proj2 (Z.ltb_lt _ _)) in Hq by lia.
Qed.
End Ring.

(** ** The abstract machine: a bounded queue with lent ends *)
Section Facts.
Context `{HP : Profile} `{RawMutexLaws R} {T : Type}.

Record View := view {
  queue : list T;
  capacity : Z;
  sending : bool;                  (* the sender has reserved a slot *)
  receiving : bool;                (* the receiver has taken a value *)
  room : WakerRegistration.t;      (* waiting for room *)
  message : WakerRegistration.t    (* waiting for a message *)
}.

Definition v_full v : bool := bool_decide (Z.of_nat (length (queue v)) = capacity v).

Definition answer (v : View) (c : Call T) : Reply T :=
  match c with
  | Reserve _ => if v_full v then NoSlot else Slot
  | Commit _ => if sending v then Done else NotLent
  | Take _ => match queue v with x :: _ => Value x | [] => NoSlot end
  | Release => if receiving v then Done else NotLent
  end.

Definition after (v : View) (c : Call T) : View :=
  match c with
  | Reserve cx =>
      view (queue v) (capacity v) (negb (v_full v)) (receiving v)
        (if v_full v then WakerRegistration.registered cx (room v) else room v) (message v)
  | Commit x =>
      if sending v then view (queue v ++ [x]) (capacity v) false (receiving v) (room v) WakerRegistration.new
      else v
  | Take cx =>
      view (queue v) (capacity v) (sending v) (negb (bool_decide (queue v = []))) (room v)
        (if bool_decide (queue v = []) then WakerRegistration.registered cx (message v) else message v)
  | Release =>
      if receiving v then view (tail (queue v)) (capacity v) (sending v) false WakerRegistration.new (message v)
      else v
  end.

Definition wakes (v : View) (c : Call T) : list Waker :=
  match c with
  | Reserve cx => if v_full v then WakerRegistration.displaced cx (room v) else []
  | Commit _ => if sending v then option_list (WakerRegistration.waker (message v)) else []
  | Take cx => if bool_decide (queue v = []) then WakerRegistration.displaced cx (message v) else []
  | Release => if receiving v then option_list (WakerRegistration.waker (room v)) else []
  end.

Definition step (v : View) (c : Call T) (r : Reply T) (v' : View) (l : list Waker) : Prop :=
  r = answer v c ∧ v' = after v c ∧ l = wakes v c.

(** The clients and their channel implement the machine. *)
Definition indices (s : Clients R T) : State := shared_value (state (channel s).2).

Record sim (s : Clients R T) (v : View) : Prop := {
  sim_cpu : cpu_wf (channel s).1;
  sim_free : shared_free (state (channel s).2);
  sim_holds : holds (indices s) (buf (channel s).2) (queue v);
  sim_capacity : len (indices s) = capacity v;
  sim_reserved : reserved s = if sending v then Some (back (indices s)) else None;
  sim_taken : taken s = if receiving v then Some (front (indices s)) else None;
  sim_room : receive_waker (indices s) = room v;
  sim_message : send_waker (indices s) = message v;
  sim_sending : sending v = true → v_full v = false;
  sim_receiving : receiving v = true → queue v ≠ []
}.

Lemma runs_on_indices {A} (f : Op Waker State A) c (m : t R T) a st l : cpu_wf c → shared_free (state m) →
  runs f (shared_value (state m)) a st l →
  runs (on_state f) (c, m) a (c, mk (buf m) (shared_set st (state m))) l.
Proof.
  intros Hc Hm Hf.
  apply (runs_zoom (λ z : Cpu * t R T, (z.1, state z.2)) (λ x z, (x.1, mk (buf z.2) x.2)) _
    (c, m) a (c, shared_set st (state m))).
  by apply runs_shared_lock.
Qed.

Lemma runs_on_channel {A} (f : Op Waker (Cpu * t R T) A) s a c l :
  runs f (channel s) a c l → runs (on_channel f) s a (mk_clients c (reserved s) (taken s)) l.
Proof. apply (runs_zoom channel (λ c s, mk_clients c (reserved s) (taken s))). Qed.

Lemma push_index_view s v : sim s v →
  runs push_index (indices s) (if v_full v then None else Some (back (indices s))) (indices s) [].
Proof.
  intros Hs. destruct (sim_holds _ _ Hs) as (_ & Hr & _).
  unfold v_full. rewrite <-(sim_capacity _ _ Hs). by apply runs_push_index.
Qed.

Lemma pop_index_view s v : sim s v →
  runs pop_index (indices s) (if bool_decide (queue v = []) then None else Some (front (indices s))) (indices s) [].
Proof.
  intros Hs. destruct (sim_holds _ _ Hs) as (_ & Hr & _).
  replace (bool_decide (queue v = [])) with (bool_decide (length (queue v) = 0)); [by apply runs_pop_index|].
  by destruct (queue v).
Qed.

(** The channel with other indices, the clients with another channel. *)
Definition with_indices (s : Clients R T) st : Cpu * t R T :=
  ((channel s).1, mk (buf (channel s).2) (shared_set st (state (channel s).2))).

Lemma runs_indices {A} (f : Op Waker State A) s a st l : cpu_wf (channel s).1 →
  shared_free (state (channel s).2) → runs f (indices s) a st l →
  runs (on_state f) (channel s) a (with_indices s st) l.
Proof. intros Hc Hf Hr. destruct s as [[c m] rs tk]. by apply runs_on_indices. Qed.

Lemma runs_lend_back cx s v : sim s v →
  let st := indices s in
  runs (lend_back cx) (channel s) (if v_full v then None else Some (back st))
    (with_indices s (if v_full v then set_receive_waker (WakerRegistration.registered cx (receive_waker st)) st else st))
    (if v_full v then WakerRegistration.displaced cx (receive_waker st) else []).
Proof.
  intros Hs st. pose proof (push_index_view s v Hs) as Hp. pose proof (sim_cpu _ _ Hs). pose proof (sim_free _ _ Hs).
  fold st in Hp. destruct (v_full v), cx as [w|]; cbn [lend_back].
  - eapply runs_log; [eapply (runs_bind _ _ _ Pending)|apply app_nil_r]; [|apply runs_ret].
    apply runs_indices; [done..|]. unfold poll_push. eapply runs_bind_nil; [exact Hp|].
    op_map idtac.
    apply (runs_zoom receive_waker set_receive_waker), WakerRegistration.runs_register.
  - replace (set_receive_waker _ st) with st by (by destruct st). by apply runs_indices.
  - eapply (runs_bind_nil _ _ _ (Ready (back st))); [|apply runs_ret].
    apply runs_indices; [done..|]. unfold poll_push. eapply runs_bind_nil; [exact Hp|apply runs_ret].
  - by apply runs_indices.
Qed.

Lemma runs_lend_front cx s v : sim s v →
  let st := indices s in let empty := bool_decide (queue v = []) in
  runs (lend_front cx) (channel s) (if empty then None else Some (front st))
    (with_indices s (if empty then set_send_waker (WakerRegistration.registered cx (send_waker st)) st else st))
    (if empty then WakerRegistration.displaced cx (send_waker st) else []).
Proof.
  intros Hs st empty. pose proof (pop_index_view s v Hs) as Hp. fold empty in Hp.
  pose proof (sim_cpu _ _ Hs). pose proof (sim_free _ _ Hs).
  fold st in Hp. destruct empty, cx as [w|]; cbn [lend_front].
  - eapply runs_log; [eapply (runs_bind _ _ _ Pending)|apply app_nil_r]; [|apply runs_ret].
    apply runs_indices; [done..|]. unfold poll_pop. eapply runs_bind_nil; [exact Hp|].
    op_map idtac.
    apply (runs_zoom send_waker set_send_waker), WakerRegistration.runs_register.
  - replace (set_send_waker _ st) with st by (by destruct st). by apply runs_indices.
  - eapply (runs_bind_nil _ _ _ (Ready (front st))); [|apply runs_ret].
    apply runs_indices; [done..|]. unfold poll_pop. eapply runs_bind_nil; [exact Hp|apply runs_ret].
  - by apply runs_indices.
Qed.

Lemma runs_reserved o (s : Clients R T) : runs (set_reserved o) s tt (mk_clients (channel s) o (taken s)) [].
Proof. done. Qed.
Lemma runs_taken o (s : Clients R T) : runs (set_taken o) s tt (mk_clients (channel s) (reserved s) o) [].
Proof. done. Qed.

Lemma reserve_runs cx s v : sim s v →
  ∃ s', runs (run_call (Reserve cx)) s (answer v (Reserve cx)) s' (wakes v (Reserve cx)) ∧
    sim s' (after v (Reserve cx)).
Proof.
  intros Hs. pose proof (runs_lend_back cx s v Hs) as Hr. cbv zeta in Hr.
  pose proof (sim_room _ _ Hs) as Hroom. rewrite Hroom in Hr.
  destruct Hs. cbn [answer wakes after]. destruct (v_full v) eqn:Hf; cbn [negb]; eexists;
    (split; [eapply runs_bind_nil; [op_prim|];
      eapply runs_log; [eapply runs_bind; [by apply runs_on_channel|]|apply app_nil_r];
      eapply runs_bind_nil; [apply runs_reserved|apply runs_ret]|by constructor]).
Qed.

Lemma take_runs cx s v : sim s v →
  ∃ s', runs (run_call (Take cx)) s (answer v (Take cx)) s' (wakes v (Take cx)) ∧
    sim s' (after v (Take cx)).
Proof.
  intros Hs. pose proof (runs_lend_front cx s v Hs) as Hr. cbv zeta in Hr.
  pose proof (sim_message _ _ Hs) as Hmsg. rewrite Hmsg in Hr.
  cbn [answer wakes after]. destruct (queue v) as [|x q] eqn:Hq; cbn in Hr |- *.
  - eexists. split.
    + unfold run_call. eapply runs_bind_nil; [op_prim|].
      eapply runs_log; [eapply runs_bind; [by apply runs_on_channel|]|apply app_nil_r].
      eapply runs_bind_nil; [apply runs_taken|apply runs_ret].
    + destruct Hs. unfold v_full in *. rewrite Hq in *. by constructor.
  - pose proof (sim_holds _ _ Hs) as Hh. rewrite Hq in Hh. pose proof (holds_front _ _ _ _ Hh) as Hx.
    eexists. split.
    + unfold run_call. eapply runs_bind_nil; [op_prim|].
      eapply runs_log; [eapply runs_bind; [by apply runs_on_channel|]|apply app_nil_r].
      eapply runs_bind_nil; [apply runs_taken|].
      eapply runs_bind_nil; [|apply runs_ret]. apply runs_on_channel.
      unfold slot_read. eapply runs_bind_nil; [op_prim|]. apply runs_lift. cbn. by rewrite Hx.
    + destruct Hs. unfold v_full in *. rewrite Hq in *. by constructor.
Qed.

Lemma commit_runs x s v : sim s v →
  ∃ s', runs (run_call (Commit x)) s (answer v (Commit x)) s' (wakes v (Commit x)) ∧
    sim s' (after v (Commit x)).
Proof.
  intros Hs. cbn [answer wakes after]. pose proof (sim_reserved _ _ Hs) as Hres.
  destruct (sending v) eqn:Hsend.
  2: { exists s. split; [|done]. unfold run_call. eapply runs_bind_nil; [op_prim|].
       rewrite Hres. apply runs_ret. }
  pose proof (sim_sending _ _ Hs Hsend) as Hfull. apply bool_decide_eq_false in Hfull.
  destruct Hs as [Hc Hfree Hh Hcap _ Htk Hroom Hmsg _ Hrecv].
  pose proof Hh as (Hl & Hr & _). pose proof (ring_back _ _ Hr) as Hback.
  assert (Z.of_nat (length (queue v)) < len (indices s))%Z as Hlt by (destruct Hr as (? & _); lia).
  destruct (pushed_fields (indices s)) as (El & Ef & _ & Er & Es & _).
  destruct (lookup_lt_is_Some_2 (buf (channel s).2) (Z.to_nat (back (indices s)))) as [y Hy]; [lia|].
  rewrite <-Hmsg. eexists. split.
  - unfold run_call. eapply runs_bind_nil; [op_prim|]. rewrite Hres.
    eapply runs_bind_nil.
    { apply runs_on_channel. unfold slot_write. eapply runs_bind_nil; [op_prim|].
      eapply runs_bind_nil; [by apply runs_lift; rewrite Hy|op_prim]. }
    eapply runs_log; [eapply runs_bind|apply app_nil_r].
    + apply runs_on_channel. unfold send_done. cbn [channel].
      apply (runs_on_indices push_done (channel s).1 (mk _ (state (channel s).2))); [done..|].
      by apply (runs_push_done _ (length (queue v))).
    + eapply runs_bind_nil; [apply runs_reserved|apply runs_ret].
  - constructor; cbn -[pushed]; try done; unfold indices; cbn -[pushed]; fold (indices s).
    + by apply holds_push.
    + by rewrite El.
    + by rewrite Ef.
    + by rewrite Er.
    + intros Hre Hnil. destruct (queue v); [by apply Hrecv in Hre|done].
Qed.

Lemma release_runs s v : sim s v →
  ∃ s', runs (run_call Release) s (answer v Release) s' (wakes v Release) ∧ sim s' (after v Release).
Proof.
  intros Hs. cbn [answer wakes after]. pose proof (sim_taken _ _ Hs) as Htk.
  destruct (receiving v) eqn:Hrecv.
  2: { exists s. split; [|done]. unfold run_call. eapply runs_bind_nil; [op_prim|].
       rewrite Htk. apply runs_ret. }
  pose proof (sim_receiving _ _ Hs Hrecv) as Hne.
  destruct Hs as [Hc Hfree Hh Hcap Hres _ Hroom Hmsg Hsend _].
  destruct (queue v) as [|x q] eqn:Hq; [done|]. pose proof Hh as (_ & Hr & _).
  rewrite <-Hroom. eexists. split.
  - unfold run_call. eapply runs_bind_nil; [op_prim|]. rewrite Htk.
    eapply runs_log; [eapply runs_bind|apply app_nil_r].
    + apply runs_on_channel. unfold receive_done. apply runs_indices; [done..|].
      apply (runs_pop_done _ (S (length q))); [done|lia].
    + eapply runs_bind_nil; [apply runs_taken|apply runs_ret].
  - constructor; cbn -[popped]; try done; unfold indices; cbn -[popped]; fold (indices s).
    + by eapply holds_pop.
    + intros He. unfold v_full. cbn. apply bool_decide_eq_false. destruct Hr as (? & _).
      cbn in *. lia.
Qed.

Lemma zerocopy_call_runs c s v : sim s v →
  ∃ r s' v' l, runs (run_call c) s r s' l ∧ sim s' v' ∧ step v c r v' l.
Proof.
  intros Hs. exists (answer v c).
  destruct c as [cx|x|cx|]; [destruct (reserve_runs cx s v Hs) as (s' & Hr & Hs')|
    destruct (commit_runs x s v Hs) as (s' & Hr & Hs')|
    destruct (take_runs cx s v Hs) as (s' & Hr & Hs')|
    destruct (release_runs s v Hs) as (s' & Hr & Hs')]; eexists s', _, _; (split; [exact Hr|]);
    by split; [exact Hs'|].
Qed.

(** ** Properties *)

(** The values committed, and how many slots were released. *)
Definition committed (io : Call T * Reply T) : list T :=
  match io with (Commit x, Done) => [x] | _ => [] end.
Definition releases (io : Call T * Reply T) : nat :=
  match io with (Release, Done) => 1 | _ => 0 end.

Lemma step_queue v c r v' l : step v c r v' l → (receiving v = true → queue v ≠ []) →
  queue v' = drop (releases (c, r)) (queue v ++ committed (c, r)) ∧
  (receiving v' = true → queue v' ≠ []) ∧
  length (queue v ++ committed (c, r)) = releases (c, r) + length (queue v').
Proof.
  intros (-> & -> & _) Hr. destruct c as [cx|x|cx|]; cbn.
  - by rewrite app_nil_r.
  - destruct (sending v); cbn; [|by rewrite app_nil_r]. split_and!; [done| |done].
    intros _. by destruct (queue v).
  - destruct (queue v) eqn:Hq; cbn; rewrite ?app_nil_r; split_and!; try done; by rewrite ?Hq.
  - destruct (receiving v) eqn:Hrecv; cbn; [|by rewrite !app_nil_r, Hrecv].
    specialize (Hr eq_refl). rewrite app_nil_r. by destruct (queue v).
Qed.

Lemma trace_queue v io v' log : trace step v io v' log → (receiving v = true → queue v ≠ []) →
  queue v' = drop (sum_list_with releases io) (queue v ++ (io ≫= committed)).
Proof.
  induction 1 as [v|v c r v1 l1 io v2 l2 Hs Ht IH]; intros Hr; [by rewrite app_nil_r|].
  destruct (step_queue _ _ _ _ _ Hs Hr) as (Hq1 & Hr1 & Hl1).
  change (((c, r) :: io) ≫= committed) with (committed (c, r) ++ (io ≫= committed)).
  change (sum_list_with releases ((c, r) :: io)) with (releases (c, r) + sum_list_with releases io).
  rewrite (IH Hr1), Hq1, <-drop_drop, app_assoc. f_equal. symmetry. apply drop_app_le. lia.
Qed.

Lemma sim_bound s v : sim s v → (Z.of_nat (length (queue v)) ≤ capacity v)%Z.
Proof. intros Hs. rewrite <-(sim_capacity _ _ Hs). by destruct (sim_holds _ _ Hs) as (_ & ((_ & _ & ?) & _) & _). Qed.

(** C11: a zero-copy channel is a bounded queue: whatever calls its sender and its
    receiver make, in any order, they run without a panic, an access to a
    lent slot included, and are a run of the abstract machine; the values
    committed come out in order, the one lent after [n] releases being the
    [n]-th; and the buffer's length is the capacity. *)
Theorem zerocopy_fifo cs s v : sim s v →
  ∃ io s' v' log, runs (op_calls run_call cs) s io s' log ∧ io.*1 = cs ∧ sim s' v' ∧
    trace step v io v' log ∧
    queue v' = drop (sum_list_with releases io) (queue v ++ (io ≫= committed)) ∧
    (Z.of_nat (length (queue v')) ≤ capacity v')%Z ∧
    ∀ cx x, last io = Some (Take cx, Value x) →
      (queue v ++ (io ≫= committed)) !! sum_list_with releases io = Some x.
Proof.
  intros Hs. destruct (calls_simulate run_call sim step) with (cs := cs) (s := s) (v := v)
    as (io & s' & v' & log & Hr & Hio & Hs' & Ht); [|done|].
  { intros s0 v0 c. apply zerocopy_call_runs. }
  pose proof (trace_queue _ _ _ _ Ht (sim_receiving _ _ Hs)) as Hq.
  exists io, s', v', log. split_and!; try done; [by eapply sim_bound|].
  intros cx x Hl. destruct (trace_last _ _ _ _ _ _ Ht Hl) as (v0 & l0 & Ha & Hv & _). cbn in Ha.
  destruct (queue v0) as [|y q] eqn:Hq0; [done|]. injection Ha as ->.
  rewrite <-(Nat.add_0_r (sum_list_with _ _)), <-lookup_drop, <-Hq, Hv. cbn. by rewrite Hq0.
Qed.

Definition waits_room (w : Waker) v : Prop :=
  v_full v = true ∧ WakerRegistration.waker (room v) = Some w.
Definition waits_message (w : Waker) v : Prop :=
  queue v = [] ∧ WakerRegistration.waker (message v) = Some w.

(** What the lent ends say about the queue. *)
Definition lent_ok v : Prop :=
  (Z.of_nat (length (queue v)) ≤ capacity v)%Z ∧
  (sending v = true → v_full v = false) ∧ (receiving v = true → queue v ≠ []).

Lemma sim_lent s v : sim s v → lent_ok v.
Proof.
  intros Hs. split; [by eapply sim_bound|].
  split; [apply (sim_sending _ _ Hs)|apply (sim_receiving _ _ Hs)].
Qed.

Lemma step_lent v c r v' l : step v c r v' l → lent_ok v → lent_ok v'.
Proof.
  intros (_ & -> & _) (Hb & Hs & Hr). destruct c as [cx|x|cx|]; cbn.
  - split_and!; [done| |done]. unfold v_full. cbn. by destruct (bool_decide _).
  - destruct (sending v) eqn:E; [|split_and!; [done|by rewrite E|done]]. specialize (Hs eq_refl).
    apply bool_decide_eq_false in Hs. unfold lent_ok. cbn. rewrite length_app. cbn.
    split_and!; [lia|done|]. intros _. by destruct (queue v).
  - split_and!; [done|done|]. cbn. by case_bool_decide.
  - destruct (receiving v) eqn:E; [|split_and!; [done|done|by rewrite E]]. specialize (Hr eq_refl).
    unfold lent_ok, v_full. cbn. destruct (queue v) as [|x q]; [done|]. cbn in *.
    split_and!; [lia| |done]. intros _. apply bool_decide_eq_false. lia.
Qed.

Lemma slot_registered_waits cx rx w : WakerRegistration.waker rx = Some w →
  WakerRegistration.waker (WakerRegistration.registered cx rx) = Some w ∨
  w ∈ WakerRegistration.displaced cx rx.
Proof. intros Hw. by apply (WakerRegistration.kept_registered cx rx). Qed.

Lemma slot_step_waits_room w v c r v' l : step v c r v' l → lent_ok v → waits_room w v →
  waits_room w v' ∨ w ∈ l.
Proof.
  intros (_ & -> & ->) (_ & Hs & Hr) [Hf Hw]. unfold waits_room. destruct c as [cx|x|cx|]; cbn.
  - rewrite Hf. destruct (slot_registered_waits cx (room v) w Hw); [by left|by right].
  - destruct (sending v) eqn:E; [by rewrite Hs in Hf|by left].
  - by left.
  - destruct (receiving v); [|by left]. right. rewrite Hw. by apply list_elem_of_singleton.
Qed.

Lemma slot_step_waits_message w v c r v' l : step v c r v' l → lent_ok v → waits_message w v →
  waits_message w v' ∨ w ∈ l.
Proof.
  intros (_ & -> & ->) (_ & Hs & Hr) [Hq Hw]. unfold waits_message. destruct c as [cx|x|cx|]; cbn.
  - by left.
  - destruct (sending v); [|by left]. right. rewrite Hw. by apply list_elem_of_singleton.
  - rewrite Hq. cbn. destruct (slot_registered_waits cx (message v) w Hw); [by left|by right].
  - destruct (receiving v) eqn:E; [by destruct Hr|by left].
Qed.

(** A task that waits in the sense of [P] waits or is woken along a run. *)
Lemma trace_waits (P : View → Prop) w :
  (∀ v c r v' l, step v c r v' l → lent_ok v → P v → P v' ∨ w ∈ l) →
  ∀ v io v' log, trace step v io v' log → lent_ok v → P v → P v' ∨ w ∈ log.
Proof.
  intros Hstep v io v' log Ht Hl Hv.
  destruct (trace_kept step (λ v, lent_ok v ∧ P v) (λ _, True) w) with (2 := Ht)
    as [[_ ?]|?]; [|by apply Forall_true|done|by left|by right].
  intros v0 c r v1 l Hs _ [Hl0 Hv0].
  destruct (Hstep _ _ _ _ _ Hs Hl0 Hv0); [left|by right]. split; [by eapply step_lent|done].
Qed.

(** C26: no wake-up of a zero-copy channel is lost: a sender whose poll found no
    slot waits for room, and through any calls it waits on a full channel
    until it is woken; so does a receiver on an empty channel. *)
Theorem zerocopy_no_lost_wakeup w cs s v io s' log : sim s v →
  runs (op_calls run_call cs) s io s' log →
  ∃ v', sim s' v' ∧
    (last io = Some (Reserve (Some w), NoSlot) → waits_room w v') ∧
    (last io = Some (Take (Some w), NoSlot) → waits_message w v') ∧
    (waits_room w v → waits_room w v' ∨ w ∈ log) ∧
    (waits_message w v → waits_message w v' ∨ w ∈ log).
Proof.
  intros Hs Hr. destruct (calls_simulate run_call sim step) with (cs := cs) (s := s) (v := v)
    as (io2 & s2 & v' & log2 & Hr2 & _ & Hs' & Ht); [intros s0 v0 c; apply zerocopy_call_runs|done|].
  destruct (runs_det _ _ _ _ _ _ _ _ Hr2 Hr) as (-> & -> & ->). pose proof (sim_lent _ _ Hs) as Hl0.
  exists v'. split_and!; [done| | |by eapply (trace_waits (waits_room w)), Hl0; eauto using slot_step_waits_room|
    by eapply (trace_waits (waits_message w)), Hl0; eauto using slot_step_waits_message].
  - intros Hl. destruct (trace_last _ _ _ _ _ _ Ht Hl) as (v0 & l0 & Ha & -> & _). cbn in *.
    destruct (v_full v0) eqn:E; [|done]. by split.
  - intros Hl. destruct (trace_last _ _ _ _ _ _ Ht Hl) as (v0 & l0 & Ha & -> & _). cbn in *.
    destruct (queue v0) eqn:E; [|done]. by split.
Qed.

Definition idle (n : Z) : View :=
  view [] n false false WakerRegistration.new WakerRegistration.new.

(** A new channel over a non-empty buffer is empty; an empty buffer panics. *)
Lemma zerocopy_new_sim c (b : list T) : cpu_wf c → (0 < Z.of_nat (length b) < modulus W32)%Z →
  ∃ m, new b = Val m ∧ sim (mk_clients (c, m) None None) (idle (Z.of_nat (length b))).
Proof.
  intros Hc Hb. unfold new. rewrite (proj2 (Z.eqb_neq _ _)) by lia.
  eexists. split; [reflexivity|]. constructor; cbn; try done.
  - split; [done|]. split; [|done]. split; [unfold modulus in *; cbn; lia|]. split.
    + unfold wrap, indices. cbn [front back len length queue idle].
      change (len (shared_value _)) with (Z.of_nat (length b)).
      destruct (Z.ltb_spec (0 + Z.of_nat 0) (Z.of_nat (length b))); lia.
    + symmetry. apply bool_decide_eq_false. cbn. lia.
Qed.

Lemma new_empty : new ([] : list T) = Panic.
Proof. done. Qed.
End Facts.

(** ** Instances: a buffer of two slots *)
#[local] Existing Instances cs_with_model cs_with_model_law.
#[local] Instance demo_profile : Profile := true.

Definition demo_waker : Waker := mk_waker 7 TASK_VTABLE.
Definition demo_channel : t CriticalSectionRawMutex Z :=
  mk [0; 0]%Z (shared_new (mk_state 2 0 0 false WakerRegistration.new WakerRegistration.new)).
Definition demo : Clients CriticalSectionRawMutex Z :=
  mk_clients (mk_cpu true 0 0, demo_channel) None None.

Lemma demo_channel_sim : sim demo (idle 2).
Proof.
  destruct (zerocopy_new_sim (R := CriticalSectionRawMutex) (mk_cpu true 0 0) [0; 0]%Z) as (m & [= <-] & Hs); done.
Qed.

Definition demo_calls : list (Call Z) :=
  [Take (Some demo_waker); Reserve None; Commit 5%Z; Reserve None; Commit 6%Z;
   Reserve (Some demo_waker); Take None; Release; Take None].

Example zerocopy_demo :
  (match op_calls run_call demo_calls demo with Val (io, _, log) => Some (io.*2, log) | Panic => None end) =
  Some ([NoSlot; Slot; Done; Slot; Done; NoSlot; Value 5%Z; Done; Value 6%Z], [demo_waker; demo_waker]).
Proof. reflexivity. Qed.

Lemma zerocopy_fifo_witness : ∃ io s' log,
  runs (op_calls run_call demo_calls) demo io s' log ∧ (io ≫= committed) !! 1 = Some 6%Z.
Proof.
  destruct (zerocopy_fifo demo_calls demo (idle 2) demo_channel_sim)
    as (io & s' & v' & log & Hr & _ & _ & _ & _ & _ & Hl).
  assert (match op_calls run_call demo_calls demo with
    | Val (io, _, _) => last io = Some (Take None, Value 6%Z) ∧ sum_list_with releases io = 1
    | Panic => False end) as Hio by (vm_compute; by split).
  rewrite Hr in Hio. destruct Hio as [Hlast Hsum]. specialize (Hl _ _ Hlast). rewrite Hsum in Hl.
  exists io, s', log. split; [exact Hr|exact Hl].
Defined.

Lemma zerocopy_no_lost_wakeup_witness : ∃ io s' log v',
  runs (op_calls run_call (take 1 demo_calls)) demo io s' log ∧ sim s' v' ∧ waits_message demo_waker v'.
Proof.
  destruct (zerocopy_no_lost_wakeup demo_waker (take 1 demo_calls) demo (idle 2)
    [(Take (Some demo_waker), NoSlot)]
    (match op_calls run_call (take 1 demo_calls) demo with Val (_, s', _) => s' | Panic => demo end) [] demo_channel_sim)
    as (v' & Hs' & _ & Hm & _); [reflexivity|].
  eexists _, _, _, v'. split; [vm_compute; reflexivity|]. split; [exact Hs'|by apply Hm].
Defined.
End ZeroCopy.
