(* ===== verification/Select.v ===== *)
(** * Waiting for the first of several futures ([sync/select.rs])

    A future is the state it keeps between polls and a function that polls it;
    a poll may act on the shared state [S].  The combinators poll their parts
    in order and stop at the first that is ready. *)

From S2P Require Import Prelude.

Module Select.
Section Futures.
Context {E St : Type} {Cx : Type}.

(** [Future::poll]: the outcome and what the future has become. *)
Definition Future (F O : Type) : Type := F → Cx → Op E St (Poll O * F).

(** ** Two, three and four futures *)
Inductive Either (A B : Type) := First (a : A) | Second (b : B).
Arguments First {A B} a.
Arguments Second {A B} b.

Record Select (A B : Type) := mk_select { sel_a : A; sel_b : B }.
Arguments mk_select {A B} _ _.
Arguments sel_a {A B} _.
Arguments sel_b {A B} _.

Definition select {A B} (a : A) (b : B) : Select A B := mk_select a b.

Definition select_poll {A B OA OB} (pa : Future A OA) (pb : Future B OB) :
    Future (Select A B) (Either OA OB) := λ this cx,
  ra ← pa (sel_a this) cx;
  match ra.1 with
  | Ready x => mret (Ready (First x), mk_select ra.2 (sel_b this))
  | Pending =>
      rb ← pb (sel_b this) cx;
      match rb.1 with
      | Ready x => mret (Ready (Second x), mk_select ra.2 rb.2)
      | Pending => mret (Pending, mk_select ra.2 rb.2)
      end
  end.

Inductive Either3 (A B C : Type) := First3 (a : A) | Second3 (b : B) | Third3 (c : C).
Arguments First3 {A B C} a.
Arguments Second3 {A B C} b.
Arguments Third3 {A B C} c.

Record Select3 (A B C : Type) := mk_select3 { sel3_a : A; sel3_b : B; sel3_c : C }.
Arguments mk_select3 {A B C} _ _ _.
Arguments sel3_a {A B C} _.
Arguments sel3_b {A B C} _.
Arguments sel3_c {A B C} _.

Definition select3 {A B C} (a : A) (b : B) (c : C) : Select3 A B C := mk_select3 a b c.

Definition select3_poll {A B C OA OB OC} (pa : Future A OA) (pb : Future B OB) (pc : Future C OC) :
    Future (Select3 A B C) (Either3 OA OB OC) := λ this cx,
  ra ← pa (sel3_a this) cx;
  match ra.1 with
  | Ready x => mret (Ready (First3 x), mk_select3 ra.2 (sel3_b this) (sel3_c this))
  | Pending =>
      rb ← pb (sel3_b this) cx;
      match rb.1 with
      | Ready x => mret (Ready (Second3 x), mk_select3 ra.2 rb.2 (sel3_c this))
      | Pending =>
          rc ← pc (sel3_c this) cx;
          match rc.1 with
          | Ready x => mret (Ready (Third3 x), mk_select3 ra.2 rb.2 rc.2)
          | Pending => mret (Pending, mk_select3 ra.2 rb.2 rc.2)
          end
      end
  end.

Inductive Either4 (A B C D : Type) := First4 (a : A) | Second4 (b : B) | Third4 (c : C) | Fourth4 (d : D).
Arguments First4 {A B C D} a.
Arguments Second4 {A B C D} b.
Arguments Third4 {A B C D} c.
Arguments Fourth4 {A B C D} d.

Record Select4 (A B C D : Type) := mk_select4 { sel4_a : A; sel4_b : B; sel4_c : C; sel4_d : D }.
Arguments mk_select4 {A B C D} _ _ _ _.
Arguments sel4_a {A B C D} _.
Arguments sel4_b {A B C D} _.
Arguments sel4_c {A B C D} _.
Arguments sel4_d {A B C D} _.

Definition select4 {A B C D} (a : A) (b : B) (c : C) (d : D) : Select4 A B C D := mk_select4 a b c d.

Definition select4_poll {A B C D OA OB OC OD} (pa : Future A OA) (pb : Future B OB)
    (pc : Future C OC) (pd : Future D OD) : Future (Select4 A B C D) (Either4 OA OB OC OD) := λ this cx,
  ra ← pa (sel4_a this) cx;
  match ra.1 with
  | Ready x => mret (Ready (First4 x), mk_select4 ra.2 (sel4_b this) (sel4_c this) (sel4_d this))
  | Pending =>
      rb ← pb (sel4_b this) cx;
      match rb.1 with
      | Ready x => mret (Ready (Second4 x), mk_select4 ra.2 rb.2 (sel4_c this) (sel4_d this))
      | Pending =>
          rc ← pc (sel4_c this) cx;
          match rc.1 with
          | Ready x => mret (Ready (Third4 x), mk_select4 ra.2 rb.2 rc.2 (sel4_d this))
          | Pending =>
              rd ← pd (sel4_d this) cx;
              match rd.1 with
              | Ready x => mret (Ready (Fourth4 x), mk_select4 ra.2 rb.2 rc.2 rd.2)
              | Pending => mret (Pending, mk_select4 ra.2 rb.2 rc.2 rd.2)
              end
          end
      end
  end.

(** ** Arrays and slices

    [enumerate().find_map(..)] over the futures, from index [i] on. *)
Fixpoint find_ready {F O} (p : Future F O) (cx : Cx) (i : Z) (fs : list F) :
    Op E St (option (Z * O) * list F) :=
  match fs with
  | [] => mret (None, [])
  | f :: fs =>
      r ← p f cx;
      match r.1 with
      | Ready e => mret (Some (i, e), r.2 :: fs)
      | Pending => x ← find_ready p cx (i + 1) fs; mret (x.1, r.2 :: x.2)
      end
  end.

Record SelectArray (F : Type) := mk_array { array_inner : list F }.
Arguments mk_array {F} _.
Arguments array_inner {F} _.

Definition select_array {F} (arr : list F) : SelectArray F := mk_array arr.

Definition select_array_poll {F O} (p : Future F O) : Future (SelectArray F) (O * Z) := λ this cx,
  r ← find_ready p cx 0 (array_inner this);
  match r.1 with
  | Some (idx, res) => mret (Ready (res, idx), mk_array r.2)
  | None => mret (Pending, mk_array r.2)
  end.

Record SelectSlice (F : Type) := mk_slice { slice_inner : list F }.
Arguments mk_slice {F} _.
Arguments slice_inner {F} _.

Definition select_slice {F} (slice : list F) : SelectSlice F := mk_slice slice.

Definition select_slice_poll {F O} (p : Future F O) : Future (SelectSlice F) (O * Z) := λ this cx,
  r ← find_ready p cx 0 (slice_inner this);
  match r.1 with
  | Some (idx, res) => mret (Ready (res, idx), mk_slice r.2)
  | None => mret (Pending, mk_slice r.2)
  end.

(** ** What a poll does *)
Section Facts.
Context {F O : Type} (p : Future F O) (cx : Cx).

(** The futures of a list are polled once each, in order, and none is ready. *)
Inductive all_pending : list F → St → list F → St → list E → Prop :=
| all_pending_nil s : all_pending [] s [] s []
| all_pending_cons f fs f' fs' s s1 s2 l1 l2 :
    runs (p f cx) s (Pending, f') s1 l1 → all_pending fs s1 fs' s2 l2 →
    all_pending (f :: fs) s (f' :: fs') s2 (l1 ++ l2).

(** The first future that is ready, and what polling up to it does: those
    behind it are not polled. *)
Definition first_ready (fs : list F) s (k : nat) (x : O) fs' s' l : Prop :=
  ∃ pre f post pre' f' s1 l1 l2, fs = pre ++ f :: post ∧ k = length pre ∧
    all_pending pre s pre' s1 l1 ∧ runs (p f cx) s1 (Ready x, f') s' l2 ∧
    fs' = pre' ++ f' :: post ∧ l = l1 ++ l2.

Lemma runs_inv {A B} (m : Op E St A) (f : A → Op E St B) s b s2 l : runs (m ≫= f) s b s2 l →
  ∃ a s1 l1 l2, runs m s a s1 l1 ∧ runs (f a) s1 b s2 l2 ∧ l = l1 ++ l2.
Proof. apply op_bind_val. Qed.

Lemma find_ready_spec fs : ∀ i s o fs' s' l,
  runs (find_ready p cx i fs) s (o, fs') s' l ↔
  match o with
  | None => all_pending fs s fs' s' l
  | Some (j, x) => ∃ k, j = (i + Z.of_nat k)%Z ∧ first_ready fs s k x fs' s' l
  end.
Proof.
  induction fs as [|f fs IH]; intros i s o fs' s' l; cbn [find_ready]; split.
  - intros [= <- <- <- <-]. constructor.
  - destruct o as [[j x]|]; [|by inversion 1].
    by intros (k & _ & [|] & ? & ? & ? & ? & ? & ? & ? & ? & _).
  - intros ([[e|] f1] & s1 & l1 & l2 & Hf & Hr & ->)%runs_inv; cbn in Hr.
    + injection Hr as <- <- <- <-. exists 0. split; [lia|].
      exists [], f, fs, [], f1, s, [], l1. rewrite app_nil_r. by repeat constructor.
    + apply runs_inv in Hr as ([o1 fs1] & s2 & l3 & l4 & Hr & [= <- <- <- <-] & ->).
      rewrite app_nil_r. apply IH in Hr. destruct o1 as [[j x]|]; [|by econstructor].
      destruct Hr as (k & -> & pre & g & post & pre' & g' & s3 & l5 & l6 & -> & -> & Hp & Hg & -> & ->).
      exists (S (length pre)). split; [lia|].
      exists (f :: pre), g, post, (f1 :: pre'), g', s3, (l1 ++ l5), l6. rewrite app_assoc.
      split_and!; try done. by econstructor.
  - destruct o as [[j x]|].
    + intros (k & -> & pre & g & post & pre' & g' & s3 & l5 & l6 & Hfs & -> & Hp & Hg & -> & ->).
      destruct Hp as [s|h pre h' pre' s s1 s2 l1 l2 Hh Hp]; injection Hfs as -> ->.
      * eapply runs_log; [eapply runs_bind; [exact Hg|]|by apply app_nil_r].
        cbn. rewrite Z.add_0_r. apply runs_ret.
      * rewrite <-app_assoc. eapply runs_bind; [exact Hh|]. cbn.
        eapply runs_log; [eapply (runs_bind _ _ _ (Some (_, x), pre' ++ g' :: post)); [|]|].
        -- apply IH. exists (length pre). split; [reflexivity|]. by exists pre, g, post, pre', g', s2, l2, l6.
        -- cbn. replace (i + 1 + Z.of_nat (length pre))%Z with (i + Z.of_nat (S (length pre)))%Z by lia.
           apply runs_ret.
        -- apply app_nil_r.
    + intros Hp. inversion Hp as [|? ? f' fs1 ? s1 ? l1 l2 Hf Hp']; subst.
      eapply runs_bind; [exact Hf|]. cbn.
      eapply runs_log; [eapply (runs_bind _ _ _ (None, fs1)); [by apply IH|apply runs_ret]|apply app_nil_r].
Qed.

(** Selecting over an array polls the futures in order, once each, up to the
    first that is ready, and returns its value and its index without polling
    the ones behind it; the poll is pending exactly when every future was
    polled and none is ready, so that each has the task's waker. *)
Theorem select_array_first fs s r arr s' l :
  runs (select_array_poll p (select_array fs) cx) s (r, arr) s' l ↔
  match r with
  | Ready (x, i) => ∃ k, i = Z.of_nat k ∧ first_ready fs s k x (array_inner arr) s' l
  | Pending => all_pending fs s (array_inner arr) s' l
  end.
Proof.
  unfold select_array_poll, select_array. cbn [array_inner]. split.
  - intros ([o fs1] & s1 & l1 & l2 & Hf & Hr & ->)%runs_inv. apply find_ready_spec in Hf.
    cbn in Hr. destruct o as [[j x]|]; injection Hr as <- <- <- <-; rewrite app_nil_r; [|exact Hf].
    destruct Hf as (k & -> & Hk). by exists k.
  - destruct arr as [fs']. intros Hr.
    destruct r as [[x i]|]; cbn [array_inner] in Hr.
    + eapply runs_log; [eapply (runs_bind _ _ _ (Some (i, x), fs'))|apply app_nil_r]; [|apply runs_ret].
      apply find_ready_spec. exact Hr.
    + eapply runs_log; [eapply (runs_bind _ _ _ (None, fs'))|apply app_nil_r]; [|apply runs_ret].
      by apply find_ready_spec.
Qed.

(** The array result of each combinator. *)
Definition at_index {X} (index : X → O * Z) (r : Poll X) : Poll (O * Z) :=
  match r with Ready x => Ready (index x) | Pending => Pending end.
Definition index2 (e : Either O O) : O * Z :=
  match e with First x => (x, 0%Z) | Second x => (x, 1%Z) end.
Definition index3 (e : Either3 O O O) : O * Z :=
  match e with First3 x => (x, 0%Z) | Second3 x => (x, 1%Z) | Third3 x => (x, 2%Z) end.
Definition index4 (e : Either4 O O O O) : O * Z :=
  match e with
  | First4 x => (x, 0%Z) | Second4 x => (x, 1%Z) | Third4 x => (x, 2%Z) | Fourth4 x => (x, 3%Z)
  end.

(** [select], [select3], [select4] and [select_slice] are [select_array]: on
    futures of one type they do the same to the shared state, wake the same
    tasks, finish with the same future and leave the same futures behind. *)
Theorem select_equivalent a b c d s :
  (r ← select_poll p p (select a b) cx;
   mret (at_index index2 r.1, [sel_a r.2; sel_b r.2])) s =
    (r ← select_array_poll p (select_array [a; b]) cx; mret (r.1, array_inner r.2)) s ∧
  (r ← select3_poll p p p (select3 a b c) cx;
   mret (at_index index3 r.1, [sel3_a r.2; sel3_b r.2; sel3_c r.2])) s =
    (r ← select_array_poll p (select_array [a; b; c]) cx; mret (r.1, array_inner r.2)) s ∧
  (r ← select4_poll p p p p (select4 a b c d) cx;
   mret (at_index index4 r.1, [sel4_a r.2; sel4_b r.2; sel4_c r.2; sel4_d r.2])) s =
    (r ← select_array_poll p (select_array [a; b; c; d]) cx; mret (r.1, array_inner r.2)) s ∧
  ∀ fs, (r ← select_slice_poll p (select_slice fs) cx; mret (r.1, slice_inner r.2)) s =
    (r ← select_array_poll p (select_array fs) cx; mret (r.1, array_inner r.2)) s.
Proof.
  unfold select_poll, select3_poll, select4_poll, select_array_poll, select_slice_poll, select, select3,
    select4, select_array, select_slice.
  cbn [find_ready array_inner slice_inner sel_a sel_b sel3_a sel3_b sel3_c sel4_a sel4_b sel4_c sel4_d].
  cbv [mbind op_bind mret op_ret]. cbn [fst snd].
  split_and!; try (intros fs; destruct (find_ready p cx 0 fs s) as [[[[[[]|] ?] ?] ?]|]; reflexivity);
  repeat (cbn [fst snd]; match goal with
    | |- context [p ?f cx ?s0] => destruct (p f cx s0) as [[[[[?|] ?] ?] ?]|]
    end); cbn [fst snd]; rewrite ?app_nil_r, ?app_assoc; reflexivity.
Qed.
End Facts.
End Futures.
End Select.
