(* ===== verification/PubSub.v ===== *)
(** * The publish-subscribe channel ([sync/pubsub/])

    A bounded queue of messages, each with the number of subscribers that have
    yet to read it, and cursors into the stream of all messages held by the
    subscribers.  [PubSubState] is what the mutex protects, [PubSubChannel]
    runs its methods under the mutex and implements the trait
    [PubSubBehavior], through which [Sub] and [Pub] work. *)

From S2P Require Import Prelude Heapless CriticalSection WaitQueue.

Inductive Error := MaximumSubscribersReached | MaximumPublishersReached.

Inductive WaitResult (T : Type) := Lagged (amount : Z) | Message (message : T).
Arguments Lagged {T} amount.
Arguments Message {T} message.

(** [PubSubBehavior], as operations on the channel [C]; [get_message_with_context]
    takes the cursor and returns what it has become. *)
Class PubSubBehavior (C T : Type) := {
  psb_get_message_with_context : Z → option Waker → Op Waker C (Poll (WaitResult T) * Z);
  psb_available : Z → Op Waker C Z;
  psb_publish_with_context : T → option Waker → Op Waker C (Result unit T);
  psb_publish_immediate : T → Op Waker C unit;
  psb_space : Op Waker C Z;
  psb_unregister_subscriber : Z → Op Waker C (option unit);
  psb_unregister_publisher : Op Waker C unit
}.

Module PubSubState.
Record t (D V : Type → nat → Type) (T : Type) (CAP SUBS PUBS : nat) := mk {
  queue : D (T * Z)%type CAP;
  next_message_id : Z;
  subscriber_wakers : MultiWakerRegistration.t V SUBS;
  publisher_wakers : MultiWakerRegistration.t V PUBS;
  subscriber_count : Z;
  publisher_count : Z
}.
Arguments mk {D V T CAP SUBS PUBS} _ _ _ _ _ _.
Arguments queue {D V T CAP SUBS PUBS} _.
Arguments next_message_id {D V T CAP SUBS PUBS} _.
Arguments subscriber_wakers {D V T CAP SUBS PUBS} _.
Arguments publisher_wakers {D V T CAP SUBS PUBS} _.
Arguments subscriber_count {D V T CAP SUBS PUBS} _.
Arguments publisher_count {D V T CAP SUBS PUBS} _.

Section Ops.
Context `{HP : Profile} `{!DequeOps D} `{!VecOps V} {T : Type} {CAP SUBS PUBS : nat}.
Abbreviation state := (t D V T CAP SUBS PUBS).
Implicit Types s : state.

Definition set_queue q s : state :=
  mk q (next_message_id s) (subscriber_wakers s) (publisher_wakers s) (subscriber_count s) (publisher_count s).
Definition set_next_message_id n s : state :=
  mk (queue s) n (subscriber_wakers s) (publisher_wakers s) (subscriber_count s) (publisher_count s).
Definition set_subscriber_wakers w s : state :=
  mk (queue s) (next_message_id s) w (publisher_wakers s) (subscriber_count s) (publisher_count s).
Definition set_publisher_wakers w s : state :=
  mk (queue s) (next_message_id s) (subscriber_wakers s) w (subscriber_count s) (publisher_count s).
Definition set_subscriber_count n s : state :=
  mk (queue s) (next_message_id s) (subscriber_wakers s) (publisher_wakers s) n (publisher_count s).
Definition set_publisher_count n s : state :=
  mk (queue s) (next_message_id s) (subscriber_wakers s) (publisher_wakers s) (subscriber_count s) n.

Definition on_queue {E A} (f : D (T * Z)%type CAP → A * D (T * Z)%type CAP) : Op E state A :=
  zoom queue set_queue (op_pure f).
Definition on_subscribers {A} (m : Op Waker (MultiWakerRegistration.t V SUBS) A) : Op Waker state A :=
  zoom subscriber_wakers set_subscriber_wakers m.
Definition on_publishers {A} (m : Op Waker (MultiWakerRegistration.t V PUBS) A) : Op Waker state A :=
  zoom publisher_wakers set_publisher_wakers m.

(** [as usize] from [u64]. *)
Definition as_usize (z : Z) : Z := (z mod modulus usize)%Z.

Definition new : state :=
  mk dq_new 0 MultiWakerRegistration.new MultiWakerRegistration.new 0 0.

Definition try_publish (message : T) : Op Waker state (Result unit T) :=
  s ← op_get;
  if Z.eqb (subscriber_count s) 0 then mret (Ok tt)
  else if dq_is_full (queue s) then mret (Err message)
  else
    r ← on_queue (dq_push_back (message, subscriber_count s));
    op_lift (unwrap_ok r);;
    s ← op_get;
    n ← op_lift (uadd W64 (next_message_id s) 1);
    op_modify (set_next_message_id n);;
    on_subscribers MultiWakerRegistration.wake;;
    mret (Ok tt).

Definition publish_immediate (message : T) : Op Waker state unit :=
  s ← op_get;
  (if dq_is_full (queue s) then on_queue dq_pop_front;; mret tt else mret tt);;
  r ← try_publish message;
  op_lift (unwrap_ok r).

Definition get_message (message_id : Z) : Op Waker state (option (WaitResult T)) :=
  s ← op_get;
  start_id ← op_lift (usub W64 (next_message_id s) (dq_len (queue s)));
  if Z.ltb message_id start_id then
    amount ← op_lift (usub W64 start_id message_id);
    mret (Some (Lagged amount))
  else
    d ← op_lift (usub W64 message_id start_id);
    let current_message_index := as_usize d in
    if Z.leb (dq_len (queue s)) current_message_index then mret None
    else
      queue_item ← op_lift (unwrap (dq_iter (queue s) !! Z.to_nat current_message_index));
      count ← op_lift (usub usize queue_item.2 1);
      op_modify (set_queue (dq_iter_mut_write
        (<[Z.to_nat current_message_index := (queue_item.1, count)]> (dq_iter (queue s))) (queue s)));;
      message ←
        (if Z.eqb current_message_index 0 && Z.eqb count 0 then
           x ← on_queue dq_pop_front;
           x ← op_lift (unwrap x);
           on_publishers MultiWakerRegistration.wake;;
           mret x.1
         else mret queue_item.1);
      mret (Some (Message message)).

(** [for_each(|(_, counter)| *counter -= 1)] *)
Fixpoint decrement_all (l : list (T * Z)) : Outcome (list (T * Z)) :=
  match l with
  | [] => Val []
  | (m, counter) :: l =>
      counter ← usub usize counter 1;
      l ← decrement_all l;
      Val ((m, counter) :: l)
  end.

(** [while let Some((_, count)) = self.queue.front()]; [fuel] bounds the number
    of iterations, [None] is exhausted fuel. *)
Fixpoint pop_read (fuel : nat) (wake_publishers : bool) : Op Waker state (option bool) :=
  match fuel with
  | O => mret None
  | S fuel =>
      s ← op_get;
      match dq_front (queue s) with
      | Some (_, count) =>
          if Z.eqb count 0 then
            x ← on_queue dq_pop_front;
            op_lift (unwrap x);;
            pop_read fuel true
          else mret (Some wake_publishers)
      | None => mret (Some wake_publishers)
      end
  end.

Definition unregister_subscriber (subscriber_next_message_id : Z) : Op Waker state (option unit) :=
  s ← op_get;
  n ← op_lift (usub usize (subscriber_count s) 1);
  op_modify (set_subscriber_count n);;
  start_id ← op_lift (usub W64 (next_message_id s) (dq_len (queue s)));
  if Z.leb start_id subscriber_next_message_id then
    d ← op_lift (usub W64 subscriber_next_message_id start_id);
    let current_message_index := Z.to_nat (as_usize d) in
    l ← op_lift (decrement_all (drop current_message_index (dq_iter (queue s))));
    op_modify (set_queue (dq_iter_mut_write
      (take current_message_index (dq_iter (queue s)) ++ l) (queue s)));;
    b ← pop_read (S CAP) false;
    match b with
    | Some wake_publishers =>
        op_when wake_publishers (on_publishers MultiWakerRegistration.wake);;
        mret (Some tt)
    | None => mret None
    end
  else mret (Some tt).

Definition unregister_publisher : Op Waker state unit :=
  s ← op_get;
  n ← op_lift (usub usize (publisher_count s) 1);
  op_modify (set_publisher_count n).

(** ** The closures of [PubSubChannel] *)
Definition subscriber : Op Waker state (Result Z Error) :=
  s ← op_get;
  if Z.leb (Z.of_nat SUBS) (subscriber_count s) then mret (Err MaximumSubscribersReached)
  else
    n ← op_lift (uadd usize (subscriber_count s) 1);
    op_modify (set_subscriber_count n);;
    mret (Ok (next_message_id s)).

Definition publisher : Op Waker state (Result unit Error) :=
  s ← op_get;
  if Z.leb (Z.of_nat PUBS) (publisher_count s) then mret (Err MaximumPublishersReached)
  else
    n ← op_lift (uadd usize (publisher_count s) 1);
    op_modify (set_publisher_count n);;
    mret (Ok tt).

Definition get_message_with_context (next_message_id : Z) (cx : option Waker) :
    Op Waker state (Poll (WaitResult T) * Z) :=
  o ← get_message next_message_id;
  match o with
  | Some (Message message) =>
      n ← op_lift (uadd W64 next_message_id 1);
      mret (Ready (Message message), n)
  | None =>
      op_when_some cx (λ w, on_subscribers (MultiWakerRegistration.register w));;
      mret (Pending, next_message_id)
  | Some (Lagged amount) =>
      n ← op_lift (uadd W64 next_message_id amount);
      mret (Ready (Lagged amount), n)
  end.

Definition available (next : Z) : Op Waker state Z :=
  s ← op_get;
  op_lift (usub W64 (next_message_id s) next).

Definition publish_with_context (message : T) (cx : option Waker) : Op Waker state (Result unit T) :=
  r ← try_publish message;
  match r with
  | Ok _ => mret (Ok tt)
  | Err message =>
      op_when_some cx (λ w, on_publishers (MultiWakerRegistration.register w));;
      mret (Err message)
  end.

Definition space : Op Waker state Z :=
  s ← op_get;
  op_lift (usub usize (dq_capacity (queue s)) (dq_len (queue s))).
End Ops.
End PubSubState.

(** ** [PubSubChannel]: the methods under the mutex *)
Module PubSubChannel.
Section Ops.
Context `{HP : Profile} `{RawMutex R} `{!DequeOps D} `{!VecOps V} {T : Type} {CAP SUBS PUBS : nat}.

Definition t : Type := Shared R (PubSubState.t D V T CAP SUBS PUBS).

Definition new : t := Mutex.const_new raw_INIT (RefCell.new PubSubState.new).

Definition lock {A} (f : Op Waker (PubSubState.t D V T CAP SUBS PUBS) A) : Op Waker (Cpu * t) A :=
  shared_lock f.

(** The cursor of the subscriber that is created. *)
Definition subscriber : Op Waker (Cpu * t) (Result Z Error) := lock PubSubState.subscriber.
Definition dyn_subscriber : Op Waker (Cpu * t) (Result Z Error) := lock PubSubState.subscriber.
Definition publisher : Op Waker (Cpu * t) (Result unit Error) := lock PubSubState.publisher.
Definition dyn_publisher : Op Waker (Cpu * t) (Result unit Error) := lock PubSubState.publisher.

#[export] Instance behavior : PubSubBehavior (Cpu * t) T := {
  psb_get_message_with_context n cx := lock (PubSubState.get_message_with_context n cx);
  psb_available n := lock (PubSubState.available n);
  psb_publish_with_context m cx := lock (PubSubState.publish_with_context m cx);
  psb_publish_immediate m := lock (PubSubState.publish_immediate m);
  psb_space := lock PubSubState.space;
  psb_unregister_subscriber n := lock (PubSubState.unregister_subscriber n);
  psb_unregister_publisher := lock PubSubState.unregister_publisher
}.
End Ops.
Arguments t R D V T CAP SUBS PUBS : clear implicits.
End PubSubChannel.

(** ** Subscribers ([subscriber.rs])

    A subscriber is its cursor; the wrappers [Subscriber] and [DynSubscriber]
    only dereference to it. *)
Module Sub.
Record t := mk { next_message_id : Z }.

Definition new (next_message_id : Z) : t := mk next_message_id.

Section Ops.
Context `{PubSubBehavior C T}.

(** [channel.get_message_with_context(&mut self.next_message_id, cx)] *)
Definition get (cx : option Waker) : Op Waker (t * C) (Poll (WaitResult T)) :=
  s ← op_get;
  r ← zoom snd (λ c s, (s.1, c)) (psb_get_message_with_context (next_message_id s.1) cx);
  op_modify (λ s, (mk r.2, s.2));;
  mret r.1.

(** The poll of the future [next_message] returns. *)
Definition SubscriberWaitFuture_poll (cx : Waker) : Op Waker (t * C) (Poll (WaitResult T)) := get (Some cx).

(** The poll of the future of [next_message_pure]; [fuel] bounds the number of
    lag results skipped. *)
Fixpoint next_message_pure_poll (fuel : nat) (cx : Waker) : Op Waker (t * C) (option (Poll T)) :=
  match fuel with
  | O => mret None
  | S fuel =>
      p ← SubscriberWaitFuture_poll cx;
      match p with
      | Ready (Lagged _) => next_message_pure_poll fuel cx
      | Ready (Message message) => mret (Some (Ready message))
      | Pending => mret (Some Pending)
      end
  end.

Definition try_next_message : Op Waker (t * C) (option (WaitResult T)) :=
  p ← get None;
  mret (match p with Ready result => Some result | Pending => None end).

Fixpoint try_next_message_pure (fuel : nat) : Op Waker (t * C) (option (option T)) :=
  match fuel with
  | O => mret None
  | S fuel =>
      o ← try_next_message;
      match o with
      | Some (Lagged _) => try_next_message_pure fuel
      | Some (Message message) => mret (Some (Some message))
      | None => mret (Some None)
      end
  end.

Definition available : Op Waker (t * C) Z :=
  s ← op_get;
  zoom snd (λ c s, (s.1, c)) (psb_available (next_message_id s.1)).

(** [Drop]. *)
Definition drop : Op Waker (t * C) (option unit) :=
  s ← op_get;
  zoom snd (λ c s, (s.1, c)) (psb_unregister_subscriber (next_message_id s.1)).

(** The stream wakes its own task after a lag. *)
Definition poll_next (cx : Waker) : Op Waker (t * C) (Poll (option T)) :=
  p ← get (Some cx);
  match p with
  | Ready (Message message) => mret (Ready (Some message))
  | Ready (Lagged _) => wake_waker cx;; mret Pending
  | Pending => mret Pending
  end.
End Ops.
End Sub.

(** ** Publishers ([publisher.rs])

    A publisher has no state but its slot in the channel; an [ImmediatePub] has
    not even that. *)
Module Pub.
(** [PublisherWaitFuture]. *)
Record WaitFuture (T : Type) := mk_future { message : option T }.
Arguments mk_future {T} _.
Arguments message {T} _.

Section Ops.
Context `{PubSubBehavior C T}.

Definition publish_immediate (m : T) : Op Waker C unit := psb_publish_immediate m.
Definition publish (m : T) : WaitFuture T := mk_future (Some m).
Definition try_publish (m : T) : Op Waker C (Result unit T) := psb_publish_with_context m None.
Definition space : Op Waker C Z := psb_space.
Definition drop : Op Waker C unit := psb_unregister_publisher.

Definition WaitFuture_poll (cx : Waker) : Op Waker (WaitFuture T * C) (Poll unit) :=
  s ← op_get;
  m ← op_lift (unwrap (message s.1));
  op_modify (λ s, (mk_future None, s.2));;
  r ← zoom snd (λ c s, (s.1, c)) (psb_publish_with_context m (Some cx));
  match r with
  | Ok _ => mret (Ready tt)
  | Err m => op_modify (λ s, (mk_future (Some m), s.2));; mret Pending
  end.
End Ops.
End Pub.

Module ImmediatePub.
Section Ops.
Context `{PubSubBehavior C T}.
Definition publish_immediate (m : T) : Op Waker C unit := psb_publish_immediate m.
Definition try_publish (m : T) : Op Waker C (Result unit T) := psb_publish_with_context m None.
Definition space : Op Waker C Z := psb_space.
End Ops.
End ImmediatePub.
