(* ===== verification/PubSubFacts.v ===== *)
(** * The invariant of the publish-subscribe channel

    The stream of messages published so far, with the position of the queue in
    it and the cursors of the subscribers; every method keeps the
    correspondence.  A queued message counts the subscribers that have yet to
    read it and, in [leak], those that left without having read it. *)

From S2P Require Import Prelude Heapless CriticalSection WaitQueue PubSub.
Import PubSubState.

(** ** Counting subscribers *)
Section Counting.
Implicit Types (cs : list (option nat)) (id : nat).

(** Whether a subscriber has yet to read message [id]. *)
Definition owes id (o : option nat) : nat :=
  match o with Some c => if decide (c ≤ id) then 1 else 0 | None => 0 end.
Definition owed id cs : nat := sum_list_with (owes id) cs.

Definition alive (o : option nat) : nat := match o with Some _ => 1 | None => 0 end.
Definition live cs : nat := sum_list_with alive cs.

Lemma sum_insert {A} (f : A → nat) l i x y : l !! i = Some y →
  sum_list_with f (<[i := x]> l) + f y = sum_list_with f l + f x.
Proof.
  revert i. induction l as [|a l IH]; intros [|i] Hi; try done; simpl in *.
  - injection Hi as ->. lia.
  - specialize (IH i Hi). lia.
Qed.

Lemma sum_app {A} (f : A → nat) l k : sum_list_with f (l ++ k) = sum_list_with f l + sum_list_with f k.
Proof. induction l as [|a l IH]; cbn; [done|]. rewrite IH. lia. Qed.

Lemma sum_le {A} (f g : A → nat) l : (∀ x, x ∈ l → f x ≤ g x) → sum_list_with f l ≤ sum_list_with g l.
Proof.
  induction l as [|a l IH]; intros Hl; cbn; [done|].
  pose proof (Hl a ltac:(by left)). specialize (IH ltac:(intros x Hx; apply Hl; by right)). lia.
Qed.

Lemma sum_elem {A} (f : A → nat) l x : x ∈ l → f x ≤ sum_list_with f l.
Proof. induction 1; cbn; lia. Qed.

Lemma owed_live id cs : owed id cs ≤ live cs.
Proof. apply sum_le. intros [c|] _; cbn; [case_decide|]; lia. Qed.

(** Everybody has yet to read a message that no cursor is past. *)
Lemma owed_all id cs : (∀ j c, cs !! j = Some (Some c) → c ≤ id) → owed id cs = live cs.
Proof.
  intros Hc. apply Nat.le_antisymm; [apply owed_live|]. apply sum_le.
  intros [c|] Hin; cbn; [|done]. apply list_elem_of_lookup in Hin as [j Hj].
  by rewrite decide_True by eauto.
Qed.

Lemma live_insert cs j c o : cs !! j = Some (Some c) →
  live (<[j := o]> cs) + 1 = live cs + alive o.
Proof. intros Hj. apply (sum_insert alive cs j o (Some c) Hj). Qed.

Lemma live_same cs j c c' : cs !! j = Some (Some c) → live (<[j := Some c']> cs) = live cs.
Proof. intros Hj. pose proof (live_insert cs j c (Some c') Hj) as H. cbn [alive] in H. lia. Qed.

Lemma owed_insert id cs j c o : cs !! j = Some (Some c) →
  owed id (<[j := o]> cs) + owes id (Some c) = owed id cs + owes id o.
Proof. apply sum_insert. Qed.

Lemma owed_pos id cs j c : cs !! j = Some (Some c) → c ≤ id → 0 < owed id cs.
Proof.
  intros Hj Hc. apply list_elem_of_lookup_2 in Hj. pose proof (sum_elem (owes id) cs _ Hj) as Hs.
  unfold owes in Hs at 1. rewrite decide_True in Hs by done. unfold owed. lia.
Qed.

Lemma live_pos cs j c : cs !! j = Some (Some c) → 0 < live cs.
Proof. intros Hj. apply list_elem_of_lookup_2 in Hj. by apply (sum_elem alive cs) in Hj. Qed.

Lemma owed_snoc id cs c : owed id (cs ++ [Some c]) = owed id cs + owes id (Some c).
Proof. unfold owed. rewrite sum_app. cbn. lia. Qed.
Lemma live_snoc cs c : live (cs ++ [Some c]) = S (live cs).
Proof. unfold live. rewrite sum_app. cbn. lia. Qed.
End Counting.

(** Registering with at most [n] wakers: those woken, those registered. *)
Definition enrol (n : nat) (cx : option Waker) (l : list Waker) : list Waker * list Waker :=
  match cx with
  | Some w =>
      if decide (w ∈ l) then ([], l)
      else if decide (length l = n) then (l, [w]) else ([], l ++ [w])
  | None => ([], l)
  end.

Lemma enrol_waits n cx l w : w ∈ l → w ∈ (enrol n cx l).2 ∨ w ∈ (enrol n cx l).1.
Proof.
  destruct cx as [x|]; cbn; [|by left]. repeat case_decide; cbn; rewrite ?elem_of_app; auto.
Qed.

Lemma enrol_in n w l : w ∈ (enrol n (Some w) l).2.
Proof.
  cbn. repeat case_decide; cbn; [done|by apply list_elem_of_singleton|].
  apply elem_of_app. right. by apply list_elem_of_singleton.
Qed.

(** What is observed of a channel, with the stream [log] of all messages
    published, the position [start] of the queue in it and the cursors of
    the subscribers ([None] once dropped). *)
Record View (T : Type) := view {
  log : list T;
  start : nat;
  cursors : list (option nat);
  leak : nat → nat;
  pubs : nat;
  swakers : list Waker;
  pwakers : list Waker
}.
Arguments view {T} _ _ _ _ _ _ _.
Arguments log {T} _.
Arguments start {T} _.
Arguments cursors {T} _.
Arguments leak {T} _.
Arguments pubs {T} _.
Arguments swakers {T} _.
Arguments pwakers {T} _.

(** How many readings message [id] still waits for. *)
Definition count {T} (v : View T) (id : nat) : nat := owed id (cursors v) + leak v id.

Definition entry {T} (v : View T) (id : nat) : option (T * Z) :=
  (λ m, (m, Z.of_nat (count v id))) <$> log v !! id.

Section Invariant.
Context `{HP : Profile} `{DL : DequeLaws D} `{VL : VecLaws V} {T : Type} {CAP SUBS PUBS : nat}.
Abbreviation state := (PubSubState.t D V T CAP SUBS PUBS).
Implicit Types (s : state) (v : View T).

Definition items s : list (T * Z) := dq_iter (queue s).

Record inv s v : Prop := {
  inv_next : next_message_id s = Z.of_nat (length (log v));
  inv_len : start v + length (items s) = length (log v);
  inv_items : ∀ i, items s !! i = entry v (start v + i);
  inv_count : ∀ id, start v ≤ id < length (log v) → count v id ≤ SUBS;
  inv_leak : ∀ id, length (log v) ≤ id → leak v id = 0;
  inv_subs : subscriber_count s = Z.of_nat (live (cursors v));
  inv_live : live (cursors v) ≤ SUBS;
  inv_pubs : publisher_count s = Z.of_nat (pubs v);
  inv_pubs_max : pubs v ≤ PUBS;
  inv_cursors : ∀ j c, cursors v !! j = Some (Some c) → c ≤ length (log v);
  inv_swakers : MultiWakerRegistration.view (subscriber_wakers s) = swakers v;
  inv_pwakers : MultiWakerRegistration.view (publisher_wakers s) = pwakers v
}.

(** The sizes are [usize] constants, and message ids fit their 64 bits. *)
Definition sizes_ok : Prop :=
  (0 < Z.of_nat CAP < modulus W32)%Z ∧ (Z.of_nat SUBS < modulus W32)%Z ∧ (Z.of_nat PUBS < modulus W32)%Z.
Definition ids_ok v : Prop := (Z.of_nat (length (log v)) < modulus W64 - 1)%Z.

Lemma queue_bound s : length (items s) ≤ CAP.
Proof. apply dq_bound. Qed.

Lemma entry_full v id : id < length (log v) →
  ∃ m, log v !! id = Some m ∧ entry v id = Some (m, Z.of_nat (count v id)).
Proof.
  intros Hid. destruct (lookup_lt_is_Some_2 (log v) id Hid) as [m Hm].
  exists m. split; [done|]. unfold entry. by rewrite Hm.
Qed.

(** ** Registrations *)
Lemma runs_wake_all {N} (w : MultiWakerRegistration.t V N) :
  ∃ w', runs MultiWakerRegistration.wake w tt w' (MultiWakerRegistration.view w) ∧
    MultiWakerRegistration.view w' = [].
Proof. apply MultiWakerRegistration.multi_wake_eq. Qed.

Lemma runs_enrol {N} cx (w : MultiWakerRegistration.t V N) : (cx ≠ None → 0 < N) →
  ∃ w', runs (op_when_some cx MultiWakerRegistration.register) w tt w'
      (enrol N cx (MultiWakerRegistration.view w)).1 ∧
    MultiWakerRegistration.view w' = (enrol N cx (MultiWakerRegistration.view w)).2.
Proof.
  intros HN. destruct cx as [x|]; [|exists w; split; [apply runs_ret|done]].
  destruct (MultiWakerRegistration.multi_register_eq x w) as (w' & woken & Hr & Heq); [by apply HN|].
  exists w'. unfold enrol. rewrite <-Heq. by split.
Qed.

Lemma wake_subscribers s : ∃ w', MultiWakerRegistration.view w' = [] ∧
  runs (on_subscribers MultiWakerRegistration.wake) s tt (set_subscriber_wakers w' s)
    (MultiWakerRegistration.view (subscriber_wakers s)).
Proof.
  destruct (runs_wake_all (subscriber_wakers s)) as (w' & Hr & Hw). exists w'. split; [done|].
  by apply (runs_zoom subscriber_wakers set_subscriber_wakers).
Qed.

Lemma wake_publishers s : ∃ w', MultiWakerRegistration.view w' = [] ∧
  runs (on_publishers MultiWakerRegistration.wake) s tt (set_publisher_wakers w' s)
    (MultiWakerRegistration.view (publisher_wakers s)).
Proof.
  destruct (runs_wake_all (publisher_wakers s)) as (w' & Hr & Hw). exists w'. split; [done|].
  by apply (runs_zoom publisher_wakers set_publisher_wakers).
Qed.

Lemma enrol_subscribers cx s : (cx ≠ None → 0 < SUBS) →
  ∃ w', MultiWakerRegistration.view w' = (enrol SUBS cx (MultiWakerRegistration.view (subscriber_wakers s))).2 ∧
  runs (op_when_some cx (λ w, on_subscribers (MultiWakerRegistration.register w))) s tt
    (set_subscriber_wakers w' s) (enrol SUBS cx (MultiWakerRegistration.view (subscriber_wakers s))).1.
Proof.
  intros HN. destruct (runs_enrol cx (subscriber_wakers s) HN) as (w' & Hr & Hw). exists w'. split; [done|].
  destruct cx; [by apply (runs_zoom subscriber_wakers set_subscriber_wakers)|].
  injection Hr as <-. by destruct s.
Qed.

Lemma enrol_publishers cx s : (cx ≠ None → 0 < PUBS) →
  ∃ w', MultiWakerRegistration.view w' = (enrol PUBS cx (MultiWakerRegistration.view (publisher_wakers s))).2 ∧
  runs (op_when_some cx (λ w, on_publishers (MultiWakerRegistration.register w))) s tt
    (set_publisher_wakers w' s) (enrol PUBS cx (MultiWakerRegistration.view (publisher_wakers s))).1.
Proof.
  intros HN. destruct (runs_enrol cx (publisher_wakers s) HN) as (w' & Hr & Hw). exists w'. split; [done|].
  destruct cx; [by apply (runs_zoom publisher_wakers set_publisher_wakers)|].
  injection Hr as <-. by destruct s.
Qed.

(** ** Publishing *)

Definition full v : bool := bool_decide (length (log v) = start v + CAP).

Lemma inv_full s v : inv s v → dq_is_full (queue s) = full v.
Proof.
  intros Hi. rewrite dq_is_full_spec. fold (items s). pose proof (inv_len _ _ Hi). unfold full.
  apply eq_true_iff_eq. rewrite !bool_decide_eq_true. lia.
Qed.

Definition published m v : View T :=
  view (log v ++ [m]) (start v) (cursors v) (leak v) (pubs v) [] (pwakers v).

Lemma entry_published m v id : id < length (log v) → entry (published m v) id = entry v id.
Proof. intros Hid. unfold entry, published. cbn. by rewrite lookup_app_l. Qed.

Lemma inv_published s v m q w n : inv s v → full v = false →
  dq_iter q = items s ++ [(m, subscriber_count s)] → MultiWakerRegistration.view w = [] →
  n = Z.of_nat (S (length (log v))) →
  inv (set_subscriber_wakers w (set_next_message_id n (set_queue q s))) (published m v).
Proof.
  intros Hi Hf Hq Hw ->. apply bool_decide_eq_false in Hf. destruct Hi as [Hn Hl He Hc Hlk Hs Hlv Hp Hpm Hcs Hsw Hpw].
  constructor; unfold items; cbn [set_subscriber_wakers set_next_message_id set_queue queue published log start
    cursors leak pubs swakers pwakers next_message_id subscriber_wakers publisher_wakers subscriber_count
    publisher_count]; rewrite ?length_app, ?Hq, ?length_app; cbn [length]; try done; try lia.
  - intros i. destruct (decide (i < length (items s))) as [Hlt|Hge].
    + rewrite lookup_app_l by done. rewrite entry_published by lia. apply He.
    + destruct (decide (i = length (items s))) as [->|Hne].
      * rewrite lookup_app_r, Nat.sub_diag by lia. unfold entry, published, count.
        cbn [log cursors leak]. rewrite Hl, lookup_app_r, Nat.sub_diag by lia. cbn -[owed]. rewrite Hs, Hlk by lia.
        rewrite owed_all by done. by rewrite Nat.add_0_r.
      * rewrite (lookup_ge_None_2 (items s ++ _)) by (rewrite length_app; cbn; lia).
        unfold entry, published. cbn. rewrite lookup_ge_None_2; [done|]. rewrite length_app. cbn. lia.
  - intros id Hid. unfold count. cbn [cursors leak published]. destruct (decide (id < length (log v))); [apply Hc; lia|].
    rewrite Hlk by lia. pose proof (owed_live id (cursors v)). lia.
  - intros id Hid. apply Hlk. lia.
  - intros j c Hj. specialize (Hcs j c Hj). lia.
Qed.

(** [try_publish]: ignored without subscribers, refused when full. *)
Lemma try_publish_spec m s v : inv s v → ids_ok v → sizes_ok →
  if decide (live (cursors v) = 0) then runs (try_publish m) s (Ok tt) s []
  else if full v then runs (try_publish m) s (Err m) s []
  else ∃ s', runs (try_publish m) s (Ok tt) s' (swakers v) ∧ inv s' (published m v).
Proof.
  intros Hi Hids _. unfold try_publish. rewrite <-(inv_full s v Hi). case_decide as Hlv.
  { eapply runs_bind_nil; [op_prim|]. rewrite (inv_subs _ _ Hi), Hlv. apply runs_ret. }
  assert (Z.eqb (subscriber_count s) 0 = false) as Hz.
  { rewrite (inv_subs _ _ Hi). apply Z.eqb_neq. lia. }
  destruct (dq_is_full (queue s)) eqn:Hfull.
  { eapply runs_bind_nil; [op_prim|]. rewrite Hz, Hfull. apply runs_ret. }
  pose proof Hfull as Hf. rewrite (inv_full s v Hi) in Hf.
  destruct (dq_push_back_ok (m, subscriber_count s) (queue s)) as (q & Hq & Hqi).
  { rewrite dq_is_full_spec in Hfull. apply bool_decide_eq_false in Hfull.
    pose proof (dq_bound (queue s)). lia. }
  set (s1 := set_next_message_id (Z.of_nat (S (length (log v)))) (set_queue q s)).
  destruct (wake_subscribers s1) as (w & Hw & Hr).
  exists (set_subscriber_wakers w s1). split; [|by apply inv_published].
  eapply runs_bind_nil; [op_prim|]. rewrite Hz, Hfull.
  eapply runs_bind_nil; [by apply (runs_zoom queue set_queue), runs_pure|].
  eapply runs_bind_nil; [by apply runs_lift|]. eapply runs_bind_nil; [op_prim|].
  eapply (runs_bind_nil _ _ _ (Z.of_nat (S (length (log v))))).
  { apply runs_lift. cbn. rewrite (inv_next _ _ Hi). unfold ids_ok in Hids. rewrite uadd_in by width.
    f_equal. lia. }
  eapply runs_bind_nil; [op_prim|]. fold s1.
  eapply runs_log; [eapply runs_bind; [exact Hr|apply runs_ret]|]. rewrite app_nil_r.
  apply (inv_swakers _ _ Hi).
Qed.

(** The queue without its first [n] messages. *)
Definition advance n v : View T :=
  view (log v) (start v + n) (cursors v) (leak v) (pubs v) (swakers v) (pwakers v).

Lemma inv_advance n s v q : inv s v → n ≤ length (items s) → dq_iter q = drop n (items s) →
  inv (set_queue q s) (advance n v).
Proof.
  intros [Hnx Hl He Hc Hlk Hs Hlv Hp Hpm Hcs Hsw Hpw] Hn Hq.
  constructor; try done; unfold items; cbn [set_queue queue advance log start]; rewrite ?Hq.
  - rewrite length_drop. lia.
  - intros i. by rewrite lookup_drop, He, Nat.add_assoc.
  - intros id Hid. apply Hc. lia.
Qed.

Definition evicted v : View T := if full v then advance 1 v else v.

Lemma publish_immediate_spec m s v : inv s v → ids_ok v → sizes_ok →
  ∃ s', runs (publish_immediate m) s tt s' (if decide (live (cursors v) = 0) then [] else swakers v) ∧
    inv s' (if decide (live (cursors v) = 0) then evicted v else published m (evicted v)).
Proof.
  intros Hi Hids Hsz.
  assert (∃ s1, runs (E := Waker)
    (if dq_is_full (queue s) then on_queue dq_pop_front;; mret tt else mret tt) s tt s1 [] ∧
    inv s1 (evicted v) ∧ full (evicted v) = false) as (s1 & Hr1 & Hi1 & Hf1).
  { rewrite (inv_full s v Hi). unfold evicted. destruct (full v) eqn:Hf.
    - apply bool_decide_eq_true in Hf. pose proof (inv_len _ _ Hi) as Hl.
      destruct (items s) as [|x l] eqn:Hit; [destruct Hsz; cbn in Hl; lia|].
      destruct (dq_pop_front_cons (queue s) x l Hit) as (q & Hq & Hqi).
      exists (set_queue q s). split_and!.
      + eapply runs_bind_nil; [by apply (runs_zoom queue set_queue), runs_pure|apply runs_ret].
      + apply inv_advance; [done|rewrite Hit; cbn; lia|by rewrite Hit].
      + apply bool_decide_eq_false. cbn. lia.
    - exists s. split_and!; [apply runs_ret|done|done]. }
  assert (cursors (evicted v) = cursors v ∧ swakers (evicted v) = swakers v ∧ log (evicted v) = log v)
    as (Hcur & Hsw & Hlog) by (unfold evicted; by destruct (full v)).
  assert (ids_ok (evicted v)) as Hids1 by (unfold ids_ok; by rewrite Hlog).
  pose proof (try_publish_spec m s1 (evicted v) Hi1 Hids1 Hsz) as Ht. rewrite Hf1, Hcur, Hsw in Ht.
  unfold publish_immediate. case_decide.
  - exists s1. split; [|done]. eapply runs_bind_nil; [op_prim|]. eapply runs_bind_nil; [exact Hr1|].
    eapply runs_bind_nil; [exact Ht|by apply runs_lift].
  - destruct Ht as (s2 & Hr2 & Hi2). exists s2. split; [|done].
    eapply runs_bind_nil; [op_prim|]. eapply runs_bind_nil; [exact Hr1|].
    eapply runs_log; [eapply runs_bind; [exact Hr2|by apply runs_lift]|apply app_nil_r].
Qed.

Definition with_pwakers l v : View T :=
  view (log v) (start v) (cursors v) (leak v) (pubs v) (swakers v) l.
Definition with_swakers l v : View T :=
  view (log v) (start v) (cursors v) (leak v) (pubs v) l (pwakers v).

Lemma inv_pwakers_set s v w : inv s v →
  inv (set_publisher_wakers w s) (with_pwakers (MultiWakerRegistration.view w) v).
Proof. by intros []. Qed.
Lemma inv_swakers_set s v w : inv s v →
  inv (set_subscriber_wakers w s) (with_swakers (MultiWakerRegistration.view w) v).
Proof. by intros []. Qed.

Lemma publish_with_context_spec m cx s v : inv s v → ids_ok v → sizes_ok → (cx ≠ None → 0 < PUBS) →
  let dropped := bool_decide (live (cursors v) = 0) in
  let blocked := negb dropped && full v in
  ∃ s', runs (publish_with_context m cx) s (if blocked then Err m else Ok tt) s'
      (if dropped then [] else if full v then (enrol PUBS cx (pwakers v)).1 else swakers v) ∧
    inv s' (if dropped then v
            else if full v then with_pwakers (enrol PUBS cx (pwakers v)).2 v else published m v).
Proof.
  intros Hi Hids Hsz HP0 dropped blocked. pose proof (try_publish_spec m s v Hi Hids Hsz) as Ht.
  subst blocked dropped. unfold publish_with_context. case_decide as Hlv.
  { rewrite bool_decide_true by done. cbn. exists s. split; [|done].
    eapply runs_bind_nil; [exact Ht|apply runs_ret]. }
  rewrite bool_decide_false by done. cbn [negb andb]. destruct (full v).
  - destruct (enrol_publishers cx s HP0) as (w & Hw & Hr). rewrite (inv_pwakers _ _ Hi) in Hw, Hr.
    exists (set_publisher_wakers w s). rewrite <-Hw. split; [|by apply inv_pwakers_set].
    eapply runs_bind_nil; [exact Ht|]. cbv beta iota.
    op_map (exact Hr).
  - destruct Ht as (s' & Hr & Hi'). exists s'. split; [|done].
    op_map (exact Hr).
Qed.

(** ** Subscribers come, read and go *)

Definition with_cursors cs v : View T :=
  view (log v) (start v) cs (leak v) (pubs v) (swakers v) (pwakers v).
Definition with_leak lk v : View T :=
  view (log v) (start v) (cursors v) lk (pubs v) (swakers v) (pwakers v).

Lemma set_count_queue_id s : set_subscriber_count (subscriber_count s) (set_queue (queue s) s) = s.
Proof. by destruct s. Qed.

(** Changing the cursors, with the counters of the queue. *)
Lemma inv_recount s v cs lk q n v' : v' = with_leak lk (with_cursors cs v) → inv s v → length (dq_iter q) = length (items s) →
  (∀ i, dq_iter q !! i = entry v' (start v + i)) →
  (∀ id, start v ≤ id < length (log v) → count v' id ≤ SUBS) →
  (∀ id, length (log v) ≤ id → lk id = 0) →
  n = Z.of_nat (live cs) → live cs ≤ SUBS →
  (∀ j c, cs !! j = Some (Some c) → c ≤ length (log v)) →
  inv (set_subscriber_count n (set_queue q s)) v'.
Proof.
  intros -> [Hnx Hl He Hc Hlk Hs Hlv Hp Hpm Hcs Hsw Hpw] Hq Hqi Hc' Hlk' Hn Hlv' Hcs'.
  constructor; try done. unfold items. cbn. by rewrite Hq.
Qed.

Lemma entry_count v v' id : log v' = log v → (id < length (log v) → count v' id = count v id) →
  entry v' id = entry v id.
Proof.
  intros Hl Hc. unfold entry. rewrite Hl. destruct (log v !! id) as [m|] eqn:Hm; [|done].
  by rewrite Hc by (by eapply lookup_lt_Some).
Qed.

Lemma insert_cursor_bound v j o n : (∀ j c, cursors v !! j = Some (Some c) → c ≤ n) →
  (∀ c, o = Some c → c ≤ n) → ∀ j' c, <[j := o]> (cursors v) !! j' = Some (Some c) → c ≤ n.
Proof.
  intros Hc Ho j' c [(-> & Hj & _)|[_ Hj]]%list_lookup_insert_Some; eauto.
Qed.

Lemma start_id_eq s v : inv s v → ids_ok v →
  usub W64 (next_message_id s) (dq_len (queue s)) = Val (Z.of_nat (start v)).
Proof.
  intros Hi Hids. pose proof (inv_len _ _ Hi). unfold ids_ok in Hids. unfold items in *.
  rewrite (inv_next _ _ Hi), dq_len_spec, usub_in by width. f_equal. lia.
Qed.

Lemma as_usize_small z : (0 ≤ z < modulus W32)%Z → as_usize z = z.
Proof. apply Z.mod_small. Qed.

Lemma subscriber_spec s v : inv s v → sizes_ok →
  if decide (live (cursors v) < SUBS)
  then ∃ s', runs subscriber s (Ok (Z.of_nat (length (log v)))) s' [] ∧
    inv s' (with_cursors (cursors v ++ [Some (length (log v))]) v)
  else runs subscriber s (Err MaximumSubscribersReached) s [].
Proof.
  intros Hi (_ & Hsz & _). unfold subscriber. case_decide as Hlt.
  - exists (set_subscriber_count (Z.of_nat (live (cursors v ++ [Some (length (log v))])))
      (set_queue (queue s) s)). split.
    + eapply runs_bind_nil; [op_prim|]. rewrite (inv_subs _ _ Hi), (proj2 (Z.leb_gt _ _)) by lia.
      eapply runs_bind_nil; [apply runs_lift, uadd_in; width|]. eapply runs_bind_nil; [op_prim|].
      rewrite live_snoc. replace (Z.of_nat (S _)) with (Z.of_nat (live (cursors v)) + 1)%Z by lia.
      rewrite (inv_next _ _ Hi). by destruct s.
    + assert (∀ id, id < length (log v) →
        count (with_cursors (cursors v ++ [Some (length (log v))]) v) id = count v id) as Hcount.
      { intros id Hid. unfold count. cbn [cursors leak with_cursors]. rewrite owed_snoc.
        cbn [owes]. by rewrite decide_False, Nat.add_0_r by lia. }
      eapply (inv_recount s v); [reflexivity|done|done| | | |reflexivity| |]; try apply Hi.
      * intros i. rewrite (inv_items _ _ Hi). symmetry. by apply entry_count; [|apply Hcount].
      * intros id Hid. etrans; [|by apply (inv_count _ _ Hi id)].
        rewrite <-(Hcount id) by lia. reflexivity.
      * rewrite live_snoc. lia.
      * intros j c [Hj|[Hj Hc]]%lookup_app_Some; [by apply (inv_cursors _ _ Hi j)|].
        apply list_lookup_singleton_Some in Hc as [_ [= <-]]. done.
  - eapply runs_bind_nil; [op_prim|]. rewrite (inv_subs _ _ Hi), (proj2 (Z.leb_le _ _)) by lia.
    apply runs_ret.
Qed.

Definition with_pubs n v : View T :=
  view (log v) (start v) (cursors v) (leak v) n (swakers v) (pwakers v).

Lemma publisher_spec s v : inv s v → sizes_ok →
  if decide (pubs v < PUBS)
  then ∃ s', runs publisher s (Ok tt) s' [] ∧ inv s' (with_pubs (S (pubs v)) v)
  else runs publisher s (Err MaximumPublishersReached) s [].
Proof.
  intros Hi (_ & _ & Hsz). unfold publisher. case_decide as Hlt.
  - exists (set_publisher_count (Z.of_nat (S (pubs v))) s). split.
    + eapply runs_bind_nil; [op_prim|]. rewrite (inv_pubs _ _ Hi), (proj2 (Z.leb_gt _ _)) by lia.
      eapply runs_bind_nil; [apply runs_lift, uadd_in; width|]. eapply runs_bind_nil; [op_prim|].
      replace (Z.of_nat (S _)) with (Z.of_nat (pubs v) + 1)%Z by lia. apply runs_ret.
    + destruct Hi. by constructor.
  - eapply runs_bind_nil; [op_prim|]. rewrite (inv_pubs _ _ Hi), (proj2 (Z.leb_le _ _)) by lia.
    apply runs_ret.
Qed.

Lemma unregister_publisher_spec s v : inv s v → sizes_ok → 0 < pubs v →
  ∃ s', runs unregister_publisher s tt s' [] ∧ inv s' (with_pubs (Nat.pred (pubs v)) v).
Proof.
  intros Hi (_ & _ & Hsz) Hpos. exists (set_publisher_count (Z.of_nat (Nat.pred (pubs v))) s). split.
  - pose proof (inv_pubs_max _ _ Hi). unfold unregister_publisher. eapply runs_bind_nil; [op_prim|].
    rewrite (inv_pubs _ _ Hi). eapply runs_bind_nil; [apply runs_lift, usub_in; width|].
    replace (Z.of_nat (pubs v) - 1)%Z with (Z.of_nat (Nat.pred (pubs v))) by lia. op_prim.
  - destruct Hi. constructor; try done. cbn. lia.
Qed.

(** ** Reading *)

Lemma inv_bounds s v : inv s v → sizes_ok →
  start v ≤ length (log v) ∧ (Z.of_nat (length (items s)) < modulus W32)%Z.
Proof.
  intros Hi (Hc & _). pose proof (inv_len _ _ Hi). pose proof (queue_bound s). split; [lia|].
  unfold modulus in *. lia.
Qed.

(** Moving the cursor of subscriber [j]. *)
Definition moved j c v : View T := with_cursors (<[j := Some c]> (cursors v)) v.

Lemma count_moved v j c c' id : cursors v !! j = Some (Some c) → (c ≤ id ↔ c' ≤ id) →
  count (moved j c' v) id = count v id.
Proof.
  intros Hj Hc. unfold count. cbn [cursors leak moved with_cursors].
  pose proof (owed_insert id (cursors v) j c (Some c') Hj) as Ho. cbn [owes] in Ho.
  repeat case_decide; try tauto; lia.
Qed.

Lemma inv_moved s v j c c' : inv s v → cursors v !! j = Some (Some c) → c' ≤ length (log v) →
  (∀ id, start v ≤ id → c ≤ id ↔ c' ≤ id) → inv s (moved j c' v).
Proof.
  intros Hi Hj Hc' Hc. rewrite <-(set_count_queue_id s).
  eapply (inv_recount s v); [reflexivity|done|done| | | | | |].
  - intros i. etrans; [apply (inv_items _ _ Hi)|]. symmetry. apply entry_count; [done|].
    intros _. apply (count_moved v j c c'); [done|]. apply Hc. lia.
  - intros id Hid. etrans; [|by apply (inv_count _ _ Hi id)].
    rewrite <-(count_moved v j c c' id Hj) by (apply Hc; lia). reflexivity.
  - apply (inv_leak _ _ Hi).
  - rewrite (inv_subs _ _ Hi). symmetry. apply f_equal, (live_same _ _ _ _ Hj).
  - etrans; [apply Nat.eq_le_incl, (live_same _ _ _ _ Hj)|apply Hi].
  - apply insert_cursor_bound; [apply (inv_cursors _ _ Hi)|by intros ? [= <-]].
Qed.

Lemma get_lagged cx s v j c : inv s v → ids_ok v → cursors v !! j = Some (Some c) → c < start v →
  runs (get_message_with_context (Z.of_nat c) cx) s
    (Ready (Lagged (Z.of_nat (start v - c))), Z.of_nat (start v)) s [] ∧
  inv s (moved j (start v) v).
Proof.
  intros Hi Hids Hj Hc. pose proof (inv_len _ _ Hi). unfold ids_ok in Hids. split.
  - unfold get_message_with_context. eapply (runs_bind_nil _ _ _ (Some (Lagged (Z.of_nat (start v - c))))).
    + unfold get_message. eapply runs_bind_nil; [op_prim|].
      eapply runs_bind_nil; [by apply runs_lift, start_id_eq|].
      rewrite (proj2 (Z.ltb_lt _ _)) by lia.
      eapply runs_bind_nil; [apply runs_lift, usub_in; width|].
      replace (Z.of_nat (start v) - Z.of_nat c)%Z with (Z.of_nat (start v - c)) by lia. apply runs_ret.
    + eapply runs_bind_nil; [apply runs_lift, uadd_in; width|].
      replace (Z.of_nat c + Z.of_nat (start v - c))%Z with (Z.of_nat (start v)) by lia. apply runs_ret.
  - apply (inv_moved s v j c); [done|done|lia|]. intros id Hid. lia.
Qed.

Lemma get_pending cx s v : inv s v → ids_ok v → sizes_ok → (cx ≠ None → 0 < SUBS) →
  let c := length (log v) in
  ∃ s', runs (get_message_with_context (Z.of_nat c) cx) s (Pending, Z.of_nat c) s'
      (enrol SUBS cx (swakers v)).1 ∧
    inv s' (with_swakers (enrol SUBS cx (swakers v)).2 v).
Proof.
  intros Hi Hids Hsz HS c. pose proof (inv_len _ _ Hi) as Hl. pose proof (inv_bounds s v Hi Hsz) as [_ Hb].
  destruct (enrol_subscribers cx s HS) as (w & Hw & Hr). rewrite (inv_swakers _ _ Hi) in Hw, Hr.
  exists (set_subscriber_wakers w s). rewrite <-Hw. split; [|by apply inv_swakers_set].
  unfold get_message_with_context. eapply (runs_bind_nil _ _ _ None).
  - unfold get_message. eapply runs_bind_nil; [op_prim|]. unfold ids_ok in Hids.
    eapply runs_bind_nil; [by apply runs_lift, start_id_eq|].
    rewrite (proj2 (Z.ltb_ge _ _)) by lia. eapply runs_bind_nil; [apply runs_lift, usub_in; width|].
    rewrite as_usize_small by (subst c; lia). rewrite dq_len_spec. fold (items s).
    rewrite (proj2 (Z.leb_le _ _)) by (subst c; lia). apply runs_ret.
  - op_map (exact Hr).
Qed.

(** Reading message [c] frees the front of the queue when it was its last reading. *)
Definition frees c v : bool := bool_decide (c = start v ∧ count v c = 1).

Definition read j c v : View T :=
  let v1 := moved j (S c) v in
  if frees c v then with_pwakers [] (advance 1 v1) else v1.

Lemma count_read v j c id : cursors v !! j = Some (Some c) →
  count v id = count (moved j (S c) v) id + (if decide (id = c) then 1 else 0).
Proof.
  intros Hj. unfold count. cbn [cursors leak moved with_cursors].
  pose proof (owed_insert id (cursors v) j c (Some (S c)) Hj) as Ho. cbn [owes] in Ho.
  repeat case_decide; lia.
Qed.

(** The queue with the counter of message [c] decremented. *)
Lemma inv_decremented s v j c m q : inv s v → cursors v !! j = Some (Some c) →
  start v ≤ c < length (log v) → log v !! c = Some m →
  dq_iter q = <[c - start v := (m, (Z.of_nat (count v c) - 1)%Z)]> (items s) →
  inv (set_queue q s) (moved j (S c) v).
Proof.
  intros Hi Hj Hc Hm Hq. pose proof (inv_len _ _ Hi) as Hl.
  replace (set_queue q s) with (set_subscriber_count (subscriber_count s) (set_queue q s)) by done.
  pose proof (count_read v j c c Hj) as Hcc. rewrite decide_True in Hcc by done.
  eapply (inv_recount s v); [reflexivity|done| | | | | | |].
  - by rewrite Hq, length_insert.
  - intros i. rewrite Hq. destruct (decide (i = c - start v)) as [->|Hne].
    + rewrite list_lookup_insert_eq by lia. replace (start v + (c - start v)) with c by lia.
      unfold entry. cbn [log moved with_leak with_cursors]. rewrite Hm. cbn [fmap option_fmap option_map].
      do 3 f_equal. change (count (with_leak _ _) c) with (count (moved j (S c) v) c). lia.
    + rewrite list_lookup_insert_ne by done. etrans; [apply (inv_items _ _ Hi)|].
      symmetry. apply entry_count; [done|]. intros _.
      change (count (with_leak _ _) (start v + i)) with (count (moved j (S c) v) (start v + i)).
      rewrite (count_read v j c _ Hj), decide_False by lia. lia.
  - intros id Hid. pose proof (inv_count _ _ Hi id Hid). rewrite (count_read v j c id Hj) in *.
    change (count (with_leak _ _) id) with (count (moved j (S c) v) id). lia.
  - apply (inv_leak _ _ Hi).
  - rewrite (inv_subs _ _ Hi). symmetry. apply f_equal, (live_same _ _ _ _ Hj).
  - etrans; [apply Nat.eq_le_incl, (live_same _ _ _ _ Hj)|apply Hi].
  - apply insert_cursor_bound; [apply (inv_cursors _ _ Hi)|intros ? [= <-]; lia].
Qed.

Lemma on_queue_pop {E} s x l : items s = x :: l → ∃ q, dq_iter q = l ∧
  runs (E := E) (on_queue dq_pop_front) s (Some x) (set_queue q s) [].
Proof.
  intros Hit. destruct (dq_pop_front_cons (queue s) x l Hit) as (q & Hq & Hqi).
  exists q. split; [done|]. by apply (runs_zoom queue set_queue), runs_pure.
Qed.

(** The end of [get_message], on a state in which the counter has been decremented. *)
Lemma get_pop s1 v1 i (m : T) n : inv s1 v1 → items s1 !! i = Some (m, n) →
  let last := Z.eqb (Z.of_nat i) 0 && Z.eqb n 0 in
  ∃ s', runs (if last then
           x ← on_queue dq_pop_front;
           x ← op_lift (unwrap x);
           on_publishers MultiWakerRegistration.wake;;
           mret x.1
         else mret m) s1 m s' (if last then pwakers v1 else []) ∧
    inv s' (if last then with_pwakers [] (advance 1 v1) else v1).
Proof.
  intros Hi Hit. destruct (Z.eqb_spec (Z.of_nat i) 0); destruct (Z.eqb_spec n 0); cbn [andb];
    try (exists s1; split; [apply runs_ret|done]).
  assert (i = 0) as -> by lia. subst n. destruct (items s1) as [|x l] eqn:Hl; [done|].
  injection Hit as ->. destruct (on_queue_pop (E := Waker) s1 (m, 0%Z) l Hl) as (q & Hq & Hr).
  assert (inv (set_queue q s1) (advance 1 v1)) as Hi1.
  { apply inv_advance; [done|rewrite Hl; cbn; lia|by rewrite Hl]. }
  destruct (wake_publishers (set_queue q s1)) as (w & Hw & Hrw).
  rewrite (inv_pwakers _ _ Hi1) in Hrw. exists (set_publisher_wakers w (set_queue q s1)). split.
  - eapply runs_bind_nil; [exact Hr|]. eapply runs_bind_nil; [by apply runs_lift|].
    op_map (exact Hrw).
  - rewrite <-Hw. by apply inv_pwakers_set.
Qed.

Lemma get_read cx s v j c : inv s v → ids_ok v → sizes_ok → cursors v !! j = Some (Some c) →
  start v ≤ c < length (log v) → ∃ m s', log v !! c = Some m ∧
  runs (get_message_with_context (Z.of_nat c) cx) s (Ready (Message m), Z.of_nat (S c)) s'
    (if frees c v then pwakers v else []) ∧ inv s' (read j c v).
Proof.
  intros Hi Hids Hsz Hj Hc. destruct (entry_full v c) as (m & Hm & He); [lia|]. exists m.
  pose proof (inv_len _ _ Hi) as Hl. pose proof (inv_bounds s v Hi Hsz) as [_ Hb].
  pose proof (inv_count _ _ Hi c ltac:(lia)) as Hcnt. pose proof (owed_pos c _ j c Hj ltac:(lia)) as Hpos.
  assert (0 < count v c) as Hcp by (unfold count; lia).
  pose proof Hsz as (_ & Hsubs & _). unfold ids_ok in Hids.
  set (i := c - start v). assert (items s !! i = Some (m, Z.of_nat (count v c))) as Hit.
  { rewrite (inv_items _ _ Hi), <-He. subst i. f_equal. lia. }
  set (q := dq_iter_mut_write (<[i := (m, (Z.of_nat (count v c) - 1)%Z)]> (dq_iter (queue s))) (queue s)).
  assert (dq_iter q = <[i := (m, (Z.of_nat (count v c) - 1)%Z)]> (items s)) as Hq.
  { apply dq_iter_mut_write_spec. by rewrite length_insert. }
  pose proof (inv_decremented s v j c m q Hi Hj Hc Hm Hq) as Hi1.
  destruct (get_pop (set_queue q s) (moved j (S c) v) i m (Z.of_nat (count v c) - 1)%Z Hi1) as (s' & Hr & Hi').
  { unfold items. cbn [queue set_queue]. rewrite Hq. apply list_lookup_insert_eq. lia. }
  assert (Z.eqb (Z.of_nat i) 0 && Z.eqb (Z.of_nat (count v c) - 1) 0 = frees c v) as Hfree.
  { unfold frees. apply eq_true_iff_eq. rewrite andb_true_iff, !Z.eqb_eq, bool_decide_eq_true. lia. }
  rewrite Hfree in Hr, Hi'. exists s'. split; [done|]. split; [|done].
  unfold get_message_with_context. eapply runs_log; [eapply (runs_bind _ _ _ (Some (Message m)))|apply app_nil_r].
  - unfold get_message. eapply runs_bind_nil; [op_prim|].
    eapply runs_bind_nil; [by apply runs_lift, start_id_eq|].
    rewrite (proj2 (Z.ltb_ge _ _)) by lia. eapply runs_bind_nil; [apply runs_lift, usub_in; width|].
    rewrite as_usize_small by lia. rewrite dq_len_spec. fold (items s).
    replace (Z.of_nat c - Z.of_nat (start v))%Z with (Z.of_nat i) by lia. rewrite Nat2Z.id.
    rewrite (proj2 (Z.leb_gt _ _)) by lia.
    eapply runs_bind_nil; [apply runs_lift; unfold unwrap; by rewrite Hit|].
    eapply runs_bind_nil; [apply runs_lift, usub_in; cbn [snd]; width|]. cbn [fst snd].
    eapply runs_bind_nil; [op_prim|].
    rewrite Hfree. op_map (exact Hr).
  - eapply runs_bind_nil; [apply runs_lift, uadd_in; width|].
    replace (Z.of_nat c + 1)%Z with (Z.of_nat (S c)) by lia. apply runs_ret.
Qed.

(** ** Leaving *)

(** The number of messages at the front that no reader is left for. *)
Fixpoint zeros (f : nat → nat) (id n : nat) : nat :=
  match n with
  | O => 0
  | S n => if decide (f id = 0) then S (zeros f (S id) n) else 0
  end.

Lemma zeros_le f id n : zeros f id n ≤ n.
Proof. revert id. induction n as [|n IH]; intros id; cbn; [done|]. case_decide; [|lia]. specialize (IH (S id)). lia. Qed.

Lemma zeros_before f id n k : k < zeros f id n → f (id + k) = 0.
Proof.
  revert id k. induction n as [|n IH]; intros id k; cbn; [lia|]. case_decide; [|lia].
  destruct k as [|k]; [by rewrite Nat.add_0_r|]. rewrite Nat.add_succ_r. intros Hk. apply (IH (S id)). lia.
Qed.

Lemma zeros_after f id n : zeros f id n < n → f (id + zeros f id n) ≠ 0.
Proof.
  revert id. induction n as [|n IH]; intros id; cbn; [lia|]. case_decide as Hd; cbn; intros Hz.
  - rewrite Nat.add_succ_r. apply (IH (S id)). lia.
  - by rewrite Nat.add_0_r.
Qed.

Lemma advance_advance n k v : advance n (advance k v) = advance (k + n) v.
Proof. unfold advance. cbn. by rewrite Nat.add_assoc. Qed.

Lemma advance_0 v : advance 0 v = v.
Proof. unfold advance. rewrite Nat.add_0_r. by destruct v. Qed.

Lemma pop_read_spec fuel b s v : inv s v → length (items s) < fuel →
  let z := zeros (count v) (start v) (length (log v) - start v) in
  ∃ s', runs (pop_read fuel b) s (Some (b || negb (bool_decide (z = 0)))) s' [] ∧ inv s' (advance z v).
Proof.
  revert b s v. induction fuel as [|fuel IH]; intros b s v Hi Hf; [lia|]. cbn zeta.
  pose proof (inv_len _ _ Hi) as Hl. cbn [pop_read]. replace (length (log v) - start v) with (length (items s)) by lia.
  pose proof (advance_0 v) as H0.
  destruct (items s) as [|x l] eqn:Hit.
  { exists s. rewrite bool_decide_true by done. rewrite orb_false_r. cbn [zeros length]. rewrite H0. split; [|done].
    eapply runs_bind_nil; [op_prim|]. rewrite dq_front_spec. fold (items s). rewrite Hit. apply runs_ret. }
  pose proof (inv_items _ _ Hi 0) as Hx. rewrite Hit, Nat.add_0_r in Hx. cbn in Hx.
  destruct (entry_full v (start v)) as (m & Hm & He); [cbn in Hl; lia|]. rewrite He in Hx. injection Hx as ->.
  cbn [zeros length]. case_decide as Hz.
  - destruct (on_queue_pop (E := Waker) s _ l Hit) as (q & Hq & Hr).
    assert (inv (set_queue q s) (advance 1 v)) as Hi1.
    { apply inv_advance; [done|rewrite Hit; cbn; lia|by rewrite Hit]. }
    destruct (IH true (set_queue q s) (advance 1 v) Hi1) as (s' & Hr' & Hi').
    { unfold items. cbn [queue set_queue]. rewrite Hq. cbn in Hf. lia. }
    cbn [start advance log orb] in Hr', Hi'. change (count (advance 1 v)) with (count v) in *.
    cbn in Hl. replace (length (log v) - (start v + 1)) with (length l) in * by lia.
    rewrite Nat.add_1_r in *. rewrite advance_advance in Hi'. cbn in Hi'.
    exists s'. split; [|done]. rewrite orb_true_r. eapply runs_bind_nil; [op_prim|].
    rewrite dq_front_spec. fold (items s). rewrite Hit. cbn [head]. rewrite Hz. cbn [Z.of_nat Z.eqb].
    rewrite Hz in Hr. eapply runs_bind_nil; [exact Hr|]. eapply runs_bind_nil; [by apply runs_lift|]. exact Hr'.
  - exists s. rewrite bool_decide_true by done. rewrite orb_false_r, H0. split; [|done].
    eapply runs_bind_nil; [op_prim|]. rewrite dq_front_spec. fold (items s). rewrite Hit. cbn [head].
    rewrite (proj2 (Z.eqb_neq _ _)) by lia. apply runs_ret.
Qed.

Lemma decrement_all_spec (l : list (T * Z)) : Forall (λ x, (0 < x.2 < modulus W32)%Z) l →
  decrement_all l = Val ((λ x, (x.1, (x.2 - 1)%Z)) <$> l).
Proof.
  induction 1 as [|[m n] l Hx Hl IH]; [done|]. cbn [decrement_all]. cbn in Hx.
  rewrite usub_in by width. cbn. rewrite IH. done.
Qed.

(** Subscriber [j], which had read up to [c], is gone. *)
Definition gone j v : View T := with_cursors (<[j := None]> (cursors v)) v.

Lemma count_gone v j c id : cursors v !! j = Some (Some c) →
  count v id = count (gone j v) id + (if decide (c ≤ id) then 1 else 0).
Proof.
  intros Hj. unfold count. cbn [cursors leak gone with_cursors].
  pose proof (owed_insert id (cursors v) j c None Hj) as Ho. cbn [owes] in Ho. case_decide; lia.
Qed.

Lemma live_gone j c cs : cs !! j = Some (Some c) → S (live (<[j := None]> cs)) = live cs.
Proof. intros Hj. pose proof (live_insert cs j c None Hj) as Hs. cbn [alive] in Hs. lia. Qed.

Lemma live_gone_le j c cs : cs !! j = Some (Some c) → live (<[j := None]> cs) ≤ live cs.
Proof. intros Hj. pose proof (live_gone j c cs Hj). lia. Qed.

(** Without having read what is queued: the counters still count it. *)
Definition leaked v : nat → nat := λ id,
  leak v id + if decide (start v ≤ id < length (log v)) then 1 else 0.

Definition departed j c v : View T :=
  if decide (start v ≤ c) then
    let z := zeros (count (gone j v)) (start v) (length (log v) - start v) in
    if decide (z = 0) then gone j v else with_pwakers [] (advance z (gone j v))
  else with_leak (leaked v) (gone j v).

Lemma inv_left_lagging s v j c : inv s v → cursors v !! j = Some (Some c) → c < start v →
  inv (set_subscriber_count (Z.of_nat (live (<[j := None]> (cursors v)))) s)
    (with_leak (leaked v) (gone j v)).
Proof.
  intros Hi Hj Hc. pose proof (inv_len _ _ Hi) as Hl.
  assert (∀ id, start v ≤ id < length (log v) → count (with_leak (leaked v) (gone j v)) id = count v id) as Hcount.
  { intros id Hid. rewrite (count_gone v j c id Hj). unfold count, leaked. cbn [cursors leak gone with_leak with_cursors].
    rewrite !decide_True by lia. lia. }
  replace s with (set_queue (queue s) s) at 1 by (by destruct s).
  eapply (inv_recount s v); [reflexivity|done|done| | | |done| |].
  - intros i. rewrite (inv_items _ _ Hi). destruct (decide (start v + i < length (log v))).
    + symmetry. apply entry_count; [done|]. intros _. apply Hcount. lia.
    + unfold entry. cbn [log gone with_leak with_cursors]. by rewrite (lookup_ge_None_2 (log v)) by lia.
  - intros id Hid. etrans; [apply Nat.eq_le_incl, Hcount; lia|by apply (inv_count _ _ Hi)].
  - intros id Hid. unfold leaked. rewrite (inv_leak _ _ Hi id Hid). by rewrite decide_False by lia.
  - etrans; [apply (live_gone_le _ _ _ Hj)|apply Hi].
  - apply insert_cursor_bound; [apply (inv_cursors _ _ Hi)|done].
Qed.

(** What the drop of an up-to-date subscriber makes of the queue. *)
Definition decremented i (l : list (T * Z)) : list (T * Z) :=
  take i l ++ ((λ x, (x.1, (x.2 - 1)%Z)) <$> drop i l).

Lemma decremented_length i l : length (decremented i l) = length l.
Proof. unfold decremented. rewrite length_app, length_fmap, length_take, length_drop. lia. Qed.

Lemma decremented_lookup i l k : decremented i l !! k =
  (λ x, (x.1, if decide (i ≤ k) then (x.2 - 1)%Z else x.2)) <$> l !! k.
Proof.
  unfold decremented. destruct (decide (k < length l)) as [Hl|Hl].
  2: { rewrite !lookup_ge_None_2; [done|lia|]. pose proof (decremented_length i l) as Hd. unfold decremented in Hd. lia. }
  destruct (lookup_lt_is_Some_2 l k Hl) as [x Hx]. rewrite Hx. cbn. case_decide as Hk.
  - rewrite lookup_app_r by (rewrite length_take; lia). rewrite length_take_le by lia.
    rewrite list_lookup_fmap, lookup_drop. replace (i + (k - i)) with k by lia. by rewrite Hx.
  - rewrite lookup_app_l by (rewrite length_take; lia). rewrite lookup_take_lt by lia. rewrite Hx. by destruct x.
Qed.

Lemma inv_left_reading s v j c q : inv s v → cursors v !! j = Some (Some c) → start v ≤ c →
  dq_iter q = decremented (c - start v) (items s) →
  inv (set_subscriber_count (Z.of_nat (live (<[j := None]> (cursors v)))) (set_queue q s)) (gone j v).
Proof.
  intros Hi Hj Hc Hq. pose proof (inv_len _ _ Hi) as Hl.
  eapply (inv_recount s v); [reflexivity|done| | | | |done| |].
  - rewrite Hq. apply decremented_length.
  - intros i. rewrite Hq, decremented_lookup, (inv_items _ _ Hi). unfold entry.
    cbn [log gone with_leak with_cursors]. destruct (log v !! (start v + i)); [|done].
    cbn -[count]. rewrite (count_gone v j c _ Hj). do 2 f_equal. repeat case_decide; lia.
  - intros id Hid. pose proof (inv_count _ _ Hi id Hid) as Hcnt. rewrite (count_gone v j c id Hj) in Hcnt.
    etrans; [|exact Hcnt]. lia.
  - apply (inv_leak _ _ Hi).
  - etrans; [apply (live_gone_le _ _ _ Hj)|apply Hi].
  - apply insert_cursor_bound; [apply (inv_cursors _ _ Hi)|done].
Qed.

(** The counters of the messages that a subscriber at [c] has yet to read. *)
Lemma unread_counters s v j c : inv s v → sizes_ok → cursors v !! j = Some (Some c) → start v ≤ c →
  Forall (λ x, (0 < x.2 < modulus W32)%Z) (drop (c - start v) (items s)).
Proof.
  intros Hi (_ & Hsz & _) Hj Hc. apply Forall_lookup. intros i x Hx. rewrite lookup_drop, (inv_items _ _ Hi) in Hx.
  unfold entry in Hx. apply fmap_Some in Hx as (m & Hm & ->). apply lookup_lt_Some in Hm. cbn [snd].
  pose proof (inv_count _ _ Hi _ (conj (Nat.le_add_r _ _) Hm)).
  pose proof (owed_pos (start v + (c - start v + i)) _ j c Hj ltac:(lia)).
  unfold count in *. lia.
Qed.

Lemma unregister_subscriber_spec s v j c : inv s v → ids_ok v → sizes_ok →
  cursors v !! j = Some (Some c) →
  let freed := bool_decide (start v ≤ c ∧
    zeros (count (gone j v)) (start v) (length (log v) - start v) ≠ 0) in
  ∃ s', runs (unregister_subscriber (Z.of_nat c)) s (Some tt) s' (if freed then pwakers v else []) ∧
    inv s' (departed j c v).
Proof.
  intros Hi Hids Hsz Hj freed. pose proof (inv_len _ _ Hi) as Hl. pose proof (inv_bounds s v Hi Hsz) as [_ Hb].
  pose proof (live_gone j c _ Hj) as Hlive. pose proof (inv_live _ _ Hi) as Hlv.
  pose proof Hsz as (_ & Hsubs & _). pose proof (inv_cursors _ _ Hi j c Hj) as Hcl. unfold ids_ok in Hids.
  set (n := Z.of_nat (live (<[j := None]> (cursors v)))).
  assert (usub W32 (subscriber_count s) 1 = Val n) as Hn.
  { rewrite (inv_subs _ _ Hi), usub_in by width. f_equal. subst n. lia. }
  unfold departed. subst freed. case_decide as Hc.
  - set (i := c - start v).
    set (q := dq_iter_mut_write (decremented i (dq_iter (queue s))) (queue s)).
    assert (dq_iter q = decremented i (items s)) as Hq.
    { apply dq_iter_mut_write_spec, decremented_length. }
    pose proof (inv_left_reading s v j c q Hi Hj Hc Hq) as Hi1. fold n in Hi1.
    set (s1 := set_subscriber_count n (set_queue q s)) in *.
    destruct (pop_read_spec (S CAP) false s1 (gone j v) Hi1) as (s2 & Hr2 & Hi2); [pose proof (queue_bound s1); lia|].
    cbn [log start gone with_cursors orb] in Hr2, Hi2.
    set (z := zeros _ _ _) in *. cbn zeta.
    assert (∀ s' l, runs (op_when (negb (bool_decide (z = 0))) (on_publishers MultiWakerRegistration.wake)) s2 tt s' l →
      runs (unregister_subscriber (Z.of_nat c)) s (Some tt) s' l) as Hrun.
    { intros s' l Hw. unfold unregister_subscriber. eapply runs_bind_nil; [op_prim|].
      eapply runs_bind_nil; [by apply runs_lift|]. eapply runs_bind_nil; [op_prim|].
      eapply runs_bind_nil; [by apply runs_lift, start_id_eq|].
      rewrite (proj2 (Z.leb_le _ _)) by lia. eapply runs_bind_nil; [apply runs_lift, usub_in; width|].
      rewrite as_usize_small by lia. replace (Z.of_nat c - Z.of_nat (start v))%Z with (Z.of_nat i) by lia.
      rewrite Nat2Z.id. eapply runs_bind_nil; [apply runs_lift, decrement_all_spec|].
      { by apply (unread_counters s v j). }
      eapply runs_bind_nil; [op_prim|]. eapply runs_bind_nil; [exact Hr2|]. cbv beta iota.
      op_map (exact Hw). }
    destruct (decide (z = 0)) as [Hz|Hz].
    + exists s2. rewrite bool_decide_false by tauto. rewrite Hz in Hi2.
      split; [apply Hrun; by apply runs_when_false; rewrite bool_decide_true|].
      by rewrite advance_0 in Hi2.
    + destruct (wake_publishers s2) as (w & Hw & Hrw). rewrite (inv_pwakers _ _ Hi2) in Hrw.
      exists (set_publisher_wakers w s2). rewrite bool_decide_true by done. split.
      * apply Hrun. apply runs_when_true; [by rewrite bool_decide_false|exact Hrw].
      * rewrite <-Hw. by apply inv_pwakers_set.
  - exists (set_subscriber_count n s). rewrite bool_decide_false by tauto.
    split; [|apply inv_left_lagging with (c := c); [done|done|lia]].
    eapply runs_bind_nil; [op_prim|]. eapply runs_bind_nil; [by apply runs_lift|].
    eapply runs_bind_nil; [op_prim|]. eapply runs_bind_nil; [by apply runs_lift, start_id_eq|].
    rewrite (proj2 (Z.leb_gt _ _)) by lia. apply runs_ret.
Qed.
End Invariant.
