(* ===== verification/PubSubBus.v ===== *)
(** * The ideal bus

    What the publish-subscribe channel is meant to be, with neither queue nor
    counters: a stream of messages and the position of every reader in it, and
    the programs that are run on it and on the channel.  The last part relates
    the bus to the view of the channel that [PubSubFacts] keeps. *)

From S2P Require Import Prelude Heapless CriticalSection WaitQueue PubSub PubSubFacts.

(** ** Programs *)

Inductive Call (T : Type) :=
  | Subscribe | NextMessage (j : nat) (cx : option Waker) | Available (j : nat) | Unsubscribe (j : nat)
  | NewPublisher | DropPublisher
  | Publish (m : T) (cx : Waker) | TryPublish (m : T) | PublishImmediate (m : T) | Space.
Arguments Subscribe {T}.
Arguments NextMessage {T} j cx.
Arguments Available {T} j.
Arguments Unsubscribe {T} j.
Arguments NewPublisher {T}.
Arguments DropPublisher {T}.
Arguments Publish {T} m cx.
Arguments TryPublish {T} m.
Arguments PublishImmediate {T} m.
Arguments Space {T}.

Inductive Reply (T : Type) :=
  | Done | NoHandle | Registered (r : Result unit Error)
  | Heard (p : Poll (WaitResult T)) | Tried (o : option (WaitResult T))
  | Sending (p : Poll unit) (kept : option T) | Sent (r : Result unit T) | Amount (n : Z) | Stuck.
Arguments Done {T}.
Arguments NoHandle {T}.
Arguments Registered {T} r.
Arguments Heard {T} p.
Arguments Tried {T} o.
Arguments Sending {T} p kept.
Arguments Sent {T} r.
Arguments Amount {T} n.
Arguments Stuck {T}.

(** ** The ideal bus *)
Module Bus.
Record t (T : Type) := mk {
  stream : list T;
  readers : list (option nat);
  writers : nat;
  swaiting : list Waker;
  pwaiting : list Waker
}.
Arguments mk {T} _ _ _ _ _.
Arguments stream {T} _.
Arguments readers {T} _.
Arguments writers {T} _.
Arguments swaiting {T} _.
Arguments pwaiting {T} _.

Section Ops.
Context {T : Type} (CAP SUBS PUBS : nat).
Implicit Types b : t T.

Definition set_readers l b : t T := mk (stream b) l (writers b) (swaiting b) (pwaiting b).
Definition set_writers n b : t T := mk (stream b) (readers b) n (swaiting b) (pwaiting b).
Definition set_swaiting l b : t T := mk (stream b) (readers b) (writers b) l (pwaiting b).
Definition set_pwaiting l b : t T := mk (stream b) (readers b) (writers b) (swaiting b) l.

(** Only the last [CAP] messages can still be read. *)
Definition horizon b : nat := length (stream b) - CAP.
Definition oldest_of h n (l : list (option nat)) : nat :=
  foldr (λ o acc, match o with Some c => Nat.min (Nat.max c h) acc | None => acc end) n l.
(** The oldest message that somebody has yet to read. *)
Definition oldest b : nat := oldest_of (horizon b) (length (stream b)) (readers b).

Definition blocked b : bool := bool_decide (oldest b + CAP = length (stream b)).
Definition quiet b : bool := bool_decide (live (readers b) = 0).

(** What a reader at [c] gets, and where it then is. *)
Definition receive c b : Poll (WaitResult T) * nat :=
  if decide (c < horizon b) then (Ready (Lagged (Z.of_nat (horizon b - c))), horizon b)
  else match stream b !! c with
       | Some m => (Ready (Message m), S c)
       | None => (Pending, c)
       end.

(** Publishers are woken when the oldest message has been read. *)
Definition made_room b b' : t T * list Waker :=
  if decide (oldest b = oldest b') then (b', []) else (set_pwaiting [] b', pwaiting b).

(** Reader [j], at [c], asks for a message. *)
Definition next_message (cx : option Waker) j c b : Poll (WaitResult T) * t T * list Waker :=
  match receive c b with
  | (Ready x, c') =>
      let '(b', l) := made_room b (set_readers (<[j := Some c']> (readers b)) b) in (Ready x, b', l)
  | (Pending, _) => (Pending, set_swaiting (enrol SUBS cx (swaiting b)).2 b, (enrol SUBS cx (swaiting b)).1)
  end.

Definition append m b : t T := mk (stream b ++ [m]) (readers b) (writers b) [] (pwaiting b).

(** The reply, the bus after the call and the wakers woken. *)
Definition call (c : Call T) b : option (Reply T * t T * list Waker) :=
  match c with
  | Subscribe => Some
      (if decide (live (readers b) < SUBS)
       then (Registered (Ok tt), set_readers (readers b ++ [Some (length (stream b))]) b, [])
       else (Registered (Err MaximumSubscribersReached), b, []))
  | NextMessage j cx => Some
      match readers b !! j with
      | Some (Some c) =>
          let '(p, b', l) := next_message cx j c b in
          (match cx with
           | Some _ => Heard p
           | None => Tried (match p with Ready x => Some x | Pending => None end)
           end, b', l)
      | _ => (NoHandle, b, [])
      end
  | Available j => Some
      match readers b !! j with
      | Some (Some c) => (Amount (Z.of_nat (length (stream b) - c)), b, [])
      | _ => (NoHandle, b, [])
      end
  | Unsubscribe j =>
      match readers b !! j with
      | Some (Some c) =>
          if decide (c < horizon b) then None
          else let '(b', l) := made_room b (set_readers (<[j := None]> (readers b)) b) in Some (Done, b', l)
      | _ => Some (NoHandle, b, [])
      end
  | NewPublisher => Some
      (if decide (writers b < PUBS) then (Registered (Ok tt), set_writers (S (writers b)) b, [])
       else (Registered (Err MaximumPublishersReached), b, []))
  | DropPublisher => Some
      match writers b with
      | O => (NoHandle, b, [])
      | S n => (Done, set_writers n b, [])
      end
  | Publish m cx => Some
      (if decide (writers b = 0) then (NoHandle, b, [])
       else if quiet b then (Sending (Ready tt) None, b, [])
       else if blocked b
       then (Sending Pending (Some m), set_pwaiting (enrol PUBS (Some cx) (pwaiting b)).2 b,
             (enrol PUBS (Some cx) (pwaiting b)).1)
       else (Sending (Ready tt) None, append m b, swaiting b))
  | TryPublish m => Some
      (if quiet b then (Sent (Ok tt), b, []) else if blocked b then (Sent (Err m), b, [])
       else (Sent (Ok tt), append m b, swaiting b))
  | PublishImmediate m => Some (if quiet b then (Done, b, []) else (Done, append m b, swaiting b))
  | Space => Some (Amount (Z.of_nat (CAP - (length (stream b) - oldest b))), b, [])
  end.

(** [None] once a call is one of which the bus says nothing: the drop of a
    subscriber that lags. *)
Fixpoint calls (cs : list (Call T)) b : option (list (Call T * Reply T) * t T * list Waker) :=
  match cs with
  | [] => Some ([], b, [])
  | c :: cs =>
      '(r, b1, l1) ← call c b;
      '(io, b2, l2) ← calls cs b1;
      Some ((c, r) :: io, b2, l1 ++ l2)
  end.
End Ops.

(** *** The oldest message *)
Section Facts.
Context {T : Type} (CAP : nat).
Implicit Types b : t T.

(** Where the reader at [c] is, as far as the queue can tell. *)
Definition at_ b c : nat := Nat.max c (horizon CAP b).

Lemma oldest_of_le h n l j c : l !! j = Some (Some c) → oldest_of h n l ≤ Nat.max c h.
Proof.
  revert j. induction l as [|o l IH]; intros [|j] Hj; try done; cbn in Hj |- *.
  - injection Hj as ->. lia.
  - specialize (IH j Hj). destruct o; fold (oldest_of h n l); lia.
Qed.

Lemma oldest_of_attained h n l : oldest_of h n l = n ∨
  ∃ j c, l !! j = Some (Some c) ∧ oldest_of h n l = Nat.max c h.
Proof.
  induction l as [|o l IH]; [by left|]. cbn. fold (oldest_of h n l). destruct o as [c|].
  - destruct (decide (Nat.max c h ≤ oldest_of h n l)); [right; exists 0, c; split; [done|lia]|].
    rewrite Nat.min_r by lia. destruct IH as [|(j & c' & Hj & He)]; [by left|right; by exists (S j), c'].
  - destruct IH as [|(j & c & Hj & He)]; [by left|right; by exists (S j), c].
Qed.

Definition wf b : Prop := ∀ j c, readers b !! j = Some (Some c) → c ≤ length (stream b).

Lemma oldest_end b : oldest CAP b ≤ length (stream b).
Proof. unfold oldest. induction (readers b) as [|[c|] l IH]; cbn; [done| |done]. unfold oldest_of in *. lia. Qed.

(** The oldest message is given by these three facts. *)
Lemma oldest_unique b o : wf b →
  (∀ j c, readers b !! j = Some (Some c) → o ≤ at_ b c) →
  (o = length (stream b) ∨ ∃ j c, readers b !! j = Some (Some c) ∧ at_ b c = o) →
  oldest CAP b = o.
Proof.
  intros Hwf Hle Hat. unfold at_ in *. apply Nat.le_antisymm.
  - destruct Hat as [->|(j & c & Hj & <-)]; [apply oldest_end|by eapply oldest_of_le].
  - destruct (oldest_of_attained (horizon CAP b) (length (stream b)) (readers b)) as [He|(j & c & Hj & He)];
      fold (oldest CAP b) in He; rewrite He; [|by apply (Hle j)].
    destruct Hat as [->|(j & c & Hj & <-)]; [done|]. specialize (Hwf j c Hj). unfold horizon. lia.
Qed.

Lemma oldest_le b j c : readers b !! j = Some (Some c) → oldest CAP b ≤ at_ b c.
Proof. apply oldest_of_le. Qed.

Lemma oldest_attained b : oldest CAP b = length (stream b) ∨
  ∃ j c, readers b !! j = Some (Some c) ∧ at_ b c = oldest CAP b.
Proof.
  destruct (oldest_of_attained (horizon CAP b) (length (stream b)) (readers b)) as [|(j & c & Hj & He)];
    [by left|right; by exists j, c].
Qed.

Lemma horizon_le_oldest b : horizon CAP b ≤ oldest CAP b.
Proof.
  destruct (oldest_attained b) as [->|(j & c & _ & <-)]; unfold at_, horizon; lia.
Qed.

Lemma live_has_reader (l : list (option nat)) : live l ≠ 0 → ∃ j c, l !! j = Some (Some c).
Proof.
  induction l as [|[c|] l IH]; cbn; [done|by exists 0, c|].
  intros Hl. destruct (IH Hl) as (j & c & Hj). by exists (S j), c.
Qed.

Lemma owed_reader (l : list (option nat)) id : 0 < owed id l → ∃ j c, l !! j = Some (Some c) ∧ c ≤ id.
Proof.
  induction l as [|o l IH]; [cbn; lia|]. intros Hl.
  destruct o as [c|]; [destruct (decide (c ≤ id)); [by exists 0, c|]|];
    (destruct IH as (j & c' & Hj & Hc'); [|by exists (S j), c']); unfold owed in *; cbn in Hl;
    rewrite ?decide_False in Hl by done; lia.
Qed.

Lemma owed_one (l : list (option nat)) id j c : l !! j = Some (Some c) → c ≤ id → owed id l = 1 →
  ∀ j' c', l !! j' = Some (Some c') → c' ≤ id → j' = j.
Proof.
  intros Hj Hc Ho j' c' Hj' Hc'. destruct (decide (j' = j)) as [|Hne]; [done|].
  pose proof (owed_insert id l j c None Hj) as Hi. cbn [owes] in Hi. rewrite decide_True in Hi by done.
  assert (<[j:=None]> l !! j' = Some (Some c')) as Hj2 by (by rewrite list_lookup_insert_ne).
  pose proof (owed_pos id _ j' c' Hj2 Hc'). lia.
Qed.

Lemma owed_two (l : list (option nat)) id j c : l !! j = Some (Some c) → c ≤ id → owed id l ≠ 1 →
  ∃ j' c', j' ≠ j ∧ l !! j' = Some (Some c') ∧ c' ≤ id.
Proof.
  intros Hj Hc Ho. pose proof (owed_pos id l j c Hj Hc).
  pose proof (owed_insert id l j c None Hj) as Hi. cbn [owes] in Hi. rewrite decide_True in Hi by done.
  destruct (owed_reader (<[j:=None]> l) id) as (j' & c' & Hj' & Hc'); [lia|].
  exists j', c'. apply list_lookup_insert_Some in Hj' as [(_ & ? & _)|[Hne Hj']]; [done|]. by split.
Qed.

(** *** The bus as a view of the channel *)
Definition view_of b : View T :=
  view (stream b) (oldest CAP b) (readers b) (λ _, 0) (writers b) (swaiting b) (pwaiting b).

Lemma blocked_full b : full (CAP := CAP) (view_of b) = blocked CAP b.
Proof. unfold full, blocked, view_of. cbn. apply bool_decide_ext. lia. Qed.

Lemma wf_readers b : wf b → ∀ j c, readers b !! j = Some (Some c) → at_ b c ≤ length (stream b).
Proof. intros Hwf j c Hj. specialize (Hwf j c Hj). unfold at_, horizon. lia. Qed.

Lemma at_append m b c : at_ (append m b) c = Nat.max c (S (length (stream b)) - CAP).
Proof. unfold at_, horizon. cbn. rewrite length_app. cbn. by rewrite Nat.add_1_r. Qed.

Lemma wf_append m b : wf b → wf (append m b).
Proof. intros Hwf j c Hj. specialize (Hwf j c Hj). cbn. rewrite length_app. cbn. lia. Qed.

Lemma oldest_append m b : 0 < CAP → wf b → quiet b = false →
  oldest CAP (append m b) = if blocked CAP b then S (oldest CAP b) else oldest CAP b.
Proof.
  intros HC Hwf Hq. apply bool_decide_eq_false in Hq. pose proof (horizon_le_oldest b) as Hh.
  pose proof (oldest_end b) as Hend.
  apply oldest_unique; [by apply wf_append| |].
  - intros j c Hj. rewrite at_append. pose proof (oldest_le b j c Hj) as Ho. unfold at_, horizon in *.
    destruct (blocked CAP b) eqn:Hb; [apply bool_decide_eq_true in Hb|]; lia.
  - right. destruct (blocked CAP b) eqn:Hb; [apply bool_decide_eq_true in Hb|apply bool_decide_eq_false in Hb].
    + destruct (oldest_attained b) as [He|(j & c & Hj & He)]; [lia|]. exists j, c. split; [done|].
      rewrite at_append. unfold at_, horizon in *. lia.
    + destruct (oldest_attained b) as [He|(j & c & Hj & He)].
      * destruct (live_has_reader _ Hq) as (j & c & Hj). exists j, c. split; [done|].
        rewrite at_append. pose proof (oldest_le b j c Hj). pose proof (Hwf j c Hj). unfold at_, horizon in *. lia.
      * exists j, c. split; [done|]. rewrite at_append. unfold at_, horizon in *. lia.
Qed.

Lemma quiet_not_blocked b : 0 < CAP → live (readers b) = 0 → blocked CAP b = false.
Proof.
  intros HC Hl. apply bool_decide_eq_false. destruct (oldest_attained b) as [->|(j & c & Hj & _)]; [lia|].
  pose proof (live_pos _ _ _ Hj). lia.
Qed.

Lemma view_append m b : 0 < CAP → wf b → quiet b = false → blocked CAP b = false →
  published m (view_of b) = view_of (append m b).
Proof. intros HC Hwf Hq Hb. unfold view_of. rewrite oldest_append, Hb by done. done. Qed.

Lemma view_append_evicted m b : 0 < CAP → wf b → quiet b = false →
  published m (evicted (CAP := CAP) (view_of b)) = view_of (append m b).
Proof.
  intros HC Hwf Hq. unfold evicted. rewrite blocked_full. destruct (blocked CAP b) eqn:Hb; [|by apply view_append].
  unfold view_of. rewrite oldest_append, Hb by done. unfold published, advance. cbn. by rewrite Nat.add_1_r.
Qed.

Lemma oldest_joined b : wf b →
  let b' := set_readers (readers b ++ [Some (length (stream b))]) b in
  oldest CAP b' = oldest CAP b ∧ wf b'.
Proof.
  intros Hwf b'. assert (wf b') as Hwf'.
  { intros j c [Hj|[_ Hj]]%lookup_app_Some; [by apply (Hwf j)|].
    apply list_lookup_singleton_Some in Hj as [_ [= <-]]. done. }
  split; [|done]. apply oldest_unique; [done| |].
  - intros j c [Hj|[_ Hj]]%lookup_app_Some; [by apply (oldest_le b j)|].
    apply list_lookup_singleton_Some in Hj as [_ [= <-]]. change (at_ b') with (at_ b).
    pose proof (oldest_end b). unfold at_. lia.
  - destruct (oldest_attained b) as [->|(j & c & Hj & He)]; [by left|right]. exists j, c.
    split; [|done]. cbn. rewrite lookup_app_l; [done|]. by eapply lookup_lt_Some.
Qed.

(** Moving a reader. *)
Definition reader j o b : t T := set_readers (<[j := o]> (readers b)) b.

Lemma wf_reader j o b : wf b → (∀ c, o = Some c → c ≤ length (stream b)) → wf (reader j o b).
Proof. intros Hwf Ho. exact (insert_cursor_bound (view_of b) j o _ Hwf Ho). Qed.

Lemma view_reader j o b n : oldest CAP (reader j o b) = oldest CAP b + n →
  view_of (reader j o b) = advance n (with_cursors (<[j := o]> (readers b)) (view_of b)).
Proof. intros Ho. unfold view_of. by rewrite Ho. Qed.

Lemma view_reader_same j o b : oldest CAP (reader j o b) = oldest CAP b →
  view_of (reader j o b) = with_cursors (<[j := o]> (readers b)) (view_of b).
Proof. intros Ho. rewrite (view_reader j o b 0) by lia. apply advance_0. Qed.

Lemma reader_lookup j o b j' c :
  readers (reader j o b) !! j' = Some (Some c) →
  (j' = j ∧ o = Some c) ∨ (j' ≠ j ∧ readers b !! j' = Some (Some c)).
Proof. intros [(-> & ? & _)|[? ?]]%list_lookup_insert_Some; [left|right]; by split. Qed.

Lemma oldest_lagged j c b : wf b → readers b !! j = Some (Some c) → c < horizon CAP b →
  oldest CAP b = horizon CAP b ∧ oldest CAP (reader j (Some (horizon CAP b)) b) = horizon CAP b.
Proof.
  intros Hwf Hj Hc. split.
  - pose proof (horizon_le_oldest b). pose proof (oldest_le b j c Hj). unfold at_ in *. lia.
  - apply oldest_unique.
    + apply wf_reader; [done|]. intros ? [= <-]. unfold horizon. lia.
    + intros j' c' _. unfold at_, horizon. cbn. lia.
    + right. exists j, (horizon CAP b). split; [|unfold at_, horizon; cbn; lia].
      apply list_lookup_insert_eq. by eapply lookup_lt_Some.
Qed.

Lemma oldest_read j c b : wf b → readers b !! j = Some (Some c) → horizon CAP b ≤ c < length (stream b) →
  oldest CAP (reader j (Some (S c)) b) =
    if bool_decide (c = oldest CAP b ∧ owed c (readers b) = 1) then S (oldest CAP b) else oldest CAP b.
Proof.
  intros Hwf Hj Hc. pose proof (oldest_le b j c Hj) as Hle. pose proof (horizon_le_oldest b) as Hh.
  assert (readers (reader j (Some (S c)) b) !! j = Some (Some (S c))) as Hnew.
  { apply list_lookup_insert_eq. by eapply lookup_lt_Some. }
  apply oldest_unique; [apply wf_reader; [done|intros ? [= <-]; lia]| |].
  - intros j' c' [[-> [= <-]]|[Hne Hj']]%reader_lookup.
    + change (at_ (reader _ _ _)) with (at_ b). unfold at_ in *. case_bool_decide; lia.
    + change (at_ (reader _ _ _)) with (at_ b). pose proof (oldest_le b j' c' Hj').
      case_bool_decide as Hb; [|done]. destruct Hb as [-> Ho]. unfold at_ in *.
      destruct (decide (c' ≤ oldest CAP b)); [|lia].
      by destruct (Hne (owed_one _ (oldest CAP b) j _ Hj (le_n _) Ho j' c' Hj' ltac:(done))).
  - right. change (at_ (reader _ _ _)) with (at_ b). case_bool_decide as Hb.
    + exists j, (S c). split; [done|]. unfold at_ in *. lia.
    + destruct (decide (c = oldest CAP b)) as [->|Hne].
      * destruct (owed_two (readers b) (oldest CAP b) j _ Hj) as (j' & c' & Hne & Hj' & Hc'); [done|tauto|].
        exists j', c'. split; [cbn; by rewrite list_lookup_insert_ne|].
        pose proof (oldest_le b j' c' Hj'). unfold at_ in *. lia.
      * destruct (oldest_attained b) as [He|(j' & c' & Hj' & He)]; [unfold at_ in *; lia|].
        exists j', c'. split; [|done]. cbn. rewrite list_lookup_insert_ne; [done|]. intros ->.
        unfold at_ in *. simplify_eq. lia.
Qed.

Lemma oldest_gone j c b : wf b → 0 < CAP → readers b !! j = Some (Some c) → horizon CAP b ≤ c →
  let b' := reader j None b in
  let z := zeros (count (gone j (view_of b))) (oldest CAP b) (length (stream b) - oldest CAP b) in
  oldest CAP b ≤ c ∧ oldest CAP b' = oldest CAP b + z.
Proof.
  intros Hwf HC Hj Hc b' z. pose proof (oldest_le b j c Hj) as Hle. split; [unfold at_ in *; lia|].
  pose proof (horizon_le_oldest b) as Hh. pose proof (oldest_end b) as Hend.
  pose proof (zeros_le (count (gone j (view_of b))) (oldest CAP b) (length (stream b) - oldest CAP b)) as Hz.
  fold z in Hz.
  assert (wf b') as Hwf' by (by apply wf_reader).
  assert (∀ j' c', readers b' !! j' = Some (Some c') → oldest CAP b + z ≤ at_ b c') as Hall.
  { intros j' c' Hj'. destruct (decide (z = 0)) as [->|Hnz].
    - apply reader_lookup in Hj' as [[_ ?]|[_ Hj']]; [done|]. pose proof (oldest_le b j' c' Hj'). lia.
    - destruct (decide (c' < oldest CAP b + z)); [|unfold at_; lia].
      pose proof (zeros_before (count (gone j (view_of b))) (oldest CAP b)
        (length (stream b) - oldest CAP b) (z - 1) ltac:(fold z; lia)) as H0.
      change (owed (oldest CAP b + (z - 1)) (readers b') + 0 = 0) in H0.
      pose proof (owed_pos (oldest CAP b + (z - 1)) _ j' c' Hj' ltac:(lia)). lia. }
  apply oldest_unique; [done|done|].
  destruct (decide (z < length (stream b) - oldest CAP b)) as [Hlt|]; [right|left; cbn; lia].
  pose proof (zeros_after _ _ _ Hlt) as Ho. fold z in Ho.
  change (owed (oldest CAP b + z) (readers b') + 0 ≠ 0) in Ho.
  destruct (owed_reader (readers b') (oldest CAP b + z)) as (j' & c' & Hj' & Hc'); [lia|].
  exists j', c'. split; [done|]. specialize (Hall j' c' Hj'). change (at_ b') with (at_ b).
  unfold at_ in *. lia.
Qed.

(** *** Who waits

    A publisher waits only while the bus is blocked; whoever waits is woken or
    goes on waiting. *)
Definition waits b : Prop := pwaiting b ≠ [] → blocked CAP b = true.

Lemma waits_made_room b b' b1 l : waits b → stream b' = stream b → pwaiting b' = pwaiting b →
  made_room CAP b b' = (b1, l) → waits b1 ∧ (∀ w, w ∈ pwaiting b → w ∈ l ∨ w ∈ pwaiting b1) ∧
  swaiting b1 = swaiting b' ∧ stream b1 = stream b'.
Proof.
  intros Hb Hs Hp. unfold made_room. case_decide as Ho; intros [= <- <-].
  - unfold waits, blocked in *. rewrite Hp, Hs, <-Ho. by auto.
  - split; [by intros ?|]. by auto.
Qed.

Lemma waits_append m b : 0 < CAP → wf b → quiet b = false → waits b → waits (append m b).
Proof.
  intros HC Hwf Hq Hb Hp. specialize (Hb Hp). apply bool_decide_eq_true.
  rewrite oldest_append, Hb by done. apply bool_decide_eq_true in Hb. cbn. rewrite length_app. cbn. lia.
Qed.

Context (SUBS PUBS : nat).

(** What a call does to those who wait. *)
Definition keeps b b' (l : list Waker) : Prop := waits b' ∧
  (∀ w, w ∈ swaiting b → w ∈ l ∨ w ∈ swaiting b' ∧ stream b' = stream b) ∧
  (∀ w, w ∈ pwaiting b → w ∈ l ∨ w ∈ pwaiting b').

Lemma keeps_refl b : waits b → keeps b b [].
Proof. intros Hb. split; [done|]. by auto. Qed.

Lemma keeps_append m b : 0 < CAP → wf b → quiet b = false → waits b → keeps b (append m b) (swaiting b).
Proof. intros. split; [by apply waits_append|]. by auto. Qed.

Lemma keeps_reader j o b b1 l : waits b → made_room CAP b (set_readers (<[j := o]> (readers b)) b) = (b1, l) →
  keeps b b1 l.
Proof.
  intros Hb Hm. destruct (waits_made_room b (reader j o b) _ _ Hb eq_refl eq_refl Hm) as (Hb1 & Hp & Hs & Hst).
  split; [done|]. rewrite Hs, Hst. by auto.
Qed.

Lemma keeps_trans b b1 b2 l1 l2 : keeps b b1 l1 → keeps b1 b2 l2 → keeps b b2 (l1 ++ l2).
Proof.
  intros (_ & Hs1 & Hp1) (Hb2 & Hs2 & Hp2). split; [done|]. split; intros w Hw; rewrite elem_of_app.
  - destruct (Hs1 w Hw) as [|[Hw1 He1]]; [tauto|]. destruct (Hs2 w Hw1) as [|[Hw2 He2]]; [tauto|].
    right. split; [done|congruence].
  - destruct (Hp1 w Hw) as [|Hw1]; [tauto|]. destruct (Hp2 w Hw1); tauto.
Qed.

Lemma call_keeps c b r b' l : 0 < CAP → wf b → waits b → call CAP SUBS PUBS c b = Some (r, b', l) → keeps b b' l.
Proof.
  intros HC Hwf Hb Hc. pose proof (keeps_refl b Hb) as Hrefl.
  destruct c as [|j cx|j|j| | |m cx|m|m|]; cbn [call] in Hc.
  - case_decide; injection Hc as <- <- <-; [|done]. destruct (oldest_joined b Hwf) as [Ho _].
    split; [|by auto]. unfold waits, blocked in *. cbn -[oldest] in *. by rewrite Ho.
  - destruct (readers b !! j) as [[c|]|]; [|by injection Hc as <- <- <-..].
    unfold next_message in Hc. destruct (receive CAP c b) as [[x|] c'].
    + destruct (made_room _ _ _) as [b1 l1] eqn:Hm. injection Hc as <- <- <-. by eapply keeps_reader.
    + injection Hc as <- <- <-. split; [done|]. split; [|by auto]. intros w Hw.
      destruct (enrol_waits SUBS cx _ w Hw); auto.
  - destruct (readers b !! j) as [[c|]|]; by injection Hc as <- <- <-.
  - destruct (readers b !! j) as [[c|]|]; [|by injection Hc as <- <- <-..].
    case_decide; [done|]. destruct (made_room _ _ _) as [b1 l1] eqn:Hm. injection Hc as <- <- <-.
    by eapply keeps_reader.
  - case_decide; by injection Hc as <- <- <-.
  - destruct (writers b); by injection Hc as <- <- <-.
  - case_decide; [by injection Hc as <- <- <-|]. destruct (quiet b) eqn:Hq; [by injection Hc as <- <- <-|].
    destruct (blocked CAP b) eqn:Hbl; injection Hc as <- <- <-; [|by apply keeps_append].
    split; [by intros _|]. split; [by auto|]. intros w Hw. destruct (enrol_waits PUBS (Some cx) _ w Hw); auto.
  - destruct (quiet b) eqn:Hq; [by injection Hc as <- <- <-|].
    destruct (blocked CAP b) eqn:Hbl; injection Hc as <- <- <-; [done|by apply keeps_append].
  - destruct (quiet b) eqn:Hq; injection Hc as <- <- <-; [done|by apply keeps_append].
  - by injection Hc as <- <- <-.
Qed.
End Facts.
End Bus.
