(* ===== verification/PubSubProps.v ===== *)
(** * What the publish-subscribe channel does

    The channel run by programs that subscribe, publish, read and leave is the
    ideal bus of [PubSubBus]: a simulation call by call, and its consequences. *)

From S2P Require Import Prelude Heapless CriticalSection WaitQueue PubSub PubSubFacts PubSubBus.

(** ** Programs on the channel *)
#[local] Existing Instance PubSubChannel.behavior.

Section Clients.
Context `{HP : Profile} `{HM : RawMutexLaws R} `{DL : DequeLaws D} `{VL : VecLaws V}.
Context {T : Type} {CAP SUBS PUBS : nat}.
Abbreviation channel := (PubSubChannel.t R D V T CAP SUBS PUBS).
Abbreviation state := (PubSubState.t D V T CAP SUBS PUBS).

(** The channel, the subscribers handed out ([None] once dropped) and the
    number of publishers held. *)
Record Clients := mk_clients { chan : Cpu * channel; subs : list (option Sub.t); held : nat }.
Implicit Types (s : Clients) (b : Bus.t T).

Definition on_chan {A} (m : Op Waker (Cpu * channel) A) : Op Waker Clients A :=
  zoom chan (λ c s, mk_clients c (subs s) (held s)) m.
Definition with_sub {A} (j : nat) (x : Sub.t) (m : Op Waker (Sub.t * (Cpu * channel)) A) : Op Waker Clients A :=
  zoom (λ s, (x, chan s)) (λ z s, mk_clients z.2 (<[j := Some z.1]> (subs s)) (held s)) m.
Definition with_future {A} (m : T) (f : Op Waker (Pub.WaitFuture T * (Cpu * channel)) A) :
    Op Waker Clients (A * option T) :=
  λ s, match f (Pub.publish m, chan s) with
       | Val (a, (fut, c), l) => Val ((a, Pub.message fut), mk_clients c (subs s) (held s), l)
       | Panic => Panic
       end.

Definition run_call (c : Call T) : Op Waker Clients (Reply T) :=
  match c with
  | Subscribe =>
      r ← on_chan PubSubChannel.subscriber;
      match r with
      | Ok n => op_modify (λ s, mk_clients (chan s) (subs s ++ [Some (Sub.new n)]) (held s));; mret (Registered (Ok tt))
      | Err e => mret (Registered (Err e))
      end
  | NextMessage j cx =>
      s ← op_get;
      match subs s !! j, cx with
      | Some (Some x), Some w => p ← with_sub j x (Sub.SubscriberWaitFuture_poll w); mret (Heard p)
      | Some (Some x), None => o ← with_sub j x Sub.try_next_message; mret (Tried o)
      | _, _ => mret NoHandle
      end
  | Available j =>
      s ← op_get;
      match subs s !! j with
      | Some (Some x) => n ← with_sub j x (Sub.available (T := T)); mret (Amount n)
      | _ => mret NoHandle
      end
  | Unsubscribe j =>
      s ← op_get;
      match subs s !! j with
      | Some (Some x) =>
          o ← with_sub j x (Sub.drop (T := T));
          op_modify (λ s, mk_clients (chan s) (<[j := None]> (subs s)) (held s));;
          mret (match o with Some _ => Done | None => Stuck end)
      | _ => mret NoHandle
      end
  | NewPublisher =>
      r ← on_chan PubSubChannel.publisher;
      match r with
      | Ok _ => op_modify (λ s, mk_clients (chan s) (subs s) (S (held s)));; mret (Registered (Ok tt))
      | Err e => mret (Registered (Err e))
      end
  | DropPublisher =>
      s ← op_get;
      match held s with
      | O => mret NoHandle
      | S n => on_chan (Pub.drop (T := T));; op_modify (λ s, mk_clients (chan s) (subs s) n);; mret Done
      end
  | Publish m cx =>
      s ← op_get;
      match held s with
      | O => mret NoHandle
      | S _ => r ← with_future m (Pub.WaitFuture_poll cx); mret (Sending r.1 r.2)
      end
  | TryPublish m => r ← on_chan (Pub.try_publish m); mret (Sent r)
  | PublishImmediate m => on_chan (Pub.publish_immediate m);; mret Done
  | Space => n ← on_chan (Pub.space (T := T)); mret (Amount n)
  end.

Definition handle : option nat → option Sub.t := fmap (λ c, Sub.mk (Z.of_nat c)).

Definition inner s : state := shared_value (chan s).2.

(** The clients and the bus, with [n] calls still to come. *)
Record sim (n : nat) s b : Prop := {
  sim_cpu : cpu_wf (chan s).1;
  sim_free : shared_free (chan s).2;
  sim_inv : inv (inner s) (Bus.view_of CAP b);
  sim_wf : Bus.wf b;
  sim_subs : subs s = handle <$> Bus.readers b;
  sim_held : held s = Bus.writers b;
  sim_ids : (Z.of_nat (length (Bus.stream b) + n) < modulus W64 - 1)%Z
}.

Definition with_state s (st : state) : Clients :=
  mk_clients ((chan s).1, shared_set st (chan s).2) (subs s) (held s).

Lemma runs_channel_lock {A} (f : Op Waker state A) s a st l : cpu_wf (chan s).1 → shared_free (chan s).2 →
  runs f (inner s) a st l →
  runs (PubSubChannel.lock f) (chan s) a (chan (with_state s st)) l.
Proof. intros Hc Hf Hr. destruct s as [[c m] xs k]. by apply runs_shared_lock. Qed.

Lemma runs_on_chan {A} (f : Op Waker state A) s a st l : cpu_wf (chan s).1 → shared_free (chan s).2 →
  runs f (inner s) a st l → runs (on_chan (PubSubChannel.lock f)) s a (with_state s st) l.
Proof.
  intros Hc Hf Hr.
  apply (runs_zoom chan (λ c s, mk_clients c (subs s) (held s)) _ s a (chan (with_state s st))).
  exact (runs_channel_lock f s a st l Hc Hf Hr).
Qed.

Lemma sim_step n s b (st : state) b' xs k : sim (S n) s b → inv st (Bus.view_of CAP b') → Bus.wf b' →
  xs = handle <$> Bus.readers b' → k = Bus.writers b' →
  length (Bus.stream b') ≤ S (length (Bus.stream b)) →
  sim n (mk_clients (chan (with_state s st)) xs k) b'.
Proof.
  intros [Hc Hf Hi Hw Hs Hh Hids] Hi' Hw' -> -> Hlen. constructor; try done. lia.
Qed.

(** A call that leaves clients and bus alone. *)
Lemma sim_idle n s b : sim (S n) s b → sim n s b.
Proof. intros []. constructor; try done. lia. Qed.

Lemma sim_sub n s b j : sim n s b → subs s !! j = handle <$> Bus.readers b !! j.
Proof. intros Hs. by rewrite (sim_subs _ _ _ Hs), list_lookup_fmap. Qed.

Lemma sim_ids_ok n s b : sim n s b → ids_ok (Bus.view_of CAP b).
Proof. intros Hs. pose proof (sim_ids _ _ _ Hs). unfold ids_ok. cbn -[modulus]. lia. Qed.

Lemma runs_on_chan_reply {A B} (f : Op Waker state A) (g : A → Op Waker Clients B) s a st l r s' :
  cpu_wf (chan s).1 → shared_free (chan s).2 →
  runs f (inner s) a st l → runs (g a) (with_state s st) r s' [] →
  runs (on_chan (PubSubChannel.lock f) ≫= g) s r s' l.
Proof.
  intros Hc Hf Hr Hg. eapply runs_log; [eapply runs_bind; [by apply runs_on_chan|exact Hg]|apply app_nil_r].
Qed.

Lemma with_state_sim n s b (st : state) b' : sim (S n) s b → inv st (Bus.view_of CAP b') → Bus.wf b' →
  Bus.readers b' = Bus.readers b → Bus.writers b' = Bus.writers b →
  length (Bus.stream b') ≤ S (length (Bus.stream b)) → sim n (with_state s st) b'.
Proof.
  intros Hs Hi Hw Hr Hp Hl. apply (sim_step n s b); [done..| | |done];
    [by rewrite (sim_subs _ _ _ Hs), Hr|by rewrite (sim_held _ _ _ Hs), Hp].
Qed.

Lemma with_state_idle n s b : sim (S n) s b → sim n (with_state s (inner s)) b.
Proof. intros Hs. apply (with_state_sim n s b); [done|apply Hs|apply Hs|done|done|lia]. Qed.

Lemma runs_with_sub {A} j x (m : Op Waker (Sub.t * (Cpu * channel)) A) s a x' ch l :
  runs m (x, chan s) a (x', ch) l →
  runs (with_sub j x m) s a (mk_clients ch (<[j := Some x']> (subs s)) (held s)) l.
Proof.
  intros Hr. apply (runs_zoom (λ s, (x, chan s)) (λ z s, mk_clients z.2 (<[j := Some z.1]> (subs s)) (held s))
    m s a (x', ch) l Hr).
Qed.

Lemma runs_sub_get_message cx x s p n st l : cpu_wf (chan s).1 → shared_free (chan s).2 →
  runs (PubSubState.get_message_with_context (Sub.next_message_id x) cx) (inner s) (p, n) st l →
  runs (Sub.get cx) (x, chan s) p (Sub.mk n, chan (with_state s st)) l.
Proof.
  intros Hc Hf Hr. unfold Sub.get. eapply runs_bind_nil; [op_prim|].
  eapply runs_log; [eapply (runs_bind _ _ _ (p, n) (x, chan (with_state s st)))|apply app_nil_r].
  - apply (runs_zoom snd (λ c (z : Sub.t * (Cpu * channel)), (z.1, c)) _ (x, chan s) (p, n) (chan (with_state s st))).
    exact (runs_channel_lock _ _ _ _ _ Hc Hf Hr).
  - eapply runs_bind_nil; [op_prim|apply runs_ret].
Qed.

Lemma runs_sub_get cx j x s p n st l : cpu_wf (chan s).1 → shared_free (chan s).2 →
  runs (PubSubState.get_message_with_context (Sub.next_message_id x) cx) (inner s) (p, n) st l →
  runs (with_sub j x (Sub.get cx)) s p
    (mk_clients (chan (with_state s st)) (<[j := Some (Sub.mk n)]> (subs s)) (held s)) l.
Proof. intros Hc Hf Hr. by apply runs_with_sub, runs_sub_get_message. Qed.

Lemma runs_try_next j x s p s' l : runs (with_sub j x (Sub.get None)) s p s' l →
  runs (with_sub j x Sub.try_next_message) s (match p with Ready x => Some x | Pending => None end) s' l.
Proof.
  unfold runs, with_sub, Sub.try_next_message. cbv [zoom mbind op_bind mret op_ret].
  destruct (Sub.get None (x, chan s)) as [[[p' [x' ch]] l']|]; [|done].
  intros [= <- <- <-]. by rewrite app_nil_r.
Qed.

Section Simulation.
#[local] Set Default Proof Using "All".
Context (Hcap : 0 < CAP) (Hsz : sizes_ok (CAP := CAP) (SUBS := SUBS) (PUBS := PUBS)).

Definition simulated (c : Call T) : Prop := ∀ n s b r b' l, sim (S n) s b →
  Bus.call CAP SUBS PUBS c b = Some (r, b', l) → ∃ s', runs (run_call c) s r s' l ∧ sim n s' b'.

Lemma simulated_subscribe : simulated Subscribe.
Proof.
  intros n s b r b' l Hs Hc. pose proof Hs as [Hcpu Hfree Hi Hw Hsubs Hheld Hids].
  pose proof (subscriber_spec _ _ Hi Hsz) as Hr. cbn [Bus.call] in Hc. cbn [cursors Bus.view_of log] in Hr.
  destruct (decide (live (Bus.readers b) < SUBS)); injection Hc as <- <- <-.
  - destruct Hr as (st & Hr & Hi').
    eexists. split; [eapply runs_on_chan_reply; [done|done|exact Hr|]|].
    { eapply runs_bind_nil; [op_prim|apply runs_ret]. }
    apply (sim_step n s b st); [done| | |cbn [Bus.readers Bus.set_readers]; by rewrite fmap_app, <-Hsubs|done|cbn; lia].
    + destruct (Bus.oldest_joined CAP b) as [Ho _]; [done|].
      unfold Bus.view_of. cbn [Bus.stream Bus.set_readers Bus.readers]. by rewrite Ho.
    + by apply Bus.oldest_joined.
  - eexists. split; [eapply runs_on_chan_reply; [done|done|exact Hr|apply runs_ret]|].
    by apply with_state_idle.
Qed.

(** What the bus says of a reading, on the state of the channel. *)
Lemma bus_next_message cx (st : state) b j c : inv st (Bus.view_of CAP b) → Bus.wf b → ids_ok (Bus.view_of CAP b) →
  Bus.readers b !! j = Some (Some c) →
  let '(p, b', l) := Bus.next_message CAP SUBS cx j c b in
  ∃ c' st', runs (PubSubState.get_message_with_context (Z.of_nat c) cx) st (p, Z.of_nat c') st' l ∧
    inv st' (Bus.view_of CAP b') ∧ Bus.wf b' ∧ Bus.readers b' = <[j := Some c']> (Bus.readers b) ∧
    Bus.writers b' = Bus.writers b ∧ Bus.stream b' = Bus.stream b.
Proof.
  intros Hi Hw Hids Hj. pose proof (Bus.horizon_le_oldest CAP b) as Hh.
  unfold Bus.next_message, Bus.receive. case_decide as Hlag.
  - destruct (Bus.oldest_lagged CAP j c b Hw Hj Hlag) as [Ho Ho']. fold (Bus.reader j (Some (Bus.horizon CAP b)) b).
    unfold Bus.made_room. rewrite decide_True by congruence.
    destruct (get_lagged cx st _ j c Hi Hids Hj) as [Hr Hi']; [cbn; lia|].
    cbn [Bus.view_of start] in Hr, Hi'. exists (Bus.horizon CAP b), st.
    rewrite Ho in Hr. split_and!; try done.
    + rewrite Bus.view_reader_same by congruence. by rewrite Ho in Hi'.
    + apply (Bus.wf_reader CAP _ _ _ Hw). intros ? [= <-]. unfold Bus.horizon. lia.
  - destruct (Bus.stream b !! c) as [m|] eqn:Hm.
    + pose proof (lookup_lt_Some _ _ _ Hm) as Hlt. fold (Bus.reader j (Some (S c)) b).
      pose proof (Bus.oldest_read CAP j c b Hw Hj ltac:(lia)) as Ho.
      assert (Bus.oldest CAP b ≤ c) as Hle by (pose proof (Bus.oldest_le CAP b j c Hj); unfold Bus.at_ in *; lia).
      destruct (get_read cx st _ j c Hi Hids Hsz Hj (conj Hle Hlt)) as (m' & st' & Hm' & Hr & Hi').
      cbn [Bus.view_of log] in Hm'. rewrite Hm in Hm'. injection Hm' as <-.
      assert (frees c (Bus.view_of CAP b) = bool_decide (c = Bus.oldest CAP b ∧ owed c (Bus.readers b) = 1)) as Hf.
      { unfold frees, count. cbn. apply bool_decide_ext. by rewrite Nat.add_0_r. }
      unfold read in Hi'. rewrite Hf in Hr, Hi'.
      assert (Bus.wf (Bus.reader j (Some (S c)) b)) by (apply (Bus.wf_reader CAP _ _ _ Hw); intros ? [= <-]; lia).
      unfold Bus.made_room. case_bool_decide as Hb; rewrite Ho.
      * rewrite decide_False by lia. exists (S c), st'. split_and!; try done.
        change (Bus.view_of CAP (Bus.set_pwaiting [] ?x)) with (with_pwakers [] (Bus.view_of CAP x)).
        rewrite (Bus.view_reader CAP j _ b 1) by lia. exact Hi'.
      * rewrite decide_True by done. exists (S c), st'. split_and!; try done.
        by rewrite Bus.view_reader_same.
    + apply lookup_ge_None_1 in Hm. pose proof (Hw j c Hj) as Hc. assert (c = length (Bus.stream b)) as -> by lia.
      assert (cx ≠ None → 0 < SUBS) as HS.
      { intros _. pose proof (live_pos _ _ _ Hj). pose proof (inv_live _ _ Hi : live (Bus.readers b) ≤ SUBS). lia. }
      destruct (get_pending cx st _ Hi Hids Hsz HS) as (st' & Hr & Hi').
      eexists _, st'. split; [exact Hr|]. split_and!; try done. cbn. by rewrite list_insert_id.
Qed.

Lemma simulated_next_message j cx : simulated (NextMessage j cx).
Proof.
  intros n s b r b' l Hs Hc. pose proof Hs as [Hcpu Hfree Hi Hw Hsubs Hheld Hids]. cbn [Bus.call] in Hc.
  pose proof (sim_sub _ _ _ j Hs) as Hj. unfold run_call.
  destruct (Bus.readers b !! j) as [[c|]|] eqn:Hb; cbn in Hj;
    [|injection Hc as <- <- <-; exists s; (split; [|by apply sim_idle]); eapply runs_bind_nil; [op_prim|];
      rewrite Hj; destruct cx; apply runs_ret..].
  pose proof (bus_next_message cx (inner s) b j c Hi Hw (sim_ids_ok _ _ _ Hs) Hb) as Hn.
  destruct (Bus.next_message CAP SUBS cx j c b) as [[p b1] l1]. injection Hc as <- <- <-.
  destruct Hn as (c' & st & Hr & Hi' & Hw' & Hrd & Hwr & Hst).
  pose proof (runs_sub_get cx j (Sub.mk (Z.of_nat c)) s _ _ _ _ Hcpu Hfree Hr) as Hg.
  eexists. split.
  - eapply runs_bind_nil; [op_prim|]. rewrite Hj. destruct cx as [w|].
    + op_map (exact Hg).
    + op_map idtac.
      exact (runs_try_next _ _ _ _ _ _ Hg).
  - apply (sim_step n s b st); [done..| |congruence|rewrite Hst; lia].
    rewrite Hrd, Hsubs. by rewrite list_fmap_insert.
Qed.

(** A call that only reads. *)
Lemma runs_on_chan_read {A} (f : Op Waker state A) (g : A → Reply T) n s b a : sim (S n) s b →
  runs f (inner s) a (inner s) [] →
  ∃ s', runs (on_chan (PubSubChannel.lock f) ≫= λ a, mret (g a)) s (g a) s' [] ∧ sim n s' b.
Proof.
  intros Hs Hr. exists (with_state s (inner s)). split; [|by apply with_state_idle].
  eapply runs_on_chan_reply; [exact (sim_cpu _ _ _ Hs)|exact (sim_free _ _ _ Hs)|exact Hr|apply runs_ret].
Qed.

Lemma simulated_available j : simulated (Available j).
Proof.
  intros n s b r b' l Hs Hc. pose proof Hs as [Hcpu Hfree Hi Hw Hsubs Hheld Hids]. cbn [Bus.call] in Hc.
  pose proof (sim_sub _ _ _ j Hs) as Hj. unfold run_call.
  destruct (Bus.readers b !! j) as [[c|]|] eqn:Hb; cbn in Hj; injection Hc as <- <- <-;
    [|exists s; (split; [|by apply sim_idle]); eapply runs_bind_nil; [op_prim|];
      rewrite Hj; apply runs_ret..].
  pose proof (Hw j c Hb) as Hc. pose proof (inv_next _ _ Hi) as Hn. cbn in Hn.
  pose proof (sim_ids_ok _ _ _ Hs) as Hok. unfold ids_ok in Hok. cbn -[modulus] in Hok.
  assert (runs (PubSubState.available (T := T) (Z.of_nat c)) (inner s) (Z.of_nat (length (Bus.stream b) - c)) (inner s) [])
    as Hr.
  { eapply runs_bind_nil; [op_prim|]. rewrite Hn. apply runs_lift. rewrite usub_in by width. f_equal. lia. }
  eexists. split.
  - eapply runs_bind_nil; [op_prim|]. rewrite Hj.
    eapply runs_bind_nil; [|apply runs_ret]. apply runs_with_sub. eapply runs_bind_nil; [op_prim|].
    apply (runs_zoom snd (λ c (z : Sub.t * (Cpu * channel)), (z.1, c)) _ (_, chan s) _ (chan (with_state s (inner s)))).
    exact (runs_channel_lock _ _ _ _ _ Hcpu Hfree Hr).
  - apply (sim_step n s b (inner s)); [done..| |done|lia].
    rewrite Hsubs. cbn [fst]. rewrite list_insert_id; [done|]. by rewrite <-Hsubs.
Qed.

Lemma simulated_space : simulated Space.
Proof.
  intros n s b r b' l Hs [= <- <- <-]. pose proof (sim_inv _ _ _ Hs) as Hi. unfold run_call, Pub.space. cbn [psb_space].
  apply runs_on_chan_read with (g := Amount); [done|].
  pose proof (inv_len _ _ Hi) as Hl. pose proof (queue_bound (inner s)). unfold items in *. cbn in Hl.
  eapply runs_bind_nil; [op_prim|]. destruct Hsz as [? _]. apply runs_lift.
  rewrite dq_capacity_spec, dq_len_spec, usub_in by width. f_equal. lia.
Qed.

Lemma simulated_new_publisher : simulated NewPublisher.
Proof.
  intros n s b r b' l Hs Hc. pose proof (publisher_spec _ _ (sim_inv _ _ _ Hs) Hsz) as Hr.
  cbn [Bus.call] in Hc. cbn [pubs Bus.view_of] in Hr.
  destruct (decide (Bus.writers b < PUBS)); injection Hc as <- <- <-.
  - destruct Hr as (st & Hr & Hi').
    eexists. split; [eapply runs_on_chan_reply; [exact (sim_cpu _ _ _ Hs)|exact (sim_free _ _ _ Hs)|exact Hr|]|].
    { eapply runs_bind_nil; [op_prim|apply runs_ret]. }
    apply (sim_step n s b st); [done|done|apply Hs|apply Hs| |cbn; lia].
    cbn. by rewrite (sim_held _ _ _ Hs).
  - eexists. split; [eapply runs_on_chan_reply; [exact (sim_cpu _ _ _ Hs)|exact (sim_free _ _ _ Hs)|exact Hr|apply runs_ret]|].
    by apply with_state_idle.
Qed.

Lemma simulated_drop_publisher : simulated DropPublisher.
Proof.
  intros n s b r b' l Hs Hc. pose proof (sim_held _ _ _ Hs) as Hh. cbn [Bus.call] in Hc. unfold run_call.
  destruct (Bus.writers b) as [|k] eqn:Hk; injection Hc as <- <- <-.
  - exists s. split; [|by apply sim_idle]. eapply runs_bind_nil; [op_prim|]. rewrite Hh. apply runs_ret.
  - destruct (unregister_publisher_spec _ _ (sim_inv _ _ _ Hs) Hsz) as (st & Hr & Hi'); [cbn; lia|].
    eexists. split.
    + eapply runs_bind_nil; [op_prim|]. rewrite Hh.
      eapply runs_on_chan_reply; [exact (sim_cpu _ _ _ Hs)|exact (sim_free _ _ _ Hs)|exact Hr|].
      eapply runs_bind_nil; [op_prim|apply runs_ret].
    + apply (sim_step n s b st); [done| |apply Hs|apply Hs|done|cbn; lia]. cbn in Hi'. by rewrite Hk in Hi'.
Qed.

Lemma bus_publish m cx (st : state) b : inv st (Bus.view_of CAP b) → Bus.wf b → ids_ok (Bus.view_of CAP b) →
  (cx ≠ None → 0 < PUBS) →
  ∃ st', runs (PubSubState.publish_with_context m cx) st
      (if negb (Bus.quiet b) && Bus.blocked CAP b then Err m else Ok tt) st'
      (if Bus.quiet b then [] else if Bus.blocked CAP b then (enrol PUBS cx (Bus.pwaiting b)).1 else Bus.swaiting b) ∧
    inv st' (Bus.view_of CAP
      (if Bus.quiet b then b
       else if Bus.blocked CAP b then Bus.set_pwaiting (enrol PUBS cx (Bus.pwaiting b)).2 b else Bus.append m b)).
Proof.
  intros Hi Hw Hids HP0. destruct (publish_with_context_spec m cx st _ Hi Hids Hsz HP0) as (st' & Hr & Hi').
  rewrite Bus.blocked_full in Hr, Hi'. change (bool_decide (live _ = 0)) with (Bus.quiet b) in Hr, Hi'.
  exists st'. split; [exact Hr|]. destruct (Bus.quiet b) eqn:Hq; [done|].
  destruct (Bus.blocked CAP b) eqn:Hb; [done|]. by rewrite <-Bus.view_append.
Qed.

Lemma bus_sim n s b (st : state) b' : sim (S n) s b → inv st (Bus.view_of CAP b') →
  b' = b ∨ (∃ l, b' = Bus.set_pwaiting l b) ∨ (∃ m, b' = Bus.append m b) → sim n (with_state s st) b'.
Proof.
  intros Hs Hi' [->|[[l ->]|[m ->]]]; apply (with_state_sim n s b); try done; try apply Hs; cbn; try lia.
  - apply Bus.wf_append, Hs.
  - rewrite length_app. cbn. lia.
Qed.

Lemma simulated_try_publish m : simulated (TryPublish m).
Proof.
  intros n s b r b' l Hs Hc. cbn [Bus.call] in Hc. unfold run_call, Pub.try_publish. cbn [psb_publish_with_context].
  destruct (bus_publish m None _ b (sim_inv _ _ _ Hs) (sim_wf _ _ _ Hs) (sim_ids_ok _ _ _ Hs)) as (st & Hr & Hi'); [done|].
  exists (with_state s st).
  destruct (Bus.quiet b), (Bus.blocked CAP b); cbn [negb andb] in Hr; injection Hc as <- <- <-;
    (split; [eapply runs_on_chan_reply; [exact (sim_cpu _ _ _ Hs)|exact (sim_free _ _ _ Hs)|exact Hr|apply runs_ret]|]);
    (apply (bus_sim n s b st); [done|done|eauto]).
Qed.

Lemma simulated_publish_immediate m : simulated (PublishImmediate m).
Proof.
  intros n s b r b' l Hs Hc. cbn [Bus.call] in Hc. unfold run_call, Pub.publish_immediate. cbn [psb_publish_immediate].
  destruct (publish_immediate_spec m _ _ (sim_inv _ _ _ Hs) (sim_ids_ok _ _ _ Hs) Hsz) as (st & Hr & Hi').
  exists (with_state s st). cbn [cursors swakers Bus.view_of] in Hr, Hi'.
  unfold Bus.quiet in Hc. case_decide as Hl; [rewrite bool_decide_true in Hc by done|rewrite bool_decide_false in Hc by done].
  all: injection Hc as <- <- <-.
  all: split; [eapply (runs_on_chan_reply (PubSubState.publish_immediate m) (λ _, mret Done) s tt st)|].
  all: try apply runs_ret.
  all: try exact Hr.
  all: try exact (sim_cpu _ _ _ Hs).
  all: try exact (sim_free _ _ _ Hs).
  all: apply (bus_sim n s b st); [done| |eauto].
  - unfold evicted in Hi'. rewrite Bus.blocked_full in Hi'. by rewrite Bus.quiet_not_blocked in Hi'.
  - rewrite <-Bus.view_append_evicted; [done|done|apply Hs|by apply bool_decide_eq_false].
Qed.

Lemma runs_future m cx s r st l : cpu_wf (chan s).1 → shared_free (chan s).2 →
  runs (PubSubState.publish_with_context m (Some cx)) (inner s) r st l →
  runs (with_future m (Pub.WaitFuture_poll cx)) s
    (match r with Ok _ => (Ready tt, None) | Err m => (Pending, Some m) end) (with_state s st) l.
Proof.
  intros Hc Hf Hr. pose proof (runs_channel_lock _ s r st l Hc Hf Hr) as Hl.
  set (F := match r with Ok _ => None | Err m => Some m end).
  assert (runs (Pub.WaitFuture_poll cx) (Pub.publish m, chan s)
    (match r with Ok _ => Ready tt | Err m => Pending end) (Pub.mk_future F, chan (with_state s st)) l) as Hp.
  { unfold Pub.WaitFuture_poll. eapply runs_bind_nil; [op_prim|]. eapply runs_bind_nil; [by apply runs_lift|].
    eapply runs_bind_nil; [op_prim|]. eapply runs_log; [eapply runs_bind|apply app_nil_r].
    - apply (runs_zoom snd (λ c (z : Pub.WaitFuture T * (Cpu * channel)), (z.1, c)) _ (Pub.mk_future None, chan s) r
        (chan (with_state s st)) l Hl).
    - subst F. destruct r as [[]|m']; [apply runs_ret|]. eapply runs_bind_nil; [op_prim|apply runs_ret]. }
  unfold runs, with_future in *. rewrite Hp. subst F. by destruct r.
Qed.

Lemma simulated_publish m cx : simulated (Publish m cx).
Proof.
  intros n s b r b' l Hs Hc. cbn [Bus.call] in Hc. pose proof (sim_held _ _ _ Hs) as Hh. unfold run_call.
  destruct (Bus.writers b) as [|k] eqn:Hk; cbn [decide] in Hc.
  { injection Hc as <- <- <-. exists s. split; [|by apply sim_idle]. eapply runs_bind_nil; [op_prim|].
    rewrite Hh. apply runs_ret. }
  rewrite decide_False in Hc by done.
  destruct (bus_publish m (Some cx) _ b (sim_inv _ _ _ Hs) (sim_wf _ _ _ Hs) (sim_ids_ok _ _ _ Hs))
    as (st & Hr & Hi').
  { intros _. pose proof (inv_pubs_max _ _ (sim_inv _ _ _ Hs)) as Hp. cbn in Hp. lia. }
  pose proof (runs_future m cx s _ st _ (sim_cpu _ _ _ Hs) (sim_free _ _ _ Hs) Hr) as Hf.
  exists (with_state s st).
  destruct (Bus.quiet b), (Bus.blocked CAP b); cbn [negb andb] in Hf; injection Hc as <- <- <-;
    (split; [eapply runs_bind_nil; [op_prim|]; rewrite Hh;
             op_map (exact Hf)|]);
    (apply (bus_sim n s b st); [done|done|eauto]).
Qed.

Lemma simulated_unsubscribe j : simulated (Unsubscribe j).
Proof.
  intros n s b r b' l Hs Hc. pose proof Hs as [Hcpu Hfree Hi Hw Hsubs Hheld Hids]. cbn [Bus.call] in Hc.
  pose proof (sim_sub _ _ _ j Hs) as Hj. unfold run_call.
  destruct (Bus.readers b !! j) as [[c|]|] eqn:Hb; cbn in Hj;
    [|injection Hc as <- <- <-; exists s; (split; [|by apply sim_idle]); eapply runs_bind_nil; [op_prim|];
      rewrite Hj; apply runs_ret..].
  destruct (decide (c < Bus.horizon CAP b)) as [|Hc']; [done|]. fold (Bus.reader j None b) in Hc.
  destruct (Bus.oldest_gone CAP j c b Hw Hcap Hb ltac:(lia)) as [Hle Ho].
  destruct (unregister_subscriber_spec (inner s) _ j c Hi (sim_ids_ok _ _ _ Hs) Hsz Hb) as (st & Hr & Hi').
  cbn [Bus.view_of start log pwakers] in Hr. unfold departed in Hi'. cbn [Bus.view_of start log] in Hi'.
  rewrite decide_True in Hi' by done. set (z := zeros _ _ _) in *. cbn zeta in Hi'.
  assert (r = Done ∧ l = (if bool_decide (Bus.oldest CAP b ≤ c ∧ z ≠ 0) then Bus.pwaiting b else []) ∧
    b' = if decide (z = 0) then Bus.reader j None b else Bus.set_pwaiting [] (Bus.reader j None b)) as (-> & -> & ->).
  { unfold Bus.made_room in Hc. rewrite Ho in Hc. fold z in Hc. destruct (decide (z = 0)) as [Hz|Hz].
    - rewrite decide_True in Hc by lia. rewrite bool_decide_false by tauto. by injection Hc as <- <- <-.
    - rewrite decide_False in Hc by lia. rewrite bool_decide_true by done. by injection Hc as <- <- <-. }
  exists (mk_clients (chan (with_state s st)) (<[j := None]> (subs s)) (held s)). split.
  - eapply runs_bind_nil; [op_prim|]. rewrite Hj.
    eapply runs_log; [eapply runs_bind; [eapply runs_with_sub|]|apply app_nil_r].
    + eapply runs_bind_nil; [op_prim|].
      apply (runs_zoom snd (λ c (z : Sub.t * (Cpu * channel)), (z.1, c)) _ (_, chan s) _ (chan (with_state s st))).
      exact (runs_channel_lock _ _ _ _ _ Hcpu Hfree Hr).
    + eapply runs_bind_nil; [op_prim|]. cbn [chan subs held]. rewrite list_insert_insert_eq. apply runs_ret.
  - assert (Bus.wf (Bus.reader j None b)) as Hw' by (by apply (Bus.wf_reader CAP)).
    pose proof (Bus.view_reader CAP j None b z Ho) as Hv.
    apply (sim_step n s b st); [done| | | | |].
    + destruct (decide (z = 0)) as [Hz|]; [by rewrite Hv, Hz, advance_0|].
      change (Bus.view_of CAP (Bus.set_pwaiting [] ?x)) with (with_pwakers [] (Bus.view_of CAP x)). by rewrite Hv.
    + by destruct (decide (z = 0)).
    + rewrite Hsubs. destruct (decide (z = 0)); cbn; by rewrite list_fmap_insert.
    + by destruct (decide (z = 0)).
    + destruct (decide (z = 0)); cbn; lia.
Qed.

Lemma call_simulated c : simulated c.
Proof.
  destruct c; [apply simulated_subscribe|apply simulated_next_message|apply simulated_available
    |apply simulated_unsubscribe|apply simulated_new_publisher|apply simulated_drop_publisher|apply simulated_publish
    |apply simulated_try_publish|apply simulated_publish_immediate|apply simulated_space].
Qed.

Lemma calls_simulated cs n s b io b' l : sim (length cs + n) s b → Bus.calls CAP SUBS PUBS cs b = Some (io, b', l) →
  ∃ s', runs (op_calls run_call cs) s io s' l ∧ sim n s' b'.
Proof.
  revert s b io b' l. induction cs as [|c cs IH]; intros s b io b' l Hs Hc.
  { injection Hc as <- <- <-. exists s. split; [apply runs_ret|done]. }
  cbn [Bus.calls] in Hc. apply bind_Some in Hc as ([[r b1] l1] & Hc1 & Hc).
  apply bind_Some in Hc as ([[io2 b2] l2] & Hc2 & [= <- <- <-]).
  destruct (call_simulated c _ _ _ _ _ _ Hs Hc1) as (s1 & Hr1 & Hs1).
  destruct (IH _ _ _ _ _ Hs1 Hc2) as (s2 & Hr2 & Hs2). exists s2. split; [|done].
  by eapply runs_calls_cons.
Qed.

Lemma calls_keep cs n s b io b' l : sim (length cs + n) s b → Bus.waits CAP b →
  Bus.calls CAP SUBS PUBS cs b = Some (io, b', l) → Bus.keeps CAP b b' l.
Proof.
  revert s b io b' l. induction cs as [|c cs IH]; intros s b io b' l Hs Hb Hc.
  { injection Hc as <- <- <-. by apply Bus.keeps_refl. }
  cbn [Bus.calls] in Hc. apply bind_Some in Hc as ([[r b1] l1] & Hc1 & Hc).
  apply bind_Some in Hc as ([[io2 b2] l2] & Hc2 & [= <- <- <-]).
  destruct (call_simulated c _ _ _ _ _ _ Hs Hc1) as (s1 & Hr1 & Hs1).
  pose proof (Bus.call_keeps CAP SUBS PUBS c b _ _ _ Hcap (sim_wf _ _ _ Hs) Hb Hc1) as Hk.
  eapply Bus.keeps_trans; [done|]. eapply IH; [done|by destruct Hk|done].
Qed.
End Simulation.

Definition Bus_new : Bus.t T := Bus.mk [] [] 0 [] [].
Definition new_clients (cpu : Cpu) : Clients := mk_clients (cpu, PubSubChannel.new) [] 0.

Lemma new_sim cpu n : cpu_wf cpu → (Z.of_nat n < modulus W64 - 1)%Z → sim n (new_clients cpu) Bus_new.
Proof.
  intros Hc Hn. constructor; try done. constructor; unfold items; cbn; rewrite ?dq_new_iter; try done; try lia;
    apply MultiWakerRegistration.view_new.
Qed.

Lemma Bus_new_waits : Bus.waits CAP Bus_new.
Proof. by intros ?. Qed.

Lemma inv_queue (st : state) b : inv st (Bus.view_of CAP b) →
  items st = imap (λ i m, (m, Z.of_nat (owed (Bus.oldest CAP b + i) (Bus.readers b))))
    (drop (Bus.oldest CAP b) (Bus.stream b)).
Proof.
  intros Hi. apply list_eq. intros i. rewrite (inv_items _ _ Hi), list_lookup_imap, lookup_drop.
  unfold entry, count. cbn. destruct (Bus.stream b !! _); [|done]. cbn. by rewrite Nat.add_0_r.
Qed.

(** C6: the channel is the ideal bus: a program that drops no lagging
    subscriber runs on a new channel without a panic, gets the replies the bus
    gives (every subscriber hears the messages published since it subscribed,
    once and in order, but those more than the capacity behind; a publisher is
    refused exactly while somebody is the capacity behind) and wakes the tasks
    the bus wakes; the queue then holds the messages from the oldest that
    somebody has yet to read on, each with the number of its readers left. *)
Theorem pubsub_broadcast cpu cs io b log : cpu_wf cpu → 0 < CAP →
  sizes_ok (CAP := CAP) (SUBS := SUBS) (PUBS := PUBS) → (Z.of_nat (length cs) < modulus W64 - 1)%Z →
  Bus.calls CAP SUBS PUBS cs Bus_new = Some (io, b, log) →
  ∃ s, runs (op_calls run_call cs) (new_clients cpu) io s log ∧
    items (inner s) = imap (λ i m, (m, Z.of_nat (owed (Bus.oldest CAP b + i) (Bus.readers b))))
      (drop (Bus.oldest CAP b) (Bus.stream b)).
Proof.
  intros Hc Hcap Hsz Hn Hb.
  destruct (calls_simulated Hcap Hsz cs 0 (new_clients cpu) Bus_new io b log) as (s & Hr & Hs).
  - apply new_sim; [done|]. by rewrite Nat.add_0_r.
  - done.
  - exists s. split; [done|]. by apply inv_queue, Hs.
Qed.

(** ** Who is woken *)
Definition subscribers_waiting s : list Waker := MultiWakerRegistration.view (PubSubState.subscriber_wakers (inner s)).
Definition publishers_waiting s : list Waker := MultiWakerRegistration.view (PubSubState.publisher_wakers (inner s)).

(** Reached by a program that the bus describes, [n] calls to come. *)
Definition running (n : nat) s b : Prop := sim n s b ∧ Bus.waits CAP b.

Lemma new_running cpu n : cpu_wf cpu → (Z.of_nat n < modulus W64 - 1)%Z → running n (new_clients cpu) Bus_new.
Proof. intros Hc Hn. split; [by apply new_sim|apply Bus_new_waits]. Qed.

Lemma calls_last cs b io b' l c r : Bus.calls CAP SUBS PUBS cs b = Some (io, b', l) → last io = Some (c, r) →
  ∃ b0 l0, Bus.call CAP SUBS PUBS c b0 = Some (r, b', l0).
Proof.
  revert b io b' l. induction cs as [|c0 cs IH]; intros b io b' l Hc; cbn [Bus.calls] in Hc.
  { by injection Hc as <- <- <-. }
  apply bind_Some in Hc as ([[r1 b1] l1] & Hc1 & Hc).
  apply bind_Some in Hc as ([[io2 b2] l2] & Hc2 & [= <- <- <-]).
  destruct io2 as [|x io2]; [|by intros; eapply IH].
  intros [= <- <-]. destruct cs as [|c1 cs]; [injection Hc2 as <- <-; by exists b, l1|].
  cbn [Bus.calls] in Hc2. apply bind_Some in Hc2 as ([[r2 b3] l3] & _ & Hc2).
  by apply bind_Some in Hc2 as ([[io3 b4] l4] & _ & [=]).
Qed.

Lemma pending_waits w j b0 b l0 :
  Bus.call CAP SUBS PUBS (NextMessage j (Some w)) b0 = Some (Heard Pending, b, l0) → w ∈ Bus.swaiting b.
Proof.
  cbn [Bus.call]. destruct (Bus.readers b0 !! j) as [[c|]|]; try done.
  unfold Bus.next_message. destruct (Bus.receive CAP c b0) as [[x|] c'].
  - by destruct (Bus.made_room _ _ _).
  - intros [= <- _]. apply enrol_in.
Qed.

Lemma blocked_waits m w k b0 b l0 :
  Bus.call CAP SUBS PUBS (Publish m w) b0 = Some (Sending Pending k, b, l0) → w ∈ Bus.pwaiting b.
Proof.
  cbn [Bus.call]. case_decide; [done|]. destruct (Bus.quiet b0), (Bus.blocked CAP b0); try done.
  intros [= _ <- _]. apply enrol_in.
Qed.

(** C15: no wake-up is lost by calls that drop no subscriber which lags (those are
    the calls the bus takes): a subscriber or publisher that is told to wait is
    registered; a waiting subscriber is woken or nothing has been published
    since; a waiting publisher is woken or the queue is still full.  When a lagging
    subscriber is dropped this fails: what it leaves behind is
    [pubsub_lagging_drop_blocks], and [publish_immediate] may afterwards make
    room without waking a publisher. *)
Theorem pubsub_no_lost_wakeup cs s b io b' log : 0 < CAP →
  sizes_ok (CAP := CAP) (SUBS := SUBS) (PUBS := PUBS) → running (length cs) s b →
  Bus.calls CAP SUBS PUBS cs b = Some (io, b', log) →
  ∃ s', runs (op_calls run_call cs) s io s' log ∧ running 0 s' b' ∧ ∀ w,
    (w ∈ subscribers_waiting s → w ∈ log ∨ w ∈ subscribers_waiting s' ∧
      PubSubState.next_message_id (inner s') = PubSubState.next_message_id (inner s)) ∧
    (w ∈ publishers_waiting s → w ∈ log ∨ w ∈ publishers_waiting s' ∧
      dq_is_full (PubSubState.queue (inner s')) = true) ∧
    (∀ j, last io = Some (NextMessage j (Some w), Heard Pending) → w ∈ subscribers_waiting s') ∧
    (∀ m k, last io = Some (Publish m w, Sending Pending k) → w ∈ publishers_waiting s').
Proof.
  intros Hcap Hsz [Hs Hw] Hb. rewrite <-(Nat.add_0_r (length cs)) in Hs.
  destruct (calls_simulated Hcap Hsz cs 0 s b io b' log Hs Hb) as (s' & Hr & Hs').
  destruct (calls_keep Hcap Hsz cs 0 s b io b' log Hs Hw Hb) as (Hw' & Hk1 & Hk2).
  exists s'. split; [done|]. split; [by split|]. intros w. unfold subscribers_waiting, publishers_waiting.
  rewrite (inv_swakers _ _ (sim_inv _ _ _ Hs)), (inv_pwakers _ _ (sim_inv _ _ _ Hs)).
  rewrite (inv_swakers _ _ (sim_inv _ _ _ Hs')), (inv_pwakers _ _ (sim_inv _ _ _ Hs')).
  rewrite (inv_next _ _ (sim_inv _ _ _ Hs)), (inv_next _ _ (sim_inv _ _ _ Hs')).
  rewrite (inv_full _ _ (sim_inv _ _ _ Hs')), Bus.blocked_full. cbn [swakers pwakers PubSubFacts.log Bus.view_of].
  split_and!.
  - intros Hin. destruct (Hk1 w Hin) as [|[? ->]]; auto.
  - intros Hin. destruct (Hk2 w Hin) as [|Hin']; [by left|right]. split; [done|]. apply Hw'.
    intros Hnil. rewrite Hnil in Hin'. by apply not_elem_of_nil in Hin'.
  - intros j Hl. destruct (calls_last _ _ _ _ _ _ _ Hb Hl) as (b0 & l0 & Hc). by eapply pending_waits.
  - intros m k Hl. destruct (calls_last _ _ _ _ _ _ _ Hb Hl) as (b0 & l0 & Hc). by eapply blocked_waits.
Qed.

(** ** Skipping lags *)

(** One reading by the subscriber at [c]. *)
Lemma sub_reads cx n s b j c : 0 < CAP → sizes_ok (CAP := CAP) (SUBS := SUBS) (PUBS := PUBS) →
  sim (S n) s b → Bus.readers b !! j = Some (Some c) →
  let '(p, b', l) := Bus.next_message CAP SUBS cx j c b in
  ∃ c' s', runs (Sub.get cx) (Sub.mk (Z.of_nat c), chan s) p (Sub.mk (Z.of_nat c'), chan s') l ∧
    sim n s' b' ∧ Bus.readers b' !! j = Some (Some c') ∧ Bus.stream b' = Bus.stream b.
Proof.
  intros Hcap Hsz Hs Hj. pose proof Hs as [Hcpu Hfree Hi Hw Hsubs Hheld Hids].
  pose proof (bus_next_message Hcap Hsz cx (inner s) b j c Hi Hw (sim_ids_ok _ _ _ Hs) Hj) as Hn.
  destruct (Bus.next_message CAP SUBS cx j c b) as [[p b1] l1].
  destruct Hn as (c' & st & Hr & Hi' & Hw' & Hrd & Hwr & Hst).
  exists c', (mk_clients (chan (with_state s st)) (handle <$> Bus.readers b1) (Bus.writers b1)). split_and!.
  - by apply runs_sub_get_message.
  - apply (sim_step n s b st); [done..|rewrite Hst; lia].
  - rewrite Hrd. apply list_lookup_insert_eq. by eapply lookup_lt_Some.
  - done.
Qed.

(** What [next_message_pure] hears at [c]. *)
Definition pure_message c b : Poll T :=
  match Bus.stream b !! Nat.max c (Bus.horizon CAP b) with Some m => Ready m | None => Pending end.

Lemma receive_pure b c : c < Bus.horizon CAP b ∨
  Bus.receive CAP c b = (match pure_message c b with Ready m => Ready (Message m) | Pending => Pending end,
    match pure_message c b with Ready _ => S c | Pending => c end).
Proof.
  unfold pure_message, Bus.receive. case_decide; [by left|right].
  rewrite Nat.max_l by lia. by destruct (Bus.stream b !! c).
Qed.

Lemma next_message_pure_heard cx b j c : ¬ c < Bus.horizon CAP b →
  (Bus.next_message CAP SUBS cx j c b).1.1 =
    match pure_message c b with Ready m => Ready (Message m) | Pending => Pending end.
Proof.
  intros Hc. unfold Bus.next_message. destruct (receive_pure b c) as [| ->]; [done|].
  destruct (pure_message c b); [|done]. by destruct (Bus.made_room _ _ _).
Qed.

Lemma next_message_lagged cx b j c : c < Bus.horizon CAP b → ∃ b' l k,
  Bus.next_message CAP SUBS cx j c b = (Ready (Lagged k), b', l) ∧
  Bus.readers b' = <[j := Some (Bus.horizon CAP b)]> (Bus.readers b) ∧ Bus.stream b' = Bus.stream b.
Proof.
  intros Hc. unfold Bus.next_message, Bus.receive. rewrite decide_True by done.
  unfold Bus.made_room. case_decide; by eexists _, _, _.
Qed.

(** C30: [next_message_pure] skips at most one lag: its poll loop ends within
    two rounds, with the oldest message still queued that the subscriber has
    not had, and is pending only if there is none. *)
Theorem pubsub_pure_terminates w n s b j c fuel : 0 < CAP →
  sizes_ok (CAP := CAP) (SUBS := SUBS) (PUBS := PUBS) → sim (S (S n)) s b →
  Bus.readers b !! j = Some (Some c) →
  ∃ x s' b' l, runs (Sub.next_message_pure_poll (S (S fuel)) w) (Sub.mk (Z.of_nat c), chan s)
      (Some (pure_message c b)) (x, chan s') l ∧ sim n s' b' ∧ Bus.stream b' = Bus.stream b.
Proof.
  intros Hcap Hsz Hs Hj. cbn [Sub.next_message_pure_poll]. unfold Sub.SubscriberWaitFuture_poll.
  pose proof (sub_reads (Some w) (S n) s b j c Hcap Hsz Hs Hj) as Hr.
  destruct (decide (c < Bus.horizon CAP b)) as [Hc|Hc].
  - destruct (next_message_lagged (Some w) b j c Hc) as (b1 & l1 & k & Heq & Hrd & Hst). rewrite Heq in Hr.
    destruct Hr as (c1 & s1 & Hr1 & Hs1 & Hj1 & _). rewrite Hrd in Hj1.
    rewrite list_lookup_insert_eq in Hj1 by (by eapply lookup_lt_Some). injection Hj1 as <-.
    assert (pure_message c b = pure_message (Bus.horizon CAP b) b1) as ->.
    { unfold pure_message, Bus.horizon. rewrite Hst. by rewrite Nat.max_r, Nat.max_id by (unfold Bus.horizon in Hc; lia). }
    set (c1 := Bus.horizon CAP b) in *.
    assert (Bus.readers b1 !! j = Some (Some c1)) as Hj1.
    { rewrite Hrd. apply list_lookup_insert_eq. by eapply lookup_lt_Some. }
    assert (¬ c1 < Bus.horizon CAP b1) as Hc1 by (subst c1; unfold Bus.horizon; rewrite Hst; lia).
    pose proof (sub_reads (Some w) n s1 b1 j c1 Hcap Hsz Hs1 Hj1) as Hr2.
    pose proof (next_message_pure_heard (Some w) b1 j c1 Hc1) as Hp.
    destruct (Bus.next_message CAP SUBS (Some w) j c1 b1) as [[p b2] l2]. cbn in Hp. subst p.
    destruct Hr2 as (c2 & s2 & Hr2 & Hs2 & _ & Hst2). eexists _, s2, b2, _. split; [|split; [done|congruence]].
    eapply runs_bind; [exact Hr1|]. cbv beta iota.
    destruct (pure_message c1 b1);
      (op_map (exact Hr2)).
  - pose proof (next_message_pure_heard (Some w) b j c Hc) as Hp.
    destruct (Bus.next_message CAP SUBS (Some w) j c b) as [[p b2] l2]. cbn in Hp. subst p.
    destruct Hr as (c2 & s2 & Hr2 & Hs2 & _ & Hst2). eexists _, s2, b2, _. split; [|split; [by apply sim_idle|done]].
    destruct (pure_message c b);
      (op_map (exact Hr2)).
Qed.

(** ** Lagging subscribers that leave *)
Lemma inv_items_same (st st' : state) v v' : inv st v → inv st' v' → PubSubFacts.log v' = PubSubFacts.log v →
  start v' = start v → (∀ id, start v ≤ id < length (PubSubFacts.log v) → count v' id = count v id) →
  items st' = items st.
Proof.
  intros Hi Hi' Hl Hst Hc. apply list_eq. intros i. rewrite (inv_items _ _ Hi), (inv_items _ _ Hi'), Hst.
  apply entry_count; [done|]. intros Hid. apply Hc. lia.
Qed.

(** C37: when the last subscriber is dropped while it lags behind a full queue,
    its messages stay queued and the publishers that wait are not woken; a new
    subscriber has nothing to read, and yet publishing goes on being refused. *)
Theorem pubsub_lagging_drop_blocks (s : state) v j c m w : inv s v → ids_ok v →
  sizes_ok (CAP := CAP) (SUBS := SUBS) (PUBS := PUBS) → 0 < PUBS → full (CAP := CAP) v = true →
  live (cursors v) = 1 → cursors v !! j = Some (Some c) → c < start v →
  ∃ (s1 s2 s3 : state) l, let n := Z.of_nat (length (PubSubFacts.log v)) in
    runs (PubSubState.unregister_subscriber (Z.of_nat c)) s (Some tt) s1 [] ∧
    MultiWakerRegistration.view (PubSubState.publisher_wakers s1) = pwakers v ∧
    runs PubSubState.subscriber s1 (Ok n) s2 [] ∧
    runs (PubSubState.available n) s2 0%Z s2 [] ∧
    runs (PubSubState.publish_with_context m (Some w)) s2 (Err m) s3 l ∧
    items s3 = items s.
Proof.
  intros Hi Hids Hsz HP0 Hf Hlive Hj Hc.
  destruct (unregister_subscriber_spec s v j c Hi Hids Hsz Hj) as (s1 & Hr1 & Hi1).
  rewrite bool_decide_false in Hr1 by lia. unfold departed in Hi1. rewrite decide_False in Hi1 by lia.
  set (v1 := with_leak (leaked v) (gone j v)) in *.
  assert (live (cursors v1) = 0) as Hl1 by (pose proof (live_gone j c _ Hj); subst v1; cbn -[live]; lia).
  pose proof (subscriber_spec s1 v1 Hi1 Hsz) as Hr2.
  pose proof (inv_live _ _ Hi) as HS. rewrite decide_True in Hr2 by lia. destruct Hr2 as (s2 & Hr2 & Hi2).
  set (v2 := with_cursors _ v1) in *.
  destruct (publish_with_context_spec m (Some w) s2 v2 Hi2 Hids Hsz (λ _, HP0)) as (s3 & Hr3 & Hi3).
  assert (live (cursors v2) = 1) as Hl2 by (unfold v2; cbn [cursors with_cursors]; by rewrite live_snoc, Hl1).
  rewrite bool_decide_false in Hr3, Hi3 by lia. change (full v2) with (full (CAP := CAP) v) in Hr3, Hi3.
  rewrite Hf in Hr3, Hi3. cbn [negb andb] in Hr3.
  exists s1, s2, s3, (enrol PUBS (Some w) (pwakers v2)).1. cbn zeta. split; [done|].
  split; [apply (inv_pwakers _ _ Hi1)|]. split; [done|]. split; [|split; [done|]].
  - eapply runs_bind_nil; [op_prim|]. rewrite (inv_next _ _ Hi2). apply runs_lift. cbn.
    unfold ids_ok in Hids. rewrite usub_in by width. f_equal. lia.
  - apply (inv_items_same s s3 v _ Hi Hi3); [done|done|]. intros id Hid.
    change (count (with_pwakers _ v2) id) with (count v2 id). unfold count. subst v2 v1.
    cbn [cursors leak with_cursors with_leak gone]. rewrite owed_snoc. cbn [owes]. cbn [PubSubFacts.log with_leak gone with_cursors]. rewrite decide_False by lia.
    pose proof (count_gone v j c id Hj) as Hg. unfold count in Hg. cbn [cursors leak gone with_cursors] in Hg.
    unfold leaked. rewrite decide_True by lia. rewrite decide_True in Hg by lia. lia.
Qed.
End Clients.

(** ** Instances: two slots, one subscriber and one publisher *)
#[local] Existing Instances cs_with_model cs_with_model_law.
#[local] Instance demo_profile : Profile := true.

Definition demo_cpu : Cpu := mk_cpu true 0 0.
Definition demo_waker : Waker := mk_waker 7 TASK_VTABLE.
Definition demo : Clients (R := CriticalSectionRawMutex) (D := blist) (V := blist_vec) (T := Z)
    (CAP := 2) (SUBS := 1) (PUBS := 1) := new_clients demo_cpu.

(** The subscriber falls behind, and the publisher then waits. *)
Definition demo_fill : list (Call Z) :=
  [Subscribe; NewPublisher; TryPublish 1%Z; TryPublish 2%Z; TryPublish 3%Z; PublishImmediate 3%Z;
   Publish 4%Z demo_waker].
Definition demo_read : list (Call Z) :=
  [NextMessage 0 None; NextMessage 0 None; NextMessage 0 None; NextMessage 0 (Some demo_waker)].

Definition demo_bus : option (list (Call Z * Reply Z) * Bus.t Z * list Waker) :=
  Bus.calls 2 1 1 demo_fill Bus_new.
Definition demo_lagging : Bus.t Z := Bus.mk [1; 2; 3]%Z [Some 0] 1 [] [demo_waker].

Example demo_fills : (λ x, (x.1.1.*2, x.1.2)) <$> demo_bus =
  Some ([Registered (Ok tt); Registered (Ok tt); Sent (Ok tt); Sent (Ok tt); Sent (Err 3%Z); Done;
         Sending Pending (Some 4%Z)], demo_lagging).
Proof. reflexivity. Qed.

Example demo_reads : (λ x, (x.1.1.*2, x.2)) <$> Bus.calls 2 1 1 demo_read demo_lagging =
  Some ([Tried (Some (Lagged 1)); Tried (Some (Message 2%Z)); Tried (Some (Message 3%Z)); Heard Pending],
        [demo_waker]).
Proof. reflexivity. Qed.

Definition demo_sizes : sizes_ok (CAP := 2) (SUBS := 1) (PUBS := 1).
Proof. by repeat split. Defined.

Lemma demo_sim n : (Z.of_nat (7 + n) < modulus W64 - 1)%Z → ∃ s log,
  runs (op_calls run_call demo_fill) demo (default [] ((λ x, x.1.1) <$> demo_bus)) s log ∧
  running n s demo_lagging.
Proof.
  intros Hn. destruct (demo_bus) as [[[io b] l]|] eqn:Hb; [|done].
  assert (Bus.calls 2 1 1 demo_fill Bus_new = Some (io, b, l)) as Hc by exact Hb.
  destruct (calls_simulated (Nat.lt_0_succ 1) demo_sizes demo_fill n demo Bus_new io b l) as (s & Hr & Hs); [|done|].
  { by apply new_sim. }
  exists s, l. split; [done|]. vm_compute in Hb. injection Hb as <- <- <-. split; [exact Hs|]. by intros _.
Qed.

Lemma pubsub_broadcast_witness : ∃ s,
  runs (op_calls run_call (demo_fill ++ demo_read)) demo
    (zip (demo_fill ++ demo_read)
      [Registered (Ok tt); Registered (Ok tt); Sent (Ok tt); Sent (Ok tt); Sent (Err 3%Z); Done;
       Sending Pending (Some 4%Z); Tried (Some (Lagged 1)); Tried (Some (Message 2%Z));
       Tried (Some (Message 3%Z)); Heard Pending]) s [demo_waker] ∧ items (inner s) = [].
Proof.
  by apply (pubsub_broadcast demo_cpu (demo_fill ++ demo_read) _
    (Bus.mk [1; 2; 3]%Z [Some 3] 1 [demo_waker] []) _ ltac:(by split) (Nat.lt_0_succ 1) demo_sizes).
Defined.

Lemma pubsub_no_lost_wakeup_witness : ∃ (s s' : Clients (R := CriticalSectionRawMutex) (D := blist)
    (V := blist_vec) (T := Z) (CAP := 2) (SUBS := 1) (PUBS := 1)) io,
  demo_waker ∈ publishers_waiting s ∧ runs (op_calls run_call demo_read) s io s' [demo_waker] ∧
  demo_waker ∈ subscribers_waiting s'.
Proof.
  destruct (demo_sim 4) as (s & l & Hr & Hs); [done|].
  destruct (pubsub_no_lost_wakeup demo_read s demo_lagging _
    (Bus.mk [1; 2; 3]%Z [Some 3] 1 [demo_waker] []) [demo_waker] (Nat.lt_0_succ 1) demo_sizes Hs eq_refl)
    as (s' & Hr' & Hs' & Hw).
  exists s, s'. eexists. split; [|split; [exact Hr'|]].
  - unfold publishers_waiting. destruct Hs as [Hs _]. rewrite (inv_pwakers _ _ (sim_inv _ _ _ Hs)).
    by apply list_elem_of_singleton.
  - destruct (Hw demo_waker) as (_ & _ & Hp & _). by apply (Hp 0).
Defined.

Lemma pubsub_pure_terminates_witness : ∃ s x s' l,
  runs (Sub.next_message_pure_poll 2 demo_waker) (Sub.mk 0, chan (s : Clients (R := CriticalSectionRawMutex)
    (D := blist) (V := blist_vec) (T := Z) (CAP := 2) (SUBS := 1) (PUBS := 1)))
    (Some (Ready 2%Z)) (x, chan s') l.
Proof.
  destruct (demo_sim 2) as (s & l & Hr & [Hs _]); [done|].
  destruct (pubsub_pure_terminates demo_waker 0 s demo_lagging 0 0 0 (Nat.lt_0_succ 1) demo_sizes Hs eq_refl)
    as (x & s' & b' & l' & Hr' & _). exists s, x, s', l'. exact Hr'.
Defined.

Lemma pubsub_lagging_drop_blocks_witness :
  ∃ (s s1 s2 s3 : PubSubState.t blist blist_vec Z 2 1 1) l,
  runs (PubSubState.unregister_subscriber 0) s (Some tt) s1 [] ∧
  MultiWakerRegistration.view (PubSubState.publisher_wakers s1) = [demo_waker] ∧
  runs PubSubState.subscriber s1 (Ok 3%Z) s2 [] ∧
  runs (PubSubState.publish_with_context 4%Z (Some demo_waker)) s2 (Err 4%Z) s3 l.
Proof.
  destruct (demo_sim 2) as (s & l & Hr & [Hs _]); [done|].
  destruct (pubsub_lagging_drop_blocks (inner s) (Bus.view_of 2 demo_lagging) 0 0 4%Z demo_waker
    (sim_inv _ _ _ Hs) eq_refl demo_sizes (Nat.lt_0_succ 0) eq_refl eq_refl eq_refl)
    as (s1 & s2 & s3 & l' & H1 & H2 & H3 & _ & H4 & _); [vm_compute; lia|].
  exists (inner s), s1, s2, s3, l'. split_and!; assumption.
Defined.
