(* ===== verification/Startup.v ===== *)
(** * The start-up code ([runtime.rs])

    The C runtime that runs between reset and [main] is TriCore assembly.  An
    instruction is an operation on the core (its registers and its memory, a
    byte per address), written as the assembly writes it, and a routine is the
    sequence of its instructions; a hardware loop is a recursion with fuel, and
    running out of fuel counts as a panic.  [call] and [ret] save and restore
    the upper context; the context save area they save it in is memory of its
    own here.  The table of parameters comes from the linker, the hooks
    [Crt0PreInit] and [Crt0PostInit], the constructors and [main] are other
    code: they are parameters. *)

From stdpp Require Import functions.
From S2P Require Import Prelude.

Module Startup.

(** Symbols of the source: offsets and sizes. *)
Definition STACK : Z := 0x00.
Definition STACK_SIZE : Z := 0x04.
Definition CSA : Z := 0x08.
Definition CSA_SIZE : Z := 0x0C.
Definition SDATA : Z := 0x10.
Definition SDATA2 : Z := 0x14.
Definition SDATA3 : Z := 0x18.
Definition SDATA4 : Z := 0x1C.
Definition CLEAR_TABLE : Z := 0x20.
Definition COPY_TABLE : Z := 0x24.
Definition CTOR_TABLE : Z := 0x28.
Definition CPUINIT_SIZE : Z := 0x2C.

Definition CSA_ENTRY_SIZE : Z := 64.
Definition LW_OFFSET_SHIFT : Z := -6.

Definition CLEAR_TABLE_DST : Z := 0x00.
Definition CLEAR_TABLE_SIZE : Z := 0x04.
Definition CLEAR_TABLE_OFFSET : Z := 0x08.

Definition COPY_TABLE_SRC : Z := 0x00.
Definition COPY_TABLE_DST : Z := 0x04.
Definition COPY_TABLE_SIZE : Z := 0x08.
Definition COPY_TABLE_OFFSET : Z := 0x0C.

(** ** The core *)
Record Core := mk {
  A : nat → Z;      (* address registers; [%sp] is A10 *)
  D : nat → Z;      (* data registers *)
  psw : Z;
  pcxi : Z;
  fcx : Z;
  lcx : Z;
  isp : Z;
  btv : Z;
  biv : Z;
  mem : Z → Z
}.

Definition w32 (z : Z) : Z := (z mod modulus W32)%Z.

Definition set_A (n : nat) (v : Z) (s : Core) : Core :=
  mk (<[n := w32 v]> (A s)) (D s) (psw s) (pcxi s) (fcx s) (lcx s) (isp s) (btv s) (biv s) (mem s).
Definition set_D (n : nat) (v : Z) (s : Core) : Core :=
  mk (A s) (<[n := w32 v]> (D s)) (psw s) (pcxi s) (fcx s) (lcx s) (isp s) (btv s) (biv s) (mem s).
Definition set_mem (m : Z → Z) (s : Core) : Core :=
  mk (A s) (D s) (psw s) (pcxi s) (fcx s) (lcx s) (isp s) (btv s) (biv s) m.

(** A little-endian word. *)
Definition word (m : Z → Z) (a : Z) : Z :=
  (m a + 256 * m (a + 1) + 65536 * m (a + 2) + 16777216 * m (a + 3))%Z.
Definition byte_of (i v : Z) : Z := (Z.shiftr v (8 * i) mod 256)%Z.
Definition store_byte (a v : Z) (m : Z → Z) : Z → Z := <[a := (v mod 256)%Z]> m.
Definition store_word (a v : Z) (m : Z → Z) : Z → Z := λ b,
  if decide (a ≤ b < a + 4)%Z then byte_of (b - a) v else m b.

Section Code.
Context {E : Type}.
Abbreviation AOp := (Op E Core).

(** ** Instructions *)
Definition read_A (n : nat) : AOp Z := s ← op_get; mret (A s n).
Definition read_D (n : nat) : AOp Z := s ← op_get; mret (D s n).

Definition mov (d : nat) (k : Z) : AOp unit := op_modify (set_D d k).
Definition mov_u (d : nat) (k : Z) : AOp unit := op_modify (set_D d k).
Definition movh (d : nat) (k : Z) : AOp unit := op_modify (set_D d (Z.shiftl k 16)).
Definition mov_dd (d e : nat) : AOp unit := op_modify (λ s, set_D d (D s e) s).
Definition mov_e14 (k : Z) : AOp unit :=
  op_modify (λ s, set_D 15 (Z.shiftr k 32) (set_D 14 k s)).
Definition mov_a_k (a : nat) (k : Z) : AOp unit := op_modify (set_A a k).
Definition mov_a (a d : nat) : AOp unit := op_modify (λ s, set_A a (D s d) s).
Definition mov_aa (a b : nat) : AOp unit := op_modify (λ s, set_A a (A s b) s).
Definition mov_d (d a : nat) : AOp unit := op_modify (λ s, set_D d (A s a) s).
Definition add (d : nat) (k : Z) : AOp unit := op_modify (λ s, set_D d (D s d + k) s).
Definition add_dd (d e f : nat) : AOp unit := op_modify (λ s, set_D d (D s e + D s f) s).
Definition add_a_k (a : nat) (k : Z) : AOp unit := op_modify (λ s, set_A a (A s a + k) s).
Definition add_a (a b : nat) : AOp unit := op_modify (λ s, set_A a (A s a + A s b) s).
Definition addsc_a (a b d : nat) (n : Z) : AOp unit :=
  op_modify (λ s, set_A a (A s b + Z.shiftl (D s d) n) s).
Definition mul (d e : nat) (k : Z) : AOp unit := op_modify (λ s, set_D d (D s e * k) s).
(** The shifts of the source are all to the right. *)
Definition sh (d e : nat) (k : Z) : AOp unit := op_modify (λ s, set_D d (Z.shiftr (D s e) (- k)) s).
Definition and_k (d e : nat) (k : Z) : AOp unit := op_modify (λ s, set_D d (Z.land (D s e) k) s).
Definition and (d e : nat) : AOp unit := op_modify (λ s, set_D d (Z.land (D s d) (D s e)) s).
Definition or_k (d e : nat) (k : Z) : AOp unit := op_modify (λ s, set_D d (Z.lor (D s e) k) s).
Definition or (d e : nat) : AOp unit := op_modify (λ s, set_D d (Z.lor (D s d) (D s e)) s).
Definition andn_k (d e : nat) (k : Z) : AOp unit := op_modify (λ s, set_D d (Z.ldiff (D s e) k) s).

Definition ld_w (d a : nat) (off : Z) : AOp unit :=
  op_modify (λ s, set_D d (word (mem s) (A s a + off)) s).
Definition ld_a (c a : nat) (off : Z) : AOp unit :=
  op_modify (λ s, set_A c (word (mem s) (A s a + off)) s).
Definition ld_w_post (d a : nat) (k : Z) : AOp unit :=
  op_modify (λ s, set_A a (A s a + k) (set_D d (word (mem s) (A s a)) s)).
(** A byte is loaded with its sign. *)
Definition ld_b_post (d a : nat) (k : Z) : AOp unit :=
  op_modify (λ s, set_A a (A s a + k)
    (set_D d (if Z.ltb (mem s (A s a)) 128 then mem s (A s a) else mem s (A s a) - 256) s)).
Definition st_w (a d : nat) : AOp unit :=
  op_modify (λ s, set_mem (store_word (A s a) (D s d) (mem s)) s).
Definition st_b_post (a : nat) (k : Z) (d : nat) : AOp unit :=
  op_modify (λ s, set_A a (A s a + k) (set_mem (store_byte (A s a) (D s d) (mem s)) s)).
(** [st.d] of the register pair [%e14]. *)
Definition st_d_post (a : nat) (k : Z) : AOp unit :=
  op_modify (λ s, set_A a (A s a + k)
    (set_mem (store_word (A s a + 4) (D s 15) (store_word (A s a) (D s 14) (mem s))) s)).

Definition mtcr_psw (d : nat) : AOp unit := op_modify (λ s,
  mk (A s) (D s) (D s d) (pcxi s) (fcx s) (lcx s) (isp s) (btv s) (biv s) (mem s)).
Definition mtcr_pcxi (d : nat) : AOp unit := op_modify (λ s,
  mk (A s) (D s) (psw s) (D s d) (fcx s) (lcx s) (isp s) (btv s) (biv s) (mem s)).
Definition mtcr_fcx (d : nat) : AOp unit := op_modify (λ s,
  mk (A s) (D s) (psw s) (pcxi s) (D s d) (lcx s) (isp s) (btv s) (biv s) (mem s)).
Definition mtcr_lcx (d : nat) : AOp unit := op_modify (λ s,
  mk (A s) (D s) (psw s) (pcxi s) (fcx s) (D s d) (isp s) (btv s) (biv s) (mem s)).
Definition mtcr_isp (d : nat) : AOp unit := op_modify (λ s,
  mk (A s) (D s) (psw s) (pcxi s) (fcx s) (lcx s) (D s d) (btv s) (biv s) (mem s)).
Definition mtcr_btv (d : nat) : AOp unit := op_modify (λ s,
  mk (A s) (D s) (psw s) (pcxi s) (fcx s) (lcx s) (isp s) (D s d) (biv s) (mem s)).
Definition mfcr_psw (d : nat) : AOp unit := op_modify (λ s, set_D d (psw s) s).

(** [loop]: whether to go round again; the counter goes down either way. *)
Definition loop_again (a : nat) : AOp bool :=
  s ← op_get;
  op_modify (set_A a (A s a - 1));;
  mret (negb (Z.eqb (A s a) 0)).

Fixpoint hw_loop (fuel : nat) (a : nat) (body : AOp unit) : AOp unit :=
  match fuel with
  | O => op_panic
  | S fuel =>
      body;;
      again ← loop_again a;
      if (again : bool) then hw_loop fuel a body else mret tt
  end.

(** The upper context: A10 to A15, D8 to D15 and PSW. *)
Definition restore_upper (s s' : Core) : Core :=
  mk (λ n, if decide (10 ≤ n ≤ 15) then A s n else A s' n)
    (λ n, if decide (8 ≤ n ≤ 15) then D s n else D s' n)
    (psw s) (pcxi s') (fcx s') (lcx s') (isp s') (btv s') (biv s') (mem s').

Definition call (routine : AOp unit) : AOp unit :=
  s ← op_get;
  routine;;
  op_modify (restore_upper s).

(** ** Routines *)
Definition clear_exec (fuel : nat) : AOp unit :=
  d4 ← read_D 4;
  if Z.eqb d4 0 then mret tt
  else
    add 4 (-1);;
    sh 4 4 (-3);;
    mov_a 15 4;;
    mov_e14 0;;
    hw_loop fuel 15 (st_d_post 4 8).

Definition copy_exec (fuel : nat) : AOp unit :=
  mov_dd 15 4;;
  d15 ← read_D 15;
  if Z.eqb d15 0 then mret tt
  else
    add 15 (-1);;
    mov_a 15 15;;
    hw_loop fuel 15 (
      ld_b_post 15 5 1;;
      st_b_post 4 1 15).

(** [jeq %d15, -1] *)
Definition at_end : AOp bool := d15 ← read_D 15; mret (Z.eqb d15 (w32 (-1))).

(** [fuel] bounds the rows of the table, [loops] the rounds for one of them. *)
Fixpoint table_bss_clear_loop (fuel loops : nat) : AOp unit :=
  match fuel with
  | O => op_panic
  | S fuel =>
      ld_w 15 13 CLEAR_TABLE_DST;;
      stop ← at_end;
      if (stop : bool) then mret tt
      else
        mov_a 4 15;;
        ld_w 4 13 CLEAR_TABLE_SIZE;;
        call (clear_exec loops);;
        add_a 13 12;;
        table_bss_clear_loop fuel loops
  end.

Definition Crt0BssInit (fuel loops : nat) : AOp unit :=
  mov_aa 13 4;;
  mov_a_k 12 CLEAR_TABLE_OFFSET;;
  table_bss_clear_loop fuel loops.

Fixpoint table_data_copy_loop (fuel loops : nat) : AOp unit :=
  match fuel with
  | O => op_panic
  | S fuel =>
      ld_w 15 13 COPY_TABLE_DST;;
      stop ← at_end;
      if (stop : bool) then mret tt
      else
        mov_a 4 15;;
        ld_w 4 13 COPY_TABLE_SRC;;
        mov_a 5 4;;
        ld_w 4 13 COPY_TABLE_SIZE;;
        call (copy_exec loops);;
        add_a 13 12;;
        table_data_copy_loop fuel loops
  end.

Definition Crt0DataInit (fuel loops : nat) : AOp unit :=
  mov_aa 13 4;;
  mov_a_k 12 COPY_TABLE_OFFSET;;
  table_data_copy_loop fuel loops.

(** [ctor a] is the function at address [a]. *)
Definition Crt0CtorInit (ctor : Z → AOp unit) (fuel : nat) : AOp unit :=
  a4 ← read_A 4;
  if Z.eqb a4 0 then mret tt
  else
    ld_w_post 4 4 4;;
    mov_a 15 4;;
    a15 ← read_A 15;
    if Z.eqb a15 0 then mret tt
    else
      add_a_k 15 (-1);;
      hw_loop fuel 15 (
        ld_w_post 4 4 4;;
        mov_a 13 4;;
        a13 ← read_A 13;
        call (ctor a13)).

(** ** [_start], block by block *)

(** The entry of the core in the table at [__crt0_config]. *)
Definition config_base (crt0_config core_id : Z) : AOp unit :=
  mov_a_k 14 crt0_config;;
  mov 15 core_id;;
  and_k 15 15 7;;
  mul 15 15 CPUINIT_SIZE;;
  addsc_a 14 14 15 0.

Definition small_data_registers : AOp unit :=
  mfcr_psw 15;;
  or_k 15 15 0x7f;;
  andn_k 15 15 0x80;;
  or_k 15 15 0x100;;
  mtcr_psw 15;;
  ld_w 15 14 SDATA;;
  mov_a 0 15;;
  ld_w 15 14 SDATA2;;
  mov_a 1 15;;
  ld_w 15 14 SDATA3;;
  mov_a 8 15;;
  ld_w 15 14 SDATA4;;
  mov_a 9 15;;
  mfcr_psw 15;;
  andn_k 15 15 0x100;;
  mtcr_psw 15.

Definition csa_init (fuel : nat) : AOp unit :=
  mov 4 0;;
  mtcr_pcxi 4;;
  ld_w 4 14 CSA_SIZE;;
  sh 4 4 LW_OFFSET_SHIFT;;
  mov_a 4 4;;
  add_a_k 4 (-1);;
  mov 4 CSA_ENTRY_SIZE;;
  mov_a 3 4;;
  ld_a 15 14 CSA;;
  movh 5 0x000F;;
  mov_d 15 15;;
  sh 15 15 (-12);;
  and 15 5;;
  mov_u 5 0xFFFF;;
  mov_d 4 15;;
  sh 4 4 LW_OFFSET_SHIFT;;
  and 4 5;;
  or 4 15;;
  mtcr_fcx 4;;
  hw_loop fuel 4 (
    add 4 1;;
    st_w 15 4;;
    add_a 15 3);;
  mtcr_lcx 4.

Definition stack_init (loops : nat) : AOp unit :=
  ld_w 4 14 STACK;;
  mov_a 4 4;;
  ld_w 4 14 STACK_SIZE;;
  mov_d 1 4;;
  add_dd 1 1 4;;
  mov_a 10 1;;
  mtcr_isp 1;;
  call (clear_exec loops).

Definition trap_table_init (first_trap_table : Z) : AOp unit :=
  mov 0 first_trap_table;;
  mtcr_btv 0.

(** What is linked with the start-up code. *)
Record Linked := linked {
  crt0_config : Z;
  first_trap_table : Z;
  Crt0PreInit : AOp unit;
  Crt0PostInit : AOp unit;
  ctor : Z → AOp unit;
  main : AOp unit
}.

(** Up to the initialised memory, and from there to the call of [main]. *)
Definition init_memory (l : Linked) (fuel loops : nat) (core_id : Z) : AOp unit :=
  config_base (crt0_config l) core_id;;
  small_data_registers;;
  csa_init loops;;
  stack_init loops;;
  trap_table_init (first_trap_table l);;
  call (Crt0PreInit l);;
  ld_w 4 14 CLEAR_TABLE;;
  mov_a 4 4;;
  call (Crt0BssInit fuel loops);;
  ld_w 4 14 COPY_TABLE;;
  mov_a 4 4;;
  call (Crt0DataInit fuel loops).

Definition init_objects (l : Linked) (loops : nat) : AOp unit :=
  ld_w 4 14 CTOR_TABLE;;
  mov_a 4 4;;
  call (Crt0CtorInit (ctor l) loops);;
  call (Crt0PostInit l).

Definition before_main (l : Linked) (fuel loops : nat) (core_id : Z) : AOp unit :=
  init_memory l fuel loops core_id;;
  init_objects l loops.

Definition start (l : Linked) (fuel loops : nat) (core_id : Z) : AOp unit :=
  before_main l fuel loops core_id;;
  call (main l).
End Code.
End Startup.
