(* ===== verification/StartupFacts.v ===== *)
(** * The start-up code: its routines as functions on memory

    [clear_exec] and [Crt0BssInit] clear ranges, [copy_exec] and
    [Crt0DataInit] copy them.  Memories are compared address by address; what
    a routine does to registers is a [frame]. *)

From stdpp Require Import functions.
From S2P Require Import Prelude Startup.
Import Startup.

(** ** Memory *)

(** A range of addresses: where it begins and how long it is. *)
Definition within_range (b : Z) (r : Z * Z) : Prop := (r.1 ≤ b < r.1 + r.2)%Z.
#[export] Instance within_range_dec b r : Decision (within_range b r).
Proof. unfold within_range. apply _. Defined.

(** Ranges with no address in common. *)
Definition disjoint (r1 r2 : Z * Z) : Prop := (r1.1 + r1.2 ≤ r2.1 ∨ r2.1 + r2.2 ≤ r1.1)%Z.

#[export] Instance disjoint_dec r1 r2 : Decision (disjoint r1 r2).
Proof. unfold disjoint. apply _. Defined.

(** Memories are compared address by address. *)
Definition same_mem (m m' : Z → Z) : Prop := ∀ b, m b = m' b.
#[export] Instance same_mem_equiv : Equivalence same_mem.
Proof.
  split; [by intros m b|by intros m m' Hm b|].
  intros m1 m2 m3 H12 H23 b. by rewrite H12.
Qed.

Definition bytes_ok (m : Z → Z) : Prop := ∀ b, (0 ≤ m b < 256)%Z.

(** Clearing a range, and copying [n] bytes. *)
Definition clear (r : Z * Z) (m : Z → Z) : Z → Z := λ b,
  if decide (within_range b r) then 0%Z else m b.
Definition copy (src dst n : Z) (m : Z → Z) : Z → Z := λ b,
  if decide (within_range b (dst, n)) then m (src + (b - dst))%Z else m b.

#[export] Instance clear_proper r : Proper (same_mem ==> same_mem) (clear r).
Proof. intros m m' Hm b. unfold clear. by case_decide. Qed.
#[export] Instance copy_proper src dst n : Proper (same_mem ==> same_mem) (copy src dst n).
Proof. intros m m' Hm b. unfold copy. by case_decide. Qed.

#[export] Instance word_proper : Proper (same_mem ==> eq ==> eq) word.
Proof. intros m m' Hm a ? <-. unfold word. by rewrite !Hm. Qed.

Lemma clear_bytes r m : bytes_ok m → bytes_ok (clear r m).
Proof. intros Hm b. unfold clear. case_decide; [lia|apply Hm]. Qed.
Lemma copy_bytes src dst n m : bytes_ok m → bytes_ok (copy src dst n m).
Proof. intros Hm b. unfold copy. case_decide; apply Hm. Qed.
Lemma bytes_same m m' : same_mem m m' → bytes_ok m → bytes_ok m'.
Proof. intros Hs Hm b. rewrite <-Hs. apply Hm. Qed.

Lemma word_bounds m a : bytes_ok m → (0 ≤ word m a < modulus W32)%Z.
Proof.
  intros Hm. unfold word, modulus.
  pose proof (Hm a); pose proof (Hm (a + 1)%Z); pose proof (Hm (a + 2)%Z); pose proof (Hm (a + 3)%Z). lia.
Qed.

Lemma w32_in z : (0 ≤ z < modulus W32)%Z → w32 z = z.
Proof. intros. by apply Z.mod_small. Qed.

Lemma byte_of_0 i : byte_of i 0 = 0%Z.
Proof. unfold byte_of. by rewrite Z.shiftr_0_l. Qed.

(** Storing a double word of zeros. *)
Lemma store_zeros a m b :
  store_word (a + 4) 0 (store_word a 0 m) b = clear (a, 8)%Z m b.
Proof.
  unfold store_word, clear, within_range. rewrite !byte_of_0. cbn [fst snd].
  repeat case_decide; try done; lia.
Qed.

(** Two ranges next to each other. *)
Lemma clear_app a n k m b : (0 ≤ n)%Z → (0 ≤ k)%Z →
  clear (a + n, k)%Z (clear (a, n) m) b = clear (a, n + k)%Z m b.
Proof. intros. unfold clear, within_range. cbn [fst snd]. repeat case_decide; try done; lia. Qed.

(** ** Registers *)

(** The registers and the memory after a sequence of instructions. *)
Ltac regs :=
  cbn [A D psw pcxi fcx lcx isp btv biv mem set_A set_D set_mem];
  repeat first [rewrite fn_lookup_insert | rewrite fn_lookup_insert_ne by lia].

(** Run straight-line code. *)
Ltac instrs := repeat (eapply runs_bind_nil; [first [apply runs_modify|apply runs_get|apply runs_ret]|cbv beta]).

(** The address registers outside [l] and the special registers are as before. *)
Definition frame (l : list nat) (s s' : Core) : Prop :=
  (∀ n, Forall (n ≠.) l → A s' n = A s n) ∧ psw s' = psw s ∧ pcxi s' = pcxi s ∧ fcx s' = fcx s ∧
  lcx s' = lcx s ∧ isp s' = isp s ∧ btv s' = btv s.

Lemma frame_trans l s1 s2 s3 : frame l s1 s2 → frame l s2 s3 → frame l s1 s3.
Proof.
  intros (Ha & ? & ? & ? & ? & ? & ?) (Hb & ? & ? & ? & ? & ? & ?). split; [|intuition congruence].
  intros n Hn. by rewrite Hb, Ha.
Qed.

(** Of a call only what it does to the lower context is seen. *)
Lemma frame_call l l' s s' : frame l s s' → Forall (λ n, n ∈ l' ∨ 10 ≤ n ≤ 15) l →
  frame l' s (restore_upper s s').
Proof.
  intros (Ha & ? & ? & ? & ? & ? & ?) Hl. split; [|done]. intros n Hn. cbn.
  case_decide; [done|]. apply Ha, Forall_forall. intros x Hx ->.
  rewrite Forall_forall in Hl, Hn. destruct (Hl x Hx) as [Hin|]; [by apply (Hn x Hin)|done].
Qed.

Lemma frame_set_A l n v s : n ∈ l → frame l s (set_A n v s).
Proof.
  intros Hn. split; [|done]. intros k Hk. cbn. apply fn_lookup_insert_ne. intros ->.
  rewrite Forall_forall in Hk. by apply (Hk k Hn).
Qed.
Lemma frame_set_D l n v s : frame l s (set_D n v s).
Proof. done. Qed.

Lemma frame_refl l s : frame l s s.
Proof. done. Qed.

(** A frame through registers that were set. *)
Ltac frame_step H :=
  destruct H as [HA Hrest]; split; [|exact Hrest]; intros n Hn; regs; pose proof Hn as Hne;
  rewrite !Forall_cons in Hne; rewrite ?fn_lookup_insert_ne by lia; exact (HA n Hn).

(** A frame along a chain of states. *)
Ltac in_list := repeat first [left; reflexivity | right].
Ltac frame_chain :=
  repeat first
    [ eassumption | apply frame_refl | apply frame_set_D | apply frame_set_A; in_list
    | eapply frame_trans; [|apply frame_set_D] | eapply frame_trans; [|apply frame_set_A; in_list] ].

Section Routines.
Context {E : Type}.
Abbreviation AOp := (Op E Core).
Implicit Types s : Core.

Lemma runs_call (m : AOp unit) s s' l : runs m s tt s' l → runs (call m) s tt (restore_upper s s') l.
Proof.
  intros Hm. unfold call. eapply runs_bind_nil; [apply runs_get|].
  eapply runs_log; [eapply runs_bind; [exact Hm|apply (runs_modify (restore_upper s))]|apply app_nil_r].
Qed.

Lemma runs_loop_again a s :
  runs (loop_again a : AOp bool) s (negb (Z.eqb (A s a) 0)) (set_A a (A s a - 1) s) [].
Proof. unfold loop_again. instrs. apply runs_ret. Qed.

(** A hardware loop with an invariant [I j], [j] being the rounds to go. *)
Lemma runs_hw_loop a (body : AOp unit) (I : nat → Core → Prop) :
  (∀ j s, I (S j) s → ∃ s1, runs body s tt s1 [] ∧ A s1 a = Z.of_nat j ∧
    I j (set_A a (Z.of_nat j - 1) s1)) →
  ∀ k fuel s, k < fuel → I (S k) s → ∃ s', runs (hw_loop fuel a body) s tt s' [] ∧ I 0 s'.
Proof.
  intros Hbody. induction k as [|k IH]; intros fuel s Hf Hs; (destruct fuel as [|fuel]; [lia|]).
  all: destruct (Hbody _ _ Hs) as (s1 & Hr & Ha & Hi).
  - exists (set_A a (0 - 1) s1). split; [|exact Hi].
    eapply runs_bind_nil; [exact Hr|]. eapply runs_bind_nil; [apply runs_loop_again|].
    rewrite Ha. apply runs_ret.
  - destruct (IH fuel _ ltac:(lia) Hi) as (s' & Hr' & Hi'). exists s'. split; [|exact Hi'].
    eapply runs_bind_nil; [exact Hr|]. eapply runs_bind_nil; [apply runs_loop_again|].
    rewrite Ha. rewrite (proj2 (Z.eqb_neq _ _)) by lia. exact Hr'.
Qed.

(** ** [clear_exec] *)
Definition clearing (s0 : Core) (k j : nat) (s : Core) : Prop :=
  let i := (Z.of_nat k - Z.of_nat j)%Z in
  (j ≠ 0 → A s 15 = (Z.of_nat j - 1)%Z) ∧ A s 4 = (A s0 4 + 8 * i)%Z ∧ D s 14 = 0%Z ∧ D s 15 = 0%Z ∧
  same_mem (mem s) (clear (A s0 4, 8 * i)%Z (mem s0)) ∧ frame [4; 15] s0 s.

Lemma runs_clear_loop k fuel s : A s 15 = Z.of_nat k → k < fuel → D s 14 = 0%Z → D s 15 = 0%Z →
  (0 ≤ A s 4)%Z → (A s 4 + 8 * (Z.of_nat k + 1) < modulus W32)%Z →
  ∃ s', runs (hw_loop fuel 15 (st_d_post 4 8) : AOp unit) s tt s' [] ∧ clearing s (S k) 0 s'.
Proof.
  intros Hk Hf H14 H15 H4 Hb.
  set (I := λ j s', j ≤ S k ∧ clearing s (S k) j s').
  destruct (runs_hw_loop 15 (st_d_post 4 8) I) with (k := k) (fuel := fuel) (s := s)
    as (s' & Hr & _ & Hi); [|done| |by exists s'].
  - intros j s1 (Hjk & Hj & H4' & H14' & H15' & Hm & Hfr).
    eexists. split; [apply runs_modify|]. regs. split; [rewrite Hj by done; lia|].
    split; [lia|]. split_and!; regs; try done.
    + intros Hj0. apply w32_in. unfold modulus in *. lia.
    + rewrite H4', w32_in by (unfold modulus in *; lia). lia.
    + intros b. rewrite H14', H15', store_zeros, (clear_proper _ _ _ Hm b), H4', clear_app by lia.
      do 2 f_equal. lia.
    + frame_step Hfr.
  - split; [done|]. split_and!; try done; try lia. intros b. unfold clear, within_range. cbn.
    rewrite decide_False by lia. done.
Qed.

(** The size a range is rounded up to. *)
Definition round8 (n : Z) : Z := (8 * ((n + 7) / 8))%Z.

Lemma runs_clear_exec s fuel : (0 ≤ D s 4)%Z → (D s 4 < 8 * Z.of_nat fuel)%Z → (0 ≤ A s 4)%Z →
  (A s 4 + round8 (D s 4) < modulus W32)%Z →
  ∃ s', runs (clear_exec fuel : AOp unit) s tt s' [] ∧
    same_mem (mem s') (clear (A s 4, round8 (D s 4)) (mem s)) ∧ frame [4; 15] s s'.
Proof.
  intros Hd Hf Ha Hb. unfold clear_exec, read_D.
  destruct (Z.eqb_spec (D s 4) 0) as [Hz|Hnz].
  { exists s. split; [|split; [|done]].
    - eapply runs_bind_nil; [instrs; apply runs_ret|]. rewrite Hz. apply runs_ret.
    - intros b. rewrite Hz. unfold clear, within_range. cbn [fst snd].
      change (round8 0) with 0%Z. by rewrite decide_False by lia. }
  set (k := ((D s 4 - 1) / 8)%Z).
  assert (0 ≤ k ∧ round8 (D s 4) = 8 * (k + 1) ∧ k < Z.of_nat fuel ∧ D s 4 - 1 < modulus W32)%Z as (Hk & Hr8 & Hkf & Hlt).
  { unfold round8, k in *. clear k. Z.to_euclidean_division_equations; lia. }
  set (s1 := set_D 15 (Z.shiftr 0 32) (set_D 14 0 (set_A 15 k (set_D 4 (Z.shiftr (w32 (D s 4 + -1)) (- -3)) (set_D 4 (D s 4 + -1) s))))).
  destruct (runs_clear_loop (Z.to_nat k) fuel s1) as (s' & Hr & _ & _ & _ & _ & Hm & Hfr); try (subst s1; regs; done || lia).
  { subst s1. regs. rewrite Z2Nat.id by done. apply w32_in. unfold k in *. lia. }
  exists s'. split; [|split].
  - eapply runs_bind_nil; [instrs; apply runs_ret|]. rewrite (proj2 (Z.eqb_neq _ _) Hnz).
    instrs. regs.
    assert (w32 (Z.shiftr (w32 (D s 4 + -1)) (- -3)) = k) as Hsh.
    { rewrite (w32_in (D s 4 + -1)) by lia. rewrite Z.shiftr_div_pow2 by lia.
      apply w32_in. subst k. change (2 ^ (- -3))%Z with 8%Z. change (D s 4 + -1)%Z with (D s 4 - 1)%Z. lia. }
    rewrite Hsh. exact Hr.
  - intros b. rewrite Hm. subst s1. regs. rewrite Hr8. do 2 f_equal. lia.
  - destruct Hfr as (HA & Hrest). split; [|exact Hrest]. intros n Hn. rewrite HA by done. subst s1. regs.
    rewrite !Forall_cons in Hn. rewrite fn_lookup_insert_ne by lia. done.
Qed.

(** ** [copy_exec] *)
Lemma signed_byte v : (0 ≤ v < 256)%Z → (w32 (if Z.ltb v 128 then v else v - 256) mod 256 = v)%Z.
Proof.
  intros Hv. unfold w32, modulus. destruct (Z.ltb_spec v 128); Z.to_euclidean_division_equations; lia.
Qed.

Definition copying (s0 : Core) (n j : nat) (s : Core) : Prop :=
  let i := (Z.of_nat n - Z.of_nat j)%Z in
  (j ≠ 0 → A s 15 = (Z.of_nat j - 1)%Z) ∧ A s 4 = (A s0 4 + i)%Z ∧ A s 5 = (A s0 5 + i)%Z ∧
  same_mem (mem s) (copy (A s0 5) (A s0 4) i (mem s0)) ∧ frame [4; 5; 15] s0 s.

Lemma runs_copy_loop k fuel s : A s 15 = Z.of_nat k → k < fuel → bytes_ok (mem s) →
  let n := (Z.of_nat k + 1)%Z in
  (0 ≤ A s 4)%Z → (0 ≤ A s 5)%Z → (A s 4 + n < modulus W32)%Z → (A s 5 + n < modulus W32)%Z →
  disjoint (A s 5, n) (A s 4, n) →
  ∃ s', runs (hw_loop fuel 15 (ld_b_post 15 5 1;; st_b_post 4 1 15) : AOp unit) s tt s' [] ∧
    copying s (S k) 0 s'.
Proof.
  cbv zeta. intros Hk Hf Hby H4 H5 H4b H5b Hd. unfold disjoint in Hd. cbn [fst snd] in Hd.
  set (I := λ j s', j ≤ S k ∧ copying s (S k) j s').
  destruct (runs_hw_loop 15 (ld_b_post 15 5 1;; st_b_post 4 1 15) I) with (k := k) (fuel := fuel) (s := s)
    as (s' & Hr & _ & Hi); [|done| |by exists s'].
  - intros j s1 (Hjk & Hj & H4' & H5' & Hm & Hfr). set (i := (Z.of_nat (S k) - Z.of_nat (S j))%Z) in *.
    assert (mem s1 (A s1 5) = mem s (A s 5 + i))%Z as Hld.
    { rewrite H5', Hm. unfold copy, within_range. cbn [fst snd]. by rewrite decide_False by lia. }
    eexists. split; [eapply runs_bind_nil; apply runs_modify|]. regs. split; [rewrite Hj by done; lia|].
    split; [lia|]. split_and!; regs; try done.
    + intros Hj0. apply w32_in. unfold modulus in *. lia.
    + rewrite H4', w32_in by (unfold modulus in *; lia). lia.
    + rewrite H5', w32_in by (unfold modulus in *; lia). lia.
    + intros b. rewrite Hld. unfold store_byte. rewrite signed_byte by apply Hby.
      rewrite H4'. destruct (decide (b = A s 4 + i)%Z) as [->|Hne].
      * rewrite fn_lookup_insert. unfold copy, within_range. cbn [fst snd].
        rewrite decide_True by lia. f_equal. lia.
      * rewrite fn_lookup_insert_ne by done. rewrite Hm. unfold copy, within_range. cbn [fst snd].
        repeat case_decide; try done; lia.
    + frame_step Hfr.
  - split; [done|]. split_and!; try done; try lia. intros b. unfold copy, within_range. cbn.
    by rewrite decide_False by lia.
Qed.

Lemma runs_copy_exec s fuel : bytes_ok (mem s) → (0 ≤ D s 4 < modulus W32)%Z →
  (D s 4 ≤ Z.of_nat fuel)%Z → (0 ≤ A s 4)%Z → (0 ≤ A s 5)%Z →
  (A s 4 + D s 4 < modulus W32)%Z → (A s 5 + D s 4 < modulus W32)%Z →
  disjoint (A s 5, D s 4) (A s 4, D s 4) →
  ∃ s', runs (copy_exec fuel : AOp unit) s tt s' [] ∧
    same_mem (mem s') (copy (A s 5) (A s 4) (D s 4) (mem s)) ∧ frame [4; 5; 15] s s'.
Proof.
  intros Hby Hd Hf H4 H5 H4b H5b Hdis. unfold copy_exec, read_D.
  assert (w32 (D s 4) = D s 4) as Hw by (by apply w32_in).
  set (s1 := set_D 15 (D s 4) s). assert (D s1 15 = D s 4) as H15 by (subst s1; by regs).
  destruct (Z.eqb_spec (D s 4) 0) as [Hz|Hnz].
  { exists s1. split; [|split; [|done]].
    - eapply runs_bind_nil; [apply runs_modify|]. fold s1. eapply runs_bind_nil; [instrs; apply runs_ret|].
      rewrite H15, Hz. apply runs_ret.
    - intros b. rewrite Hz. unfold copy, within_range. cbn. by rewrite decide_False by lia. }
  set (s2 := set_A 15 (D s 4 - 1) (set_D 15 (D s 4 - 1) s1)).
  destruct (runs_copy_loop (Z.to_nat (D s 4 - 1)) fuel s2) as (s' & Hr & _ & _ & _ & Hm & HA & Hrest);
    try (subst s1 s2; regs; rewrite ?Z2Nat.id by lia; done || lia).
  { subst s1 s2. regs. rewrite Z2Nat.id by lia. apply w32_in. lia. }
  { subst s1 s2. regs. rewrite Z2Nat.id by lia. by replace (D s 4 - 1 + 1)%Z with (D s 4) by lia. }
  exists s'. split; [|split].
  - eapply runs_bind_nil; [apply runs_modify|]. fold s1. eapply runs_bind_nil; [instrs; apply runs_ret|].
    rewrite H15, (proj2 (Z.eqb_neq _ _) Hnz).
    eapply runs_bind_nil; [apply runs_modify|]. rewrite H15. change (D s 4 + -1)%Z with (D s 4 - 1)%Z.
    eapply runs_bind_nil; [apply runs_modify|].
    replace (D (set_D 15 (D s 4 - 1) s1) 15) with (D s 4 - 1)%Z by (regs; symmetry; apply w32_in; lia).
    exact Hr.
  - intros b. rewrite Hm. subst s1 s2. regs. f_equal. lia.
  - split; [|exact Hrest]. intros n Hn. rewrite HA by done. subst s1 s2. regs.
    rewrite !Forall_cons in Hn. by rewrite fn_lookup_insert_ne by lia.
Qed.
End Routines.

(** ** The tables *)

(** A word of all ones ends a table. *)
Definition END : Z := 4294967295.

(** The clear table at [p]: rows of destination and size. *)
Fixpoint clear_table (m : Z → Z) (p : Z) (rows : list (Z * Z)) : Prop :=
  match rows with
  | [] => word m p = END
  | (dst, size) :: rows =>
      word m p = dst ∧ dst ≠ END ∧ word m (p + 4) = size ∧ clear_table m (p + 8) rows
  end%Z.

(** The copy table at [p]: rows of source, destination and size. *)
Fixpoint copy_table (m : Z → Z) (p : Z) (rows : list (Z * Z * Z)) : Prop :=
  match rows with
  | [] => word m (p + 4) = END
  | (src, dst, size) :: rows =>
      word m p = src ∧ word m (p + 4) = dst ∧ dst ≠ END ∧ word m (p + 8) = size ∧
      copy_table m (p + 12) rows
  end%Z.

(** The ranges a row writes and reads. *)
Definition cleared (r : Z * Z) : Z * Z := (r.1, round8 r.2).
Definition source (r : Z * Z * Z) : Z * Z := (r.1.1, r.2).
Definition target (r : Z * Z * Z) : Z * Z := (r.1.2, r.2).

Definition clear_all (rows : list (Z * Z)) (m : Z → Z) : Z → Z :=
  fold_left (λ m r, clear (cleared r) m) rows m.
Definition copy_all (rows : list (Z * Z * Z)) (m : Z → Z) : Z → Z :=
  fold_left (λ m r, copy r.1.1 r.1.2 r.2 m) rows m.

#[export] Instance clear_all_proper rows : Proper (same_mem ==> same_mem) (clear_all rows).
Proof. induction rows as [|r rows IH]; intros m m' Hm; [done|]. apply IH. by rewrite Hm. Qed.
#[export] Instance copy_all_proper rows : Proper (same_mem ==> same_mem) (copy_all rows).
Proof. induction rows as [|r rows IH]; intros m m' Hm; [done|]. apply IH. by rewrite Hm. Qed.

Lemma clear_all_bytes rows : ∀ m, bytes_ok m → bytes_ok (clear_all rows m).
Proof. induction rows as [|r rows IH]; intros m Hm; [done|]. by apply IH, clear_bytes. Qed.
Lemma copy_all_bytes rows : ∀ m, bytes_ok m → bytes_ok (copy_all rows m).
Proof. induction rows as [|r rows IH]; intros m Hm; [done|]. by apply IH, copy_bytes. Qed.

(** Memories that agree on a range. *)
Definition agree (r : Z * Z) (m m' : Z → Z) : Prop := ∀ b, within_range b r → m b = m' b.

Lemma agree_sub r r' m m' : agree r m m' → (r.1 ≤ r'.1)%Z → (r'.1 + r'.2 ≤ r.1 + r.2)%Z → agree r' m m'.
Proof. intros Ha H1 H2 b Hb. apply Ha. unfold within_range in *. lia. Qed.

Lemma agree_trans r m1 m2 m3 : agree r m1 m2 → agree r m2 m3 → agree r m1 m3.
Proof. intros H12 H23 b Hb. by rewrite H12, H23. Qed.

Lemma agree_same r m m' : same_mem m m' → agree r m m'.
Proof. intros Hs b _. apply Hs. Qed.

Lemma agree_clear r r' m : disjoint r r' → agree r m (clear r' m).
Proof.
  intros Hd b Hb. unfold clear. rewrite decide_False; [done|].
  unfold disjoint, within_range in *. lia.
Qed.
Lemma agree_copy r src dst n m : disjoint r (dst, n) → agree r m (copy src dst n m).
Proof.
  intros Hd b Hb. unfold copy. rewrite decide_False; [done|].
  unfold disjoint, within_range in *. cbn [fst snd] in *. lia.
Qed.

Lemma word_agree a m m' : agree (a, 4)%Z m m' → word m a = word m' a.
Proof. intros Ha. unfold word. rewrite !Ha by (unfold within_range; cbn; lia). done. Qed.

Lemma clear_table_agree rows : ∀ p m m', agree (p, 8 * Z.of_nat (length rows) + 4)%Z m m' →
  clear_table m p rows → clear_table m' p rows.
Proof.
  induction rows as [|[dst size] rows IH]; intros p m m' Ha; cbn [clear_table length] in *.
  - by rewrite (word_agree p m m') by (eapply agree_sub; [done|cbn; lia..]).
  - rewrite (word_agree p m m'), (word_agree (p + 4) m m') by (eapply agree_sub; [done|cbn; lia..]).
    intros (? & ? & ? & Ht). split_and!; try done. eapply IH; [|done]. eapply agree_sub; [done|cbn; lia..].
Qed.

Lemma copy_table_agree rows : ∀ p m m', agree (p, 12 * Z.of_nat (length rows) + 8)%Z m m' →
  copy_table m p rows → copy_table m' p rows.
Proof.
  induction rows as [|[[src dst] size] rows IH]; intros p m m' Ha; cbn [copy_table length] in *.
  - by rewrite (word_agree (p + 4) m m') by (eapply agree_sub; [done|cbn; lia..]).
  - rewrite (word_agree p m m'), (word_agree (p + 4) m m'), (word_agree (p + 8) m m')
      by (eapply agree_sub; [done|cbn; lia..]).
    intros (? & ? & ? & ? & Ht). split_and!; try done. eapply IH; [|done]. eapply agree_sub; [done|cbn; lia..].
Qed.

(** What the tables do, byte by byte. *)
Lemma agree_clear_all r rows : ∀ m, (∀ row, row ∈ rows → disjoint r (cleared row)) → agree r m (clear_all rows m).
Proof.
  induction rows as [|row rows IH]; intros m Hd; [done|]. cbn [clear_all fold_left].
  eapply agree_trans; [apply (agree_clear r (cleared row)), Hd; by left|].
  apply IH. intros x Hx. apply Hd. by right.
Qed.

Lemma agree_copy_all r rows : ∀ m, (∀ row, row ∈ rows → disjoint r (target row)) → agree r m (copy_all rows m).
Proof.
  induction rows as [|row rows IH]; intros m Hd; [done|]. cbn [copy_all fold_left].
  eapply agree_trans; [apply (agree_copy r row.1.1 row.1.2 row.2), (Hd row); by left|].
  apply IH. intros x Hx. apply Hd. by right.
Qed.

Lemma clear_all_zero rows : ∀ m row b, row ∈ rows → within_range b (cleared row) → clear_all rows m b = 0%Z.
Proof.
  assert (∀ rows m b, m b = 0%Z → clear_all rows m b = 0%Z) as Hstay.
  { intros l. induction l as [|r l IH]; intros m b Hb; [done|]. apply IH. unfold clear. by case_decide. }
  induction rows as [|r rows IH]; intros m row b Hin Hb; [by apply elem_of_nil in Hin|].
  apply elem_of_cons in Hin as [->|Hin]; [|by eapply IH].
  cbn [clear_all fold_left]. apply Hstay. unfold clear. by rewrite decide_True.
Qed.

(** Copies from ranges that no copy writes to ranges that do not overlap. *)
Lemma copy_all_moved rows : ∀ m row i, ForallOrdPairs disjoint (target <$> rows) →
  (∀ x y, x ∈ rows → y ∈ rows → disjoint (source x) (target y)) →
  row ∈ rows → (0 ≤ i < row.2)%Z → copy_all rows m (row.1.2 + i)%Z = m (row.1.1 + i)%Z.
Proof.
  induction rows as [|r rows IH]; intros m row i Hp Hs Hin Hi; [by apply elem_of_nil in Hin|].
  inversion Hp as [|? ? Hr Hp']; subst. cbn [copy_all fold_left].
  apply elem_of_cons in Hin as [->|Hin].
  - rewrite <-(agree_copy_all (target r) rows).
    + unfold copy. rewrite decide_True by (unfold within_range; cbn; lia). f_equal. lia.
    + intros x Hx. rewrite Forall_fmap, Forall_forall in Hr. by apply Hr.
    + unfold within_range, target. cbn. lia.
  - change (copy_all rows (copy r.1.1 r.1.2 r.2 m) (row.1.2 + i) = m (row.1.1 + i))%Z.
    rewrite IH; [|exact Hp'| |done|done].
    + symmetry. apply (agree_copy (source row)); [|unfold within_range, source; cbn; lia].
      apply (Hs row r); [by right|by left].
    + intros x y Hx Hy. apply Hs; by right.
Qed.

(** Rows that can be processed with a table at [t]: inside the address space,
    small enough for the fuel, off the table, and sources off their targets. *)
Definition row_clearable (t : Z * Z) (loops : nat) (r : Z * Z) : Prop :=
  (r.1 + round8 r.2 < modulus W32 ∧ r.2 < 8 * Z.of_nat loops)%Z ∧ disjoint t (cleared r).
Definition row_copyable (t : Z * Z) (loops : nat) (r : Z * Z * Z) : Prop :=
  (r.1.1 + r.2 < modulus W32 ∧ r.1.2 + r.2 < modulus W32 ∧ r.2 ≤ Z.of_nat loops)%Z ∧
  disjoint t (target r) ∧ disjoint (source r) (target r).

Section Tables.
Context {E : Type}.
Abbreviation AOp := (Op E Core).
Implicit Types s : Core.

Lemma runs_at_end s b : Z.eqb (D s 15) END = b → runs (at_end : AOp bool) s b s [].
Proof.
  intros <-. eapply runs_bind_nil; [eapply runs_bind_nil; [apply runs_get|apply runs_ret]|apply runs_ret].
Qed.

(** The part of [r] that is left when the first row is done. *)
Lemma disjoint_sub r r' q : disjoint r q → (r.1 ≤ r'.1)%Z → (r'.1 + r'.2 ≤ r.1 + r.2)%Z → disjoint r' q.
Proof. unfold disjoint. lia. Qed.

Lemma runs_clear_table loops rows : ∀ fuel s p, let t := (p, 8 * Z.of_nat (length rows) + 4)%Z in
  A s 12 = 8%Z → A s 13 = p → (0 ≤ p)%Z → (p + t.2 < modulus W32)%Z → bytes_ok (mem s) →
  clear_table (mem s) p rows → Forall (row_clearable t loops) rows → length rows < fuel →
  ∃ s', runs (table_bss_clear_loop fuel loops : AOp unit) s tt s' [] ∧
    same_mem (mem s') (clear_all rows (mem s)) ∧ frame [4; 13] s s'.
Proof.
  induction rows as [|[dst size] rows IH]; intros fuel s p t H12 H13 Hp Hpb Hby Htab Hrows Hf;
    (destruct fuel as [|fuel]; [cbn in Hf; lia|]); cbn [length] in *; subst t; cbn [snd] in *.
  - set (s1 := set_D 15 (word (mem s) (A s 13 + 0)) s). exists s1. split; [|done].
    cbn [clear_table] in Htab. eapply runs_bind_nil; [apply runs_modify|]. fold s1.
    eapply runs_bind_nil; [apply (runs_at_end s1 true)|apply runs_ret].
    subst s1. regs. by rewrite H13, Z.add_0_r, Htab.
  - destruct Htab as (Hdst & Hne & Hsz & Htab).
    apply Forall_cons in Hrows as [[[Hr1 Hr2] Hr3] Hrows]. cbn [fst snd] in *.
    pose proof (word_bounds (mem s) p Hby) as Hdb. pose proof (word_bounds (mem s) (p + 4) Hby) as Hsb.
    rewrite Hdst in Hdb. rewrite Hsz in Hsb.
    set (s1 := set_D 15 (word (mem s) (A s 13 + 0)) s).
    set (s2 := set_D 4 (word (mem s) (A s 13 + 4)) (set_A 4 dst s1)).
    assert (D s1 15 = dst) as HD15 by (subst s1; regs; rewrite H13, Z.add_0_r, Hdst; by apply w32_in).
    assert (D s2 4 = size) as HD4 by (subst s2; regs; rewrite H13, Hsz; by apply w32_in).
    assert (A s2 4 = dst) as HA4 by (subst s2; regs; by apply w32_in).
    destruct (runs_clear_exec (E:=E) s2 loops) as (s3 & Hr & Hm & Hfr); rewrite ?HD4, ?HA4; try lia.
    rewrite HD4, HA4 in Hm. change (mem s2) with (mem s) in Hm.
    set (s4 := set_A 13 (A (restore_upper s2 s3) 13 + A (restore_upper s2 s3) 12) (restore_upper s2 s3)).
    assert (agree (p, 8 * Z.of_nat (S (length rows)) + 4)%Z (mem s) (mem s4)) as Hagree.
    { eapply agree_trans; [apply (agree_clear _ (dst, round8 size)); exact Hr3|].
      apply agree_same. symmetry. exact Hm. }
    assert (A s4 13 = p + 8)%Z as Hs413.
    { subst s4 s2 s1. regs. cbn. regs. rewrite H12, H13. apply w32_in. lia. }
    destruct (IH fuel s4 (p + 8)%Z) as (s5 & Hr5 & Hm5 & Hfr5); try done; try (cbn [snd]; lia).
    + eapply bytes_same; [symmetry; exact Hm|]. by apply clear_bytes.
    + eapply clear_table_agree; [|exact Htab]. eapply agree_sub; [exact Hagree|cbn; lia..].
    + eapply Forall_impl; [exact Hrows|]. intros r [Hb Hdis]. split; [exact Hb|].
      eapply disjoint_sub; [exact Hdis|cbn; lia..].
    + exists s5. split; [|split].
      * eapply runs_bind_nil; [apply runs_modify|]. fold s1. eapply runs_bind_nil; [apply (runs_at_end s1 false)|].
        { rewrite HD15. by apply Z.eqb_neq. }
        eapply runs_bind_nil; [apply runs_modify|]. rewrite HD15.
        eapply runs_bind_nil; [apply runs_modify|].
        eapply runs_bind_nil; [apply runs_call, Hr|].
        eapply runs_bind_nil; [apply runs_modify|]. exact Hr5.
      * rewrite Hm5. cbn [clear_all fold_left]. apply clear_all_proper. exact Hm.
      * eapply frame_trans; [|exact Hfr5]. subst s4. eapply frame_trans; [|apply frame_set_A; in_list].
        eapply frame_trans; [|eapply frame_call; [exact Hfr|repeat constructor; first [left; in_list|right; lia]]].
        subst s2 s1. frame_chain.
Qed.

Lemma runs_copy_table loops rows : ∀ fuel s p, let t := (p, 12 * Z.of_nat (length rows) + 8)%Z in
  A s 12 = 12%Z → A s 13 = p → (0 ≤ p)%Z → (p + t.2 < modulus W32)%Z → bytes_ok (mem s) →
  copy_table (mem s) p rows → Forall (row_copyable t loops) rows → length rows < fuel →
  ∃ s', runs (table_data_copy_loop fuel loops : AOp unit) s tt s' [] ∧
    same_mem (mem s') (copy_all rows (mem s)) ∧ frame [4; 5; 13] s s'.
Proof.
  induction rows as [|[[src dst] size] rows IH]; intros fuel s p t H12 H13 Hp Hpb Hby Htab Hrows Hf;
    (destruct fuel as [|fuel]; [cbn in Hf; lia|]); cbn [length] in *; subst t; cbn [snd] in *.
  - set (s1 := set_D 15 (word (mem s) (A s 13 + 4)) s). exists s1. split; [|done].
    cbn [copy_table] in Htab. eapply runs_bind_nil; [apply runs_modify|]. fold s1.
    eapply runs_bind_nil; [apply (runs_at_end s1 true)|apply runs_ret].
    subst s1. regs. by rewrite H13, Htab.
  - destruct Htab as (Hsrc & Hdst & Hne & Hsz & Htab).
    apply Forall_cons in Hrows as [[(Hr1 & Hr2 & Hr3) [Hr4 Hr5]] Hrows]. cbn [fst snd] in *.
    pose proof (word_bounds (mem s) p Hby) as Hxb. pose proof (word_bounds (mem s) (p + 4) Hby) as Hdb.
    pose proof (word_bounds (mem s) (p + 8) Hby) as Hsb. rewrite Hsrc in Hxb. rewrite Hdst in Hdb. rewrite Hsz in Hsb.
    set (s1 := set_D 15 (word (mem s) (A s 13 + 4)) s).
    set (s2 := set_D 4 (word (mem s) (A s 13 + 8)) (set_A 5 src (set_D 4 src (set_A 4 dst s1)))).
    assert (D s1 15 = dst) as HD15 by (subst s1; regs; rewrite H13, Hdst; by apply w32_in).
    assert (D s2 4 = size) as HD4 by (subst s2; regs; rewrite H13, Hsz; by apply w32_in).
    assert (A s2 4 = dst) as HA4 by (subst s2; regs; by apply w32_in).
    assert (A s2 5 = src) as HA5 by (subst s2; regs; by apply w32_in).
    destruct (runs_copy_exec (E:=E) s2 loops) as (s3 & Hr & Hm & Hfr); rewrite ?HD4, ?HA4, ?HA5; try lia; try done.
    rewrite HD4, HA4, HA5 in Hm. change (mem s2) with (mem s) in Hm.
    set (s4 := set_A 13 (A (restore_upper s2 s3) 13 + A (restore_upper s2 s3) 12) (restore_upper s2 s3)).
    assert (agree (p, 12 * Z.of_nat (S (length rows)) + 8)%Z (mem s) (mem s4)) as Hagree.
    { eapply agree_trans; [apply (agree_copy _ src dst size); exact Hr4|].
      apply agree_same. symmetry. exact Hm. }
    assert (A s4 13 = p + 12)%Z as Hs413.
    { subst s4 s2 s1. regs. cbn. regs. rewrite H12, H13. apply w32_in. lia. }
    destruct (IH fuel s4 (p + 12)%Z) as (s5 & Hrr & Hm5 & Hfr5); try done; try (cbn [snd]; lia).
    + eapply bytes_same; [symmetry; exact Hm|]. by apply copy_bytes.
    + eapply copy_table_agree; [|exact Htab]. eapply agree_sub; [exact Hagree|cbn; lia..].
    + eapply Forall_impl; [exact Hrows|]. intros r [Hb [Hdis Hself]]. split; [exact Hb|]. split; [|exact Hself].
      eapply disjoint_sub; [exact Hdis|cbn; lia..].
    + exists s5. split; [|split].
      * eapply runs_bind_nil; [apply runs_modify|]. fold s1.
        eapply runs_bind_nil; [apply (runs_at_end s1 false); rewrite HD15; by apply Z.eqb_neq|].
        eapply runs_bind_nil; [apply runs_modify|]. rewrite HD15.
        eapply runs_bind_nil; [apply runs_modify|].
        replace (word _ (A (set_A 4 dst s1) 13 + COPY_TABLE_SRC)) with src
          by (subst s1; regs; rewrite H13; unfold COPY_TABLE_SRC; by rewrite Z.add_0_r).
        eapply runs_bind_nil; [apply runs_modify|].
        replace (D (set_D 4 src (set_A 4 dst s1)) 4) with src by (regs; symmetry; by apply w32_in).
        eapply runs_bind_nil; [apply runs_modify|].
        eapply runs_bind_nil; [apply runs_call, Hr|].
        eapply runs_bind_nil; [apply runs_modify|]. exact Hrr.
      * rewrite Hm5. cbn [copy_all fold_left]. apply copy_all_proper. exact Hm.
      * eapply frame_trans; [|exact Hfr5]. subst s4. eapply frame_trans; [|apply frame_set_A; in_list].
        eapply frame_trans; [|eapply frame_call; [exact Hfr|repeat constructor; first [left; in_list|right; lia]]].
        subst s2 s1. frame_chain.
Qed.

(** The two routines from their entry: the table is at [A4]. *)
Lemma runs_bss_init loops rows fuel s : let t := (A s 4, 8 * Z.of_nat (length rows) + 4)%Z in
  (0 ≤ A s 4)%Z → (A s 4 + t.2 < modulus W32)%Z → bytes_ok (mem s) → clear_table (mem s) (A s 4) rows →
  Forall (row_clearable t loops) rows → length rows < fuel →
  ∃ s', runs (Crt0BssInit fuel loops : AOp unit) s tt s' [] ∧
    same_mem (mem s') (clear_all rows (mem s)) ∧ frame [4; 12; 13] s s'.
Proof.
  cbv zeta. intros Hp Hpb Hby Htab Hrows Hf. set (s1 := set_A 12 8 (set_A 13 (A s 4) s)).
  assert (A s1 13 = A s 4) as H13 by (subst s1; regs; apply w32_in; cbn [snd] in Hpb; lia).
  destruct (runs_clear_table loops rows fuel s1 (A s 4)) as (s' & Hr & Hm & HA & Hsp); try done.
  exists s'. split; [|split; [exact Hm|]].
  - eapply runs_bind_nil; [apply runs_modify|]. eapply runs_bind_nil; [apply runs_modify|]. exact Hr.
  - split; [|exact Hsp]. intros n Hn. rewrite !Forall_cons in Hn. rewrite HA by (rewrite !Forall_cons; tauto).
    subst s1. by regs.
Qed.

Lemma runs_data_init loops rows fuel s : let t := (A s 4, 12 * Z.of_nat (length rows) + 8)%Z in
  (0 ≤ A s 4)%Z → (A s 4 + t.2 < modulus W32)%Z → bytes_ok (mem s) → copy_table (mem s) (A s 4) rows →
  Forall (row_copyable t loops) rows → length rows < fuel →
  ∃ s', runs (Crt0DataInit fuel loops : AOp unit) s tt s' [] ∧
    same_mem (mem s') (copy_all rows (mem s)) ∧ frame [4; 5; 12; 13] s s'.
Proof.
  cbv zeta. intros Hp Hpb Hby Htab Hrows Hf. set (s1 := set_A 12 12 (set_A 13 (A s 4) s)).
  assert (A s1 13 = A s 4) as H13 by (subst s1; regs; apply w32_in; cbn [snd] in Hpb; lia).
  destruct (runs_copy_table loops rows fuel s1 (A s 4)) as (s' & Hr & Hm & HA & Hsp); try done.
  exists s'. split; [|split; [exact Hm|]].
  - eapply runs_bind_nil; [apply runs_modify|]. eapply runs_bind_nil; [apply runs_modify|]. exact Hr.
  - split; [|exact Hsp]. intros n Hn. rewrite !Forall_cons in Hn. rewrite HA by (rewrite !Forall_cons; tauto).
    subst s1. by regs.
Qed.
End Tables.
