(* ===== verification/StartupProps.v ===== *)
(** * The start-up code: what [main] finds

    The free list of context save areas, the constructors, and the state in
    which [main] is called: cleared sections, initialised data and the stack
    pointers. *)

From stdpp Require Import functions.
From S2P Require Import Prelude Startup StartupFacts.
Import Startup.

(** ** Words and link words *)
Lemma byte_of_spec i v : (0 ≤ i)%Z → byte_of i v = (v / 2 ^ (8 * i) mod 256)%Z.
Proof. intros. unfold byte_of. by rewrite Z.shiftr_div_pow2 by lia. Qed.

Lemma word_store a v m : (0 ≤ v < modulus W32)%Z → word (store_word a v m) a = v.
Proof.
  unfold modulus. intros Hv. unfold word, store_word. rewrite !decide_True by lia.
  replace (a - a)%Z with 0%Z by lia. replace (a + 1 - a)%Z with 1%Z by lia.
  replace (a + 2 - a)%Z with 2%Z by lia. replace (a + 3 - a)%Z with 3%Z by lia.
  rewrite !byte_of_spec by lia. cbn [Z.mul Z.pow Z.pow_pos Pos.mul Pos.iter].
  Z.to_euclidean_division_equations. lia.
Qed.

(** The link word that names the context save area at an address: segment and
    offset; and the address a link word names. *)
Definition link (a : Z) : Z := (a / 268435456 * 65536 + (a / 64) mod 65536)%Z.
Definition csa_addr (l : Z) : Z := (l / 65536 mod 16 * 268435456 + l mod 65536 * 64)%Z.

(** [n] areas from [a] on that link words can name. *)
Definition nameable (a n : Z) : Prop :=
  (0 ≤ a < modulus W32 ∧ a mod 64 = 0 ∧ 0 ≤ n ∧ a mod 268435456 + 64 * n < 4194304)%Z.

Lemma csa_addr_link a n i : nameable a n → (0 ≤ i ≤ n)%Z → csa_addr (link a + i) = (a + 64 * i)%Z.
Proof.
  unfold nameable, csa_addr, link, modulus. intros (Ha & Ha64 & Hn & Hs) Hi.
  Z.to_euclidean_division_equations. lia.
Qed.

Lemma link_bounds a n : nameable a n → (0 ≤ link a ∧ link a + n < 1048576)%Z.
Proof.
  unfold nameable, link, modulus. intros (Ha & Ha64 & Hn & Hs). Z.to_euclidean_division_equations. lia.
Qed.

(** The bits of the two fields do not meet. *)
Lemma lor_add k x y : (0 ≤ k)%Z → (0 ≤ x < 2 ^ k)%Z → Z.lor x (y * 2 ^ k) = (x + y * 2 ^ k)%Z.
Proof.
  intros Hk Hx. assert (Z.land x (y * 2 ^ k) = 0)%Z as Hl.
  { rewrite <-Z.shiftl_mul_pow2 by done. rewrite <-(Z.mod_small x (2 ^ k)) by done.
    rewrite <-Z.land_ones by done. apply Z.bits_inj'. intros i Hi. rewrite !Z.land_spec, Z.bits_0.
    destruct (decide (i < k)%Z).
    - rewrite Z.shiftl_spec_low by lia. apply andb_false_r.
    - rewrite Z.ones_spec_high by lia. by rewrite andb_false_r. }
  by rewrite Z.add_nocarry_lxor, Z.lxor_lor by done.
Qed.

(** The computation of [csa_init]. *)
Lemma link_bits a : (0 ≤ a < modulus W32)%Z →
  Z.lor (Z.land (Z.shiftr a 6) 0xFFFF) (Z.land (Z.shiftr a 12) 0xF0000) = link a.
Proof.
  intros Ha. change 0xF0000%Z with (Z.shiftl (Z.ones 4) 16).
  assert (Z.land (Z.shiftr a 12) (Z.shiftl (Z.ones 4) 16) = Z.shiftl (Z.shiftr a 28) 16) as ->.
  { assert (Z.shiftr a 28 = Z.land (Z.shiftr a 28) (Z.ones 4)) as Hs.
    { rewrite Z.land_ones by lia. symmetry. apply Z.mod_small. rewrite Z.shiftr_div_pow2 by lia.
      unfold modulus in Ha. change (2 ^ 28)%Z with 268435456%Z. change (2 ^ 4)%Z with 16%Z.
      Z.to_euclidean_division_equations. lia. }
    rewrite Hs, Z.shiftl_land. apply Z.bits_inj'. intros k Hk. rewrite !Z.land_spec.
    destruct (decide (k < 16)%Z).
    - rewrite !Z.shiftl_spec_low by lia. by rewrite andb_false_r.
    - rewrite !Z.shiftl_spec_high, !Z.shiftr_spec by lia. do 2 f_equal. lia. }
  change 0xFFFF%Z with (Z.ones 16). rewrite Z.land_ones by lia.
  rewrite (Z.shiftr_div_pow2 a 6) by lia. rewrite (Z.shiftr_div_pow2 a 28) by lia.
  rewrite Z.shiftl_mul_pow2 by lia. change (2 ^ 28)%Z with 268435456%Z. change (2 ^ 6)%Z with 64%Z.
  unfold link. change (2 ^ 16)%Z with 65536%Z. rewrite (Z.add_comm (_ * _)).
  apply (lor_add 16); [lia|]. apply Z.mod_pos_bound. lia.
Qed.

(** ** Context save areas *)

(** The first [i] of the areas from [base] on linked to the next one. *)
Definition csa_list (base i : Z) (m : Z → Z) : Z → Z := λ b,
  if decide (base ≤ b < base + 64 * i ∧ (b - base) mod 64 < 4)%Z
  then byte_of ((b - base) mod 64) (link base + (b - base) / 64 + 1) else m b.

(** A byte of the area [i], or of another. *)
Lemma area_of base i b : (base + 64 * i ≤ b < base + 64 * i + 64)%Z →
  ((b - base) / 64 = i ∧ (b - base) mod 64 = b - base - 64 * i)%Z.
Proof.
  intros Hb. assert (0 ≤ b - base - 64 * i < 64)%Z as Hr by lia.
  pose proof (Z.div_unique (b - base) 64 i (b - base - 64 * i) ltac:(left; exact Hr) ltac:(lia)).
  pose proof (Z.mod_unique (b - base) 64 i (b - base - 64 * i) ltac:(left; exact Hr) ltac:(lia)).
  lia.
Qed.

Lemma csa_list_step base i m b : (0 ≤ i)%Z →
  store_word (base + 64 * i) (link base + i + 1) (csa_list base i m) b = csa_list base (i + 1) m b.
Proof.
  intros Hi. unfold store_word, csa_list.
  destruct (decide (base + 64 * i ≤ b < base + 64 * i + 64)%Z) as [Hb|Hb].
  - destruct (area_of base i b Hb) as [Hq Hr]. rewrite Hr, Hq.
    destruct (decide (b < base + 64 * i + 4)%Z).
    + rewrite !decide_True by lia. f_equal; lia.
    + by rewrite !decide_False by lia.
  - rewrite (decide_False (P := (base + 64 * i ≤ b < _)%Z)) by lia.
    repeat case_decide; try done; lia.
Qed.

Lemma csa_list_word base i n m : nameable base n → (0 ≤ i < n)%Z →
  word (csa_list base n m) (base + 64 * i) = (link base + i + 1)%Z.
Proof.
  intros Hn Hi. pose proof (link_bounds base n Hn).
  rewrite <-(word_store (base + 64 * i) (link base + i + 1) (csa_list base i m)) by (unfold modulus; lia).
  apply word_agree. intros b Hb. unfold within_range in Hb. cbn [fst snd] in Hb.
  rewrite csa_list_step by lia. unfold csa_list.
  destruct (area_of base i b ltac:(lia)) as [Hq Hm]. by rewrite !decide_True by lia.
Qed.

Lemma csa_list_bytes base i m : bytes_ok m → bytes_ok (csa_list base i m).
Proof.
  intros Hm b. unfold csa_list. case_decide; [|apply Hm]. unfold byte_of. by apply Z.mod_pos_bound.
Qed.

Lemma csa_list_agree base i m r : disjoint r (base, 64 * i)%Z → agree r m (csa_list base i m).
Proof.
  intros Hd b Hb. unfold csa_list. rewrite decide_False; [done|].
  unfold disjoint, within_range in *. cbn [fst snd] in *. lia.
Qed.

(** The free list from the link word [l]: the areas [as], and the link word
    after the last of them. *)
Fixpoint free_list (m : Z → Z) (l : Z) (areas : list Z) (last : Z) : Prop :=
  match areas with
  | [] => l = last
  | a :: areas => csa_addr l = a ∧ free_list m (word m a) areas last
  end.

Definition area_addrs (base n : Z) : list Z := (λ i, base + 64 * i)%Z <$> seqZ 0 n.

Lemma csa_list_free base n m m' : nameable base n → agree (base, 64 * n)%Z (csa_list base n m) m' →
  free_list m' (link base) (area_addrs base n) (link base + n)%Z.
Proof.
  intros Hn Hag. unfold area_addrs. pose proof Hn as (_ & _ & Hn0 & _).
  enough (∀ k j, (0 ≤ j)%Z → (j + Z.of_nat k = n)%Z →
    free_list m' (link base + j) ((λ i, base + 64 * i)%Z <$> seqZ j (Z.of_nat k)) (link base + n)) as He.
  { specialize (He (Z.to_nat n) 0%Z ltac:(lia) ltac:(lia)). by rewrite Z.add_0_r, Z2Nat.id in He by done. }
  induction k as [|k IH]; intros j Hj Hjn.
  - assert (j = n) as -> by lia. done.
  - rewrite seqZ_cons by lia. cbn [fmap list_fmap free_list]. split; [apply (csa_addr_link base n); [done|lia]|].
    rewrite <-(word_agree _ (csa_list base n m)) by (eapply agree_sub; [exact Hag|cbn; lia..]).
    rewrite csa_list_word by (done || lia). replace (Z.pred (Z.of_nat (S k))) with (Z.of_nat k) by lia.
    replace (link base + j + 1)%Z with (link base + Z.succ j)%Z by lia. apply IH; lia.
Qed.

Section Start.
Context {E : Type}.
Abbreviation AOp := (Op E Core).
Implicit Types s : Core.

Definition linking (s0 : Core) (k j : nat) (s : Core) : Prop :=
  let i := (Z.of_nat k - Z.of_nat j)%Z in
  (j ≠ 0 → A s 4 = (Z.of_nat j - 1)%Z) ∧ A s 15 = (A s0 15 + 64 * i)%Z ∧ A s 3 = 64%Z ∧
  D s 4 = (link (A s0 15) + i)%Z ∧ same_mem (mem s) (csa_list (A s0 15) i (mem s0)) ∧
  frame [4; 15] s0 s.

Lemma runs_csa_loop k fuel s : A s 4 = Z.of_nat k → k < fuel → A s 3 = 64%Z →
  D s 4 = link (A s 15) → nameable (A s 15) (Z.of_nat k + 1) →
  (A s 15 + 64 * (Z.of_nat k + 1) < modulus W32)%Z →
  ∃ s', runs (hw_loop fuel 4 (add 4 1;; st_w 15 4;; add_a 15 3) : AOp unit) s tt s' [] ∧
    linking s (S k) 0 s'.
Proof.
  intros Hk Hf H3 HD Hnm Hb. pose proof (link_bounds _ _ Hnm) as Hlb. pose proof (proj1 Hnm) as Ha.
  set (I := λ j s', j ≤ S k ∧ linking s (S k) j s').
  destruct (runs_hw_loop (E:=E) 4 (add 4 1;; st_w 15 4;; add_a 15 3) I) with (k := k) (fuel := fuel) (s := s)
    as (s' & Hr & _ & Hi); [|done| |by exists s'].
  - intros j s1 (Hjk & Hj & H15 & H3' & HD4 & Hm & Hfr). set (i := (Z.of_nat (S k) - Z.of_nat (S j))%Z) in *.
    assert (w32 (D s1 4 + 1) = link (A s 15) + i + 1)%Z as Hw.
    { rewrite HD4. apply w32_in. unfold modulus. lia. }
    eexists. split; [eapply runs_bind_nil; [apply runs_modify|]; eapply runs_bind_nil; apply runs_modify|].
    regs. split; [rewrite Hj by done; lia|]. split; [lia|]. split_and!; regs; try done.
    + intros Hj0. apply w32_in. unfold modulus in *. lia.
    + rewrite H15, H3', w32_in by (unfold modulus in *; lia). lia.
    + rewrite Hw. lia.
    + intros b. rewrite Hw, H15. replace (Z.of_nat (S k) - Z.of_nat j)%Z with (i + 1)%Z by lia.
      rewrite <-csa_list_step by lia. unfold store_word. case_decide; [done|apply Hm].
    + frame_step Hfr.
  - split; [done|]. split_and!; try done; try lia. intros b. unfold csa_list.
    by rewrite decide_False by lia.
Qed.

Lemma w32_shiftr x k : (0 ≤ x < modulus W32)%Z → (0 ≤ k)%Z → w32 (Z.shiftr x k) = Z.shiftr x k.
Proof.
  intros Hx Hk. apply w32_in. rewrite Z.shiftr_div_pow2 by done. pose proof (Z.pow_pos_nonneg 2 k).
  split; [apply Z.div_pos; lia|]. apply Z.le_lt_trans with x; [|lia]. apply Z.div_le_upper_bound; nia.
Qed.
Lemma w32_land x y : (0 ≤ x < modulus W32)%Z → (0 ≤ y)%Z → w32 (Z.land x y) = Z.land x y.
Proof.
  intros Hx Hy. apply w32_in. split; [apply Z.land_nonneg; lia|].
  rewrite <-(Z2N.id x), <-(Z2N.id y), <-N2Z.inj_land by lia.
  pose proof (N.land_le_l (Z.to_N x) (Z.to_N y)). lia.
Qed.
Lemma shiftr_bounds x k : (0 ≤ x < modulus W32)%Z → (0 ≤ k)%Z → (0 ≤ Z.shiftr x k < modulus W32)%Z.
Proof. intros Hx Hk. rewrite <-(w32_shiftr x k) by done. apply Z.mod_pos_bound. done. Qed.

(** [csa_init] up to its loop. *)
Lemma runs_csa_setup s fuel base size : bytes_ok (mem s) →
  word (mem s) (A s 14 + CSA) = base → word (mem s) (A s 14 + CSA_SIZE) = size →
  nameable base (size / 64) → (0 < size / 64)%Z →
  ∃ s1, (∀ s', runs (hw_loop fuel 4 (add 4 1;; st_w 15 4;; add_a 15 3);; mtcr_lcx 4 : AOp unit) s1 tt s' [] →
      runs (csa_init fuel : AOp unit) s tt s' []) ∧
    A s1 15 = base ∧ A s1 3 = 64%Z ∧ A s1 4 = (size / 64 - 1)%Z ∧ D s1 4 = link base ∧
    fcx s1 = link base ∧ pcxi s1 = 0%Z ∧ mem s1 = mem s ∧ ∀ k, Forall (k ≠.) [3; 4; 15] → A s1 k = A s k.
Proof.
  intros Hby Hbase Hsize Hnm Hn0. pose proof (link_bounds _ _ Hnm) as Hlb.
  pose proof (word_bounds (mem s) (A s 14 + CSA) Hby) as Hbb.
  pose proof (word_bounds (mem s) (A s 14 + CSA_SIZE) Hby) as Hsb.
  rewrite Hbase in Hbb. rewrite Hsize in Hsb. set (n := (size / 64)%Z) in *.
  assert (0 ≤ n < modulus W32)%Z as Hnb by (unfold n, modulus in *; Z.to_euclidean_division_equations; lia).
  assert (w32 (Z.shiftr size 6) = n) as Hsh.
  { rewrite Z.shiftr_div_pow2 by lia. by apply w32_in. }
  eexists. split.
  { intros s' Hr. unfold csa_init. do 18 (eapply runs_bind_nil; [apply runs_modify|cbv beta; regs]).
    eapply runs_bind_nil; [apply runs_modify|]. exact Hr. }
  regs. rewrite Hbase, Hsize, (w32_in size), !(w32_in base) by done.
  change (- LW_OFFSET_SHIFT)%Z with 6%Z. change (- (-12))%Z with 12%Z. change (w32 65535) with 0xFFFF%Z.
  change (w32 (15 ≪ 16)) with 0xF0000%Z. rewrite Hsh, (w32_in n) by done.
  rewrite !w32_shiftr by lia. rewrite !w32_land by (try apply shiftr_bounds; lia).
  rewrite link_bits by done. rewrite !(w32_in (link base)) by (unfold modulus; lia).
  split_and!; try done.
  - apply w32_in. lia.
  - intros k Hk. rewrite !Forall_cons in Hk. by rewrite !fn_lookup_insert_ne by lia.
Qed.

(** What [csa_init] makes of the areas that the configuration names. *)
Lemma runs_csa_init s fuel base size : bytes_ok (mem s) →
  word (mem s) (A s 14 + CSA) = base → word (mem s) (A s 14 + CSA_SIZE) = size →
  let n := (size / 64)%Z in
  (0 < n)%Z → (n ≤ Z.of_nat fuel)%Z → nameable base n → (base + 64 * n < modulus W32)%Z →
  ∃ s', runs (csa_init fuel : AOp unit) s tt s' [] ∧ same_mem (mem s') (csa_list base n (mem s)) ∧
    fcx s' = link base ∧ lcx s' = (link base + n)%Z ∧ pcxi s' = 0%Z ∧
    ∀ k, Forall (k ≠.) [3; 4; 15] → A s' k = A s k.
Proof.
  cbv zeta. intros Hby Hbase Hsize Hn0 Hf Hnm Hb.
  destruct (runs_csa_setup s fuel base size) as (s1 & Hrun & H15 & H3 & H4 & HD & Hfcx & Hpcxi & Hm & HA); try done.
  set (n := (size / 64)%Z) in *.
  destruct (runs_csa_loop (Z.to_nat (n - 1)) fuel s1) as (s2 & Hr & _ & _ & _ & HD2 & Hm2 & HA2 & Hsp); try lia.
  - by rewrite H15.
  - rewrite H15. by replace (Z.of_nat (Z.to_nat (n - 1)) + 1)%Z with n by lia.
  - rewrite H15 in *. replace (Z.of_nat (S (Z.to_nat (n - 1))) - Z.of_nat 0)%Z with n in * by lia.
    eexists. split; [|split_and!].
    + apply Hrun. eapply runs_bind_nil; [exact Hr|]. apply runs_modify.
    + cbn. rewrite <-Hm. exact Hm2.
    + cbn. destruct Hsp as (_ & _ & -> & _). done.
    + done.
    + cbn. destruct Hsp as (_ & -> & _). done.
    + cbn. intros k Hk. rewrite HA2; [by apply HA|]. rewrite !Forall_cons in *. tauto.
Qed.

(** ** Constructors *)

(** The table of constructors at [p]: how many, then their addresses. *)
Definition ctor_table (m : Z → Z) (p : Z) (fs : list Z) : Prop :=
  word m p = Z.of_nat (length fs) ∧ ∀ i f, fs !! i = Some f → word m (p + 4 + 4 * Z.of_nat i) = f.

(** A constructor leaves [A4] and the table alone.  Nothing makes it: [A4] is in the
    lower context, which [calli] does not save, and the loop keeps its place in the
    table there.  It matters only when there is another constructor to call. *)
Definition keeps_table (p n : Z) (s s' : Core) : Prop := A s' 4 = A s 4 ∧ agree (p, n) (mem s) (mem s').

(** The constructors of the table return, log that they have been called, and
    except for the last one keep the table. *)
Definition constructs (ctor : Z → AOp unit) (ev : Z → E) (p n : Z) (fs : list Z) : Prop :=
  ∀ i f s, fs !! i = Some f → ∃ s', runs (ctor f) s tt s' [ev f] ∧ (S i < length fs → keeps_table p n s s').

(** One constructor may do what it likes. *)
Lemma one_constructs (ctor : Z → AOp unit) (ev : Z → E) p n fs : length fs ≤ 1 →
  (∀ f s, f ∈ fs → ∃ s', runs (ctor f) s tt s' [ev f]) → constructs ctor ev p n fs.
Proof.
  intros Hl Hc i f s Hi. destruct (Hc f s) as [s' Hr]; [by eapply list_elem_of_lookup_2|].
  exists s'. split; [done|]. apply lookup_lt_Some in Hi. lia.
Qed.

Definition ctor_round (ctor : Z → AOp unit) : AOp unit :=
  ld_w_post 4 4 4;; mov_a 13 4;; a13 ← read_A 13; call (ctor a13).

(** A round from [s]: the constructor at [A4] is called from [ctor_entry s]. *)
Definition ctor_entry (s : Core) : Core :=
  let f := word (mem s) (A s 4) in set_A 13 f (set_A 4 (A s 4 + 4) (set_D 4 f s)).

Lemma runs_ctor_round (ctor : Z → AOp unit) s f s' l : word (mem s) (A s 4) = f → (0 ≤ f < modulus W32)%Z →
  runs (ctor f) (ctor_entry s) tt s' l →
  runs (ctor_round ctor) s tt (restore_upper (ctor_entry s) s') l.
Proof.
  intros Hw Hf Hr. unfold ctor_round. eapply runs_bind_nil; [apply runs_modify|].
  eapply runs_bind_nil; [apply runs_modify|]. regs. rewrite Hw, (w32_in f) by done.
  eapply runs_bind_nil; [instrs; apply runs_ret|].
  assert (set_A 13 f (set_A 4 (A s 4 + 4) (set_D 4 f s)) = ctor_entry s) as -> by (unfold ctor_entry; by rewrite Hw).
  assert (A (ctor_entry s) 13 = f) as -> by (unfold ctor_entry; rewrite Hw; regs; by apply w32_in).
  by apply runs_call.
Qed.

(** The rounds of the loop: the constructors [fs] are at [A4]. *)
Lemma runs_ctor_loop (ctor : Z → AOp unit) (ev : Z → E) p n :
  ∀ fs fuel s, constructs ctor ev p n fs → length fs < fuel → fs ≠ [] → (0 ≤ p ∧ p + n < modulus W32)%Z →
  (p ≤ A s 4 ∧ A s 4 + 4 * Z.of_nat (length fs) ≤ p + n)%Z →
  A s 15 = (Z.of_nat (length fs) - 1)%Z → Forall (λ f, 0 ≤ f < modulus W32)%Z fs →
  (∀ i f, fs !! i = Some f → word (mem s) (A s 4 + 4 * Z.of_nat i) = f) →
  ∃ s', runs (hw_loop fuel 15 (ctor_round ctor)) s tt s' (ev <$> fs).
Proof.
  induction fs as [|f fs IH]; intros fuel s Hctor Hf Hne Hp Ha H15 Hfs Hw; [done|].
  destruct fuel as [|fuel]; [cbn in Hf; lia|]. apply Forall_cons in Hfs as [Hf0 Hfs]. cbn [length] in *.
  destruct (Hctor 0 f (ctor_entry s) eq_refl) as (s1 & Hr & Hkeep).
  assert (word (mem s) (A s 4) = f) as Hwf.
  { specialize (Hw 0%nat f eq_refl). by rewrite Z.mul_0_r, Z.add_0_r in Hw. }
  pose proof (runs_ctor_round ctor s f s1 _ Hwf Hf0 Hr) as Hround. set (s2 := restore_upper (ctor_entry s) s1) in *.
  assert (A s2 15 = A s 15) as H215 by (unfold s2, ctor_entry; cbn; by regs).
  destruct fs as [|g fs].
  - exists (set_A 15 (A s2 15 - 1) s2). cbn [hw_loop].
    eapply runs_log; [eapply runs_bind; [exact Hround|]|apply app_nil_r].
    eapply runs_bind_nil; [apply runs_loop_again|]. rewrite H215, H15. apply runs_ret.
  - destruct Hkeep as [H4 Hag]; [cbn [length]; lia|]. change (mem (ctor_entry s)) with (mem s) in Hag.
    assert (A s2 4 = A s 4 + 4)%Z as H24.
    { unfold s2. cbn. rewrite H4. unfold ctor_entry. regs. apply w32_in. lia. }
    destruct (IH fuel (set_A 15 (A s2 15 - 1) s2)) as (s3 & Hr3); try done.
    + intros i h s3 Hh. destruct (Hctor (S i) h s3 Hh) as (s4 & Hr4 & Hk4). exists s4. split; [done|].
      intros Hi. apply Hk4. cbn [length] in *. lia.
    + cbn [length] in *. lia.
    + regs. cbn [length] in *. lia.
    + regs. rewrite H215, H15. cbn [length] in *. rewrite w32_in by (unfold modulus in *; lia). lia.
    + intros i h Hi. regs. rewrite H24. rewrite <-(word_agree _ (mem s)).
      * specialize (Hw (S i) h Hi). rewrite <-Hw. f_equal. lia.
      * eapply agree_sub; [exact Hag|cbn; lia|]. apply lookup_lt_Some in Hi. cbn [length fst snd] in *. lia.
    + exists s3. cbn [hw_loop fmap list_fmap].
      apply (runs_bind (ctor_round ctor) _ s tt s2 [ev f]); [exact Hround|].
      eapply runs_bind_nil; [apply runs_loop_again|]. rewrite (proj2 (Z.eqb_neq _ _)); [exact Hr3|].
      rewrite H215, H15. cbn [length]. lia.
Qed.

Lemma runs_ctor_init (ctor : Z → AOp unit) (ev : Z → E) s fuel fs :
  let n := (4 + 4 * Z.of_nat (length fs))%Z in
  constructs ctor ev (A s 4) n fs → length fs < fuel →
  (0 < A s 4 ∧ A s 4 + n < modulus W32)%Z → Forall (λ f, 0 ≤ f < modulus W32)%Z fs →
  ctor_table (mem s) (A s 4) fs →
  ∃ s', runs (Crt0CtorInit ctor fuel) s tt s' (ev <$> fs).
Proof.
  cbv zeta. intros Hctor Hf Hp Hfs [Hlen Hw].
  set (k := Z.of_nat (length fs)) in *. assert (0 ≤ k < modulus W32)%Z as Hk by (unfold k in *; lia).
  set (s1 := set_A 15 k (set_A 4 (A s 4 + 4) (set_D 4 k s))).
  assert (∀ (m : AOp unit) s' l, runs (if Z.eqb k 0 then mret tt else m) s1 tt s' l →
    runs (a4 ← read_A 4; if Z.eqb a4 0 then mret tt else
      ld_w_post 4 4 4;; mov_a 15 4;; a15 ← read_A 15; if Z.eqb a15 0 then mret tt else m) s tt s' l) as Hhead.
  { intros m s' l Hm. eapply runs_bind_nil; [instrs; apply runs_ret|].
    rewrite (proj2 (Z.eqb_neq _ _)) by lia. eapply runs_bind_nil; [apply runs_modify|].
    eapply runs_bind_nil; [apply runs_modify|]. regs. rewrite Hlen, (w32_in k) by done. fold s1.
    eapply runs_bind_nil; [instrs; apply runs_ret|].
    assert (A s1 15 = k) as -> by (subst s1; regs; by apply w32_in). exact Hm. }
  destruct fs as [|f fs].
  { exists s1. apply Hhead. apply runs_ret. }
  set (s2 := set_A 15 (k + -1) s1).
  destruct (runs_ctor_loop ctor ev (A s 4) (4 + 4 * k) (f :: fs) fuel s2) as (s' & Hr); try done.
  - split; [lia|]. unfold k in *. lia.
  - subst s2 s1. regs. rewrite w32_in by (unfold modulus in *; lia). lia.
  - subst s2 s1. regs. rewrite w32_in by (unfold modulus, k in *; cbn [length] in *; lia). lia.
  - intros i g Hi. subst s2 s1. regs. rewrite w32_in by (unfold modulus in *; lia). by apply Hw.
  - exists s'. apply Hhead. rewrite (proj2 (Z.eqb_neq _ _)) by (unfold k; cbn [length]; lia).
    eapply runs_bind_nil; [apply runs_modify|].
    assert (A s1 15 = k) as -> by (subst s1; regs; by apply w32_in). exact Hr.
Qed.

(** ** The blocks of [init_memory] *)
Lemma runs_config_base s c0 core_id : (0 ≤ c0)%Z → (c0 + 352 < modulus W32)%Z → (0 ≤ core_id < modulus W32)%Z →
  ∃ s', runs (config_base c0 core_id : AOp unit) s tt s' [] ∧
    A s' 14 = (c0 + CPUINIT_SIZE * (core_id mod 8))%Z ∧ mem s' = mem s.
Proof.
  intros Hc Hcb Hid. eexists. split; [|split].
  - unfold config_base. do 4 (eapply runs_bind_nil; [apply runs_modify|cbv beta; regs]). apply runs_modify.
  - regs. rewrite (w32_in core_id), (w32_in c0) by lia. change 7%Z with (Z.ones 3). rewrite Z.land_ones by lia.
    change (2 ^ 3)%Z with 8%Z. pose proof (Z.mod_pos_bound core_id 8 ltac:(lia)). unfold CPUINIT_SIZE, modulus in *.
    rewrite Z.shiftl_0_r, (w32_in (core_id mod 8)), (w32_in (_ * 44)), w32_in by (unfold modulus; lia). lia.
  - done.
Qed.

Lemma runs_small_data s : bytes_ok (mem s) → ∃ s', runs (small_data_registers : AOp unit) s tt s' [] ∧
  A s' 14 = A s 14 ∧ mem s' = mem s ∧
  A s' 0 = word (mem s) (A s 14 + SDATA) ∧ A s' 1 = word (mem s) (A s 14 + SDATA2) ∧
  A s' 8 = word (mem s) (A s 14 + SDATA3) ∧ A s' 9 = word (mem s) (A s 14 + SDATA4).
Proof.
  intros Hby. eexists. split.
  - unfold small_data_registers. do 15 (eapply runs_bind_nil; [apply runs_modify|cbv beta; regs]). apply runs_modify.
  - regs. rewrite !w32_in by (rewrite ?w32_in; apply word_bounds, Hby). done.
Qed.

Lemma runs_stack_init s loops base size : bytes_ok (mem s) →
  word (mem s) (A s 14 + STACK) = base → word (mem s) (A s 14 + STACK_SIZE) = size →
  (base + round8 size < modulus W32)%Z → (size < 8 * Z.of_nat loops)%Z →
  ∃ s', runs (stack_init loops : AOp unit) s tt s' [] ∧
    same_mem (mem s') (clear (base, round8 size) (mem s)) ∧
    A s' 10 = (base + size)%Z ∧ isp s' = (base + size)%Z ∧ A s' 14 = A s 14 ∧
    fcx s' = fcx s ∧ lcx s' = lcx s.
Proof.
  intros Hby Hbase Hsize Hb Hf.
  pose proof (word_bounds (mem s) (A s 14 + STACK) Hby) as Hbb.
  pose proof (word_bounds (mem s) (A s 14 + STACK_SIZE) Hby) as Hsb. rewrite Hbase in Hbb. rewrite Hsize in Hsb.
  assert (size ≤ round8 size)%Z as Hle by (unfold round8; Z.to_euclidean_division_equations; lia).
  assert (w32 base = base ∧ w32 size = size ∧ w32 (base + size) = base + size)%Z as (Hwb & Hws & Hwt)
    by (split_and!; apply w32_in; lia).
  assert (∃ s1, (∀ s2, runs (clear_exec loops : AOp unit) s1 tt s2 [] →
      runs (stack_init loops : AOp unit) s tt (restore_upper s1 s2) []) ∧
    A s1 4 = base ∧ D s1 4 = size ∧ A s1 10 = (base + size)%Z ∧ isp s1 = (base + size)%Z ∧
    A s1 14 = A s 14 ∧ mem s1 = mem s ∧ fcx s1 = fcx s ∧ lcx s1 = lcx s)
    as (s1 & Hrun & H4 & HD & H10 & Hisp & H14 & Hm1 & Hfcx & Hlcx).
  { eexists. split; [intros s2 Hr|].
    - unfold stack_init. do 7 (eapply runs_bind_nil; [apply runs_modify|cbv beta; regs]). apply runs_call, Hr.
    - regs. by rewrite Hbase, Hsize, Hwb, Hws, Hwb, Hwb, Hwt, Hwt. }
  destruct (runs_clear_exec (E:=E) s1 loops) as (s2 & Hr & Hm & _ & _ & _ & Hf2 & Hl2 & Hi2 & _);
    rewrite ?H4, ?HD; try lia.
  eexists. split; [apply Hrun, Hr|]. rewrite H4, HD, Hm1 in Hm. split; [exact Hm|]. cbn. by rewrite Hf2, Hl2, Hi2, Hfcx, Hlcx.
Qed.
End Start.

(** ** The image *)

(** What the linker puts into the configuration of a core: ranges, and the
    tables with their addresses. *)
Record Image := image {
  stack : Z * Z;
  csa : Z * Z;
  clear_tab : Z;
  bss : list (Z * Z);
  copy_tab : Z;
  data : list (Z * Z * Z);
  ctor_tab : Z;
  ctors : list Z
}.

Definition image_at (m : Z → Z) (c : Z) (im : Image) : Prop :=
  word m (c + STACK) = (stack im).1 ∧ word m (c + STACK_SIZE) = (stack im).2 ∧
  word m (c + CSA) = (csa im).1 ∧ word m (c + CSA_SIZE) = (csa im).2 ∧
  word m (c + CLEAR_TABLE) = clear_tab im ∧ word m (c + COPY_TABLE) = copy_tab im ∧
  clear_table m (clear_tab im) (bss im) ∧ copy_table m (copy_tab im) (data im) ∧
  word m (c + CTOR_TABLE) = ctor_tab im ∧
  if decide (ctor_tab im = 0%Z) then ctors im = [] else ctor_table m (ctor_tab im) (ctors im).

(** The areas of the free list, and how many there are. *)
Definition areas (im : Image) : Z := ((csa im).2 / 64)%Z.

(** What start-up reads and what it writes. *)
Definition read_ranges (im : Image) (c : Z) : list (Z * Z) :=
  (c, CPUINIT_SIZE) :: (clear_tab im, 8 * Z.of_nat (length (bss im)) + 4)%Z ::
  (copy_tab im, 12 * Z.of_nat (length (data im)) + 8)%Z ::
  (ctor_tab im, 4 + 4 * Z.of_nat (length (ctors im)))%Z :: (source <$> data im).
Definition written_ranges (im : Image) : list (Z * Z) :=
  ((csa im).1, 64 * areas im)%Z :: ((stack im).1, round8 (stack im).2) ::
  (cleared <$> bss im) ++ (target <$> data im).

(** Ranges inside the address space, the written ones apart from each other and
    from those that are read; areas that link words can name; and enough
    rounds for the loops. *)
Record laid_out (im : Image) (c : Z) (fuel loops : nat) : Prop := {
  lay_range : Forall (λ r, 0 ≤ r.1 ∧ r.1 + r.2 < modulus W32)%Z (read_ranges im c ++ written_ranges im);
  lay_apart : ForallOrdPairs disjoint (written_ranges im);
  lay_const : ∀ r w, r ∈ read_ranges im c → w ∈ written_ranges im → disjoint r w;
  lay_areas : nameable (csa im).1 (areas im) ∧ (0 < areas im ≤ Z.of_nat loops)%Z;
  lay_stack : ((stack im).2 < 8 * Z.of_nat loops)%Z;
  lay_bss : Forall (λ r, r.2 < 8 * Z.of_nat loops)%Z (bss im) ∧ length (bss im) < fuel;
  lay_data : Forall (λ r, r.2 ≤ Z.of_nat loops)%Z (data im) ∧ length (data im) < fuel;
  lay_ctors : Forall (λ f, 0 ≤ f < modulus W32)%Z (ctors im) ∧ length (ctors im) < loops
}.

Section Image.
Context {E : Type}.
Abbreviation AOp := (Op E Core).
Implicit Types s : Core.

(** A hook that returns, and leaves ranges and stack pointers alone. *)
Definition quiet (keep : list (Z * Z)) (hook : AOp unit) : Prop := ∀ s, bytes_ok (mem s) →
  ∃ s', runs hook s tt s' [] ∧ bytes_ok (mem s') ∧ (∀ r, r ∈ keep → agree r (mem s) (mem s')) ∧
    fcx s' = fcx s ∧ lcx s' = lcx s ∧ isp s' = isp s ∧ btv s' = btv s.

(** What stays true: the configuration and everything else that is read. *)
Definition preserved (im : Image) (c : Z) (m : Z → Z) (s : Core) : Prop :=
  A s 14 = c ∧ bytes_ok (mem s) ∧ ∀ r, r ∈ read_ranges im c → agree r m (mem s).

Lemma agree_config im c m s k : preserved im c m s → (0 ≤ k)%Z → (k + 4 ≤ CPUINIT_SIZE)%Z →
  word (mem s) (A s 14 + k) = word m (c + k).
Proof.
  intros (Hc & _ & Hag) Hk Hk'. rewrite Hc. symmetry. apply word_agree.
  eapply (agree_sub (c, CPUINIT_SIZE)); [apply Hag; unfold read_ranges; by left|cbn; lia..].
Qed.

Lemma preserved_start im c m s : A s 14 = c → bytes_ok m → mem s = m → preserved im c m s.
Proof. intros ? ? <-. split_and!; [done|done|]. intros r _ b _. done. Qed.

Lemma preserved_step im c m s s' m' : preserved im c m s → A s' 14 = A s 14 → same_mem (mem s') m' → bytes_ok m' →
  (∀ r, r ∈ read_ranges im c → agree r (mem s) m') → preserved im c m s'.
Proof.
  intros (Hc & Hby & Hag) HA Hm Hby' Hr. split; [by rewrite HA|]. split; [by eapply bytes_same|].
  intros r Hin. eapply agree_trans; [by apply Hag|]. eapply agree_trans; [by apply Hr|].
  by apply agree_same.
Qed.

(** The context save areas and the stack: everything before the first hook. *)
Lemma runs_contexts c0 tt0 im fuel loops s core_id : let c := (c0 + CPUINIT_SIZE * (core_id mod 8))%Z in
  (0 ≤ c0)%Z → (c0 + 352 < modulus W32)%Z → (0 ≤ core_id < modulus W32)%Z → bytes_ok (mem s) →
  image_at (mem s) c im → laid_out im c fuel loops →
  ∃ s', (∀ (k : AOp unit) s2 log, runs k s' tt s2 log → runs (config_base c0 core_id;;
      small_data_registers;; csa_init loops;; stack_init loops;; trap_table_init tt0;; k) s tt s2 log) ∧
    preserved im c (mem s) s' ∧ A s' 10 = ((stack im).1 + (stack im).2)%Z ∧ isp s' = A s' 10 ∧
    btv s' = w32 tt0 ∧ fcx s' = link (csa im).1 ∧ lcx s' = (link (csa im).1 + areas im)%Z ∧
    agree ((csa im).1, 64 * areas im)%Z (csa_list (csa im).1 (areas im) (mem s)) (mem s').
Proof.
  cbv zeta. set (c := (c0 + CPUINIT_SIZE * _)%Z). intros Hc0 Hc0b Hid Hby (Hst & Hsz & Hcsa & Hcsz & _) Hl.
  pose proof (lay_const _ _ _ _ Hl) as Hro. pose proof (lay_range _ _ _ _ Hl) as Hrg.
  pose proof (lay_apart _ _ _ _ Hl) as Hap. destruct (lay_areas _ _ _ _ Hl) as [Hnm Hn].
  rewrite Forall_app in Hrg. destruct Hrg as [_ Hrg]. unfold written_ranges, areas in *. rewrite !Forall_cons in Hrg.
  cbn [fst snd] in Hrg. destruct Hrg as (Hr1 & Hr2 & _). inversion Hap as [|? ? Hcs _]; subst. apply Forall_cons in Hcs as [Hcs _].
  destruct (runs_config_base (E:=E) s c0 core_id) as (s1 & R1 & H14 & Hm1); try done. fold c in H14.
  assert (preserved im c (mem s) s1) as K1 by (by apply preserved_start).
  destruct (runs_small_data (E:=E) s1) as (s2 & R2 & HA2 & Hm2 & _); [apply K1|].
  assert (preserved im c (mem s) s2) as K2 by (apply preserved_start; [congruence|done|congruence]).
  destruct (runs_csa_init (E:=E) s2 loops (csa im).1 (csa im).2) as (s3 & R3 & Hm3 & Hf3 & Hl3 & _ & HA3);
    try (apply K2 || (rewrite (agree_config _ _ _ _ _ K2) by done; done) || lia || done).
  assert (preserved im c (mem s) s3) as K3.
  { eapply preserved_step; [exact K2|apply HA3; repeat constructor; lia|exact Hm3| |].
    - apply csa_list_bytes, K2.
    - intros r Hr. apply csa_list_agree, Hro; [done|by left]. }
  destruct (runs_stack_init (E:=E) s3 loops (stack im).1 (stack im).2) as (s4 & R4 & Hm4 & H10 & Hi4 & HA4 & Hf4 & Hl4);
    try (apply K3 || (rewrite (agree_config _ _ _ _ _ K3) by done; done) || exact (lay_stack _ _ _ _ Hl) || lia || done).
  assert (preserved im c (mem s) s4) as K4.
  { eapply preserved_step; [exact K3|exact HA4|exact Hm4|apply clear_bytes, K3|].
    intros r Hr. apply agree_clear, Hro; [done|right; by left]. }
  eexists. split; [|split].
  - intros k s5 log Hk. eapply runs_bind_nil; [exact R1|]. eapply runs_bind_nil; [exact R2|].
    eapply runs_bind_nil; [exact R3|]. eapply runs_bind_nil; [exact R4|].
    eapply runs_bind_nil; [|exact Hk]. eapply runs_bind_nil; apply runs_modify.
  - exact K4.
  - cbn. rewrite H10, Hi4, Hf4, Hl4, Hf3, Hl3. split_and!; try done.
    eapply agree_trans; [|eapply agree_trans; [eapply agree_clear; exact Hcs|apply agree_same; by symmetry]].
    apply agree_same. rewrite Hm3, Hm2, Hm1. done.
Qed.
(** A parameter is loaded into [A4]. *)
Definition entry (v : Z) (s : Core) : Core := set_A 4 v (set_D 4 v s).

Lemma runs_entry im c m s k v (r : AOp unit) s' log : preserved im c m s → bytes_ok m →
  (0 ≤ k)%Z → (k + 4 ≤ CPUINIT_SIZE)%Z → word m (c + k) = v →
  runs r (entry v s) tt s' log → runs (ld_w 4 14 k;; mov_a 4 4;; r) s tt s' log.
Proof.
  intros Hk Hby H0 H44 Hv Hr. eapply runs_bind_nil; [apply runs_modify|]. rewrite (agree_config _ _ _ _ _ Hk), Hv by done.
  eapply runs_bind_nil; [apply runs_modify|]. regs. rewrite w32_in; [exact Hr|]. subst v. by apply word_bounds.
Qed.

Lemma entry_A4 v s : (0 ≤ v < modulus W32)%Z → A (entry v s) 4 = v.
Proof. intros. unfold entry. regs. by apply w32_in. Qed.

(** What the tables find at their entry, and what they do to memory. *)
Definition initialised (im : Image) (m m' : Z → Z) : Prop :=
  (∀ r b, r ∈ bss im → within_range b (cleared r) → m' b = 0%Z) ∧
  (∀ r i, r ∈ data im → (0 ≤ i < r.2)%Z → m' (r.1.2 + i)%Z = m (r.1.1 + i)%Z).

Lemma app_apart {T} (R : T → T → Prop) l1 l2 : ForallOrdPairs R (l1 ++ l2) →
  ForallOrdPairs R l2 ∧ ∀ x y, x ∈ l1 → y ∈ l2 → R x y.
Proof.
  induction l1 as [|a l1 IH]; cbn; intros Hp.
  - split; [done|]. intros x y Hx. by apply elem_of_nil in Hx.
  - inversion Hp as [|? ? Ha Hp']; subst. destruct (IH Hp') as [H2 H12]. split; [done|].
    intros x y [->|Hx]%elem_of_cons Hy; [|by apply H12]. rewrite Forall_forall in Ha. apply Ha, elem_of_app. by right.
Qed.

Lemma tables_initialise im c fuel loops m m1 : laid_out im c fuel loops →
  (∀ r, r ∈ read_ranges im c → agree r m m1) →
  initialised im m (copy_all (data im) (clear_all (bss im) m1)).
Proof.
  intros Hl Hag. pose proof (lay_apart _ _ _ _ Hl) as Hap. pose proof (lay_const _ _ _ _ Hl) as Hro.
  unfold written_ranges in Hap. apply (app_apart _ [_; _]) in Hap as [Hap _].
  apply app_apart in Hap as [Htg Hbt].
  assert (∀ x y, x ∈ data im → y ∈ written_ranges im → disjoint (source x) y) as Hsrc.
  { intros x y Hx Hy. apply Hro; [|done]. unfold read_ranges. rewrite !elem_of_cons, list_elem_of_fmap. eauto 7. }
  assert (∀ y, y ∈ data im → target y ∈ written_ranges im) as Htw.
  { intros y Hy. unfold written_ranges. rewrite !elem_of_cons, elem_of_app, !list_elem_of_fmap. eauto 7. }
  assert (∀ y, y ∈ bss im → cleared y ∈ written_ranges im) as Hbw.
  { intros y Hy. unfold written_ranges. rewrite !elem_of_cons, elem_of_app, !list_elem_of_fmap. eauto 7. }
  split.
  - intros r b Hr Hb. rewrite <-(agree_copy_all (cleared r)); [|..|done].
    + by eapply clear_all_zero.
    + intros x Hx. apply Hbt; apply list_elem_of_fmap; eauto.
  - intros r i Hr Hi. rewrite copy_all_moved; [|done|intros x y Hx Hy; apply Hsrc; auto|done|done].
    assert (within_range (r.1.1 + i) (source r))%Z as Hw by (unfold within_range, source; cbn; lia).
    rewrite <-(agree_clear_all (source r)); [|..|done].
    + symmetry. apply (Hag (source r)); [|done]. unfold read_ranges. rewrite !elem_of_cons, list_elem_of_fmap. eauto 7.
    + intros x Hx. apply Hsrc; auto.
Qed.

(** The two tables. *)
Lemma rows_clearable im c fuel loops : laid_out im c fuel loops →
  Forall (row_clearable (clear_tab im, 8 * Z.of_nat (length (bss im)) + 4)%Z loops) (bss im).
Proof.
  intros Hl. pose proof (lay_range _ _ _ _ Hl) as Hrg. destruct (lay_bss _ _ _ _ Hl) as [Hb _].
  rewrite Forall_forall in Hrg; rewrite Forall_forall in Hb; rewrite Forall_forall. intros r Hr. assert (cleared r ∈ written_ranges im) as Hw.
  { unfold written_ranges. rewrite !elem_of_cons, elem_of_app, !list_elem_of_fmap. eauto 7. }
  split; [split; [|by apply Hb]|].
  - apply (Hrg (cleared r)), elem_of_app. by right.
  - apply (lay_const _ _ _ _ Hl); [|done]. unfold read_ranges. rewrite !elem_of_cons. eauto 7.
Qed.

Lemma rows_copyable im c fuel loops : laid_out im c fuel loops →
  Forall (row_copyable (copy_tab im, 12 * Z.of_nat (length (data im)) + 8)%Z loops) (data im).
Proof.
  intros Hl. pose proof (lay_range _ _ _ _ Hl) as Hrg. destruct (lay_data _ _ _ _ Hl) as [Hb _].
  rewrite Forall_forall in Hrg; rewrite Forall_forall in Hb; rewrite Forall_forall. intros r Hr. assert (target r ∈ written_ranges im) as Hw.
  { unfold written_ranges. rewrite !elem_of_cons, elem_of_app, !list_elem_of_fmap. eauto 7. }
  assert (source r ∈ read_ranges im c) as Hs.
  { unfold read_ranges. rewrite !elem_of_cons, !list_elem_of_fmap. eauto 9. }
  split; [split_and!|split].
  - apply (Hrg (source r)), elem_of_app. by left.
  - apply (Hrg (target r)), elem_of_app. by right.
  - by apply Hb.
  - apply (lay_const _ _ _ _ Hl); [|done]. unfold read_ranges. rewrite !elem_of_cons. eauto 7.
  - by apply (lay_const _ _ _ _ Hl).
Qed.

(** From the tables on: clear, copy. *)
Lemma runs_clear_stage im c fuel loops s m : preserved im c m s → bytes_ok m → image_at m c im →
  laid_out im c fuel loops → ∃ s', runs (call (Crt0BssInit fuel loops) : AOp unit) (entry (clear_tab im) s) tt s' [] ∧
    preserved im c m s' ∧ same_mem (mem s') (clear_all (bss im) (mem s)) ∧
    A s' 10 = A s 10 ∧ fcx s' = fcx s ∧ lcx s' = lcx s ∧ isp s' = isp s ∧ btv s' = btv s.
Proof.
  intros K Hby (_ & _ & _ & _ & Ht & _ & Htab & _) Hl.
  pose proof (word_bounds m (c + CLEAR_TABLE) Hby) as Hb. rewrite Ht in Hb. pose proof (entry_A4 _ s Hb) as H4.
  assert ((clear_tab im, 8 * Z.of_nat (length (bss im)) + 4)%Z ∈ read_ranges im c) as Hr
    by (unfold read_ranges; rewrite !elem_of_cons; eauto 7).
  pose proof (lay_range _ _ _ _ Hl) as Hrg. rewrite Forall_forall in Hrg. destruct (lay_bss _ _ _ _ Hl) as [_ Hf].
  destruct (Hrg _ (proj2 (elem_of_app _ _ _) (or_introl Hr))) as [_ Hlim].
  destruct (runs_bss_init (E:=E) loops (bss im) fuel (entry (clear_tab im) s)) as (s' & Rb & Hm & Hfr); rewrite ?H4; try done; try lia.
  - apply K.
  - eapply clear_table_agree; [apply K; exact Hr|exact Htab].
  - by eapply rows_clearable.
  - exists (restore_upper (entry (clear_tab im) s) s'). split; [by apply runs_call|]. split; [|split; [exact Hm|]].
    + eapply (preserved_step im c m s); [exact K|done|exact Hm|apply clear_all_bytes, K|].
      intros r Hin. apply agree_clear_all. intros x Hx. apply (lay_const _ _ _ _ Hl); [done|].
      unfold written_ranges. rewrite !elem_of_cons, elem_of_app, !list_elem_of_fmap. eauto 7.
    + destruct Hfr as (_ & _ & _ & Hfc & Hlc & Hi & Hb'). cbn. by rewrite Hfc, Hlc, Hi, Hb'.
Qed.

Lemma runs_copy_stage im c fuel loops s m : preserved im c m s → bytes_ok m → image_at m c im →
  laid_out im c fuel loops → ∃ s', runs (call (Crt0DataInit fuel loops) : AOp unit) (entry (copy_tab im) s) tt s' [] ∧
    preserved im c m s' ∧ same_mem (mem s') (copy_all (data im) (mem s)) ∧
    A s' 10 = A s 10 ∧ fcx s' = fcx s ∧ lcx s' = lcx s ∧ isp s' = isp s ∧ btv s' = btv s.
Proof.
  intros K Hby (_ & _ & _ & _ & _ & Ht & _ & Htab & _) Hl.
  pose proof (word_bounds m (c + COPY_TABLE) Hby) as Hb. rewrite Ht in Hb. pose proof (entry_A4 _ s Hb) as H4.
  assert ((copy_tab im, 12 * Z.of_nat (length (data im)) + 8)%Z ∈ read_ranges im c) as Hr
    by (unfold read_ranges; rewrite !elem_of_cons; eauto 7).
  pose proof (lay_range _ _ _ _ Hl) as Hrg. rewrite Forall_forall in Hrg. destruct (lay_data _ _ _ _ Hl) as [_ Hf].
  destruct (Hrg _ (proj2 (elem_of_app _ _ _) (or_introl Hr))) as [_ Hlim].
  destruct (runs_data_init (E:=E) loops (data im) fuel (entry (copy_tab im) s)) as (s' & Rb & Hm & Hfr); rewrite ?H4; try done; try lia.
  - apply K.
  - eapply copy_table_agree; [apply K; exact Hr|exact Htab].
  - by eapply rows_copyable.
  - exists (restore_upper (entry (copy_tab im) s) s'). split; [by apply runs_call|]. split; [|split; [exact Hm|]].
    + eapply (preserved_step im c m s); [exact K|done|exact Hm|apply copy_all_bytes, K|].
      intros r Hin. apply agree_copy_all. intros x Hx. apply (lay_const _ _ _ _ Hl); [done|].
      unfold written_ranges. rewrite !elem_of_cons, elem_of_app, !list_elem_of_fmap. eauto 7.
    + destruct Hfr as (_ & _ & _ & Hfc & Hlc & Hi & Hb'). cbn. by rewrite Hfc, Hlc, Hi, Hb'.
Qed.

Definition hook_keeps (im : Image) (c : Z) : list (Z * Z) := ((csa im).1, 64 * areas im)%Z :: read_ranges im c.
Definition config_of (l : Linked (E:=E)) (core_id : Z) : Z := (crt0_config l + CPUINIT_SIZE * (core_id mod 8))%Z.

(** The hook keeps the areas and what is read. *)
Lemma preserved_hook im c m (hook : AOp unit) s : preserved im c m s → quiet (hook_keeps im c) hook →
  ∃ s', runs (call hook) s tt s' [] ∧ preserved im c m s' ∧ agree ((csa im).1, 64 * areas im)%Z (mem s) (mem s') ∧
    A s' 10 = A s 10 ∧ fcx s' = fcx s ∧ lcx s' = lcx s ∧ isp s' = isp s ∧ btv s' = btv s.
Proof.
  intros K Hq. destruct (Hq s) as (s' & R & Hby & Hag & Hspec); [apply K|].
  exists (restore_upper s s'). split; [by apply runs_call|]. split; [|split; [|done]].
  - eapply (preserved_step im c m s _ (mem s')); [done..|]. intros r Hr. apply Hag. unfold hook_keeps. by right.
  - apply Hag. unfold hook_keeps. by left.
Qed.

(** What the routines after start-up rely on. *)
Definition started (im : Image) (c traps : Z) (m : Z → Z) (s : Core) : Prop :=
  preserved im c m s ∧ initialised im m (mem s) ∧ btv s = w32 traps ∧
  A s 10 = ((stack im).1 + (stack im).2)%Z ∧ isp s = A s 10 ∧
  free_list (mem s) (fcx s) (area_addrs (csa im).1 (areas im)) (lcx s) ∧
  csa_addr (lcx s) = ((csa im).1 + 64 * areas im)%Z.

(** What start-up is run on: a core that knows its number, and a configuration
    for it that describes a laid out image. *)
Record bootable (l : Linked (E:=E)) (im : Image) (fuel loops : nat) (s : Core) (core_id : Z) : Prop := {
  boot_config : (0 ≤ crt0_config l ∧ crt0_config l + 352 < modulus W32)%Z;
  boot_core : (0 ≤ core_id < modulus W32)%Z;
  boot_bytes : bytes_ok (mem s);
  boot_image : image_at (mem s) (config_of l core_id) im;
  boot_layout : laid_out im (config_of l core_id) fuel loops;
  boot_pre : quiet (hook_keeps im (config_of l core_id)) (Crt0PreInit l)
}.

(** The areas stay when the tables are processed. *)
Lemma csa_stays im c fuel loops m : laid_out im c fuel loops →
  agree ((csa im).1, 64 * areas im)%Z m (copy_all (data im) (clear_all (bss im) m)).
Proof.
  intros Hl. pose proof (lay_apart _ _ _ _ Hl) as Hap. unfold written_ranges in Hap.
  apply (app_apart _ [_]) in Hap as [_ Hcs].
  eapply agree_trans; [apply agree_clear_all|apply agree_copy_all]; intros x Hx; apply Hcs; try by left.
  - rewrite elem_of_cons, elem_of_app, !list_elem_of_fmap. eauto 7.
  - rewrite elem_of_cons, elem_of_app, !list_elem_of_fmap. eauto 7.
Qed.

Lemma runs_init_memory l im fuel loops s core_id : bootable l im fuel loops s core_id →
  ∃ s', runs (init_memory l fuel loops core_id) s tt s' [] ∧ started im (config_of l core_id) (first_trap_table l) (mem s) s'.
Proof.
  intros [[Hc Hcb] Hid Hby Him Hl Hq]. unfold config_of in *. set (c := (crt0_config l + _ * _)%Z) in *.
  destruct (runs_contexts (crt0_config l) (first_trap_table l) im fuel loops s core_id)
    as (s1 & Hrun & K1 & H10 & Hi & Hb1 & Hf1 & Hl1 & Hcsa); try done. fold c in Hrun, K1.
  destruct (preserved_hook im c (mem s) (Crt0PreInit l) s1) as (s2 & R2 & K2 & Hag & H10' & Hf2 & Hl2 & Hi2 & Hb2); try done.
  destruct (runs_clear_stage im c fuel loops s2 (mem s)) as (s3 & R3 & K3 & Hm3 & H3a & Hf3 & Hl3 & Hi3 & Hb3); try done.
  destruct (runs_copy_stage im c fuel loops s3 (mem s)) as (s4 & R4 & K4 & Hm4 & H4a & Hf4 & Hl4 & Hi4 & Hb4); try done.
  assert (same_mem (mem s4) (copy_all (data im) (clear_all (bss im) (mem s2)))) as Hm by (by rewrite Hm4, Hm3).
  exists s4. split; [|split; [exact K4|split; [|split; [|split; [|split]]]]].
  - apply Hrun. eapply runs_bind_nil; [exact R2|].
    eapply (runs_entry im c (mem s) s2); [done..|apply Him|]. eapply runs_bind_nil; [exact R3|].
    eapply (runs_entry im c (mem s) s3); [done..|apply Him|exact R4].
  - destruct (tables_initialise im c fuel loops (mem s) (mem s2) Hl) as [Hz Hd]; [apply K2|].
    split; intros; rewrite Hm; [by eapply Hz|by apply Hd].
  - congruence.
  - congruence.
  - congruence.
  - rewrite Hf4, Hf3, Hf2, Hf1, Hl4, Hl3, Hl2, Hl1. destruct (lay_areas _ _ _ _ Hl) as [Hnm Hn].
    split; [|apply (csa_addr_link _ _ _ Hnm); lia]. eapply csa_list_free; [exact Hnm|].
    eapply agree_trans; [exact Hcsa|]. eapply agree_trans; [exact Hag|].
    eapply agree_trans; [by eapply csa_stays|]. apply agree_same. by symmetry.
Qed.

(** The constructors, then the second hook. *)
Lemma runs_init_objects l im c traps m fuel loops s (ev : Z → E) (Q : Z → Prop) :
  started im c traps m s → bytes_ok m → image_at m c im →
  laid_out im c fuel loops →
  constructs (ctor l) ev (ctor_tab im) (4 + 4 * Z.of_nat (length (ctors im))) (ctors im) →
  (∀ s1, ∃ s2, runs (Crt0PostInit l) s1 tt s2 [] ∧ Q (biv s2)) →
  ∃ s', runs (init_objects l loops) s tt s' (ev <$> ctors im) ∧ A s' 10 = A s 10 ∧ Q (biv s').
Proof.
  intros (K & _) Hby Him Hl Hctor Hpost. pose proof Him as (_ & _ & _ & _ & _ & _ & _ & _ & Ht & Htab).
  pose proof (word_bounds m (c + CTOR_TABLE) Hby) as Hb. rewrite Ht in Hb. pose proof (entry_A4 _ s Hb) as H4.
  destruct (lay_ctors _ _ _ _ Hl) as [Hfs Hn].
  assert ((ctor_tab im, 4 + 4 * Z.of_nat (length (ctors im)))%Z ∈ read_ranges im c) as Hr
    by (unfold read_ranges; rewrite !elem_of_cons; eauto 7).
  assert (∃ s1, runs (Crt0CtorInit (ctor l) loops) (entry (ctor_tab im) s) tt s1 (ev <$> ctors im)) as [s1 Hr1].
  { destruct (decide (ctor_tab im = 0%Z)) as [Hz|Hnz].
    - exists (entry (ctor_tab im) s). rewrite Htab. eapply runs_bind_nil; [instrs; apply runs_ret|].
      rewrite H4, Hz. apply runs_ret.
    - pose proof (lay_range _ _ _ _ Hl) as Hrg. rewrite Forall_forall in Hrg.
      destruct (Hrg _ (proj2 (elem_of_app _ _ _) (or_introl Hr))) as [_ Hlim].
      destruct (runs_ctor_init (ctor l) ev (entry (ctor_tab im) s) loops (ctors im)) as (s1 & Hr1);
        rewrite ?H4; try done.
      + cbn [fst snd] in Hlim. lia.
      + destruct Htab as [Hlen Hw]. destruct K as (_ & _ & Hag).
        split; [rewrite <-(word_agree _ m); [done|]|].
        * eapply agree_sub; [exact (Hag _ Hr)|cbn; lia..].
        * intros i f Hi. pose proof (lookup_lt_Some _ _ _ Hi). rewrite <-(word_agree _ m); [by apply Hw|].
          eapply agree_sub; [exact (Hag _ Hr)|cbn; lia..].
      + by exists s1. }
  destruct (Hpost (restore_upper (entry (ctor_tab im) s) s1)) as (s2 & Hr2 & HQ).
  eexists. split.
  - eapply (runs_entry im c m s); [done..|].
    eapply runs_log; [eapply runs_bind; [apply runs_call, Hr1|apply runs_call, Hr2]|apply app_nil_r].
  - by split.
Qed.
End Image.

(** C7: between reset and the constructors the runtime prepares what they and
    [main] find: the sections of the clear table hold zeros, each section of
    the copy table holds its initial data, the stack pointers are at the top of
    the stack of the core, and the free list visits its context save areas in
    order.  The link word of the last of them, which is also LCX, names the
    address behind it. *)
Theorem startup_memory {E} (l : Linked (E:=E)) im fuel loops s core_id : bootable l im fuel loops s core_id →
  ∃ s', runs (init_memory l fuel loops core_id) s tt s' [] ∧
    (∀ r b, r ∈ bss im → (r.1 ≤ b < r.1 + r.2)%Z → mem s' b = 0%Z) ∧
    (∀ src dst size i, (src, dst, size) ∈ data im → (0 ≤ i < size)%Z → mem s' (dst + i) = mem s (src + i))%Z ∧
    (A s' 10 = (stack im).1 + (stack im).2 ∧ isp s' = A s' 10)%Z ∧
    free_list (mem s') (fcx s') (area_addrs (csa im).1 (areas im)) (lcx s') ∧
    csa_addr (lcx s') = ((csa im).1 + 64 * areas im)%Z.
Proof.
  intros Hb. destruct (runs_init_memory l im fuel loops s core_id Hb) as (s' & Hr & _ & [Hz Hd] & _ & H10 & Hi & Hfl & Hla).
  exists s'. split_and!; try done.
  - intros r b Hin Hrb. apply (Hz r); [done|]. unfold within_range, cleared, round8. cbn.
    Z.to_euclidean_division_equations. lia.
  - intros src dst size i Hin Hi'. by apply (Hd (src, dst, size)).
Qed.

(** An image with a section to clear, one to copy and [n] constructors, one or two. *)
Definition example_words (n : nat) : list Z :=
  [8192; 13; 16384; 128; 1; 2; 3; 4; 4140; 4152; 4172;
   12288; 5; END;
   4184; 12304; 3; 0; END;
   Z.of_nat n; 1879048192; 1879048256;
   13417386]%Z.
Definition example_mem n (b : Z) : Z :=
  byte_of ((b - 4096) mod 4) (default 0%Z (example_words n !! Z.to_nat ((b - 4096) / 4))).
Definition example_image_of n : Image :=
  image (8192, 13)%Z (16384, 128)%Z 4140 [(12288, 5)%Z] 4152 [(4184, 12304, 3)%Z] 4172
    (take n [1879048192; 1879048256]%Z).
Definition example_core_of n : Core := mk (λ _, 0%Z) (λ _, 0%Z) 0 0 0 0 0 0 0 (example_mem n).
Definition example_linked : Linked (E:=Z) :=
  linked 4096 0 (mret tt) (mret tt) op_emit (mret tt).

(** The decidable parts of an image that boots. *)
Ltac computed := apply (bool_decide_unpack _); by vm_compute.

Lemma example_laid_out n : n = 1 ∨ n = 2 →
  laid_out (example_image_of n) (config_of example_linked 0) 5 5.
Proof.
  intros Hn. split; try (by destruct Hn as [->| ->]; computed); try (by destruct Hn as [->| ->]; vm_compute);
    try (by destruct Hn as [->| ->]; split; computed).
  - destruct Hn as [->| ->]; repeat constructor; computed.
  - assert (Forall (λ r, Forall (disjoint r) (written_ranges (example_image_of n)))
      (read_ranges (example_image_of n) (config_of example_linked 0))) as Hall by (destruct Hn as [->| ->]; computed).
    rewrite Forall_forall in Hall. intros r w Hr Hw. specialize (Hall r Hr).
    rewrite Forall_forall in Hall. by apply Hall.
Qed.

Lemma example_boots_of n : n = 1 ∨ n = 2 →
  bootable example_linked (example_image_of n) 5 5 (example_core_of n) 0.
Proof.
  intros Hn. split.
  - vm_compute. by split.
  - vm_compute. by split.
  - intros b. cbn. unfold example_mem, byte_of. apply Z.mod_pos_bound. lia.
  - unfold image_at. cbn [clear_table copy_table example_image_of]. rewrite decide_False by done.
    unfold ctor_table. destruct Hn as [->| ->]; (split_and!; [by vm_compute..|]);
      intros [|[|i]] f Hf; try done; injection Hf as <-; by vm_compute.
  - by apply example_laid_out.
  - intros s Hs. exists s. by split_and!.
Qed.

Abbreviation example_image := (example_image_of 2).
Abbreviation example_core := (example_core_of 2).
Lemma example_boots : bootable example_linked example_image 5 5 example_core 0.
Proof. apply example_boots_of. by right. Qed.

Lemma startup_memory_witness : ∃ s', runs (init_memory example_linked 5 5 0) example_core tt s' [] ∧
  mem s' 12290%Z = 0%Z ∧ mem s' 12305%Z = 187%Z.
Proof.
  destruct (startup_memory example_linked example_image 5 5 example_core 0 example_boots) as (s' & Hr & Hz & Hd & _).
  exists s'. split; [exact Hr|]. split.
  - apply (Hz (12288, 5)%Z); [by left|cbn; lia].
  - change 12305%Z with (12304 + 1)%Z. rewrite (Hd 4184%Z 12304%Z 3%Z 1%Z); [by vm_compute|by left|lia].
Defined.

(** Before [main] every constructor of the table is called once, in the order
    of the table, if all but the last leave [A4] alone. *)
Theorem constructors_in_order {E} (ev : Z → E) (l : Linked (E:=E)) im fuel loops s core_id :
  bootable l im fuel loops s core_id →
  constructs (ctor l) ev (ctor_tab im) (4 + 4 * Z.of_nat (length (ctors im))) (ctors im) →
  (∀ s1, ∃ s2, runs (Crt0PostInit l) s1 tt s2 []) →
  ∃ s', runs (before_main l fuel loops core_id) s tt s' (ev <$> ctors im) ∧
    (A s' 10 = (stack im).1 + (stack im).2)%Z.
Proof.
  intros Hb Hctor Hpost. pose proof Hb as [_ _ Hby Him Hl _].
  destruct (runs_init_memory l im fuel loops s core_id Hb) as (s1 & Hr1 & Hst).
  destruct (runs_init_objects l im _ _ (mem s) fuel loops s1 ev (λ _, True) Hst) as (s2 & Hr2 & H10 & _); try done.
  { intros s2. destruct (Hpost s2) as [s3 Hr3]. by exists s3. }
  exists s2. split; [eapply runs_bind_nil; [exact Hr1|exact Hr2]|]. rewrite H10. apply Hst.
Qed.

Lemma constructors_in_order_witness : ∃ s', runs (before_main example_linked 5 5 0) example_core tt s'
  [1879048192; 1879048256]%Z ∧ A s' 10 = 8205%Z.
Proof.
  apply (constructors_in_order id example_linked example_image 5 5 example_core 0 example_boots).
  - intros i f s1 _. exists s1. split; [apply runs_emit|]. intros _. by repeat split.
  - intros s1. exists s1. apply runs_ret.
Defined.

(** [clear_exec] clears the range it is given and, writing whole double words,
    up to seven bytes behind it; it touches nothing else. *)
Theorem clear_exec_rounds {E} s fuel : (0 ≤ D s 4 < 8 * Z.of_nat fuel)%Z → (0 ≤ A s 4)%Z →
  (A s 4 + round8 (D s 4) < modulus W32)%Z →
  ∃ s', runs (clear_exec fuel : Op E Core unit) s tt s' [] ∧
    (∀ b, (A s 4 ≤ b < A s 4 + round8 (D s 4))%Z → mem s' b = 0%Z) ∧
    (∀ b, (b < A s 4 ∨ A s 4 + round8 (D s 4) ≤ b)%Z → mem s' b = mem s b) ∧
    (D s 4 ≤ round8 (D s 4) < D s 4 + 8)%Z.
Proof.
  intros [H0 Hf] Ha Hb. destruct (runs_clear_exec (E:=E) s fuel H0 Hf Ha Hb) as (s' & Hr & Hm & _).
  exists s'. split_and!; [done|..].
  - intros b Hin. rewrite Hm. unfold clear, within_range. cbn. by rewrite decide_True.
  - intros b Hout. rewrite Hm. unfold clear, within_range. cbn [fst snd]. by rewrite decide_False by lia.
  - unfold round8. Z.to_euclidean_division_equations. lia.
  - unfold round8. Z.to_euclidean_division_equations. lia.
Qed.

(** Five bytes are asked for and eight are cleared. *)
Lemma clear_exec_rounds_witness : ∃ s', runs (clear_exec 1 : Op Z Core unit)
    (mk (λ _, 64%Z) (λ _, 5%Z) 0 0 0 0 0 0 0 (λ _, 7%Z)) tt s' [] ∧ mem s' 71%Z = 0%Z ∧ mem s' 72%Z = 7%Z.
Proof.
  destruct (clear_exec_rounds (E:=Z) (mk (λ _, 64%Z) (λ _, 5%Z) 0 0 0 0 0 0 0 (λ _, 7%Z)) 1)
    as (s' & Hr & Hz & Ho & _); [cbn; lia|cbn; lia|by vm_compute|].
  exists s'. split; [exact Hr|]. split; [apply Hz; by vm_compute|apply Ho; right; by vm_compute].
Defined.
