(* ===== verification/Vectors.v ===== *)
(** * Trap and interrupt tables ([runtime.rs])

    The entries of the two vector tables, generated by recursive assembler
    macros, and the handlers behind them: the timer's ([cpu0.rs]), those of the
    interrupt executors that [main.rs] installs, and the weak default that
    returns.  Arrival of an interrupt and the vector it selects are hardware. *)

From stdpp Require Import functions.
From S2P Require Import Prelude Startup StartupFacts Heapless WaitQueue Bump Timers Kernel.

Module Vectors.
Import Startup.

(** The macros count from [from] to [to], one entry at a time; [fuel] bounds
    the entries. *)
Fixpoint macro_range (fuel from to : nat) : list nat :=
  match fuel with
  | O => []
  | S fuel => from :: (if Nat.eqb (to - from) 0 then [] else macro_range fuel (S from) to)
  end.

Definition first_trap_table : list nat := macro_range 33 0 7.
Definition INTERRUPT_TABLE : list nat := macro_range 33 0 15 ++ macro_range 33 16 32.
(** The vectors with a weak handler that only returns. *)
Definition default_handlers : list nat :=
  macro_range 33 0 1 ++ macro_range 33 5 5 ++ macro_range 33 7 15 ++ macro_range 33 16 32.
(** [install_interrupt_executor_handler!] *)
Definition executor_handlers : list nat := [2; 3; 4].

Section Code.
Context {E : Type}.
Abbreviation AOp := (Op E Core).

Definition addih_a (a b : nat) (k : Z) : AOp unit :=
  op_modify (λ s, set_A a (A s b + Z.shiftl k 16) s).

(** The entry of trap class [from], up to the jump to [_exit]; the hardware
    puts the number of the trap into D15. *)
Definition trapentry (from : Z) : AOp unit :=
  mov_u 14 (Z.shiftl from 8);;
  add_dd 14 14 15;;
  mov_a 14 14;;
  addih_a 14 14 0xdead.

(** The lower context that [svlcx] saves: A2 to A7, A11, D0 to D7. *)
Definition restore_lower (s s' : Core) : Core :=
  mk (λ n, if decide (2 ≤ n ≤ 7 ∨ n = 11) then A s n else A s' n)
    (λ n, if decide (n ≤ 7) then D s n else D s' n)
    (psw s') (pcxi s') (fcx s') (lcx s') (isp s') (btv s') (biv s') (mem s').

(** The entry of a vector whose handler is at [addr].  The interrupt has saved
    the upper context, which [rfe] restores. *)
Definition inttab_entry (addr : Z) (handler : AOp unit) : AOp unit :=
  upper ← op_get;
  lower ← op_get;
  mov_a_k 14 addr;;
  call handler;;
  op_modify (restore_lower lower);;
  op_modify (restore_upper upper).
End Code.

(** The handlers of the kernel. *)
Section Kernel.
Context `{HP : Profile} `{P : Platform}.
Variable fut_poll : Fut → Waker → Op KEvent World (Poll unit * Fut).
Abbreviation KOp := (Op KEvent World).

Definition INTERRUPT_HANDLER_6 : KOp (option unit) := on_timer_interrupt;; mret (Some tt).

(** [__INTERRUPT_HANDLER_<prio>] *)
Definition executor_handler (fuel : nat) (prio : nat) : KOp (option unit) :=
  executor ← kernel_get_executor (Z.of_nat prio);
  on_interrupt fut_poll fuel executor.

(** What the linker chooses for a vector: a defined handler before a weak one. *)
Definition handler_of (fuel : nat) (v : nat) : option (KOp (option unit)) :=
  if decide (v = 6) then Some INTERRUPT_HANDLER_6
  else if decide (v ∈ executor_handlers) then Some (executor_handler fuel v)
  else if decide (v ∈ default_handlers) then Some (mret (Some tt))
  else None.
End Kernel.
End Vectors.

Import Startup Vectors.

(** ** The tables *)
Lemma macro_range_seq fuel : ∀ from to, from ≤ to → to - from < fuel →
  macro_range fuel from to = seq from (S (to - from)).
Proof.
  induction fuel as [|fuel IH]; intros from to Hft Hf; [lia|]. cbn [macro_range seq]. f_equal.
  destruct (Nat.eqb_spec (to - from) 0) as [->|Hne]; [done|].
  rewrite IH by lia. f_equal. lia.
Qed.

Section Handlers.
Context `{HP : Profile} `{P : Platform}.

(** The macros emit an entry for each of the eight trap classes and for the
    vectors 0 to 32; every vector has exactly one handler, so that the
    symbol each entry calls is defined: the kernel's for 2, 3, 4 and 6, and the
    weak one for the others. *)
Theorem vectors_handled fut_poll fuel :
  first_trap_table = seq 0 8 ∧ INTERRUPT_TABLE = seq 0 33 ∧
  executor_handlers ++ [6] ++ default_handlers ≡ₚ INTERRUPT_TABLE ∧
  Forall (λ v, is_Some (handler_of fut_poll fuel v)) INTERRUPT_TABLE.
Proof.
  assert (executor_handlers ++ [6] ++ default_handlers ≡ₚ INTERRUPT_TABLE) as Hp.
  { apply (bool_decide_unpack _). by vm_compute. }
  split_and!; [by apply macro_range_seq; lia| |exact Hp|].
  - unfold INTERRUPT_TABLE. rewrite !macro_range_seq by lia. done.
  - rewrite <-Hp. apply Forall_forall. intros v Hv. unfold handler_of.
    repeat (case_decide; [by eexists|]). exfalso.
    rewrite !elem_of_app, list_elem_of_singleton in Hv. tauto.
Qed.
End Handlers.

(** ** The entries *)

(** The entry of a trap leaves 0xdead, the class and the number of the trap in
    A14 when it stops at [_exit]. *)
Theorem trap_cause {E} s class : (0 ≤ class < 8)%Z → (0 ≤ D s 15 < 256)%Z →
  ∃ s', runs (trapentry class : Op E Core unit) s tt s' [] ∧
    (Z.shiftr (A s' 14) 16 = 0xdead ∧ Z.shiftr (A s' 14) 8 mod 256 = class ∧ A s' 14 mod 256 = D s 15)%Z ∧
    mem s' = mem s.
Proof.
  intros Hc Ht. eexists. split.
  - unfold trapentry. do 3 (eapply runs_bind_nil; [apply runs_modify|cbv beta; regs]). apply runs_modify.
  - regs. rewrite !Z.shiftl_mul_pow2, !Z.shiftr_div_pow2 by lia.
    change (2 ^ 8)%Z with 256%Z. change (2 ^ 16)%Z with 65536%Z.
    rewrite (w32_in (class * 256)), !(w32_in (class * 256 + D s 15)), w32_in by (unfold modulus; lia).
    split_and!; try done; Z.to_euclidean_division_equations; lia.
Qed.

(** C29: an interrupt is invisible to the code it interrupts: whatever the handler
    does to the registers, those of both contexts are as before; only memory
    and the four global address registers are the handler's. *)
Theorem interrupt_transparent {E} addr (handler : Op E Core unit) s s1 log :
  runs handler (set_A 14 addr s) tt s1 log →
  ∃ s', runs (inttab_entry addr handler) s tt s' log ∧ mem s' = mem s1 ∧ psw s' = psw s ∧
    (∀ n, n ≤ 15 → D s' n = D s n) ∧
    (∀ n, n ≤ 15 → n ∉ [0; 1; 8; 9] → A s' n = A s n).
Proof.
  intros Hr. eexists. split.
  - unfold inttab_entry. do 3 (eapply runs_bind_nil; [apply runs_get || apply runs_modify|]).
    eapply runs_log; [eapply runs_bind; [apply runs_call, Hr|]|apply app_nil_r].
    eapply runs_bind_nil; apply runs_modify.
  - cbn. split_and!; try done.
    + intros n Hn. repeat case_decide; try done. lia.
    + intros n Hn Hg. repeat case_decide; try done.
      rewrite !not_elem_of_cons in Hg. lia.
Qed.

(** A handler that changes registers of both contexts and a byte of memory. *)
Definition example_handler : Op Z Core unit :=
  mov 0 1;; mov 15 2;; mov_a_k 4 3;; st_b_post 4 1 0;; op_emit 6%Z.

Lemma interrupt_transparent_witness : ∃ s', runs (inttab_entry 64 example_handler)
    (mk (λ _, 0%Z) (λ _, 9%Z) 0 0 0 0 0 0 0 (λ _, 0%Z)) tt s' [6%Z] ∧
  mem s' 3%Z = 1%Z ∧ D s' 0 = 9%Z ∧ D s' 15 = 9%Z ∧ A s' 4 = 0%Z.
Proof.
  destruct (interrupt_transparent 64 example_handler (mk (λ _, 0%Z) (λ _, 9%Z) 0 0 0 0 0 0 0 (λ _, 0%Z))
    _ [6%Z] eq_refl) as (s' & Hr & Hm & _ & HD & HA).
  exists s'. split; [exact Hr|]. split; [by rewrite Hm|]. split; [by apply HD; lia|]. split; [by apply HD; lia|].
  apply HA; [lia|]. apply (bool_decide_unpack _). by vm_compute.
Defined.
