(* ===== verification/Boot.v ===== *)
(** * The hooks of the program around start-up ([main.rs])

    [Crt0PreInit] and [Crt0PostInit] as [main.rs] defines them, put into the
    start-up code: core 0 gets to [main] with its interrupt table loaded, the
    other cores are parked.  The drivers they call are parameters. *)

From stdpp Require Import functions.
From S2P Require Import Prelude Startup StartupFacts StartupProps.
Import Startup.

Module Boot.

Definition set_biv (v : Z) (s : Core) : Core :=
  mk (A s) (D s) (psw s) (pcxi s) (fcx s) (lcx s) (isp s) (btv s) (w32 v) (mem s).

Section Hooks.
Context {E : Type}.
Abbreviation AOp := (Op E Core).
(** The drivers; [init_clock] says whether it succeeded. *)
Variables (disable_safety_watchdog disable_cpu_watchdog : AOp unit) (init_clock : AOp bool).
Variable call_without_endinit : AOp unit → AOp unit.

(** [loop {}]: as after a panic, nothing that follows is reached. *)
Definition park : AOp unit := op_panic.

Definition pre_init_fn (cpu_core_id : Z) : AOp unit :=
  op_when (Z.eqb cpu_core_id 0) disable_safety_watchdog;;
  disable_cpu_watchdog.

Definition load_interrupt_table (interrupt_table : Z) : AOp unit :=
  call_without_endinit (op_modify (set_biv interrupt_table)).

Definition post_init_fn (interrupt_table cpu_core_id : Z) : AOp unit :=
  if Z.eqb cpu_core_id 0 then
    ok ← init_clock;
    (if (ok : bool) then mret tt else op_panic);;
    load_interrupt_table interrupt_table
  else park.

(** The program: what the linker puts in, with these hooks. *)
Definition program (config traps interrupt_table : Z) (ctor : Z → AOp unit) (main : AOp unit)
    (cpu_core_id : Z) : Linked :=
  linked config traps (pre_init_fn cpu_core_id) (post_init_fn interrupt_table cpu_core_id) ctor main.
End Hooks.

(** [wait_nop]: the period in nanoseconds, cut to 32 bits; a [nop] is logged. *)
Inductive Instruction := Nop.

Fixpoint nops {S} (n : nat) : Op Instruction S unit :=
  match n with O => mret tt | S n => op_emit Nop;; nops n end.

Definition wait_nop {S} (nanos : Z) : Op Instruction S unit :=
  let ns := (nanos mod modulus W32)%Z in
  nops (Z.to_nat (ns / 920)).
End Boot.

Import Boot.

Section Boot.
Context {E : Type}.
Abbreviation AOp := (Op E Core).
Implicit Types s : Core.
Variables (disable_safety_watchdog disable_cpu_watchdog : AOp unit) (init_clock : AOp bool).
Variable call_without_endinit : AOp unit → AOp unit.
Abbreviation prog := (program disable_safety_watchdog disable_cpu_watchdog init_clock call_without_endinit).

(** The drivers: the watchdog ones touch the watchdogs only; the clock comes
    up; and [call_without_endinit] runs its closure once, and does not touch
    BIV itself. *)
Definition clock_comes_up : Prop := ∀ s, ∃ s', runs init_clock s true s' [].
Definition clock_fails : Prop := ∀ s ok s' log, runs init_clock s ok s' log → ok = false.
Definition endinit_runs : Prop := ∀ f s, (∀ s0, ∃ s1, runs f s0 tt s1 []) →
  ∃ s0 s1 s', runs f s0 tt s1 [] ∧ runs (call_without_endinit f) s tt s' [] ∧ biv s' = biv s1.

Lemma quiet_seq keep (m1 m2 : AOp unit) : quiet keep m1 → quiet keep m2 → quiet keep (m1;; m2).
Proof.
  intros H1 H2 s Hby. destruct (H1 s Hby) as (s1 & R1 & Hby1 & Hag1 & Hf1 & Hl1 & Hi1 & Hb1).
  destruct (H2 s1 Hby1) as (s2 & R2 & Hby2 & Hag2 & Hf2 & Hl2 & Hi2 & Hb2).
  exists s2. split_and!; try congruence; [by eapply runs_bind_nil|done|].
  intros r Hr. eapply agree_trans; [by apply Hag1|by apply Hag2].
Qed.

Lemma post_init_loads table s : clock_comes_up → endinit_runs → (0 ≤ table < modulus W32)%Z →
  ∃ s', runs (post_init_fn init_clock call_without_endinit table 0) s tt s' [] ∧ biv s' = table.
Proof.
  intros Hclock Hend Ht. destruct (Hclock s) as [s1 R1].
  destruct (Hend (op_modify (set_biv table)) s1) as (s2 & s3 & s4 & R3 & R4 & Hb).
  { intros s0. eexists. apply runs_modify. }
  exists s4. split.
  - eapply runs_bind_nil; [exact R1|]. eapply (runs_bind_nil _ _ _ tt); [apply runs_ret|exact R4].
  - rewrite Hb. injection R3 as <-. by apply w32_in.
Qed.

(** Start-up does not return without the second hook. *)
Lemma init_objects_post (l : Linked (E:=E)) loops s s' log : runs (init_objects l loops) s tt s' log →
  ∃ s1 s2 log', runs (Crt0PostInit l) s1 tt s2 log'.
Proof.
  intros (u1 & s2 & l3 & l4 & _ & (u2 & s3 & l5 & l6 & _ & (u3 & s4 & l7 & l8 & _ & Hr & _)%runs_bind_inv & _)%runs_bind_inv & _)%runs_bind_inv.
  apply runs_bind_inv in Hr as (s5 & s6 & l9 & l10 & _ & Hr & _).
  apply runs_bind_inv in Hr as ([] & s7 & l11 & l12 & Hr & _ & _). eauto.
Qed.

Lemma before_main_post (l : Linked (E:=E)) fuel loops core_id s s' log :
  runs (before_main l fuel loops core_id) s tt s' log → ∃ s1 s2 log', runs (Crt0PostInit l) s1 tt s2 log'.
Proof.
  unfold before_main. generalize (init_memory l fuel loops core_id). intros m Hr.
  destruct (runs_bind_inv m (λ _, init_objects l loops) s tt s' log Hr) as (u & s1 & l1 & l2 & _ & Ho & _).
  exact (init_objects_post l loops s1 s' l2 Ho).
Qed.

(** C28: core 0 gets to [main] if the clock comes up and the table has at most one
    constructor (the program itself has none), which may do anything but not
    return: start-up returns, having called the constructor, with the
    stack pointer at the top of the stack and the vector register at the interrupt
    table.  If the clock does not come up, the core never gets there. *)
Theorem core0_reaches_main (ev : Z → E) config traps table ctor main im fuel loops s :
  bootable (linked config traps (mret tt) (mret tt) ctor main) im fuel loops s 0 →
  quiet (hook_keeps im config) disable_safety_watchdog → quiet (hook_keeps im config) disable_cpu_watchdog →
  endinit_runs → (0 ≤ table < modulus W32)%Z →
  length (ctors im) ≤ 1 → (∀ f s1, f ∈ ctors im → ∃ s2, runs (ctor f) s1 tt s2 [ev f]) →
  (clock_comes_up →
    ∃ s', runs (before_main (prog config traps table ctor main 0) fuel loops 0) s tt s' (ev <$> ctors im) ∧
      (A s' 10 = (stack im).1 + (stack im).2)%Z ∧ biv s' = table) ∧
  (clock_fails → ∀ s' log, ¬ runs (before_main (prog config traps table ctor main 0) fuel loops 0) s tt s' log).
Proof.
  intros [Hc Hid Hby Him Hl _] Hsafety Hcpu Hend Htable Hone Hctor. split.
  2: { intros Hfail s' log (s1 & s2 & log' & Hr)%before_main_post. unfold program in Hr. cbn [Crt0PostInit] in Hr.
    unfold post_init_fn in Hr. apply runs_bind_inv in Hr as (ok & s3 & l1 & l2 & Hok & Hr & _).
    apply Hfail in Hok as ->. by apply runs_bind_inv in Hr as (? & ? & ? & ? & ? & _). }
  intros Hclock. pose proof (one_constructs ctor ev (ctor_tab im)
    (4 + 4 * Z.of_nat (length (ctors im))) (ctors im) Hone Hctor) as Hall. set (l := prog config traps table ctor main 0).
  change (config_of (linked config traps (mret tt) (mret tt) ctor main) 0) with (config_of l 0) in Him, Hl.
  assert (config_of l 0 = config) as Hcfg by (unfold config_of; change (0 mod 8)%Z with 0%Z; cbn [crt0_config l]; unfold l; cbn [crt0_config program]; lia).
  assert (bootable l im fuel loops s 0) as Hboot.
  { split; [exact Hc|done|exact Hby|exact Him|exact Hl|]. rewrite Hcfg. by apply quiet_seq. }
  destruct (runs_init_memory l im fuel loops s 0 Hboot) as (s1 & Hr1 & Hst).
  destruct (runs_init_objects l im _ _ (mem s) fuel loops s1 ev (.= table) Hst) as (s2 & Hr2 & H10 & Hb); try done.
  { intros s2. by apply post_init_loads. }
  exists s2. split; [eapply runs_bind_nil; [exact Hr1|exact Hr2]|]. split; [|exact Hb]. rewrite H10. apply Hst.
Qed.

(** Another core never gets there. *)
Lemma other_cores_park config traps table ctor main fuel loops core_id s s' log : core_id ≠ 0%Z →
  ¬ runs (before_main (prog config traps table ctor main core_id) fuel loops core_id) s tt s' log.
Proof.
  intros Hid (s1 & s2 & log' & Hr)%before_main_post. unfold program in Hr. cbn [Crt0PostInit] in Hr.
  unfold post_init_fn in Hr. by rewrite (proj2 (Z.eqb_neq _ _) Hid) in Hr.
Qed.
End Boot.

(** [wait_nop] waits for the period modulo about 4.3 seconds. *)
Lemma runs_nops {S} n (s : S) : runs (nops n) s tt s (replicate n Nop).
Proof.
  induction n as [|n IH]; [apply runs_ret|].
  eapply runs_log; [eapply runs_bind; [apply runs_emit|exact IH]|done].
Qed.

Lemma wait_nop_wraps {S} nanos k (s : S) :
  runs (wait_nop (nanos + k * modulus W32)) s tt s
    (replicate (Z.to_nat ((nanos mod modulus W32) / 920)) Nop).
Proof. unfold wait_nop. rewrite Z.mod_add by done. apply runs_nops. Qed.

(** Drivers that do nothing but succeed, and the image of [StartupProps] with one
    constructor. *)
Lemma core0_reaches_main_witness : ∃ s',
  runs (before_main (program (mret tt) (mret tt) (mret true) id 4096 0 2147483648 op_emit (mret tt) 0) 5 5 0)
    (example_core_of 1) tt s' [1879048192]%Z ∧ A s' 10 = 8205%Z ∧ biv s' = 2147483648%Z.
Proof.
  destruct (core0_reaches_main (mret tt) (mret tt) (mret true) id id 4096 0 2147483648 op_emit (mret tt)
    (example_image_of 1) 5 5 (example_core_of 1) (example_boots_of 1 (or_introl eq_refl))) as [Hup _].
  - intros s Hs. exists s. by split_and!.
  - intros s Hs. exists s. by split_and!.
  - intros f s Hf. destruct (Hf s) as [s1 Hr]. by exists s, s1, s1.
  - by split.
  - cbn. lia.
  - intros f s1 _. exists s1. apply runs_emit.
  - apply Hup. intros s. exists s. apply runs_ret.
Defined.
